(** * PyXtal random structure generation: compatibility analysis,
      placement search and structure assembly

    A shallow embedding of [pyxtal/crystal.py] (class [random_crystal]) and
    [pyxtal/molecular_crystal.py] (class [molecular_crystal]).

    Conventions of the embedding.
    - Python integers are [Z]; list positions are [nat].
    - Python floats are read as the rationals they denote ([Q]); float
      literals stand for their exact binary value.  NaN, infinities and
      rounding of float arithmetic are outside the model.
    - A method of the classes is a function on an explicit object state that
      returns a [Result] together with the new state, so that the state
      reached when an exception leaves the method stays visible.
    - The collaborators that live in other modules of the package
      ([pyxtal.symmetry], [pyxtal.lattice], [pyxtal.wyckoff_site],
      [pyxtal.molecule], [pyxtal.tolerance], [pyxtal.database.element]) and
      the random source are the fields of the class [Providers]; each of them
      threads an abstract [World]. *)

From Stdlib Require Import ZArith QArith Qround Qabs Lqa Ascii String List Lia Bool.
From stdpp Require Import base option list gmap strings pretty.

Local Open Scope Z_scope.

(** ** Python outcomes *)

Inductive PyExc : Type :=
| ValueError
| CompatibilityError
| IndexError
| KeyError
| TypeError
| AttributeError
| ZeroDivisionError.

(** [OutOfFuel] is not a Python outcome: it is what the model answers when
    the analyzer's [while True] loop has not finished within the supplied
    number of iterations. *)
Inductive Result (A : Type) : Type :=
| Ok (a : A)
| Raise (e : PyExc)
| OutOfFuel.

Arguments Ok {A} a.
Arguments Raise {A} e.
Arguments OutOfFuel {A}.

Definition rbind {A B : Type} (r : Result A) (k : A -> Result B) : Result B :=
  match r with
  | Ok a => k a
  | Raise e => Raise e
  | OutOfFuel => OutOfFuel
  end.

Notation "'let?' x ':=' r 'in' k" := (rbind r (fun x => k))
  (at level 10, x pattern, r at level 100, k at level 200).

(** [l[i]] for a position that is never negative. *)
Definition index {A : Type} (l : list A) (i : nat) : Result A :=
  match l !! i with
  | Some a => Ok a
  | None => Raise IndexError
  end.

(** [l[i] = v]; Python raises where stdpp's insert would do nothing. *)
Definition assign {A : Type} (l : list A) (i : nat) (v : A) : Result (list A) :=
  if bool_decide (i < length l)%nat then Ok (<[i:=v]> l) else Raise IndexError.

(** ** Symmetry data

    Only what the two modules read of a Wyckoff position is kept: its
    operations (a position has at least one, [wp[0]]), of which the rotation
    matrix is inspected, its length and its [multiplicity] attribute. *)

Record SymmOp : Type := { rotation_matrix : list (list Q) }.

Record Wyckoff_position : Type := {
  wp_label : string;
  wp_first : SymmOp;
  wp_rest : list SymmOp
}.

(** [len(wp)] *)
Definition wp_len (wp : Wyckoff_position) : Z :=
  Z.of_nat (S (length (wp_rest wp))).

(** Modelled from the spec: the [multiplicity] attribute of a position,
    declared in pyxtal.symmetry, is the orbit size, the number of
    symmetry-equivalent points of the position. *)
Definition multiplicity (wp : Wyckoff_position) : Z := wp_len wp.

Record Group : Type := {
  g_number : Z;
  g_lattice_type : string;
  wyckoffs_organized : list (list Wyckoff_position)
}.

(** Iterating over a group walks its positions in the order of
    [wyckoffs_organized]. *)
Definition group_wyckoffs (g : Group) : list Wyckoff_position :=
  concat (wyckoffs_organized g).

(** [np.allclose(m, np.zeros([3, 3]))] with numpy's default tolerances: every
    entry within [1e-8] of zero. *)
Definition allclose_zeros (m : list (list Q)) : bool :=
  forallb (forallb (fun x => Qle_bool (Qabs x) (1 # 100000000))) m.

Definition wp_free (wp : Wyckoff_position) : bool :=
  negb (allclose_zeros (rotation_matrix (wp_first wp))).

(** Position [(j, k)] in a nested list of the [i]-th element in iteration
    order: [jk_from_i] of pyxtal.symmetry, as [set_orientations] fills
    [valid_orientations] (one flat counter [wp_index] over the nested
    loops). *)
Fixpoint jk_from_i {A : Type} (i : nat) (organized : list (list A)) : option (nat * nat) :=
  match organized with
  | [] => None
  | row :: rest =>
      if bool_decide (i < length row)%nat then Some (O, i)
      else match jk_from_i (i - length row) rest with
           | Some (j, k) => Some (S j, k)
           | None => None
           end
  end.

(** ** Counts

    The counts of the source are numpy scalars, the elements of
    [np.array(numIons) * mul]: [int64] for a list of Python integers,
    [float64] when the list holds a float.  Both types hold every integer
    below [2 ^ 53] exactly, and on such values the [//], [*], [np.dot] and
    comparisons of the source are those of [Z] (the multiplicities are lengths
    of Python lists).  The definitions of this file compute in [Z]: they are
    the arithmetic of the source for the counts that satisfy [exact_count].
    From [2 ^ 53] on numpy rounds or wraps, and a statement whose truth
    depends on a quotient, a product or a dot product being exact is made
    for exact counts only. *)
Definition exact_count (n : Z) : Prop := 0 <= n < 9007199254740992.

(** ** The compatibility analyzer *)

Module Compat.

(** The four parallel lists [l_mult], [l_maxn], [l_free], [indices]. *)
Record cand : Type := {
  l_mult : list Z;
  l_maxn : list Z;
  l_free : list bool;
  indices : list nat
}.

Definition cand_empty : cand :=
  {| l_mult := []; l_maxn := []; l_free := []; indices := [] |}.

Definition cand_append (c : cand) (mult maxn : Z) (free : bool) (i_wp : nat) : cand :=
  {| l_mult := l_mult c ++ [mult];
     l_maxn := l_maxn c ++ [maxn];
     l_free := l_free c ++ [free];
     indices := indices c ++ [i_wp] |}.

(** One row of [zip(l_mult0, l_maxn0, l_free0, indices0)]. *)
Definition row : Type := (Z * Z * bool * nat)%type.

(** crystal.py, lines 350-361: every position of the group gives a row.
    [numIon // len(wp)] is the floor division of [Z] for an exact count. *)
Definition rows_atomic (g : Group) (numIon : Z) : list row :=
  imap (fun i_wp wp => (wp_len wp, numIon / wp_len wp, wp_free wp, i_wp))
       (group_wyckoffs g).

(** molecular_crystal.py, lines 495-509: only the positions on which the
    molecule has a valid orientation give a row; of
    [self.valid_orientations[i_mol][j][k]] only the length is read.  As in
    [rows_atomic], the quotient is the source's for an exact count. *)
Fixpoint rows_molecular_from {Ori : Type} (g : Group)
    (valid_orientations : list (list (list (list Ori)))) (i_mol : nat)
    (numIon : Z) (i_wp : nat) (wps : list Wyckoff_position) : Result (list row) :=
  match wps with
  | [] => Ok []
  | wp :: wps' =>
      match jk_from_i i_wp (wyckoffs_organized g) with
      | None => Raise IndexError
      | Some (j, k) =>
          let? per_mol := index valid_orientations i_mol in
          let? per_class := index per_mol j in
          let? oris := index per_class k in
          let? tl := rows_molecular_from g valid_orientations i_mol numIon (S i_wp) wps' in
          if bool_decide (0 < length oris)%nat
          then Ok ((wp_len wp, numIon / wp_len wp, wp_free wp, i_wp) :: tl)
          else Ok tl
      end
  end.

Definition rows_molecular {Ori : Type} (g : Group)
    (valid_orientations : list (list (list (list Ori)))) (i_mol : nat)
    (numIon : Z) : Result (list row) :=
  rows_molecular_from g valid_orientations i_mol numIon O (group_wyckoffs g).

(** crystal.py, lines 367-381. *)
Definition reduce_step_atomic (numIon : Z) (used_indices : list nat)
    (c : cand) (r : row) : cand :=
  let '(mult, maxn, free, i_wp) := r in
  if free then
    if bool_decide (mult ∈ l_mult c) then c
    else cand_append c mult maxn true i_wp
  else if bool_decide (i_wp ∈ used_indices) then c
  else cand_append c mult (if mult <=? numIon then 1 else 0) false i_wp.

(** molecular_crystal.py, lines 515-527. *)
Definition reduce_step_molecular (used_indices : list nat)
    (c : cand) (r : row) : cand :=
  let '(mult, maxn, free, i_wp) := r in
  if free then
    if bool_decide (mult ∈ l_mult c) then c
    else cand_append c mult maxn true i_wp
  else if bool_decide (i_wp ∈ used_indices) then c
  else cand_append c mult 1 false i_wp.

Definition reduce_atomic (numIon : Z) (used_indices : list nat) (rs : list row) : cand :=
  foldl (reduce_step_atomic numIon used_indices) cand_empty rs.

Definition reduce_molecular (used_indices : list nat) (rs : list row) : cand :=
  foldl (reduce_step_molecular used_indices) cand_empty rs.

(** The pointer sweep works on [n], [p] and [p2]. *)
Record sweep_state : Type := {
  sw_n : list Z;
  sw_p : nat;
  sw_p2 : nat
}.

(** [np.dot(n, l_mult)]; no term and no partial sum exceeds the larger of
    the count and one multiplicity in the sweep, so that numpy's sum is the
    sum of [Z] for an exact count. *)
Definition dot (n l : list Z) : Z := foldr Z.add 0 (zip_with Z.mul n l).

Definition zeros (len : nat) : list Z := replicate len 0.

(** Lines 384-394 (528-539): the first position whose cap is not zero is
    maxed out. *)
Fixpoint first_usable (l_maxn : list Z) (n0 : list Z) (i todo : nat) : Result sweep_state :=
  match todo with
  | O => Ok {| sw_n := n0; sw_p := O; sw_p2 := O |}
  | S todo' =>
      let? m := index l_maxn i in
      if bool_decide (m ≠ 0) then
        let? n := assign n0 i m in
        Ok {| sw_n := n; sw_p := i; sw_p2 := i |}
      else first_usable l_maxn n0 (S i) todo'
  end.

Definition sweep_init (c : cand) : Result sweep_state :=
  first_usable (l_maxn c) (zeros (length (l_mult c))) O (length (l_mult c)).

(** The inner [while p > 0 and p > p2] of the backwards routine. *)
Fixpoint backwards (n : list Z) (p p2 : nat) : Result sweep_state :=
  match p with
  | O => Ok {| sw_n := n; sw_p := O; sw_p2 := p2 |}
  | S p' =>
      if bool_decide (p2 < p)%nat then
        let? v := index n p' in
        if bool_decide (v ≠ 0) then
          let? n' := assign n p' (v - 1) in
          if bool_decide (v - 1 = 0) && bool_decide (p' = p2)
          then Ok {| sw_n := n'; sw_p := p'; sw_p2 := S p' |}
          else Ok {| sw_n := n'; sw_p := p'; sw_p2 := p2 |}
        else backwards n p' p2
      else Ok {| sw_n := n; sw_p := p; sw_p2 := p2 |}
  end.

Inductive sweep_out : Type :=
| Continue (s : sweep_state)
| Found (n : list Z)
| Failed.

(** How the forwards routine treats a pointer that is not before the last
    position: the atomic analyzer tests [elif p == len(l_mult) - 1], the
    molecular one has a plain [else]. *)
Inductive flavour : Type := Atomic | Molecular.

(** One turn of the [while True] loop, lines 397-434 (544-582). *)
Definition sweep_step (fl : flavour) (c : cand) (numIon : Z) (s : sweep_state)
    : Result sweep_out :=
  let n := sw_n s in
  let p := sw_p s in
  let len := Z.of_nat (length (l_mult c)) in
  let num := dot n (l_mult c) in
  if bool_decide (num = numIon) then Ok (Found n)
  else if bool_decide (n = zeros (length (l_mult c))) && bool_decide (Z.of_nat p >= len - 1)
  then Ok Failed
  else
    let? fwd :=
      if bool_decide (num < numIon) then
        if bool_decide (Z.of_nat p < len - 1) then
          let p1 := S p in
          let? m := index (l_mult c) p1 in
          let? cap := index (l_maxn c) p1 in
          if bool_decide (m = 0) then Raise ZeroDivisionError
          else
            let? n1 := assign n p1 (Z.min ((numIon - num) / m) cap) in
            Ok (n1, p1, false)
        else
          match fl with
          | Atomic => Ok (n, p, bool_decide (Z.of_nat p = len - 1))
          | Molecular => Ok (n, p, true)
          end
      else Ok (n, p, false) in
    let '(n1, p1, dobackwards) := fwd in
    if bool_decide (num > numIon) || dobackwards then
      let? n2 := assign n1 p1 0 in
      let? s' := backwards n2 p1 (sw_p2 s) in
      Ok (Continue s')
    else Ok (Continue {| sw_n := n1; sw_p := p1; sw_p2 := sw_p2 s |}).

Fixpoint sweep (fuel : nat) (fl : flavour) (c : cand) (numIon : Z) (s : sweep_state)
    : Result (option (list Z)) :=
  match fuel with
  | O => OutOfFuel
  | S fuel' =>
      let? o := sweep_step fl c numIon s in
      match o with
      | Found n => Ok (Some n)
      | Failed => Ok None
      | Continue s' => sweep fuel' fl c numIon s'
      end
  end.

(** The state reached after [k] turns, when the loop is still running. *)
Fixpoint sweep_iter (k : nat) (fl : flavour) (c : cand) (numIon : Z) (s : sweep_state)
    : option sweep_state :=
  match k with
  | O => Some s
  | S k' =>
      match sweep_step fl c numIon s with
      | Ok (Continue s') => sweep_iter k' fl c numIon s'
      | _ => None
      end
  end.

(** What the analyzer carries from one entity type to the next. *)
Record carry : Type := {
  has_freedom : bool;
  used_indices : list nat
}.

(** crystal.py, lines 403-408: [zip(n, l_free, indices)] of a combination
    that works. *)
Fixpoint record_atomic (n : list Z) (l_free : list bool) (indices : list nat)
    (k : carry) : carry :=
  match n, l_free, indices with
  | val :: n', free :: l_free', i_wp :: indices' =>
      let k' :=
        if bool_decide (val > 0) then
          if free then {| has_freedom := true; used_indices := used_indices k |}
          else {| has_freedom := has_freedom k; used_indices := used_indices k ++ [i_wp] |}
        else k in
      record_atomic n' l_free' indices' k'
  | _, _, _ => k
  end.

(** molecular_crystal.py, lines 550-555: the position is appended to
    [indices], the list being zipped, and [used_indices] is not written.
    The zip ends with [n], so the appended entries are never visited; the
    function returns the carry and the final [indices]. *)
Fixpoint record_molecular (n : list Z) (l_free : list bool) (at_ : nat)
    (indices : list nat) (k : carry) : carry * list nat :=
  match n, l_free with
  | val :: n', free :: l_free' =>
      match indices !! at_ with
      | None => (k, indices)
      | Some i_wp =>
          if bool_decide (val > 0) then
            if free
            then record_molecular n' l_free' (S at_) indices
                   {| has_freedom := true; used_indices := used_indices k |}
            else record_molecular n' l_free' (S at_) (indices ++ [i_wp]) k
          else record_molecular n' l_free' (S at_) indices k
      end
  | _, _ => (k, indices)
  end.

(** The body of [for numIon in self.numIons] for one entity type: [Ok None]
    is [return False, False]. *)
Definition check_type_atomic (fuel : nat) (g : Group) (numIon : Z) (k : carry)
    : Result (option carry) :=
  let c := reduce_atomic numIon (used_indices k) (rows_atomic g numIon) in
  let? s := sweep_init c in
  if bool_decide (sw_n s = zeros (length (l_mult c))) then Ok None
  else
    let? r := sweep fuel Atomic c numIon s in
    match r with
    | None => Ok None
    | Some n => Ok (Some (record_atomic n (l_free c) (indices c) k))
    end.

Definition check_type_molecular {Ori : Type} (fuel : nat) (g : Group)
    (valid_orientations : list (list (list (list Ori)))) (i_mol : nat)
    (numIon : Z) (k : carry) : Result (option carry) :=
  let? rs := rows_molecular g valid_orientations i_mol numIon in
  let c := reduce_molecular (used_indices k) rs in
  let? s := sweep_init c in
  if bool_decide (sw_n s = zeros (length (l_mult c))) then Ok None
  else
    let? r := sweep fuel Molecular c numIon s in
    match r with
    | None => Ok None
    | Some n => Ok (Some (fst (record_molecular n (l_free c) O (indices c) k)))
    end.

Definition carry0 : carry := {| has_freedom := false; used_indices := [] |}.

(** [random_crystal._check_compatible]: the pair [(compat, degrees)]. *)
Fixpoint check_types_atomic (fuel : nat) (g : Group) (numIons : list Z) (k : carry)
    : Result (bool * bool) :=
  match numIons with
  | [] => Ok (true, has_freedom k)
  | numIon :: rest =>
      let? o := check_type_atomic fuel g numIon k in
      match o with
      | None => Ok (false, false)
      | Some k' => check_types_atomic fuel g rest k'
      end
  end.

Definition check_compatible_atomic (fuel : nat) (g : Group) (numIons : list Z)
    : Result (bool * bool) :=
  check_types_atomic fuel g numIons carry0.

(** [molecular_crystal._check_compatible]. *)
Fixpoint check_types_molecular {Ori : Type} (fuel : nat) (g : Group)
    (valid_orientations : list (list (list (list Ori)))) (i_mol : nat)
    (numMols : list Z) (k : carry) : Result (bool * bool) :=
  match numMols with
  | [] => Ok (true, has_freedom k)
  | numIon :: rest =>
      let? o := check_type_molecular fuel g valid_orientations i_mol numIon k in
      match o with
      | None => Ok (false, false)
      | Some k' => check_types_molecular fuel g valid_orientations (S i_mol) rest k'
      end
  end.

Definition check_compatible_molecular {Ori : Type} (fuel : nat) (g : Group)
    (valid_orientations : list (list (list (list Ori)))) (numMols : list Z)
    : Result (bool * bool) :=
  check_types_molecular fuel g valid_orientations O numMols carry0.

End Compat.

(** ** Numbers read from floats *)

Definition Qlt_bool (a b : Q) : bool := negb (Qle_bool b a).

(** [int(x)]: truncation towards zero. *)
Definition Qtrunc (x : Q) : Z := Z.quot (Qnum x) (Zpos (Qden x)).

(** The float literals of the two modules, as the binary values they denote,
    and [np.pi]. *)
Definition float_0_1 : Q := 3602879701896397 # 36028797018963968.
Definition float_0_5 : Q := 1 # 2.
Definition float_0_8 : Q := 3602879701896397 # 4503599627370496.
Definition float_1_1 : Q := 2476979795053773 # 2251799813685248.
Definition np_pi : Q := 884279719003555 # 281474976710656.

(** ** Wyckoff labels: [int(s[:-1])]

    Labels are ASCII strings.  [int] strips surrounding white space, takes an
    optional sign and decimal digits in which single underscores may separate
    digits; anything else raises [ValueError]. *)

Definition is_space (c : ascii) : bool :=
  let n := nat_of_ascii c in
  (Nat.eqb n 32 || (Nat.leb 9 n && Nat.leb n 13))%bool.

Definition digit_of (c : ascii) : option Z :=
  let n := nat_of_ascii c in
  if (Nat.leb 48 n && Nat.leb n 57)%bool then Some (Z.of_nat n - 48) else None.

Fixpoint drop_spaces (cs : list ascii) : list ascii :=
  match cs with
  | c :: cs' => if is_space c then drop_spaces cs' else cs
  | [] => []
  end.

(** Digits after the first one: [acc] is the value read so far and
    [after_digit] says whether the previous character was a digit. *)
Fixpoint py_digits (cs : list ascii) (acc : Z) (after_digit : bool) : option Z :=
  match cs with
  | [] => if after_digit then Some acc else None
  | c :: cs' =>
      match digit_of c with
      | Some d => py_digits cs' (10 * acc + d) true
      | None =>
          if (Ascii.eqb c "_" && after_digit)%bool then py_digits cs' acc false
          else None
      end
  end.

Definition py_int (s : string) : option Z :=
  let cs := drop_spaces (rev (drop_spaces (rev (list_ascii_of_string s)))) in
  let '(neg, body) :=
    match cs with
    | c :: cs' =>
        if Ascii.eqb c "-" then (true, cs')
        else if Ascii.eqb c "+" then (false, cs')
        else (false, cs)
    | [] => (false, [])
    end in
  match body with
  | c :: _ =>
      match digit_of c with
      | Some _ =>
          match py_digits body 0 false with
          | Some v => Some (if neg then - v else v)
          | None => None
          end
      | None => None
      end
  | [] => None
  end.

(** [s[:-1]] *)
Definition drop_last (s : string) : string :=
  string_of_list_ascii (removelast (list_ascii_of_string s)).

Definition label_count (s : string) : option Z := py_int (drop_last s).

(** The running sum [num] of [_check_consistency]; [None] when some
    [int(s[:-1])] raises. *)
Fixpoint labels_total (site : list string) (num : Z) : option Z :=
  match site with
  | [] => Some num
  | s :: site' =>
      match label_count s with
      | Some k => labels_total site' (num + k)
      | None => None
      end
  end.

(** [_check_consistency] of both classes (crystal.py, lines 442-452;
    molecular_crystal.py, lines 590-603). *)
Definition _check_consistency (site : list string) (numIon : Z) : Result bool :=
  match labels_total site 0 with
  | None => Raise ValueError
  | Some num => if bool_decide (numIon = num) then Ok true else Raise ValueError
  end.

(** ** Geometry and sites *)

Record Point : Type := { px : Q; py : Q; pz : Q }.

(** [pt[-1] = v] on a 3-vector. *)
Definition set_last (pt : Point) (v : Q) : Point :=
  {| px := px pt; py := py pt; pz := v |}.

Definition Cell : Type := list (list Q).

(** The attributes of a [Lattice] object that the two modules read, write or
    pass to its constructor. *)
Record Lattice : Type := {
  lat_ltype : string;
  lat_volume : Q;
  lat_PBC : list Z;
  lat_unique_axis : string;
  lat_thickness : option Q;
  lat_area : option Q;
  allow_volume_reset : bool;
  lat_matrix : Cell
}.

Definition lattice_with_PBC (pbc : list Z) (l : Lattice) : Lattice :=
  {| lat_ltype := lat_ltype l; lat_volume := lat_volume l; lat_PBC := pbc;
     lat_unique_axis := lat_unique_axis l; lat_thickness := lat_thickness l;
     lat_area := lat_area l; allow_volume_reset := allow_volume_reset l;
     lat_matrix := lat_matrix l |}.

(** Modelled from the spec: [atom_site] of pyxtal.wyckoff_site is not among
    the files; a Site Assignment is the orbit, the representative fractional
    coordinate and the entity type it was built from, and it places as many
    entities as the orbit's multiplicity. *)
Record atom_site : Type := {
  as_wp : Wyckoff_position;
  as_position : Point;
  as_specie : string
}.

Definition as_multiplicity (s : atom_site) : Z := multiplicity (as_wp s).

(** What the code reads of a [pyxtal_molecule]: [len(.mol)], [.radius] and
    [.volume]. *)
Record pyxtal_molecule : Type := {
  mol_name : string;
  mol_natoms : Z;
  mol_radius : Q;
  mol_volume : Q
}.

(** Modelled from the spec: [mol_site] of pyxtal.wyckoff_site is not among
    the files; the Site Assignment of a molecule keeps, besides orbit,
    coordinate and entity type, the orientation object it was built with.
    [Ori] is the identity of that (mutable) object; its current angle lives
    in the [World].  [ms_id] tells apart two site objects built from the same
    arguments. *)
Record mol_site (Ori : Type) : Type := {
  ms_id : nat;
  ms_mol : pyxtal_molecule;
  ms_position : Point;
  ms_orientation : Ori;
  ms_wp : Wyckoff_position;
  ms_lattice : nat;
  ms_diag : bool
}.

Arguments ms_id {Ori} _.
Arguments ms_mol {Ori} _.
Arguments ms_position {Ori} _.
Arguments ms_orientation {Ori} _.
Arguments ms_wp {Ori} _.
Arguments ms_lattice {Ori} _.
Arguments ms_diag {Ori} _.

(** [len(ms.wp)] *)
Definition ms_multiplicity {Ori : Type} (s : mol_site Ori) : Z := wp_len (ms_wp s).

(** What [WP_merge] hands back: a position together with the snapped point
    (and, for molecules, the orientations valid on it), or [False] in place of
    the position, with whatever it returns as point. *)
Inductive merge_result (Ori : Type) : Type :=
| Merged (pt : Point) (wp : Wyckoff_position) (oris : list Ori)
| NoMerge (pt : option Point).

Arguments Merged {Ori} pt wp oris.
Arguments NoMerge {Ori} pt.

(** ** Output and call events

    [Printx] is the text handed to [printx]; the other events are ghost
    marks of the calls they name. *)
Inductive Message : Type :=
| MsgComposition
| MsgPBCWarning (pbc : list Z)
| MsgNoCrystal.

Inductive Event : Type :=
| Printx (m : Message)
| CallCheckCompatible
| CallSetCoords (cycle1 cycle2 : Z)
| CallResetMatrix
| CallFunDist (angle : Q).

(** ** The collaborators *)

Class Providers (World Ori Tol : Type) : Type := {
  (* pyxtal.symmetry *)
  Group_init : Z -> Z -> Group;
  choose_wyckoff :
    Group -> Z -> option string -> Z -> World -> option Wyckoff_position * World;
  choose_wyckoff_molecular :
    Group -> Z -> option string -> list (list (list Ori)) -> bool -> Z ->
    World -> option Wyckoff_position * World;
  (* pyxtal.lattice *)
  cellsize : Group -> Z;
  Lattice_init :
    string -> Q -> list Z -> string -> option Q -> option Q -> World -> Lattice * World;
  reset_matrix : Lattice -> World -> Lattice * World;
  generate_point : Lattice -> World -> Point * World;
  (* pyxtal.tolerance *)
  Tol_matrix_init : string -> Tol;
  get_tol : Tol -> string -> string -> Q;
  (* pyxtal.database.element and random *)
  covalent_radius : string -> Q;
  vdw_radius : string -> Q;
  random_uniform : Q -> Q -> World -> Q * World;
  (* pyxtal.wyckoff_site *)
  WP_merge :
    Point -> Cell -> Wyckoff_position -> Q -> option (list (list (list Ori))) ->
    World -> merge_result Ori * World;
  check_with_ws2 : atom_site -> atom_site -> Cell -> Tol -> bool;
  mol_site_init :
    pyxtal_molecule -> Point -> Ori -> Wyckoff_position -> nat -> bool -> World -> nat * World;
  check_with_ms2 : mol_site Ori -> mol_site Ori -> Tol -> World -> bool;
  check_distances : mol_site Ori -> gmap nat Lattice -> World -> bool;
  compute_distances : mol_site Ori -> gmap nat Lattice -> World -> Q;
  (* pyxtal.molecule *)
  pyxtal_molecule_init : string -> option (list Q) -> Tol -> pyxtal_molecule;
  orientation_in_wyckoff_position :
    pyxtal_molecule -> Wyckoff_position -> bool -> World -> list Ori * World;
  choice_copy : list Ori -> World -> Ori * World;
  change_orientation : Ori -> option Q -> bool -> World -> World;
  ori_angle : Ori -> World -> Q;
  ori_degrees : Ori -> World -> Z
}.

(** ** Methods as state transformers *)

Definition M (S A : Type) : Type := S -> Result A * S.

Definition ret {S A : Type} (a : A) : M S A := fun s => (Ok a, s).

Definition raise {S A : Type} (e : PyExc) : M S A := fun s => (Raise e, s).

Definition bind {S A B : Type} (m : M S A) (k : A -> M S B) : M S B :=
  fun s =>
    match m s with
    | (Ok a, s') => k a s'
    | (Raise e, s') => (Raise e, s')
    | (OutOfFuel, s') => (OutOfFuel, s')
    end.

Definition gets {S A : Type} (f : S -> A) : M S A := fun s => (Ok (f s), s).

Definition modify {S : Type} (f : S -> S) : M S unit := fun s => (Ok tt, f s).

Definition lift {S A : Type} (r : Result A) : M S A := fun s => (r, s).

(** Reading an attribute that has not been assigned yet. *)
Definition attr {S A : Type} (f : S -> option A) : M S A :=
  fun s => match f s with
           | Some a => (Ok a, s)
           | None => (Raise AttributeError, s)
           end.

Notation "x <- m ;; k" := (bind m (fun x => k))
  (at level 100, m at next level, right associativity).
Notation "m ;;; k" := (bind m (fun _ => k))
  (at level 100, right associativity).

(** ** [class random_crystal] (crystal.py) *)

Module random_crystal.

Section Methods.

Context {World Ori Tol : Type} {P : Providers World Ori Tol}.

(** The attributes of the object, the pool of [Lattice] objects it shares
    with its caller ([heap]; [lattice] holds a key of it), the state of the
    collaborators ([world]) and the events so far ([trace]).  The attributes
    assigned by every [__init__] before [init_common] runs are plain; the
    others are [None] until the code assigns them. *)
Record state : Type := {
  dim : Z;
  PBC : list Z;
  thickness : option Q;
  area : option Q;
  source : option string;
  valid : option bool;
  group : option Group;
  number : option Z;
  numattempts : option Z;
  lattice_attempts : option Z;
  coord_attempts : option Z;
  factor : option Q;
  numIons : option (list Z);
  formula : option string;
  species : option (list string);
  sites : option (gmap string (option (list string)));
  tol_matrix : option Tol;
  degrees : option bool;
  volume : option Q;
  lattice : option nat;
  cycle1 : option Z;
  cycle2 : option Z;
  atom_sites : option (list atom_site);
  heap : gmap nat Lattice;
  world : World;
  trace : list Event
}.

Definition with_dim (v : Z) (s : state) : state :=
  let '(Build_state x0 x1 x2 x3 x4 x5 x6 x7 x8 x9 x10 x11 x12 x13 x14 x15 x16 x17 x18 x19 x20 x21 x22 x23 x24 x25) := s in
  Build_state v x1 x2 x3 x4 x5 x6 x7 x8 x9 x10 x11 x12 x13 x14 x15 x16 x17 x18 x19 x20 x21 x22 x23 x24 x25.

Definition with_PBC (v : list Z) (s : state) : state :=
  let '(Build_state x0 x1 x2 x3 x4 x5 x6 x7 x8 x9 x10 x11 x12 x13 x14 x15 x16 x17 x18 x19 x20 x21 x22 x23 x24 x25) := s in
  Build_state x0 v x2 x3 x4 x5 x6 x7 x8 x9 x10 x11 x12 x13 x14 x15 x16 x17 x18 x19 x20 x21 x22 x23 x24 x25.

Definition with_thickness (v : option Q) (s : state) : state :=
  let '(Build_state x0 x1 x2 x3 x4 x5 x6 x7 x8 x9 x10 x11 x12 x13 x14 x15 x16 x17 x18 x19 x20 x21 x22 x23 x24 x25) := s in
  Build_state x0 x1 v x3 x4 x5 x6 x7 x8 x9 x10 x11 x12 x13 x14 x15 x16 x17 x18 x19 x20 x21 x22 x23 x24 x25.

Definition with_area (v : option Q) (s : state) : state :=
  let '(Build_state x0 x1 x2 x3 x4 x5 x6 x7 x8 x9 x10 x11 x12 x13 x14 x15 x16 x17 x18 x19 x20 x21 x22 x23 x24 x25) := s in
  Build_state x0 x1 x2 v x4 x5 x6 x7 x8 x9 x10 x11 x12 x13 x14 x15 x16 x17 x18 x19 x20 x21 x22 x23 x24 x25.

Definition with_source (v : string) (s : state) : state :=
  let '(Build_state x0 x1 x2 x3 x4 x5 x6 x7 x8 x9 x10 x11 x12 x13 x14 x15 x16 x17 x18 x19 x20 x21 x22 x23 x24 x25) := s in
  Build_state x0 x1 x2 x3 (Some v) x5 x6 x7 x8 x9 x10 x11 x12 x13 x14 x15 x16 x17 x18 x19 x20 x21 x22 x23 x24 x25.

Definition with_valid (v : bool) (s : state) : state :=
  let '(Build_state x0 x1 x2 x3 x4 x5 x6 x7 x8 x9 x10 x11 x12 x13 x14 x15 x16 x17 x18 x19 x20 x21 x22 x23 x24 x25) := s in
  Build_state x0 x1 x2 x3 x4 (Some v) x6 x7 x8 x9 x10 x11 x12 x13 x14 x15 x16 x17 x18 x19 x20 x21 x22 x23 x24 x25.

Definition with_group (v : Group) (s : state) : state :=
  let '(Build_state x0 x1 x2 x3 x4 x5 x6 x7 x8 x9 x10 x11 x12 x13 x14 x15 x16 x17 x18 x19 x20 x21 x22 x23 x24 x25) := s in
  Build_state x0 x1 x2 x3 x4 x5 (Some v) x7 x8 x9 x10 x11 x12 x13 x14 x15 x16 x17 x18 x19 x20 x21 x22 x23 x24 x25.

Definition with_number (v : Z) (s : state) : state :=
  let '(Build_state x0 x1 x2 x3 x4 x5 x6 x7 x8 x9 x10 x11 x12 x13 x14 x15 x16 x17 x18 x19 x20 x21 x22 x23 x24 x25) := s in
  Build_state x0 x1 x2 x3 x4 x5 x6 (Some v) x8 x9 x10 x11 x12 x13 x14 x15 x16 x17 x18 x19 x20 x21 x22 x23 x24 x25.

Definition with_numattempts (v : Z) (s : state) : state :=
  let '(Build_state x0 x1 x2 x3 x4 x5 x6 x7 x8 x9 x10 x11 x12 x13 x14 x15 x16 x17 x18 x19 x20 x21 x22 x23 x24 x25) := s in
  Build_state x0 x1 x2 x3 x4 x5 x6 x7 (Some v) x9 x10 x11 x12 x13 x14 x15 x16 x17 x18 x19 x20 x21 x22 x23 x24 x25.

Definition with_lattice_attempts (v : Z) (s : state) : state :=
  let '(Build_state x0 x1 x2 x3 x4 x5 x6 x7 x8 x9 x10 x11 x12 x13 x14 x15 x16 x17 x18 x19 x20 x21 x22 x23 x24 x25) := s in
  Build_state x0 x1 x2 x3 x4 x5 x6 x7 x8 (Some v) x10 x11 x12 x13 x14 x15 x16 x17 x18 x19 x20 x21 x22 x23 x24 x25.

Definition with_coord_attempts (v : Z) (s : state) : state :=
  let '(Build_state x0 x1 x2 x3 x4 x5 x6 x7 x8 x9 x10 x11 x12 x13 x14 x15 x16 x17 x18 x19 x20 x21 x22 x23 x24 x25) := s in
  Build_state x0 x1 x2 x3 x4 x5 x6 x7 x8 x9 (Some v) x11 x12 x13 x14 x15 x16 x17 x18 x19 x20 x21 x22 x23 x24 x25.

Definition with_factor (v : Q) (s : state) : state :=
  let '(Build_state x0 x1 x2 x3 x4 x5 x6 x7 x8 x9 x10 x11 x12 x13 x14 x15 x16 x17 x18 x19 x20 x21 x22 x23 x24 x25) := s in
  Build_state x0 x1 x2 x3 x4 x5 x6 x7 x8 x9 x10 (Some v) x12 x13 x14 x15 x16 x17 x18 x19 x20 x21 x22 x23 x24 x25.

Definition with_numIons (v : list Z) (s : state) : state :=
  let '(Build_state x0 x1 x2 x3 x4 x5 x6 x7 x8 x9 x10 x11 x12 x13 x14 x15 x16 x17 x18 x19 x20 x21 x22 x23 x24 x25) := s in
  Build_state x0 x1 x2 x3 x4 x5 x6 x7 x8 x9 x10 x11 (Some v) x13 x14 x15 x16 x17 x18 x19 x20 x21 x22 x23 x24 x25.

Definition with_formula (v : string) (s : state) : state :=
  let '(Build_state x0 x1 x2 x3 x4 x5 x6 x7 x8 x9 x10 x11 x12 x13 x14 x15 x16 x17 x18 x19 x20 x21 x22 x23 x24 x25) := s in
  Build_state x0 x1 x2 x3 x4 x5 x6 x7 x8 x9 x10 x11 x12 (Some v) x14 x15 x16 x17 x18 x19 x20 x21 x22 x23 x24 x25.

Definition with_species (v : list string) (s : state) : state :=
  let '(Build_state x0 x1 x2 x3 x4 x5 x6 x7 x8 x9 x10 x11 x12 x13 x14 x15 x16 x17 x18 x19 x20 x21 x22 x23 x24 x25) := s in
  Build_state x0 x1 x2 x3 x4 x5 x6 x7 x8 x9 x10 x11 x12 x13 (Some v) x15 x16 x17 x18 x19 x20 x21 x22 x23 x24 x25.

Definition with_sites (v : gmap string (option (list string))) (s : state) : state :=
  let '(Build_state x0 x1 x2 x3 x4 x5 x6 x7 x8 x9 x10 x11 x12 x13 x14 x15 x16 x17 x18 x19 x20 x21 x22 x23 x24 x25) := s in
  Build_state x0 x1 x2 x3 x4 x5 x6 x7 x8 x9 x10 x11 x12 x13 x14 (Some v) x16 x17 x18 x19 x20 x21 x22 x23 x24 x25.

Definition with_tol_matrix (v : Tol) (s : state) : state :=
  let '(Build_state x0 x1 x2 x3 x4 x5 x6 x7 x8 x9 x10 x11 x12 x13 x14 x15 x16 x17 x18 x19 x20 x21 x22 x23 x24 x25) := s in
  Build_state x0 x1 x2 x3 x4 x5 x6 x7 x8 x9 x10 x11 x12 x13 x14 x15 (Some v) x17 x18 x19 x20 x21 x22 x23 x24 x25.

Definition with_degrees (v : bool) (s : state) : state :=
  let '(Build_state x0 x1 x2 x3 x4 x5 x6 x7 x8 x9 x10 x11 x12 x13 x14 x15 x16 x17 x18 x19 x20 x21 x22 x23 x24 x25) := s in
  Build_state x0 x1 x2 x3 x4 x5 x6 x7 x8 x9 x10 x11 x12 x13 x14 x15 x16 (Some v) x18 x19 x20 x21 x22 x23 x24 x25.

Definition with_volume (v : Q) (s : state) : state :=
  let '(Build_state x0 x1 x2 x3 x4 x5 x6 x7 x8 x9 x10 x11 x12 x13 x14 x15 x16 x17 x18 x19 x20 x21 x22 x23 x24 x25) := s in
  Build_state x0 x1 x2 x3 x4 x5 x6 x7 x8 x9 x10 x11 x12 x13 x14 x15 x16 x17 (Some v) x19 x20 x21 x22 x23 x24 x25.

Definition with_lattice (v : nat) (s : state) : state :=
  let '(Build_state x0 x1 x2 x3 x4 x5 x6 x7 x8 x9 x10 x11 x12 x13 x14 x15 x16 x17 x18 x19 x20 x21 x22 x23 x24 x25) := s in
  Build_state x0 x1 x2 x3 x4 x5 x6 x7 x8 x9 x10 x11 x12 x13 x14 x15 x16 x17 x18 (Some v) x20 x21 x22 x23 x24 x25.

Definition with_cycle1 (v : Z) (s : state) : state :=
  let '(Build_state x0 x1 x2 x3 x4 x5 x6 x7 x8 x9 x10 x11 x12 x13 x14 x15 x16 x17 x18 x19 x20 x21 x22 x23 x24 x25) := s in
  Build_state x0 x1 x2 x3 x4 x5 x6 x7 x8 x9 x10 x11 x12 x13 x14 x15 x16 x17 x18 x19 (Some v) x21 x22 x23 x24 x25.

Definition with_cycle2 (v : Z) (s : state) : state :=
  let '(Build_state x0 x1 x2 x3 x4 x5 x6 x7 x8 x9 x10 x11 x12 x13 x14 x15 x16 x17 x18 x19 x20 x21 x22 x23 x24 x25) := s in
  Build_state x0 x1 x2 x3 x4 x5 x6 x7 x8 x9 x10 x11 x12 x13 x14 x15 x16 x17 x18 x19 x20 (Some v) x22 x23 x24 x25.

Definition with_atom_sites (v : list atom_site) (s : state) : state :=
  let '(Build_state x0 x1 x2 x3 x4 x5 x6 x7 x8 x9 x10 x11 x12 x13 x14 x15 x16 x17 x18 x19 x20 x21 x22 x23 x24 x25) := s in
  Build_state x0 x1 x2 x3 x4 x5 x6 x7 x8 x9 x10 x11 x12 x13 x14 x15 x16 x17 x18 x19 x20 x21 (Some v) x23 x24 x25.

Definition with_heap (v : gmap nat Lattice) (s : state) : state :=
  let '(Build_state x0 x1 x2 x3 x4 x5 x6 x7 x8 x9 x10 x11 x12 x13 x14 x15 x16 x17 x18 x19 x20 x21 x22 x23 x24 x25) := s in
  Build_state x0 x1 x2 x3 x4 x5 x6 x7 x8 x9 x10 x11 x12 x13 x14 x15 x16 x17 x18 x19 x20 x21 x22 v x24 x25.

Definition with_world (v : World) (s : state) : state :=
  let '(Build_state x0 x1 x2 x3 x4 x5 x6 x7 x8 x9 x10 x11 x12 x13 x14 x15 x16 x17 x18 x19 x20 x21 x22 x23 x24 x25) := s in
  Build_state x0 x1 x2 x3 x4 x5 x6 x7 x8 x9 x10 x11 x12 x13 x14 x15 x16 x17 x18 x19 x20 x21 x22 x23 v x25.

Definition with_trace (v : list Event) (s : state) : state :=
  let '(Build_state x0 x1 x2 x3 x4 x5 x6 x7 x8 x9 x10 x11 x12 x13 x14 x15 x16 x17 x18 x19 x20 x21 x22 x23 x24 x25) := s in
  Build_state x0 x1 x2 x3 x4 x5 x6 x7 x8 x9 x10 x11 x12 x13 x14 x15 x16 x17 x18 x19 x20 x21 x22 x23 x24 v.

Abbreviation Meth := (M state).

Definition call {A : Type} (f : World -> A * World) : Meth A :=
  fun s => let '(a, w) := f (world s) in (Ok a, with_world w s).

Definition emit (e : Event) : Meth unit :=
  modify (fun s => with_trace (trace s ++ [e]) s).

Definition printx (m : Message) : Meth unit := emit (Printx m).

(** [self.numattempts += 1] *)
Definition bump_numattempts : Meth unit :=
  n <- attr numattempts ;;
  modify (with_numattempts (n + 1)).

(** [self.lattice], the object. *)
Definition the_lattice : Meth Lattice :=
  l <- attr lattice ;;
  attr (fun s => heap s !! l).

(** The object after [__init__] has assigned [dim], [PBC], [thickness] and
    [area]. *)
Definition new (dim_ : Z) (PBC_ : list Z) (thickness_ area_ : option Q)
    (h : gmap nat Lattice) (w : World) : state :=
  Build_state dim_ PBC_ thickness_ area_ None None None None None None None None
    None None None None None None None None None None None h w [].

(** *** [_check_consistency] and [with_sites] (lines 131-145) *)

Fixpoint set_sites_from (sites_ : option (list (option (list string))))
    (i : nat) (todo : list string) : Meth unit :=
  match todo with
  | [] => ret tt
  | specie :: todo' =>
      entry <- match sites_ with
               | None => ret None
               | Some l => lift (index l i)
               end ;;
      match entry with
      | Some site =>
          nums <- attr numIons ;;
          numIon <- lift (index nums i) ;;
          _ <- lift (_check_consistency site numIon) ;;
          d <- attr sites ;;
          modify (with_sites (<[specie := Some site]> d)) ;;;
          set_sites_from sites_ (S i) todo'
      | None =>
          d <- attr sites ;;
          modify (with_sites (<[specie := None]> d)) ;;;
          set_sites_from sites_ (S i) todo'
      end
  end.

Definition set_sites (sites_ : option (list (option (list string)))) : Meth unit :=
  modify (with_sites ∅) ;;;
  sp <- attr species ;;
  set_sites_from sites_ O sp.

(** *** [with_volume] (lines 147-162) *)

Fixpoint volume_sum (todo : list (Z * string)) (vol : Q) : Meth Q :=
  match todo with
  | [] => ret vol
  | (numIon, specie) :: todo' =>
      r <- call (random_uniform (covalent_radius specie) (vdw_radius specie)) ;;
      volume_sum todo' (vol + inject_Z numIon * 4 / 3 * np_pi * (r * r * r))%Q
  end.

Definition set_volume : Meth unit :=
  nums <- attr numIons ;;
  sp <- attr species ;;
  vol <- volume_sum (zip nums sp) 0%Q ;;
  f <- attr factor ;;
  modify (with_volume (f * vol)%Q).

(** *** [with_lattice] (lines 164-199) *)

Definition in_range_3_8 (n : Z) : bool := bool_decide (3 <= n < 8).

Definition set_lattice (lattice_ : option nat) : Meth unit :=
  match lattice_ with
  | Some l =>
      modify (with_lattice l) ;;;
      lat <- attr (fun s => heap s !! l) ;;
      modify (with_volume (lat_volume lat)) ;;;
      pbc <- gets PBC ;;
      if bool_decide (lat_PBC lat ≠ pbc) then
        modify (fun s => with_heap (<[l := lattice_with_PBC pbc lat]> (heap s)) s) ;;;
        printx (MsgPBCWarning pbc)
      else ret tt
  | None =>
      d <- gets dim ;;
      unique_axis <-
        (if bool_decide (d = 2) then
           n <- attr number ;;
           ret (if in_range_3_8 n then "c" else "a")%string
         else if bool_decide (d = 1) then
           n <- attr number ;;
           ret (if in_range_3_8 n then "a" else "c")%string
         else ret "c"%string) ;;
      g <- attr group ;;
      vol <- attr volume ;;
      pbc <- gets PBC ;;
      th <- gets thickness ;;
      ar <- gets area ;;
      lat <- call (Lattice_init (g_lattice_type g) vol pbc unique_axis th ar) ;;
      h <- gets heap ;;
      let l := fresh (dom h) in
      modify (with_heap (<[l := lat]> h)) ;;;
      modify (with_lattice l)
  end.

(** *** [_check_compatible] (lines 334-440) *)

Definition _check_compatible (fuel : nat) : Meth (bool * bool) :=
  emit CallCheckCompatible ;;;
  nums <- attr numIons ;;
  g <- attr group ;;
  lift (Compat.check_compatible_atomic fuel g nums).

(** *** [_set_ion_wyckoffs] (lines 254-332) *)

(** The local variables of the search. *)
Record ion_locals : Type := {
  numIon_added : Z;
  wyckoff_sites_tmp : list atom_site;
  sites_list : option (list string);
  cycle : Z
}.

(** [self.dim == 2 and self.thickness is not None and self.thickness < 0.1] *)
Definition planar (s : state) : bool :=
  bool_decide (dim s = 2) &&
  match thickness s with
  | Some t => Qlt_bool t float_0_1
  | None => false
  end.

(** [pt[-1] = 0.5] on what [WP_merge] returned as point. *)
Definition flatten_merge (mr : merge_result Ori) : Result (merge_result Ori) :=
  match mr with
  | Merged pt wp oris => Ok (Merged (set_last pt float_0_5) wp oris)
  | NoMerge (Some pt) => Ok (NoMerge (Some (set_last pt float_0_5)))
  | NoMerge None => Raise TypeError
  end.

(** One turn of the [while cycle < wyckoff_attempts] loop.  The second
    component is [Some l] when the turn ends in [return l]. *)
Definition ion_trial (numIon : Z) (specie : string) (cell : Cell)
    (wyks : list atom_site) (tol : Q) (tm : Tol) (L : ion_locals)
    : Meth (ion_locals * option (list atom_site)) :=
  site <- match sites_list L with
          | Some (s :: _) => ret (Some s)
          | Some [] => raise IndexError
          | None => ret None
          end ;;
  g <- attr group ;;
  d <- gets dim ;;
  chosen <- call (choose_wyckoff g (numIon - numIon_added L) site d) ;;
  let skipped :=
    bump_numattempts ;;;
    ret ({| numIon_added := numIon_added L;
            wyckoff_sites_tmp := wyckoff_sites_tmp L;
            sites_list := sites_list L;
            cycle := cycle L + 1 |}, None) in
  match chosen with
  | None => skipped
  | Some wp =>
      let mult := multiplicity wp in
      lat <- the_lattice ;;
      pt <- call (generate_point lat) ;;
      mr <- call (WP_merge pt cell wp tol None) ;;
      flat <- gets planar ;;
      mr' <- (if flat then lift (flatten_merge mr) else ret mr) ;;
      match mr' with
      | NoMerge _ => skipped
      | Merged pt' wp' _ =>
          if bool_decide (site ≠ None) && bool_decide (mult ≠ multiplicity wp') then
            ret ({| numIon_added := numIon_added L;
                    wyckoff_sites_tmp := wyckoff_sites_tmp L;
                    sites_list := sites_list L;
                    cycle := cycle L + 1 |}, None)
          else
            let new_site := {| as_wp := wp'; as_position := pt'; as_specie := specie |} in
            let passed_wp_check :=
              forallb (fun ws => check_with_ws2 new_site ws cell tm)
                      (wyckoff_sites_tmp L ++ wyks) in
            if passed_wp_check then
              let tmp := wyckoff_sites_tmp L ++ [new_site] in
              let added := numIon_added L + as_multiplicity new_site in
              let L' := {| numIon_added := added;
                           wyckoff_sites_tmp := tmp;
                           sites_list := tail <$> sites_list L;
                           cycle := cycle L |} in
              if bool_decide (added = numIon) then ret (L', Some tmp)
              else
                bump_numattempts ;;;
                ret ({| numIon_added := added;
                        wyckoff_sites_tmp := tmp;
                        sites_list := tail <$> sites_list L;
                        cycle := cycle L + 1 |}, None)
            else skipped
      end
  end.

(** Every path through the body that does not return adds one to [cycle], so
    the loop makes a turn for each of the [todo] values that [cycle] still
    has to take below [wyckoff_attempts]. *)
Fixpoint ion_loop (todo : nat) (numIon : Z) (specie : string) (cell : Cell)
    (wyks : list atom_site) (tol : Q) (tm : Tol) (L : ion_locals)
    : Meth (option (list atom_site)) :=
  match todo with
  | O => ret None
  | S todo' =>
      r <- ion_trial numIon specie cell wyks tol tm L ;;
      match r with
      | (_, Some l) => ret (Some l)
      | (L', None) => ion_loop todo' numIon specie cell wyks tol tm L'
      end
  end.

(** [max(2 * k, 10)] *)
Definition attempts_for (k : Z) : Z := Z.max (2 * k) 10.

(** The budget [int(numIon / len(...))] is a float division truncated: the
    quotient of [Z] for an exact count. *)
Definition _set_ion_wyckoffs (numIon : Z) (specie : string) (cell : Cell)
    (wyks : list atom_site) : Meth (option (list atom_site)) :=
  tm <- attr tol_matrix ;;
  let tol := get_tol tm specie specie in
  d <- attr sites ;;
  sl <- match d !! specie with
        | Some sl => ret sl
        | None => raise KeyError
        end ;;
  wyckoff_attempts <-
    match sl with
    | Some l => ret (attempts_for (Z.of_nat (length l)))
    | None =>
        g <- attr group ;;
        general <- lift (index (wyckoffs_organized g) O) ;;
        wp0 <- lift (index general O) ;;
        ret (attempts_for (Z.quot numIon (wp_len wp0)))
    end ;;
  ion_loop (Z.to_nat wyckoff_attempts) numIon specie cell wyks tol tm
    {| numIon_added := 0; wyckoff_sites_tmp := []; sites_list := sl; cycle := 0 |}.

(** *** [_set_coords] (lines 235-252) *)

Fixpoint coords_from (todo : list (Z * string)) (cell : Cell) (wyks : list atom_site)
    : Meth (option (list atom_site)) :=
  match todo with
  | [] =>
      modify (with_valid true) ;;;
      ret (Some wyks)
  | (numIon, specie) :: todo' =>
      output <- _set_ion_wyckoffs numIon specie cell wyks ;;
      match output with
      | Some l => coords_from todo' cell (wyks ++ l)
      | None => ret None
      end
  end.

Definition _set_coords : Meth (option (list atom_site)) :=
  lat <- the_lattice ;;
  nums <- attr numIons ;;
  sp <- attr species ;;
  coords_from (zip nums sp) (lat_matrix lat) [].

(** *** [set_crystal] (lines 201-233) *)

(** The inner [for cycle2 in range(self.coord_attempts)]. *)
Fixpoint coord_loop (todo : nat) (c2 : Z) : Meth unit :=
  match todo with
  | O => ret tt
  | S todo' =>
      modify (with_cycle2 c2) ;;;
      c1 <- attr cycle1 ;;
      emit (CallSetCoords c1 c2) ;;;
      output <- _set_coords ;;
      match output with
      | Some (site :: rest) => modify (with_atom_sites (site :: rest))
      | _ => coord_loop todo' (c2 + 1)
      end
  end.

(** The outer [for cycle1 in range(self.lattice_attempts)]. *)
Fixpoint lattice_loop (todo : nat) (c1 : Z) : Meth unit :=
  match todo with
  | O => ret tt
  | S todo' =>
      modify (with_cycle1 c1) ;;;
      ca <- attr coord_attempts ;;
      coord_loop (Z.to_nat ca) 0 ;;;
      v <- attr valid ;;
      if v then ret tt
      else
        l <- attr lattice ;;
        lat <- attr (fun s => heap s !! l) ;;
        emit CallResetMatrix ;;;
        lat' <- call (reset_matrix lat) ;;
        modify (fun s => with_heap (<[l := lat']> (heap s)) s) ;;;
        lattice_loop todo' (c1 + 1)
  end.

Definition set_crystal : Meth unit :=
  deg <- attr degrees ;;
  (if negb deg then
     modify (with_lattice_attempts 5) ;;;
     modify (with_coord_attempts 5)
   else
     modify (with_lattice_attempts 40) ;;;
     modify (with_coord_attempts 10)) ;;;
  lat <- the_lattice ;;
  (if negb (allow_volume_reset lat) then modify (with_lattice_attempts 1) else ret tt) ;;;
  la <- attr lattice_attempts ;;
  lattice_loop (Z.to_nat la) 0.

(** *** [init_common] (lines 76-129) *)

(** [int(num) != num or num < 1] *)
Definition bad_count (num : Q) : bool :=
  negb (Qeq_bool (inject_Z (Qtrunc num)) num) || Qlt_bool num 1.

Definition formula_of (nums : list Z) (sp : list string) : string :=
  foldl (fun acc '(i, s) => acc +:+ s +:+ pretty i) ""%string (zip nums sp).

(** [init_common] returns [False] after printing when a count is refused and
    falls off its end ([None]) otherwise.  A count that passed the check is
    an integer, kept as [Z]; [np.array(numIons) * mul] is the product of [Z]
    when the count and the product are exact counts. *)
Definition init_common (fuel : nat) (species_ : list string) (numIons_ : list Q)
    (factor_ : Q) (group_ : Group + Z) (lattice_ : option nat)
    (sites_ : option (list (option (list string)))) (conventional : bool)
    (tm : Tol + string) : Meth (option bool) :=
  modify (with_source "Random") ;;;
  modify (with_valid false) ;;;
  if existsb bad_count numIons_ then
    printx MsgComposition ;;;
    ret (Some false)
  else
    d <- gets dim ;;
    let g := match group_ with inl g => g | inr n => Group_init n d end in
    modify (with_group g) ;;;
    modify (with_number (g_number g)) ;;;
    modify (with_numattempts 0) ;;;
    modify (with_lattice_attempts 0) ;;;
    modify (with_coord_attempts 0) ;;;
    modify (with_factor factor_) ;;;
    let mul := if negb conventional then cellsize g else 1 in
    let nums := (fun q => Qtrunc q * mul) <$> numIons_ in
    modify (with_numIons nums) ;;;
    modify (with_formula (formula_of nums species_)) ;;;
    modify (with_species species_) ;;;
    set_sites sites_ ;;;
    modify (with_tol_matrix match tm with inl t => t | inr name => Tol_matrix_init name end) ;;;
    r <- _check_compatible fuel ;;
    modify (with_degrees (snd r)) ;;;
    if negb (fst r) then
      modify (with_valid false) ;;;
      raise CompatibilityError
    else
      set_volume ;;;
      set_lattice lattice_ ;;;
      set_crystal ;;;
      ret None.

End Methods.

End random_crystal.

(** ** [class molecular_crystal] (molecular_crystal.py) *)

Module molecular_crystal.

Section Methods.

Context {World Ori Tol : Type} {P : Providers World Ori Tol}.

(** Attributes, shared [Lattice] objects, collaborators' state and events,
    as for [random_crystal.state].  [dim], [PBC], [thickness], [area] and
    [diag] are assigned by every [__init__]. *)
Record state : Type := {
  dim : Z;
  PBC : list Z;
  thickness : option Q;
  area : option Q;
  diag : bool;
  selec_high : option bool;
  valid : option bool;
  numattempts : option Z;
  group : option Group;
  number : option Z;
  factor : option Q;
  numMols : option (list Z);
  allow_inversion : option bool;
  select_high : option bool;
  tol_matrix : option Tol;
  molecules : option (list pyxtal_molecule);
  sites : option (gmap nat (option (list string)));
  valid_orientations : option (list (list (list (list Ori))));
  degrees : option bool;
  volume : option Q;
  lattice : option nat;
  lattice_attempts : option Z;
  coord_attempts : option Z;
  ori_attempts : option Z;
  wyckoff_attempts : option Z;
  cycle1 : option Z;
  cycle2 : option Z;
  mol_sites : option (list (mol_site Ori));
  heap : gmap nat Lattice;
  world : World;
  trace : list Event
}.

Definition with_dim (v : Z) (s : state) : state :=
  let '(Build_state x0 x1 x2 x3 x4 x5 x6 x7 x8 x9 x10 x11 x12 x13 x14 x15 x16 x17 x18 x19 x20 x21 x22 x23 x24 x25 x26 x27 x28 x29 x30) := s in
  Build_state v x1 x2 x3 x4 x5 x6 x7 x8 x9 x10 x11 x12 x13 x14 x15 x16 x17 x18 x19 x20 x21 x22 x23 x24 x25 x26 x27 x28 x29 x30.

Definition with_PBC (v : list Z) (s : state) : state :=
  let '(Build_state x0 x1 x2 x3 x4 x5 x6 x7 x8 x9 x10 x11 x12 x13 x14 x15 x16 x17 x18 x19 x20 x21 x22 x23 x24 x25 x26 x27 x28 x29 x30) := s in
  Build_state x0 v x2 x3 x4 x5 x6 x7 x8 x9 x10 x11 x12 x13 x14 x15 x16 x17 x18 x19 x20 x21 x22 x23 x24 x25 x26 x27 x28 x29 x30.

Definition with_thickness (v : option Q) (s : state) : state :=
  let '(Build_state x0 x1 x2 x3 x4 x5 x6 x7 x8 x9 x10 x11 x12 x13 x14 x15 x16 x17 x18 x19 x20 x21 x22 x23 x24 x25 x26 x27 x28 x29 x30) := s in
  Build_state x0 x1 v x3 x4 x5 x6 x7 x8 x9 x10 x11 x12 x13 x14 x15 x16 x17 x18 x19 x20 x21 x22 x23 x24 x25 x26 x27 x28 x29 x30.

Definition with_area (v : option Q) (s : state) : state :=
  let '(Build_state x0 x1 x2 x3 x4 x5 x6 x7 x8 x9 x10 x11 x12 x13 x14 x15 x16 x17 x18 x19 x20 x21 x22 x23 x24 x25 x26 x27 x28 x29 x30) := s in
  Build_state x0 x1 x2 v x4 x5 x6 x7 x8 x9 x10 x11 x12 x13 x14 x15 x16 x17 x18 x19 x20 x21 x22 x23 x24 x25 x26 x27 x28 x29 x30.

Definition with_diag (v : bool) (s : state) : state :=
  let '(Build_state x0 x1 x2 x3 x4 x5 x6 x7 x8 x9 x10 x11 x12 x13 x14 x15 x16 x17 x18 x19 x20 x21 x22 x23 x24 x25 x26 x27 x28 x29 x30) := s in
  Build_state x0 x1 x2 x3 v x5 x6 x7 x8 x9 x10 x11 x12 x13 x14 x15 x16 x17 x18 x19 x20 x21 x22 x23 x24 x25 x26 x27 x28 x29 x30.

Definition with_selec_high (v : bool) (s : state) : state :=
  let '(Build_state x0 x1 x2 x3 x4 x5 x6 x7 x8 x9 x10 x11 x12 x13 x14 x15 x16 x17 x18 x19 x20 x21 x22 x23 x24 x25 x26 x27 x28 x29 x30) := s in
  Build_state x0 x1 x2 x3 x4 (Some v) x6 x7 x8 x9 x10 x11 x12 x13 x14 x15 x16 x17 x18 x19 x20 x21 x22 x23 x24 x25 x26 x27 x28 x29 x30.

Definition with_valid (v : bool) (s : state) : state :=
  let '(Build_state x0 x1 x2 x3 x4 x5 x6 x7 x8 x9 x10 x11 x12 x13 x14 x15 x16 x17 x18 x19 x20 x21 x22 x23 x24 x25 x26 x27 x28 x29 x30) := s in
  Build_state x0 x1 x2 x3 x4 x5 (Some v) x7 x8 x9 x10 x11 x12 x13 x14 x15 x16 x17 x18 x19 x20 x21 x22 x23 x24 x25 x26 x27 x28 x29 x30.

Definition with_numattempts (v : Z) (s : state) : state :=
  let '(Build_state x0 x1 x2 x3 x4 x5 x6 x7 x8 x9 x10 x11 x12 x13 x14 x15 x16 x17 x18 x19 x20 x21 x22 x23 x24 x25 x26 x27 x28 x29 x30) := s in
  Build_state x0 x1 x2 x3 x4 x5 x6 (Some v) x8 x9 x10 x11 x12 x13 x14 x15 x16 x17 x18 x19 x20 x21 x22 x23 x24 x25 x26 x27 x28 x29 x30.

Definition with_group (v : Group) (s : state) : state :=
  let '(Build_state x0 x1 x2 x3 x4 x5 x6 x7 x8 x9 x10 x11 x12 x13 x14 x15 x16 x17 x18 x19 x20 x21 x22 x23 x24 x25 x26 x27 x28 x29 x30) := s in
  Build_state x0 x1 x2 x3 x4 x5 x6 x7 (Some v) x9 x10 x11 x12 x13 x14 x15 x16 x17 x18 x19 x20 x21 x22 x23 x24 x25 x26 x27 x28 x29 x30.

Definition with_number (v : Z) (s : state) : state :=
  let '(Build_state x0 x1 x2 x3 x4 x5 x6 x7 x8 x9 x10 x11 x12 x13 x14 x15 x16 x17 x18 x19 x20 x21 x22 x23 x24 x25 x26 x27 x28 x29 x30) := s in
  Build_state x0 x1 x2 x3 x4 x5 x6 x7 x8 (Some v) x10 x11 x12 x13 x14 x15 x16 x17 x18 x19 x20 x21 x22 x23 x24 x25 x26 x27 x28 x29 x30.

Definition with_factor (v : Q) (s : state) : state :=
  let '(Build_state x0 x1 x2 x3 x4 x5 x6 x7 x8 x9 x10 x11 x12 x13 x14 x15 x16 x17 x18 x19 x20 x21 x22 x23 x24 x25 x26 x27 x28 x29 x30) := s in
  Build_state x0 x1 x2 x3 x4 x5 x6 x7 x8 x9 (Some v) x11 x12 x13 x14 x15 x16 x17 x18 x19 x20 x21 x22 x23 x24 x25 x26 x27 x28 x29 x30.

Definition with_numMols (v : list Z) (s : state) : state :=
  let '(Build_state x0 x1 x2 x3 x4 x5 x6 x7 x8 x9 x10 x11 x12 x13 x14 x15 x16 x17 x18 x19 x20 x21 x22 x23 x24 x25 x26 x27 x28 x29 x30) := s in
  Build_state x0 x1 x2 x3 x4 x5 x6 x7 x8 x9 x10 (Some v) x12 x13 x14 x15 x16 x17 x18 x19 x20 x21 x22 x23 x24 x25 x26 x27 x28 x29 x30.

Definition with_allow_inversion (v : bool) (s : state) : state :=
  let '(Build_state x0 x1 x2 x3 x4 x5 x6 x7 x8 x9 x10 x11 x12 x13 x14 x15 x16 x17 x18 x19 x20 x21 x22 x23 x24 x25 x26 x27 x28 x29 x30) := s in
  Build_state x0 x1 x2 x3 x4 x5 x6 x7 x8 x9 x10 x11 (Some v) x13 x14 x15 x16 x17 x18 x19 x20 x21 x22 x23 x24 x25 x26 x27 x28 x29 x30.

Definition with_select_high (v : bool) (s : state) : state :=
  let '(Build_state x0 x1 x2 x3 x4 x5 x6 x7 x8 x9 x10 x11 x12 x13 x14 x15 x16 x17 x18 x19 x20 x21 x22 x23 x24 x25 x26 x27 x28 x29 x30) := s in
  Build_state x0 x1 x2 x3 x4 x5 x6 x7 x8 x9 x10 x11 x12 (Some v) x14 x15 x16 x17 x18 x19 x20 x21 x22 x23 x24 x25 x26 x27 x28 x29 x30.

Definition with_tol_matrix (v : Tol) (s : state) : state :=
  let '(Build_state x0 x1 x2 x3 x4 x5 x6 x7 x8 x9 x10 x11 x12 x13 x14 x15 x16 x17 x18 x19 x20 x21 x22 x23 x24 x25 x26 x27 x28 x29 x30) := s in
  Build_state x0 x1 x2 x3 x4 x5 x6 x7 x8 x9 x10 x11 x12 x13 (Some v) x15 x16 x17 x18 x19 x20 x21 x22 x23 x24 x25 x26 x27 x28 x29 x30.

Definition with_molecules (v : list pyxtal_molecule) (s : state) : state :=
  let '(Build_state x0 x1 x2 x3 x4 x5 x6 x7 x8 x9 x10 x11 x12 x13 x14 x15 x16 x17 x18 x19 x20 x21 x22 x23 x24 x25 x26 x27 x28 x29 x30) := s in
  Build_state x0 x1 x2 x3 x4 x5 x6 x7 x8 x9 x10 x11 x12 x13 x14 (Some v) x16 x17 x18 x19 x20 x21 x22 x23 x24 x25 x26 x27 x28 x29 x30.

Definition with_sites (v : gmap nat (option (list string))) (s : state) : state :=
  let '(Build_state x0 x1 x2 x3 x4 x5 x6 x7 x8 x9 x10 x11 x12 x13 x14 x15 x16 x17 x18 x19 x20 x21 x22 x23 x24 x25 x26 x27 x28 x29 x30) := s in
  Build_state x0 x1 x2 x3 x4 x5 x6 x7 x8 x9 x10 x11 x12 x13 x14 x15 (Some v) x17 x18 x19 x20 x21 x22 x23 x24 x25 x26 x27 x28 x29 x30.

Definition with_valid_orientations (v : list (list (list (list Ori)))) (s : state) : state :=
  let '(Build_state x0 x1 x2 x3 x4 x5 x6 x7 x8 x9 x10 x11 x12 x13 x14 x15 x16 x17 x18 x19 x20 x21 x22 x23 x24 x25 x26 x27 x28 x29 x30) := s in
  Build_state x0 x1 x2 x3 x4 x5 x6 x7 x8 x9 x10 x11 x12 x13 x14 x15 x16 (Some v) x18 x19 x20 x21 x22 x23 x24 x25 x26 x27 x28 x29 x30.

Definition with_degrees (v : bool) (s : state) : state :=
  let '(Build_state x0 x1 x2 x3 x4 x5 x6 x7 x8 x9 x10 x11 x12 x13 x14 x15 x16 x17 x18 x19 x20 x21 x22 x23 x24 x25 x26 x27 x28 x29 x30) := s in
  Build_state x0 x1 x2 x3 x4 x5 x6 x7 x8 x9 x10 x11 x12 x13 x14 x15 x16 x17 (Some v) x19 x20 x21 x22 x23 x24 x25 x26 x27 x28 x29 x30.

Definition with_volume (v : Q) (s : state) : state :=
  let '(Build_state x0 x1 x2 x3 x4 x5 x6 x7 x8 x9 x10 x11 x12 x13 x14 x15 x16 x17 x18 x19 x20 x21 x22 x23 x24 x25 x26 x27 x28 x29 x30) := s in
  Build_state x0 x1 x2 x3 x4 x5 x6 x7 x8 x9 x10 x11 x12 x13 x14 x15 x16 x17 x18 (Some v) x20 x21 x22 x23 x24 x25 x26 x27 x28 x29 x30.

Definition with_lattice (v : nat) (s : state) : state :=
  let '(Build_state x0 x1 x2 x3 x4 x5 x6 x7 x8 x9 x10 x11 x12 x13 x14 x15 x16 x17 x18 x19 x20 x21 x22 x23 x24 x25 x26 x27 x28 x29 x30) := s in
  Build_state x0 x1 x2 x3 x4 x5 x6 x7 x8 x9 x10 x11 x12 x13 x14 x15 x16 x17 x18 x19 (Some v) x21 x22 x23 x24 x25 x26 x27 x28 x29 x30.

Definition with_lattice_attempts (v : Z) (s : state) : state :=
  let '(Build_state x0 x1 x2 x3 x4 x5 x6 x7 x8 x9 x10 x11 x12 x13 x14 x15 x16 x17 x18 x19 x20 x21 x22 x23 x24 x25 x26 x27 x28 x29 x30) := s in
  Build_state x0 x1 x2 x3 x4 x5 x6 x7 x8 x9 x10 x11 x12 x13 x14 x15 x16 x17 x18 x19 x20 (Some v) x22 x23 x24 x25 x26 x27 x28 x29 x30.

Definition with_coord_attempts (v : Z) (s : state) : state :=
  let '(Build_state x0 x1 x2 x3 x4 x5 x6 x7 x8 x9 x10 x11 x12 x13 x14 x15 x16 x17 x18 x19 x20 x21 x22 x23 x24 x25 x26 x27 x28 x29 x30) := s in
  Build_state x0 x1 x2 x3 x4 x5 x6 x7 x8 x9 x10 x11 x12 x13 x14 x15 x16 x17 x18 x19 x20 x21 (Some v) x23 x24 x25 x26 x27 x28 x29 x30.

Definition with_ori_attempts (v : Z) (s : state) : state :=
  let '(Build_state x0 x1 x2 x3 x4 x5 x6 x7 x8 x9 x10 x11 x12 x13 x14 x15 x16 x17 x18 x19 x20 x21 x22 x23 x24 x25 x26 x27 x28 x29 x30) := s in
  Build_state x0 x1 x2 x3 x4 x5 x6 x7 x8 x9 x10 x11 x12 x13 x14 x15 x16 x17 x18 x19 x20 x21 x22 (Some v) x24 x25 x26 x27 x28 x29 x30.

Definition with_wyckoff_attempts (v : Z) (s : state) : state :=
  let '(Build_state x0 x1 x2 x3 x4 x5 x6 x7 x8 x9 x10 x11 x12 x13 x14 x15 x16 x17 x18 x19 x20 x21 x22 x23 x24 x25 x26 x27 x28 x29 x30) := s in
  Build_state x0 x1 x2 x3 x4 x5 x6 x7 x8 x9 x10 x11 x12 x13 x14 x15 x16 x17 x18 x19 x20 x21 x22 x23 (Some v) x25 x26 x27 x28 x29 x30.

Definition with_cycle1 (v : Z) (s : state) : state :=
  let '(Build_state x0 x1 x2 x3 x4 x5 x6 x7 x8 x9 x10 x11 x12 x13 x14 x15 x16 x17 x18 x19 x20 x21 x22 x23 x24 x25 x26 x27 x28 x29 x30) := s in
  Build_state x0 x1 x2 x3 x4 x5 x6 x7 x8 x9 x10 x11 x12 x13 x14 x15 x16 x17 x18 x19 x20 x21 x22 x23 x24 (Some v) x26 x27 x28 x29 x30.

Definition with_cycle2 (v : Z) (s : state) : state :=
  let '(Build_state x0 x1 x2 x3 x4 x5 x6 x7 x8 x9 x10 x11 x12 x13 x14 x15 x16 x17 x18 x19 x20 x21 x22 x23 x24 x25 x26 x27 x28 x29 x30) := s in
  Build_state x0 x1 x2 x3 x4 x5 x6 x7 x8 x9 x10 x11 x12 x13 x14 x15 x16 x17 x18 x19 x20 x21 x22 x23 x24 x25 (Some v) x27 x28 x29 x30.

Definition with_mol_sites (v : list (mol_site Ori)) (s : state) : state :=
  let '(Build_state x0 x1 x2 x3 x4 x5 x6 x7 x8 x9 x10 x11 x12 x13 x14 x15 x16 x17 x18 x19 x20 x21 x22 x23 x24 x25 x26 x27 x28 x29 x30) := s in
  Build_state x0 x1 x2 x3 x4 x5 x6 x7 x8 x9 x10 x11 x12 x13 x14 x15 x16 x17 x18 x19 x20 x21 x22 x23 x24 x25 x26 (Some v) x28 x29 x30.

Definition with_heap (v : gmap nat Lattice) (s : state) : state :=
  let '(Build_state x0 x1 x2 x3 x4 x5 x6 x7 x8 x9 x10 x11 x12 x13 x14 x15 x16 x17 x18 x19 x20 x21 x22 x23 x24 x25 x26 x27 x28 x29 x30) := s in
  Build_state x0 x1 x2 x3 x4 x5 x6 x7 x8 x9 x10 x11 x12 x13 x14 x15 x16 x17 x18 x19 x20 x21 x22 x23 x24 x25 x26 x27 v x29 x30.

Definition with_world (v : World) (s : state) : state :=
  let '(Build_state x0 x1 x2 x3 x4 x5 x6 x7 x8 x9 x10 x11 x12 x13 x14 x15 x16 x17 x18 x19 x20 x21 x22 x23 x24 x25 x26 x27 x28 x29 x30) := s in
  Build_state x0 x1 x2 x3 x4 x5 x6 x7 x8 x9 x10 x11 x12 x13 x14 x15 x16 x17 x18 x19 x20 x21 x22 x23 x24 x25 x26 x27 x28 v x30.

Definition with_trace (v : list Event) (s : state) : state :=
  let '(Build_state x0 x1 x2 x3 x4 x5 x6 x7 x8 x9 x10 x11 x12 x13 x14 x15 x16 x17 x18 x19 x20 x21 x22 x23 x24 x25 x26 x27 x28 x29 x30) := s in
  Build_state x0 x1 x2 x3 x4 x5 x6 x7 x8 x9 x10 x11 x12 x13 x14 x15 x16 x17 x18 x19 x20 x21 x22 x23 x24 x25 x26 x27 x28 x29 v.

Abbreviation Meth := (M state).

Definition call {A : Type} (f : World -> A * World) : Meth A :=
  fun s => let '(a, w) := f (world s) in (Ok a, with_world w s).

Definition emit (e : Event) : Meth unit :=
  modify (fun s => with_trace (trace s ++ [e]) s).

Definition printx (m : Message) : Meth unit := emit (Printx m).

Definition bump_numattempts : Meth unit :=
  n <- attr numattempts ;;
  modify (with_numattempts (n + 1)).

Definition the_lattice : Meth Lattice :=
  l <- attr lattice ;;
  attr (fun s => heap s !! l).

(** The object after an [__init__] has assigned the five plain attributes;
    [molecular_crystal.__init__] also sets [selec_high], [lattice_attempts]
    and [coord_attempts], the 2D variant [numattempts]. *)
Definition new (dim_ : Z) (PBC_ : list Z) (thickness_ area_ : option Q) (diag_ : bool)
    (h : gmap nat Lattice) (w : World) : state :=
  Build_state dim_ PBC_ thickness_ area_ diag_ None None None None None None None
    None None None None None None None None None None None None None None None None
    h w [].

(** *** [with_sites] (lines 183-197) *)

Fixpoint set_sites_from (sites_ : option (list (option (list string))))
    (i : nat) (todo : list pyxtal_molecule) : Meth unit :=
  match todo with
  | [] => ret tt
  | _ :: todo' =>
      entry <- match sites_ with
               | None => ret None
               | Some l => lift (index l i)
               end ;;
      match entry with
      | Some site =>
          nums <- attr numMols ;;
          numMol <- lift (index nums i) ;;
          _ <- lift (_check_consistency site numMol) ;;
          d <- attr sites ;;
          modify (with_sites (<[i := Some site]> d)) ;;;
          set_sites_from sites_ (S i) todo'
      | None =>
          d <- attr sites ;;
          modify (with_sites (<[i := None]> d)) ;;;
          set_sites_from sites_ (S i) todo'
      end
  end.

Definition set_sites (sites_ : option (list (option (list string)))) : Meth unit :=
  modify (with_sites ∅) ;;;
  ms <- attr molecules ;;
  set_sites_from sites_ O ms.

(** *** [with_molecules] (lines 199-213) *)

Fixpoint molecules_from (torsions : list (option (list Q))) (tm : Tol)
    (i : nat) (todo : list string) : Result (list pyxtal_molecule) :=
  match todo with
  | [] => Ok []
  | mol :: todo' =>
      let? t := index torsions i in
      let? rest := molecules_from torsions tm (S i) todo' in
      Ok (pyxtal_molecule_init mol t tm :: rest)
  end.

Definition set_molecules (molecules_ : list string)
    (torsions : option (list (option (list Q)))) : Meth unit :=
  let torsions' := default (replicate (length molecules_) None) torsions in
  tm <- attr tol_matrix ;;
  ms <- lift (molecules_from torsions' tm O molecules_) ;;
  modify (with_molecules ms).

(** *** [set_orientations] (lines 215-249) *)

Fixpoint orientations_row (m : pyxtal_molecule) (inv : bool)
    (x : list Wyckoff_position) : Meth (list (list Ori)) :=
  match x with
  | [] => ret []
  | wp :: x' =>
      allowed <- call (orientation_in_wyckoff_position m wp inv) ;;
      rest <- orientations_row m inv x' ;;
      ret (allowed :: rest)
  end.

Fixpoint orientations_mol (m : pyxtal_molecule) (inv : bool)
    (organized : list (list Wyckoff_position)) : Meth (list (list (list Ori))) :=
  match organized with
  | [] => ret []
  | x :: organized' =>
      r <- orientations_row m inv x ;;
      rest <- orientations_mol m inv organized' ;;
      ret (r :: rest)
  end.

Fixpoint orientations_all (ms : list pyxtal_molecule) (inv : bool)
    (organized : list (list Wyckoff_position)) : Meth (list (list (list (list Ori)))) :=
  match ms with
  | [] => ret []
  | m :: ms' =>
      r <- orientations_mol m inv organized ;;
      rest <- orientations_all ms' inv organized ;;
      ret (r :: rest)
  end.

Definition set_orientations (orientations : option (list (list (list (list Ori)))))
    : Meth unit :=
  match orientations with
  | None =>
      modify (with_valid_orientations []) ;;;
      ms <- attr molecules ;;
      g <- attr group ;;
      inv <- attr allow_inversion ;;
      vo <- orientations_all ms inv (wyckoffs_organized g) ;;
      modify (with_valid_orientations vo)
  | Some vo => modify (with_valid_orientations vo)
  end.

(** *** [with_volume] (lines 251-261) *)

Definition set_volume : Meth unit :=
  nums <- attr numMols ;;
  ms <- attr molecules ;;
  let vol := foldl (fun acc '(numMol, m) => acc + inject_Z numMol * mol_volume m)%Q
                   0%Q (zip nums ms) in
  f <- attr factor ;;
  modify (with_volume (Qabs (f * vol))).

(** *** [with_lattice] (lines 264-299) *)

Definition in_range_3_8 (n : Z) : bool := bool_decide (3 <= n < 8).

Definition set_lattice (lattice_ : option nat) : Meth unit :=
  match lattice_ with
  | Some l =>
      modify (with_lattice l) ;;;
      lat <- attr (fun s => heap s !! l) ;;
      modify (with_volume (lat_volume lat)) ;;;
      pbc <- gets PBC ;;
      if bool_decide (lat_PBC lat ≠ pbc) then
        modify (fun s => with_heap (<[l := lattice_with_PBC pbc lat]> (heap s)) s) ;;;
        printx (MsgPBCWarning pbc)
      else ret tt
  | None =>
      d <- gets dim ;;
      unique_axis <-
        (if bool_decide (d = 2) then
           n <- attr number ;;
           ret (if in_range_3_8 n then "c" else "a")%string
         else if bool_decide (d = 1) then
           n <- attr number ;;
           ret (if in_range_3_8 n then "a" else "c")%string
         else ret "c"%string) ;;
      g <- attr group ;;
      vol <- attr volume ;;
      pbc <- gets PBC ;;
      th <- gets thickness ;;
      ar <- gets area ;;
      lat <- call (Lattice_init (g_lattice_type g) vol pbc unique_axis th ar) ;;
      h <- gets heap ;;
      let l := fresh (dom h) in
      modify (with_heap (<[l := lat]> h)) ;;;
      modify (with_lattice l)
  end.

(** *** [_check_compatible] (lines 482-588) *)

Definition _check_compatible (fuel : nat) : Meth (bool * bool) :=
  emit CallCheckCompatible ;;;
  nums <- attr numMols ;;
  g <- attr group ;;
  vo <- attr valid_orientations ;;
  lift (Compat.check_compatible_molecular fuel g vo nums).

(** *** [_set_orientation] (lines 432-480) *)

(** The local variables of the bisection. *)
Record bisect_locals : Type := {
  angle_lo : Q;
  angle_hi : Q;
  fun_lo : Q;
  fun_hi : Q;
  fun_ : Q
}.

(** The site object built by [mol_site(mol, pt, ori, wp, self.lattice,
    self.diag)]. *)
Definition make_site (m : pyxtal_molecule) (pt : Point) (ori : Ori)
    (wp : Wyckoff_position) : Meth (mol_site Ori) :=
  l <- attr lattice ;;
  dg <- gets diag ;;
  id <- call (mol_site_init m pt ori wp l dg) ;;
  ret {| ms_id := id; ms_mol := m; ms_position := pt; ms_orientation := ori;
         ms_wp := wp; ms_lattice := l; ms_diag := dg |}.

(** The local function [fun_dist]: it turns [ori], builds a site of its own
    and returns that site's [compute_distances()]. *)
Definition fun_dist (angle : Q) (ori : Ori) (mo : pyxtal_molecule) (pt : Point)
    (wp : Wyckoff_position) : Meth Q :=
  emit (CallFunDist angle) ;;;
  modify (fun s => with_world (change_orientation ori (Some angle) false (world s)) s) ;;;
  ms <- make_site mo pt ori wp ;;
  gets (fun s => compute_distances ms (heap s) (world s)).

(** One turn of [for it in range(self.ori_attempts)]; [inl ms0] is
    [return ms0]. *)
Definition bisect_turn (ms0 : mol_site Ori) (ori : Ori) (mo : pyxtal_molecule)
    (pt : Point) (wp : Wyckoff_position) (B : bisect_locals)
    : Meth (mol_site Ori + bisect_locals) :=
  bump_numattempts ;;;
  ok <- gets (fun s => check_distances ms0 (heap s) (world s)) ;;
  if Qlt_bool float_0_8 (fun_ B) && ok then ret (inl ms0)
  else
    let angle := ((angle_lo B + angle_hi B) / 2)%Q in
    f <- fun_dist angle ori mo pt wp ;;
    if Qlt_bool (fun_hi B) (fun_lo B)
    then ret (inr {| angle_lo := angle_lo B; angle_hi := angle; fun_lo := fun_lo B;
                     fun_hi := f; fun_ := f |})
    else ret (inr {| angle_lo := angle; angle_hi := angle_hi B; fun_lo := f;
                     fun_hi := fun_hi B; fun_ := f |}).

Fixpoint bisect_loop (todo : nat) (ms0 : mol_site Ori) (ori : Ori)
    (mo : pyxtal_molecule) (pt : Point) (wp : Wyckoff_position) (B : bisect_locals)
    : Meth (option (mol_site Ori)) :=
  match todo with
  | O => ret None
  | S todo' =>
      r <- bisect_turn ms0 ori mo pt wp B ;;
      match r with
      | inl ms => ret (Some ms)
      | inr B' => bisect_loop todo' ms0 ori mo pt wp B'
      end
  end.

Definition _set_orientation (pyxtal_mol : pyxtal_molecule) (pt : Point)
    (oris : list Ori) (wp : Wyckoff_position) : Meth (option (mol_site Ori)) :=
  bump_numattempts ;;;
  (match oris with [] => raise IndexError | _ => ret tt end) ;;;
  ori <- call (choice_copy oris) ;;
  modify (fun s => with_world (change_orientation ori None true (world s)) s) ;;;
  ms0 <- make_site pyxtal_mol pt ori wp ;;
  ok <- gets (fun s => check_distances ms0 (heap s) (world s)) ;;
  if ok then ret (Some ms0)
  else
    deg <- gets (fun s => ori_degrees ori (world s)) ;;
    if bool_decide (mol_natoms pyxtal_mol > 1) && bool_decide (deg > 0) then
      lo <- gets (fun s => ori_angle ori (world s)) ;;
      let hi := (lo + np_pi)%Q in
      f_lo <- fun_dist lo ori pyxtal_mol pt wp ;;
      f_hi <- fun_dist hi ori pyxtal_mol pt wp ;;
      oa <- attr ori_attempts ;;
      bisect_loop (Z.to_nat oa) ms0 ori pyxtal_mol pt wp
        {| angle_lo := lo; angle_hi := hi; fun_lo := f_lo; fun_hi := f_hi; fun_ := f_hi |}
    else ret None.

(** *** [_set_mol_wyckoffs] (lines 357-429) *)

Record mol_locals : Type := {
  numMol_added : Z;
  mol_sites_tmp : list (mol_site Ori);
  sites_list : option (list string)
}.

Definition planar (s : state) : bool :=
  bool_decide (dim s = 2) &&
  match thickness s with
  | Some t => Qlt_bool t float_0_1
  | None => false
  end.

(** One turn of [for cycle in range(self.wyckoff_attempts)]; the second
    component is [Some l] when the turn ends in [return l]. *)
Definition mol_trial (numMol : Z) (pyxtal_mol : pyxtal_molecule)
    (valid_ori : list (list (list Ori))) (mol_wyks : list (mol_site Ori))
    (L : mol_locals) : Meth (mol_locals * option (list (mol_site Ori))) :=
  site <- match sites_list L with
          | Some (s :: _) => ret (Some s)
          | Some [] => raise IndexError
          | None => ret None
          end ;;
  let diff := numMol - numMol_added L in
  g <- attr group ;;
  sh <- attr select_high ;;
  d <- gets dim ;;
  chosen <- call (choose_wyckoff_molecular g diff site valid_ori sh d) ;;
  match chosen with
  | None => ret (L, None)
  | Some wp =>
      let mult := multiplicity wp in
      lat <- the_lattice ;;
      pt <- call (generate_point lat) ;;
      let mtol := (mol_radius pyxtal_mol * float_0_5)%Q in
      lat2 <- the_lattice ;;
      mr <- call (WP_merge pt (lat_matrix lat2) wp mtol (Some valid_ori)) ;;
      match mr with
      | NoMerge _ => ret (L, None)
      | Merged pt' wp' oris =>
          if bool_decide (site ≠ None) && bool_decide (mult ≠ multiplicity wp') then
            ret (L, None)
          else
            flat <- gets planar ;;
            let pt'' := if flat then set_last pt' float_0_5 else pt' in
            placed <- _set_orientation pyxtal_mol pt'' oris wp' ;;
            match placed with
            | None => ret (L, None)
            | Some ms0 =>
                tm <- attr tol_matrix ;;
                w <- gets world ;;
                let passed_wp_check :=
                  forallb (fun ms1 => check_with_ms2 ms0 ms1 tm w)
                          (mol_sites_tmp L ++ mol_wyks) in
                if passed_wp_check then
                  let tmp := mol_sites_tmp L ++ [ms0] in
                  let added := numMol_added L + ms_multiplicity ms0 in
                  let L' := {| numMol_added := added;
                               mol_sites_tmp := tmp;
                               sites_list := tail <$> sites_list L |} in
                  ret (L', if bool_decide (added = numMol) then Some tmp else None)
                else ret (L, None)
            end
      end
  end.

Fixpoint mol_loop (todo : nat) (numMol : Z) (pyxtal_mol : pyxtal_molecule)
    (valid_ori : list (list (list Ori))) (mol_wyks : list (mol_site Ori))
    (L : mol_locals) : Meth (option (list (mol_site Ori))) :=
  match todo with
  | O => ret None
  | S todo' =>
      r <- mol_trial numMol pyxtal_mol valid_ori mol_wyks L ;;
      match r with
      | (_, Some l) => ret (Some l)
      | (L', None) => mol_loop todo' numMol pyxtal_mol valid_ori mol_wyks L'
      end
  end.

Definition attempts_for (k : Z) : Z := Z.max (2 * k) 10.

(** As in the atomic search, the budget [int(numMol / len(...))] is the
    quotient of [Z] for an exact count. *)
Definition _set_mol_wyckoffs (id : nat) (numMol : Z) (pyxtal_mol : pyxtal_molecule)
    (valid_ori : list (list (list Ori))) (mol_wyks : list (mol_site Ori))
    : Meth (option (list (mol_site Ori))) :=
  d <- attr sites ;;
  sl <- match d !! id with
        | Some sl => ret sl
        | None => raise KeyError
        end ;;
  (match sl with
   | Some l => modify (with_wyckoff_attempts (attempts_for (Z.of_nat (length l))))
   | None =>
       g <- attr group ;;
       general <- lift (index (wyckoffs_organized g) O) ;;
       wp0 <- lift (index general O) ;;
       modify (with_wyckoff_attempts (attempts_for (Z.quot numMol (wp_len wp0))))
   end) ;;;
  wa <- attr wyckoff_attempts ;;
  mol_loop (Z.to_nat wa) numMol pyxtal_mol valid_ori mol_wyks
    {| numMol_added := 0; mol_sites_tmp := []; sites_list := sl |}.

(** *** [_set_coords] (lines 335-355) *)

Fixpoint coords_from (i : nat) (todo : list Z) (total : list (mol_site Ori))
    : Meth (option (list (mol_site Ori))) :=
  match todo with
  | [] =>
      modify (with_valid true) ;;;
      ret (Some total)
  | numMol :: todo' =>
      ms <- attr molecules ;;
      pyxtal_mol <- lift (index ms i) ;;
      vo <- attr valid_orientations ;;
      valid_ori <- lift (index vo i) ;;
      output <- _set_mol_wyckoffs i numMol pyxtal_mol valid_ori total ;;
      match output with
      | Some l => coords_from (S i) todo' (total ++ l)
      | None => ret None
      end
  end.

Definition _set_coords : Meth (option (list (mol_site Ori))) :=
  nums <- attr numMols ;;
  coords_from O nums [].

(** *** [set_crystal] (lines 301-333) *)

Fixpoint coord_loop (todo : nat) (c2 : Z) : Meth unit :=
  match todo with
  | O => ret tt
  | S todo' =>
      modify (with_cycle2 c2) ;;;
      c1 <- attr cycle1 ;;
      emit (CallSetCoords c1 c2) ;;;
      output <- _set_coords ;;
      match output with
      | Some (site :: rest) => modify (with_mol_sites (site :: rest))
      | _ => coord_loop todo' (c2 + 1)
      end
  end.

(** The outer loop; [true] when it ends in [return], [false] when the range
    is used up. *)
Fixpoint lattice_loop (todo : nat) (c1 : Z) : Meth bool :=
  match todo with
  | O => ret false
  | S todo' =>
      modify (with_cycle1 c1) ;;;
      ca <- attr coord_attempts ;;
      coord_loop (Z.to_nat ca) 0 ;;;
      v <- attr valid ;;
      if v then ret true
      else
        l <- attr lattice ;;
        lat <- attr (fun s => heap s !! l) ;;
        emit CallResetMatrix ;;;
        lat' <- call (reset_matrix lat) ;;
        modify (fun s => with_heap (<[l := lat']> (heap s)) s) ;;;
        lattice_loop todo' (c1 + 1)
  end.

Definition set_crystal : Meth unit :=
  deg <- attr degrees ;;
  (if negb deg then
     modify (with_lattice_attempts 20) ;;;
     modify (with_coord_attempts 3) ;;;
     modify (with_ori_attempts 1)
   else
     modify (with_lattice_attempts 40) ;;;
     modify (with_coord_attempts 30) ;;;
     modify (with_ori_attempts 5)) ;;;
  lat <- the_lattice ;;
  (if negb (allow_volume_reset lat) then modify (with_lattice_attempts 1) else ret tt) ;;;
  la <- attr lattice_attempts ;;
  returned <- lattice_loop (Z.to_nat la) 0 ;;
  if returned then ret tt else printx MsgNoCrystal.

(** *** [init_common] (lines 101-160)

    [numMols] is used as given, with no check: the counts are integers here,
    so that [np.array] arithmetic on them is integer arithmetic, the
    product [numMols * mul] being that of [Z] when the count and the product
    are exact counts. *)

Definition diag_groups : list Z := [5; 7; 8; 9; 12; 13; 14; 15].

Definition init_common (fuel : nat) (molecules_ : list string) (numMols_ : list Z)
    (volume_factor : Q) (select_high_ allow_inversion_ : bool)
    (orientations : option (list (list (list (list Ori))))) (group_ : Group + Z)
    (lattice_ : option nat) (torsions : option (list (option (list Q))))
    (sites_ : option (list (option (list string)))) (conventional : bool)
    (tm : Tol + string) : Meth unit :=
  modify (with_valid false) ;;;
  modify (with_numattempts 0) ;;;
  d <- gets dim ;;
  let g := match group_ with inl g => g | inr n => Group_init n d end in
  modify (with_group g) ;;;
  dg <- gets diag ;;
  (if dg && negb (bool_decide (g_number g ∈ diag_groups))
   then modify (with_diag false) else ret tt) ;;;
  modify (with_number (g_number g)) ;;;
  modify (with_factor volume_factor) ;;;
  let mul := if negb conventional then cellsize g else 1 in
  modify (with_numMols ((fun n => n * mul) <$> numMols_)) ;;;
  modify (with_allow_inversion allow_inversion_) ;;;
  modify (with_select_high select_high_) ;;;
  modify (with_tol_matrix match tm with inl t => t | inr name => Tol_matrix_init name end) ;;;
  set_molecules molecules_ torsions ;;;
  set_sites sites_ ;;;
  set_orientations orientations ;;;
  r <- _check_compatible fuel ;;
  modify (with_degrees (snd r)) ;;;
  if negb (fst r) then
    modify (with_valid false) ;;;
    raise CompatibilityError
  else
    set_volume ;;;
    set_lattice lattice_ ;;;
    set_crystal ;;;
    ret tt.

End Methods.

End molecular_crystal.

(** ** Concrete collaborators

    A small family of deterministic collaborators, scripted by a few
    functions, on which the methods can be run: the [World] is a clock that
    every [change_orientation] advances. *)

Module Demo.

Definition identity3 : list (list Q) := [[1; 0; 0]; [0; 1; 0]; [0; 0; 1]]%Q.

Definition zero3 : list (list Q) := [[0; 0; 0]; [0; 0; 0]; [0; 0; 0]]%Q.

Definition general_op : SymmOp := {| rotation_matrix := identity3 |}.

Definition fixed_op : SymmOp := {| rotation_matrix := zero3 |}.

(** A position of the given label and multiplicity, with or without
    continuous freedom. *)
Definition position (label : string) (free : bool) (mult : nat) : Wyckoff_position :=
  {| wp_label := label;
     wp_first := if free then general_op else fixed_op;
     wp_rest := replicate (pred mult) general_op |}.

Definition wp4a : Wyckoff_position := position "4a" true 4.
Definition wp2b : Wyckoff_position := position "2b" true 2.
Definition wp2a : Wyckoff_position := position "2a" true 2.
Definition wp1a : Wyckoff_position := position "1a" false 1.
Definition wp4b_fixed : Wyckoff_position := position "4b" false 4.

(** A general position of multiplicity 2 and a fixed point. *)
Definition group_2_1 : Group :=
  {| g_number := 2; g_lattice_type := "triclinic";
     wyckoffs_organized := [[wp2b]; [wp1a]] |}.

(** A fixed orbit of multiplicity 4 listed before a free one of
    multiplicity 2. *)
Definition group_4_2 : Group :=
  {| g_number := 3; g_lattice_type := "monoclinic";
     wyckoffs_organized := [[wp4b_fixed]; [wp2a]] |}.

(** A general position of multiplicity 4 and a free one of multiplicity 2. *)
Definition group_4a_2b : Group :=
  {| g_number := 4; g_lattice_type := "monoclinic";
     wyckoffs_organized := [[wp4a]; [wp2b]] |}.

Record script : Type := {
  on_choose : Z -> option string -> option Wyckoff_position;
  on_merge : Wyckoff_position -> option Wyckoff_position;
  sites_compatible : bool;
  distances_ok : nat -> bool;
  objective : nat -> Q
}.

Definition sample_point : Point := {| px := 1 # 4; py := 1 # 3; pz := 1 # 5 |}.

Definition unit_lattice (resample : bool) (pbc : list Z) : Lattice :=
  {| lat_ltype := "triclinic"; lat_volume := 100; lat_PBC := pbc;
     lat_unique_axis := "c"; lat_thickness := None; lat_area := None;
     allow_volume_reset := resample; lat_matrix := identity3 |}.

Definition water : pyxtal_molecule :=
  {| mol_name := "H2O"; mol_natoms := 3; mol_radius := 1; mol_volume := 10 |}.

Definition providers (sc : script) : Providers nat nat unit :=
  {| Group_init := fun _ _ => group_2_1;
     choose_wyckoff := fun _ n site _ w => (on_choose sc n site, w);
     choose_wyckoff_molecular := fun _ n site _ _ _ w => (on_choose sc n site, w);
     cellsize := fun _ => 1;
     Lattice_init := fun lt vol pbc ax th ar w =>
       ({| lat_ltype := lt; lat_volume := vol; lat_PBC := pbc; lat_unique_axis := ax;
           lat_thickness := th; lat_area := ar; allow_volume_reset := true;
           lat_matrix := identity3 |}, w);
     reset_matrix := fun lat w => (lat, w);
     generate_point := fun _ w => (sample_point, w);
     Tol_matrix_init := fun _ => tt;
     get_tol := fun _ _ _ => 1%Q;
     covalent_radius := fun _ => 1%Q;
     vdw_radius := fun _ => 2%Q;
     random_uniform := fun a _ w => (a, w);
     WP_merge := fun pt _ wp _ _ w =>
       (match on_merge sc wp with
        | Some wp' => Merged pt wp' [O]
        | None => NoMerge None
        end, w);
     check_with_ws2 := fun _ _ _ _ => sites_compatible sc;
     mol_site_init := fun _ _ _ _ _ _ w => (w, w);
     check_with_ms2 := fun _ _ _ _ => sites_compatible sc;
     check_distances := fun _ _ w => distances_ok sc w;
     compute_distances := fun _ _ w => objective sc w;
     pyxtal_molecule_init := fun _ _ _ => water;
     orientation_in_wyckoff_position := fun _ _ _ w => ([O], w);
     choice_copy := fun oris w => (hd O oris, w);
     change_orientation := fun _ _ _ w => S w;
     ori_angle := fun _ _ => 0%Q;
     ori_degrees := fun _ _ => 1 |}.

(** The same collaborators for a centred group, whose conventional cell
    holds two primitive cells. *)
Definition centred (sc : script) : Providers nat nat unit :=
  {| Group_init := @Group_init nat nat unit (providers sc);
     choose_wyckoff := @choose_wyckoff nat nat unit (providers sc);
     choose_wyckoff_molecular := @choose_wyckoff_molecular nat nat unit (providers sc);
     cellsize := fun _ => 2;
     Lattice_init := @Lattice_init nat nat unit (providers sc);
     reset_matrix := @reset_matrix nat nat unit (providers sc);
     generate_point := @generate_point nat nat unit (providers sc);
     Tol_matrix_init := @Tol_matrix_init nat nat unit (providers sc);
     get_tol := @get_tol nat nat unit (providers sc);
     covalent_radius := @covalent_radius nat nat unit (providers sc);
     vdw_radius := @vdw_radius nat nat unit (providers sc);
     random_uniform := @random_uniform nat nat unit (providers sc);
     WP_merge := @WP_merge nat nat unit (providers sc);
     check_with_ws2 := @check_with_ws2 nat nat unit (providers sc);
     mol_site_init := @mol_site_init nat nat unit (providers sc);
     check_with_ms2 := @check_with_ms2 nat nat unit (providers sc);
     check_distances := @check_distances nat nat unit (providers sc);
     compute_distances := @compute_distances nat nat unit (providers sc);
     pyxtal_molecule_init := @pyxtal_molecule_init nat nat unit (providers sc);
     orientation_in_wyckoff_position := @orientation_in_wyckoff_position nat nat unit (providers sc);
     choice_copy := @choice_copy nat nat unit (providers sc);
     change_orientation := @change_orientation nat nat unit (providers sc);
     ori_angle := @ori_angle nat nat unit (providers sc);
     ori_degrees := @ori_degrees nat nat unit (providers sc) |}.

(** Positions are handed out by remaining count and kept as they are; every
    check passes. *)
Definition script_accept : script :=
  {| on_choose := fun n site =>
       match site with
       | Some "4a"%string => Some wp4a
       | Some "2b"%string => Some wp2b
       | Some _ => None
       | None => if 4 <=? n then Some wp4a else if 2 <=? n then Some wp2b else None
       end;
     on_merge := fun wp => Some wp;
     sites_compatible := true;
     distances_ok := fun _ => true;
     objective := fun _ => 1%Q |}.

(** The symmetry provider never offers a position. *)
Definition script_decline : script :=
  {| on_choose := fun _ _ => None;
     on_merge := fun wp => Some wp;
     sites_compatible := true;
     distances_ok := fun _ => true;
     objective := fun _ => 1%Q |}.

(** Every sampled point merges down to the position of multiplicity 2. *)
Definition script_merge_down : script :=
  {| on_choose := on_choose script_accept;
     on_merge := fun _ => Some wp2b;
     sites_compatible := true;
     distances_ok := fun _ => true;
     objective := fun _ => 1%Q |}.

(** Distances fail until the orientation has been turned four times; the
    objective grows with every turn. *)
Definition script_turning : script :=
  {| on_choose := on_choose script_accept;
     on_merge := fun wp => Some wp;
     sites_compatible := true;
     distances_ok := fun w => bool_decide (4 <= w)%nat;
     objective := fun w => (inject_Z (Z.of_nat w) / 4)%Q |}.

End Demo.

(** * Reasoning about methods *)

(** [wp m Q s]: running [m] from [s] ends in an outcome and a state that
    satisfy [Q]. *)
Definition wp {S A : Type} (m : M S A) (Q : Result A -> S -> Prop) (s : S) : Prop :=
  Q (m s).1 (m s).2.

(** The postcondition that [bind] hands to its first part. *)
Definition then_wp {S A B : Type} (k : A -> M S B) (Q : Result B -> S -> Prop)
    (r : Result A) (s : S) : Prop :=
  match r with
  | Ok a => wp (k a) Q s
  | Raise e => Q (Raise e) s
  | OutOfFuel => Q OutOfFuel s
  end.

(** [keeps R m]: whatever the outcome, the final state is [R]-related to the
    initial one. *)
Definition keeps {S A : Type} (R : relation S) (m : M S A) : Prop :=
  forall s, R s (m s).2.

Section Rules.

Context {S : Type}.

Lemma wp_ret {A} (a : A) (Q : Result A -> S -> Prop) s : Q (Ok a) s -> wp (ret a) Q s.
Proof. done. Qed.

Lemma wp_raise {A} e (Q : Result A -> S -> Prop) s : Q (Raise e) s -> wp (raise e) Q s.
Proof. done. Qed.

Lemma wp_lift {A} (r : Result A) (Q : Result A -> S -> Prop) s : Q r s -> wp (lift r) Q s.
Proof. done. Qed.

Lemma wp_gets {A} (f : S -> A) (Q : Result A -> S -> Prop) s :
  Q (Ok (f s)) s -> wp (gets f) Q s.
Proof. done. Qed.

Lemma wp_modify (f : S -> S) (Q : Result unit -> S -> Prop) s :
  Q (Ok tt) (f s) -> wp (modify f) Q s.
Proof. done. Qed.

Lemma wp_attr {A} (f : S -> option A) (Q : Result A -> S -> Prop) s :
  match f s with Some a => Q (Ok a) s | None => Q (Raise AttributeError) s end ->
  wp (attr f) Q s.
Proof. unfold wp, attr. by destruct (f s). Qed.

Lemma wp_bind {A B} (m : M S A) (k : A -> M S B) (Q : Result B -> S -> Prop) s :
  wp m (then_wp k Q) s -> wp (bind m k) Q s.
Proof. unfold wp, then_wp, bind. by destruct (m s) as [[a|e|] s']. Qed.

Lemma wp_bind_inv {A B} (m : M S A) (k : A -> M S B) (Q : Result B -> S -> Prop) s :
  wp (bind m k) Q s -> wp m (then_wp k Q) s.
Proof. unfold wp, then_wp, bind. by destruct (m s) as [[a|e|] s']. Qed.

Lemma wp_conseq {A} (m : M S A) (Q Q' : Result A -> S -> Prop) s :
  wp m Q s -> (forall r s', Q r s' -> Q' r s') -> wp m Q' s.
Proof. unfold wp. auto. Qed.

Lemma wp_of_run {A} (m : M S A) (Q : Result A -> S -> Prop) s r s' :
  m s = (r, s') -> Q r s' -> wp m Q s.
Proof. unfold wp. by intros ->. Qed.

Lemma wp_run {A} (m : M S A) (Q : Result A -> S -> Prop) s r s' :
  wp m Q s -> m s = (r, s') -> Q r s'.
Proof. unfold wp. intros H Heq. by rewrite Heq in H. Qed.

Context (R : relation S) (HR : PreOrder R).

Lemma keeps_ret {A} (a : A) : keeps R (ret a).
Proof. intros s. simpl. reflexivity. Qed.

Lemma keeps_raise {A} e : keeps R (raise (A:=A) e).
Proof. intros s. simpl. reflexivity. Qed.

Lemma keeps_lift {A} (r : Result A) : keeps R (lift r).
Proof. intros s. simpl. reflexivity. Qed.

Lemma keeps_gets {A} (f : S -> A) : keeps R (gets f).
Proof. intros s. simpl. reflexivity. Qed.

Lemma keeps_attr {A} (f : S -> option A) : keeps R (attr f).
Proof. intros s. unfold attr. destruct (f s); simpl; reflexivity. Qed.

Lemma keeps_modify (f : S -> S) : (forall s, R s (f s)) -> keeps R (modify f).
Proof. intros Hf s. apply Hf. Qed.

Lemma keeps_bind {A B} (m : M S A) (k : A -> M S B) :
  keeps R m -> (forall a, keeps R (k a)) -> keeps R (bind m k).
Proof.
  intros Hm Hk s. unfold bind. specialize (Hm s).
  destruct (m s) as [[a|e|] s']; simpl in *; try done.
  etransitivity; [exact Hm | apply Hk].
Qed.

Lemma keeps_wp {A} (m : M S A) s : keeps R m -> wp m (fun _ s' => R s s') s.
Proof. intros H. apply H. Qed.

End Rules.

(** One backward step through a method. *)
Ltac wp_step :=
  lazymatch goal with
  | |- wp (bind _ _) _ _ => apply wp_bind
  | |- wp (ret _) _ _ => apply wp_ret
  | |- wp (raise _) _ _ => apply wp_raise
  | |- wp (lift _) _ _ => apply wp_lift
  | |- wp (gets _) _ _ => apply wp_gets
  | |- wp (modify _) _ _ => apply wp_modify
  | |- wp (attr _) _ _ => apply wp_attr
  | |- then_wp ?k ?Q (Ok ?a) ?s => change (wp (k a) Q s); cbv beta
  | |- then_wp ?k ?Q (Raise ?e) ?s => change (Q (Raise e) s); cbv beta
  | |- then_wp ?k ?Q OutOfFuel ?s => change (Q OutOfFuel s); cbv beta
  end.

Ltac keeps_step :=
  lazymatch goal with
  | |- keeps _ (bind _ _) => apply keeps_bind; [typeclasses eauto | | intros ?]
  | |- keeps _ (ret _) => apply keeps_ret; typeclasses eauto
  | |- keeps _ (raise _) => apply keeps_raise; typeclasses eauto
  | |- keeps _ (lift _) => apply keeps_lift; typeclasses eauto
  | |- keeps _ (gets _) => apply keeps_gets; typeclasses eauto
  | |- keeps _ (attr _) => apply keeps_attr; typeclasses eauto
  | |- keeps _ (modify _) => apply keeps_modify
  | |- keeps _ (match ?x with _ => _ end) => destruct x
  | |- keeps _ (if ?b then _ else _) => destruct b
  | |- keeps _ (let '(_, _) := ?x in _) => destruct x
  end.

(** * Facts about the compatibility analyzer *)

Module CompatFacts.

Import Compat.

(** The cap that each analyzer stores for a position of multiplicity [m]. *)
Definition cap_atomic (numIon m : Z) (free : bool) : Z :=
  if free then numIon / m else if m <=? numIon then 1 else 0.

Definition cap_molecular (numIon m : Z) (free : bool) : Z :=
  if free then numIon / m else 1.

(** The three lists [l_mult], [l_maxn], [l_free] go in step and every cap is
    the one [cap] prescribes. *)
Inductive capped (cap : Z -> bool -> Z) : list Z -> list Z -> list bool -> Prop :=
| capped_nil : capped cap [] [] []
| capped_cons m f lm lx lf :
    1 <= m -> capped cap lm lx lf ->
    capped cap (m :: lm) (cap m f :: lx) (f :: lf).

(** Every multiplier lies between zero and its cap. *)
Definition bounded (n lx : list Z) : Prop :=
  Forall2 (fun v c => 0 <= v <= c) n lx.

Definition row_ok (numIon : Z) (r : row) : Prop :=
  let '(m, mx, _, _) := r in 1 <= m /\ mx = numIon / m.

Lemma wp_len_pos wp : 1 <= wp_len wp.
Proof. unfold wp_len. lia. Qed.

Lemma capped_snoc cap lm lx lf m f :
  capped cap lm lx lf -> 1 <= m ->
  capped cap (lm ++ [m]) (lx ++ [cap m f]) (lf ++ [f]).
Proof.
  induction 1 as [|m' f' lm lx lf Hm' _ IH]; intros Hm; simpl.
  - constructor; [done | constructor].
  - constructor; auto.
Qed.

Lemma capped_lookup cap lm lx lf i m f :
  capped cap lm lx lf -> lm !! i = Some m -> lf !! i = Some f ->
  lx !! i = Some (cap m f) /\ 1 <= m.
Proof.
  intros H. revert i. induction H as [|m' f' lm lx lf Hm' _ IH]; intros [|i] Hm Hf;
    simpl in *; try discriminate.
  - by simplify_eq.
  - by apply IH.
Qed.

Lemma capped_length cap lm lx lf :
  capped cap lm lx lf -> length lx = length lm /\ length lf = length lm.
Proof. induction 1; simpl; [done | lia]. Qed.

Lemma capped_mult_pos cap lm lx lf : capped cap lm lx lf -> Forall (fun m => 1 <= m) lm.
Proof. induction 1; constructor; auto. Qed.

Lemma capped_nonneg cap lm lx lf :
  (forall m f, 1 <= m -> 0 <= cap m f) ->
  capped cap lm lx lf -> Forall (fun c => 0 <= c) lx.
Proof. intros Hc. induction 1; constructor; auto. Qed.

Lemma cap_atomic_nonneg numIon m f : 0 <= numIon -> 1 <= m -> 0 <= cap_atomic numIon m f.
Proof.
  intros Hn Hm. unfold cap_atomic. destruct f.
  - apply Z.div_pos; lia.
  - destruct (m <=? numIon); lia.
Qed.

Lemma cap_molecular_nonneg numIon m f : 0 <= numIon -> 1 <= m -> 0 <= cap_molecular numIon m f.
Proof.
  intros Hn Hm. unfold cap_molecular. destruct f; [apply Z.div_pos|]; lia.
Qed.

(** *** The candidate lists *)

Lemma Forall_imap_all {A B : Type} (Q : B -> Prop) (l : list A) :
  forall f : nat -> A -> B, (forall i x, Q (f i x)) -> Forall Q (imap f l).
Proof.
  induction l as [|x l IH]; intros f Hf; [constructor|].
  rewrite imap_cons. constructor; [apply Hf|].
  apply IH. intros i y. apply Hf.
Qed.

Lemma rows_atomic_ok g numIon : Forall (row_ok numIon) (rows_atomic g numIon).
Proof.
  unfold rows_atomic. apply Forall_imap_all. intros i wp.
  split; [apply wp_len_pos | done].
Qed.

Lemma rows_molecular_from_ok {Ori : Type} g (vo : list (list (list (list Ori))))
    i_mol numIon wps : forall i_wp rs,
  rows_molecular_from g vo i_mol numIon i_wp wps = Ok rs -> Forall (row_ok numIon) rs.
Proof.
  induction wps as [|wp wps IH]; intros i_wp rs; simpl.
  - intros [= <-]. constructor.
  - destruct (jk_from_i i_wp (wyckoffs_organized g)) as [[j k]|]; [|done].
    destruct (index vo i_mol) as [per_mol| |]; simpl; try done.
    destruct (index per_mol j) as [per_class| |]; simpl; try done.
    destruct (index per_class k) as [oris| |]; simpl; try done.
    destruct (rows_molecular_from g vo i_mol numIon (S i_wp) wps) as [tl| |] eqn:Htl;
      simpl; try done.
    case_bool_decide; intros [= <-]; [constructor|]; eauto.
    split; [apply wp_len_pos | done].
Qed.

Lemma reduce_step_atomic_capped numIon used c r :
  row_ok numIon r ->
  capped (cap_atomic numIon) (l_mult c) (l_maxn c) (l_free c) ->
  let c' := reduce_step_atomic numIon used c r in
  capped (cap_atomic numIon) (l_mult c') (l_maxn c') (l_free c').
Proof.
  destruct r as [[[m mx] f] i]. intros [Hm ->] Hc. unfold reduce_step_atomic.
  destruct f.
  - case_bool_decide; [done|]. simpl.
    by apply (capped_snoc (cap_atomic numIon) _ _ _ m true).
  - case_bool_decide; [done|]. simpl.
    by apply (capped_snoc (cap_atomic numIon) _ _ _ m false).
Qed.

Lemma reduce_step_molecular_capped numIon used c r :
  row_ok numIon r ->
  capped (cap_molecular numIon) (l_mult c) (l_maxn c) (l_free c) ->
  let c' := reduce_step_molecular used c r in
  capped (cap_molecular numIon) (l_mult c') (l_maxn c') (l_free c').
Proof.
  destruct r as [[[m mx] f] i]. intros [Hm ->] Hc. unfold reduce_step_molecular.
  destruct f.
  - case_bool_decide; [done|]. simpl.
    by apply (capped_snoc (cap_molecular numIon) _ _ _ m true).
  - case_bool_decide; [done|]. simpl.
    by apply (capped_snoc (cap_molecular numIon) _ _ _ m false).
Qed.

Lemma reduce_atomic_capped numIon used rs :
  Forall (row_ok numIon) rs ->
  let c := reduce_atomic numIon used rs in
  capped (cap_atomic numIon) (l_mult c) (l_maxn c) (l_free c).
Proof.
  unfold reduce_atomic.
  assert (Hgen : forall c0, Forall (row_ok numIon) rs ->
    capped (cap_atomic numIon) (l_mult c0) (l_maxn c0) (l_free c0) ->
    let c := foldl (reduce_step_atomic numIon used) c0 rs in
    capped (cap_atomic numIon) (l_mult c) (l_maxn c) (l_free c)).
  { induction rs as [|r rs IH]; intros c0 Hrs Hc0; simpl; [done|].
    inversion Hrs; subst. apply IH; [done|]. by apply reduce_step_atomic_capped. }
  intros Hrs. apply Hgen; [done | constructor].
Qed.

Lemma reduce_molecular_capped numIon used rs :
  Forall (row_ok numIon) rs ->
  let c := reduce_molecular used rs in
  capped (cap_molecular numIon) (l_mult c) (l_maxn c) (l_free c).
Proof.
  unfold reduce_molecular.
  assert (Hgen : forall c0, Forall (row_ok numIon) rs ->
    capped (cap_molecular numIon) (l_mult c0) (l_maxn c0) (l_free c0) ->
    let c := foldl (reduce_step_molecular used) c0 rs in
    capped (cap_molecular numIon) (l_mult c) (l_maxn c) (l_free c)).
  { induction rs as [|r rs IH]; intros c0 Hrs Hc0; simpl; [done|].
    inversion Hrs; subst. apply IH; [done|]. by apply reduce_step_molecular_capped. }
  intros Hrs. apply Hgen; [done | constructor].
Qed.

(** *** The sweep keeps every multiplier within its cap *)

Lemma bounded_assign n lx i v c n' :
  bounded n lx -> lx !! i = Some c -> 0 <= v <= c ->
  assign n i v = Ok n' -> bounded n' lx.
Proof.
  intros Hb Hc Hv. unfold assign. case_bool_decide; [|done]. intros [= <-].
  rewrite <- (list_insert_id lx i c Hc). by apply Forall2_insert.
Qed.

Lemma bounded_zeros lx : Forall (fun c => 0 <= c) lx -> bounded (zeros (length lx)) lx.
Proof.
  induction 1 as [|c lx Hc _ IH]; simpl; [constructor|].
  constructor; [lia | exact IH].
Qed.

Lemma index_Ok {A : Type} (l : list A) i a : index l i = Ok a -> l !! i = Some a.
Proof. unfold index. destruct (l !! i); [by intros [= ->] | done]. Qed.

Lemma first_usable_bounded lx : forall todo n0 i s,
  Forall (fun c => 0 <= c) lx -> bounded n0 lx ->
  first_usable lx n0 i todo = Ok s -> bounded (sw_n s) lx.
Proof.
  induction todo as [|todo IH]; intros n0 i s Hlx Hb; simpl.
  - by intros [= <-].
  - destruct (index lx i) as [m| |] eqn:Hm; simpl; try done.
    apply index_Ok in Hm. case_bool_decide.
    + destruct (assign n0 i m) as [n| |] eqn:Hn; simpl; try done. intros [= <-]. simpl.
      eapply bounded_assign; eauto.
      pose proof (proj1 (Forall_lookup _ _) Hlx i m Hm) as Hpos. simpl in Hpos. lia.
    + by apply IH.
Qed.

Lemma backwards_bounded lx : forall p n p2 s,
  bounded n lx -> backwards n p p2 = Ok s -> bounded (sw_n s) lx.
Proof.
  induction p as [|p IH]; intros n p2 s Hb; simpl.
  - by intros [= <-].
  - case_bool_decide; [|by intros [= <-]].
    destruct (index n p) as [v| |] eqn:Hv; simpl; try done.
    apply index_Ok in Hv. case_bool_decide; [|by apply IH].
    destruct (assign n p (v - 1)) as [n'| |] eqn:Hn'; simpl; try done.
    destruct (Forall2_lookup_l _ _ _ _ _ Hb Hv) as (c & Hc & Hvc).
    assert (bounded n' lx) by (apply (bounded_assign n lx p (v - 1) c n'); [done|done|lia|done]).
    by destruct (_ && _); intros [= <-].
Qed.

Lemma sweep_step_bounded fl c numIon s o :
  Forall (fun m => 1 <= m) (l_mult c) ->
  bounded (sw_n s) (l_maxn c) ->
  sweep_step fl c numIon s = Ok o ->
  match o with
  | Continue s' => bounded (sw_n s') (l_maxn c)
  | Found n => bounded n (l_maxn c) /\ dot n (l_mult c) = numIon
  | Failed => True
  end.
Proof.
  intros Hm Hb. unfold sweep_step.
  case_bool_decide as Hnum; [by intros [= <-]|].
  destruct (_ && _); [by intros [= <-]|].
  set (num := dot (sw_n s) (l_mult c)) in *.
  case_bool_decide as Hlt.
  - case_bool_decide as Hp.
    + destruct (index (l_mult c) (S (sw_p s))) as [m| |] eqn:Him; cbn [rbind]; try done.
      destruct (index (l_maxn c) (S (sw_p s))) as [cap| |] eqn:Hic; cbn [rbind]; try done.
      apply index_Ok in Him, Hic.
      case_bool_decide; cbn [rbind]; [done|].
      destruct (assign (sw_n s) (S (sw_p s)) _) as [n1| |] eqn:Hn1; cbn [rbind]; try done.
      pose proof (proj1 (Forall_lookup _ _) Hm _ _ Him) as Hmpos. simpl in Hmpos.
      destruct (Forall2_lookup_r _ _ _ _ _ Hb Hic) as (v & Hv & Hvc).
      assert (Hb1 : bounded n1 (l_maxn c)).
      { eapply (bounded_assign (sw_n s) (l_maxn c) (S (sw_p s)) _ cap n1 Hb Hic); [|exact Hn1].
        assert (0 <= (numIon - num) / m) by (apply Z.div_pos; lia). lia. }
      case_bool_decide; cbn [rbind orb].
      * destruct (assign n1 (S (sw_p s)) 0) as [n2| |] eqn:Hn2; cbn [rbind]; try done.
        assert (bounded n2 (l_maxn c)).
        { apply (bounded_assign n1 (l_maxn c) (S (sw_p s)) 0 cap n2); [done|done|lia|done]. }
        destruct (backwards n2 _ _) as [s'| |] eqn:Hs'; cbn [rbind]; try done.
        intros [= <-]. eapply backwards_bounded; eauto.
      * by intros [= <-].
    + assert (Hback : forall b,
        (let? fwd := Ok (sw_n s, sw_p s, b) in
         let '(n1, p1, dobackwards) := fwd in
         if bool_decide (num > numIon) || dobackwards
         then let? n2 := assign n1 p1 0 in
              let? s' := backwards n2 p1 (sw_p2 s) in Ok (Continue s')
         else Ok (Continue {| sw_n := n1; sw_p := p1; sw_p2 := sw_p2 s |})) = Ok o ->
        match o with
        | Continue s' => bounded (sw_n s') (l_maxn c)
        | Found n => bounded n (l_maxn c) /\ dot n (l_mult c) = numIon
        | Failed => True
        end).
      { intros b. cbn [rbind]. destruct (_ || _).
        - destruct (assign (sw_n s) (sw_p s) 0) as [n2| |] eqn:Hn2; cbn [rbind]; try done.
          unfold assign in Hn2. case_bool_decide as Hin; [|done].
          injection Hn2 as <-.
          destruct (lookup_lt_is_Some_2 (sw_n s) (sw_p s) Hin) as [v Hv].
          destruct (Forall2_lookup_l _ _ _ _ _ Hb Hv) as (cap & Hcap & Hvc).
          assert (bounded (<[sw_p s:=0]> (sw_n s)) (l_maxn c)).
          { rewrite <- (list_insert_id (l_maxn c) _ _ Hcap). apply Forall2_insert; [done|lia]. }
          destruct (backwards _ _ _) as [s'| |] eqn:Hs'; cbn [rbind]; try done.
          intros [= <-]. eapply backwards_bounded; eauto.
        - by intros [= <-]. }
      destruct fl; apply Hback.
  - cbn [rbind orb]. case_bool_decide; cbn [rbind orb].
    + destruct (assign (sw_n s) (sw_p s) 0) as [n2| |] eqn:Hn2; cbn [rbind]; try done.
      unfold assign in Hn2. case_bool_decide as Hin; [|done].
      injection Hn2 as <-.
      destruct (lookup_lt_is_Some_2 (sw_n s) (sw_p s) Hin) as [v Hv].
      destruct (Forall2_lookup_l _ _ _ _ _ Hb Hv) as (cap & Hcap & Hvc).
      assert (bounded (<[sw_p s:=0]> (sw_n s)) (l_maxn c)).
      { rewrite <- (list_insert_id (l_maxn c) _ _ Hcap). apply Forall2_insert; [done|lia]. }
      destruct (backwards _ _ _) as [s'| |] eqn:Hs'; cbn [rbind]; try done.
      intros [= <-]. eapply backwards_bounded; eauto.
    + by intros [= <-].
Qed.

Lemma sweep_iter_bounded fl c numIon : forall k s s',
  Forall (fun m => 1 <= m) (l_mult c) ->
  bounded (sw_n s) (l_maxn c) ->
  sweep_iter k fl c numIon s = Some s' -> bounded (sw_n s') (l_maxn c).
Proof.
  induction k as [|k IH]; intros s s' Hm Hb; simpl.
  - by intros [= <-].
  - destruct (sweep_step fl c numIon s) as [o| |] eqn:Ho; try done.
    pose proof (sweep_step_bounded _ _ _ _ _ Hm Hb Ho) as Ho'.
    destruct o as [s1| |]; try done. by apply IH.
Qed.

Lemma sweep_found fl c numIon : forall fuel s n,
  Forall (fun m => 1 <= m) (l_mult c) ->
  bounded (sw_n s) (l_maxn c) ->
  sweep fuel fl c numIon s = Ok (Some n) ->
  bounded n (l_maxn c) /\ dot n (l_mult c) = numIon.
Proof.
  induction fuel as [|fuel IH]; intros s n Hm Hb; simpl; [done|].
  destruct (sweep_step fl c numIon s) as [o| |] eqn:Ho; simpl; try done.
  pose proof (sweep_step_bounded _ _ _ _ _ Hm Hb Ho) as Ho'.
  destruct o as [s1|n1|]; try done.
  - by apply IH.
  - by intros [= <-].
Qed.

(** A combination that sums to [numIon] gives nothing to a position whose
    multiplicity exceeds [numIon]. *)
Lemma dot_cons v n m lm : dot (v :: n) (m :: lm) = v * m + dot n lm.
Proof. reflexivity. Qed.

Lemma dot_nonneg : forall n lm lx,
  bounded n lx -> Forall (fun m => 1 <= m) lm -> 0 <= dot n lm.
Proof.
  induction n as [|v n IH]; intros [|m lm] lx Hb Hm; try (unfold dot; simpl; lia).
  rewrite dot_cons.
  apply Forall2_cons_inv_l in Hb as (cap & lx' & Hv & Hb & ->).
  apply Forall_cons in Hm as [Hm Hlm].
  specialize (IH lm lx' Hb Hlm). nia.
Qed.

Lemma dot_term_le : forall n lm lx i v m,
  bounded n lx -> Forall (fun m => 1 <= m) lm ->
  n !! i = Some v -> lm !! i = Some m -> v * m <= dot n lm.
Proof.
  induction n as [|v0 n IH]; intros [|m0 lm] lx [|i] v m Hb Hm Hv Hl;
    simpl in *; try done.
  - simplify_eq. rewrite dot_cons.
    apply Forall2_cons_inv_l in Hb as (cap & lx' & Hv & Hb & ->).
    apply Forall_cons in Hm as [Hm Hlm].
    pose proof (dot_nonneg n lm lx' Hb Hlm). lia.
  - rewrite dot_cons.
    apply Forall2_cons_inv_l in Hb as (cap & lx' & Hv0 & Hb & ->).
    apply Forall_cons in Hm as [Hm Hlm].
    specialize (IH lm lx' i v m Hb Hlm Hv Hl). nia.
Qed.

Lemma found_skips_large n lm lx numIon i m :
  bounded n lx -> Forall (fun m => 1 <= m) lm -> length n = length lm ->
  dot n lm = numIon -> lm !! i = Some m -> numIon < m -> n !! i = Some 0.
Proof.
  intros Hb Hm Hlen Hdot Hl Hbig.
  assert (Hi : (i < length n)%nat) by (rewrite Hlen; by eapply lookup_lt_Some).
  destruct (lookup_lt_is_Some_2 n i Hi) as [v Hv].
  pose proof (dot_term_le n lm lx i v m Hb Hm Hv Hl) as Ht.
  destruct (Forall2_lookup_l _ _ _ _ _ Hb Hv) as (cap & _ & Hvc).
  pose proof (proj1 (Forall_lookup _ _) Hm i m Hl) as Hmpos. simpl in Hmpos.
  rewrite Hv. f_equal. destruct (decide (v = 0)) as [|Hne]; [done|]. exfalso. nia.
Qed.

End CompatFacts.

(** * The analyzer's caps and used positions *)

Module CompatClaims.

Import Compat CompatFacts.

(** What it means for the sweep over the candidate lists [c] to respect the
    caps [cap]: the stored caps are those of [cap]; every state the sweep
    reaches keeps each multiplier between zero and its cap; and a
    combination that works gives nothing to a position whose multiplicity
    exceeds the requested count. *)
Definition caps_respected (fl : flavour) (cap : Z -> bool -> Z) (c : cand)
    (numIon : Z) : Prop :=
  (forall i m f, l_mult c !! i = Some m -> l_free c !! i = Some f ->
     l_maxn c !! i = Some (cap m f)) /\
  (forall s0 k s, sweep_init c = Ok s0 -> sweep_iter k fl c numIon s0 = Some s ->
     bounded (sw_n s) (l_maxn c)) /\
  (forall s0 fuel n i m, sweep_init c = Ok s0 ->
     sweep fuel fl c numIon s0 = Ok (Some n) ->
     l_mult c !! i = Some m -> numIon < m -> n !! i = Some 0).

Lemma sweep_init_bounded c s0 :
  length (l_maxn c) = length (l_mult c) ->
  Forall (fun cp => 0 <= cp) (l_maxn c) ->
  sweep_init c = Ok s0 -> bounded (sw_n s0) (l_maxn c).
Proof.
  intros Hlen Hpos. unfold sweep_init. rewrite <- Hlen.
  apply first_usable_bounded; [done|]. by apply bounded_zeros.
Qed.

Lemma capped_respected fl cap c numIon :
  (forall m f, 1 <= m -> 0 <= cap m f) ->
  capped cap (l_mult c) (l_maxn c) (l_free c) ->
  caps_respected fl cap c numIon.
Proof.
  intros Hcap Hc.
  destruct (capped_length _ _ _ _ Hc) as [Hlx Hlf].
  pose proof (capped_mult_pos _ _ _ _ Hc) as Hm.
  pose proof (capped_nonneg _ _ _ _ Hcap Hc) as Hpos.
  split; [|split].
  - intros i m f Hi Hf. by destruct (capped_lookup _ _ _ _ _ _ _ Hc Hi Hf).
  - intros s0 k s H0 Hk.
    eapply sweep_iter_bounded; [done| |exact Hk]. by apply sweep_init_bounded.
  - intros s0 fuel n i m H0 Hrun Hi Hbig.
    destruct (sweep_found fl c numIon fuel s0 n Hm) as [Hb Hdot]; [|done|].
    { by apply sweep_init_bounded. }
    eapply found_skips_large; eauto.
    rewrite (Forall2_length _ _ _ Hb). done.
Qed.

(** X13.  For an exact count the atomic analyzer caps the multipliers as
    follows, and keeps to the caps: it stores [numIon // mult] for a position
    with freedom, [1] for one without freedom whose multiplicity is at most
    the count and [0] for one whose multiplicity exceeds it; every state the
    sweep reaches keeps each multiplier between zero and its cap; and a
    combination that works gives nothing to a position whose multiplicity
    exceeds the count. *)
Theorem X13_atomic_multipliers_within_caps (numIon : Z) (Hcount : exact_count numIon) :
  forall (g : Group) (used : list nat),
    caps_respected Atomic (cap_atomic numIon)
      (reduce_atomic numIon used (rows_atomic g numIon)) numIon.
Proof.
  intros g used. destruct Hcount as [Hcount _]. apply capped_respected.
  - intros m f Hm. by apply cap_atomic_nonneg.
  - apply reduce_atomic_capped, rows_atomic_ok.
Qed.

Lemma X13_atomic_multipliers_witness :
  exact_count 2 /\
  caps_respected Atomic (cap_atomic 2)
    (reduce_atomic 2 [] (rows_atomic Demo.group_4_2 2)) 2.
Proof.
  assert (H : exact_count 2) by (unfold exact_count; lia).
  split; [exact H|].
  exact (X13_atomic_multipliers_within_caps 2 H Demo.group_4_2 []).
Defined.

(** The molecule of the examples has a valid orientation on both positions
    of the group. *)
Definition both_valid : list (list (list (list unit))) := [[[[tt]]; [[tt]]]; [[[tt]]; [[tt]]]].

(** C6 at the failing input.  With two entity types of count 1 on
    [Demo.group_2_1], the first type's combination gives multiplier 1 to the
    fixed point (position 1).  The atomic analyzer records that position and
    finds no combination for the second type; the molecular analyzer leaves
    [used_indices] empty, offers the position again and reports the
    composition compatible. *)
Theorem C6_molecular_reuses_fixed_orbit :
  check_type_atomic 50 Demo.group_2_1 1 carry0
    = Ok (Some {| has_freedom := false; used_indices := [1%nat] |}) /\
  check_compatible_atomic 50 Demo.group_2_1 [1; 1] = Ok (false, false) /\
  sweep 50 Molecular
    (reduce_molecular [] [(2, 0, true, O); (1, 1, false, 1%nat)]) 1
    {| sw_n := [0; 1]; sw_p := 1; sw_p2 := 1 |} = Ok (Some [0; 1]) /\
  check_type_molecular 50 Demo.group_2_1 both_valid O 1 carry0
    = Ok (Some {| has_freedom := false; used_indices := [] |}) /\
  indices (reduce_molecular [] [(2, 0, true, O); (1, 1, false, 1%nat)]) !! 1%nat
    = Some 1%nat /\
  check_compatible_molecular 50 Demo.group_2_1 both_valid [1; 1] = Ok (true, false).
Proof. vm_compute. repeat split; reflexivity. Qed.

End CompatClaims.

(** * [set_lattice] with a lattice supplied by the caller *)

Module LatticeClaims.

(** Every attribute of the atomic crystal other than [lattice] and [volume]
    is the same in [s] and [s'], and so is the state of the collaborators. *)
Definition atomic_rest_unchanged {World Tol : Type}
    (s s' : @random_crystal.state World Tol) : Prop :=
  random_crystal.dim s' = random_crystal.dim s /\
  random_crystal.PBC s' = random_crystal.PBC s /\
  random_crystal.thickness s' = random_crystal.thickness s /\
  random_crystal.area s' = random_crystal.area s /\
  random_crystal.source s' = random_crystal.source s /\
  random_crystal.valid s' = random_crystal.valid s /\
  random_crystal.group s' = random_crystal.group s /\
  random_crystal.number s' = random_crystal.number s /\
  random_crystal.numattempts s' = random_crystal.numattempts s /\
  random_crystal.lattice_attempts s' = random_crystal.lattice_attempts s /\
  random_crystal.coord_attempts s' = random_crystal.coord_attempts s /\
  random_crystal.factor s' = random_crystal.factor s /\
  random_crystal.numIons s' = random_crystal.numIons s /\
  random_crystal.formula s' = random_crystal.formula s /\
  random_crystal.species s' = random_crystal.species s /\
  random_crystal.sites s' = random_crystal.sites s /\
  random_crystal.tol_matrix s' = random_crystal.tol_matrix s /\
  random_crystal.degrees s' = random_crystal.degrees s /\
  random_crystal.cycle1 s' = random_crystal.cycle1 s /\
  random_crystal.cycle2 s' = random_crystal.cycle2 s /\
  random_crystal.atom_sites s' = random_crystal.atom_sites s /\
  random_crystal.world s' = random_crystal.world s.

Definition molecular_rest_unchanged {World Ori Tol : Type}
    (s s' : @molecular_crystal.state World Ori Tol) : Prop :=
  molecular_crystal.dim s' = molecular_crystal.dim s /\
  molecular_crystal.PBC s' = molecular_crystal.PBC s /\
  molecular_crystal.thickness s' = molecular_crystal.thickness s /\
  molecular_crystal.area s' = molecular_crystal.area s /\
  molecular_crystal.diag s' = molecular_crystal.diag s /\
  molecular_crystal.selec_high s' = molecular_crystal.selec_high s /\
  molecular_crystal.valid s' = molecular_crystal.valid s /\
  molecular_crystal.numattempts s' = molecular_crystal.numattempts s /\
  molecular_crystal.group s' = molecular_crystal.group s /\
  molecular_crystal.number s' = molecular_crystal.number s /\
  molecular_crystal.factor s' = molecular_crystal.factor s /\
  molecular_crystal.numMols s' = molecular_crystal.numMols s /\
  molecular_crystal.allow_inversion s' = molecular_crystal.allow_inversion s /\
  molecular_crystal.select_high s' = molecular_crystal.select_high s /\
  molecular_crystal.tol_matrix s' = molecular_crystal.tol_matrix s /\
  molecular_crystal.molecules s' = molecular_crystal.molecules s /\
  molecular_crystal.sites s' = molecular_crystal.sites s /\
  molecular_crystal.valid_orientations s' = molecular_crystal.valid_orientations s /\
  molecular_crystal.degrees s' = molecular_crystal.degrees s /\
  molecular_crystal.lattice_attempts s' = molecular_crystal.lattice_attempts s /\
  molecular_crystal.coord_attempts s' = molecular_crystal.coord_attempts s /\
  molecular_crystal.ori_attempts s' = molecular_crystal.ori_attempts s /\
  molecular_crystal.wyckoff_attempts s' = molecular_crystal.wyckoff_attempts s /\
  molecular_crystal.cycle1 s' = molecular_crystal.cycle1 s /\
  molecular_crystal.cycle2 s' = molecular_crystal.cycle2 s /\
  molecular_crystal.mol_sites s' = molecular_crystal.mol_sites s /\
  molecular_crystal.world s' = molecular_crystal.world s.

(** The caller's object [lat], kept under key [l], after the call: its [PBC]
    is the crystal's, its other attributes are as they were, and no other
    object of the pool is touched. *)
Definition caller_lattice_updated (l : nat) (lat : Lattice) (pbc : list Z)
    (h h' : gmap nat Lattice) : Prop :=
  (exists lat', h' !! l = Some lat' /\
     lat_PBC lat' = pbc /\
     lat_ltype lat' = lat_ltype lat /\
     lat_volume lat' = lat_volume lat /\
     lat_unique_axis lat' = lat_unique_axis lat /\
     lat_thickness lat' = lat_thickness lat /\
     lat_area lat' = lat_area lat /\
     allow_volume_reset lat' = allow_volume_reset lat /\
     lat_matrix lat' = lat_matrix lat) /\
  (forall l', l' ≠ l -> h' !! l' = h !! l') /\
  (lat_PBC lat = pbc -> h' = h).

Lemma atomic_set_lattice_supplied {World Ori Tol : Type} {P : Providers World Ori Tol}
    (s : @random_crystal.state World Tol) (l : nat) (lat : Lattice) :
  random_crystal.heap s !! l = Some lat ->
  let r := random_crystal.set_lattice (Some l) s in
  r.1 = Ok tt /\
  random_crystal.lattice r.2 = Some l /\
  random_crystal.volume r.2 = Some (lat_volume lat) /\
  caller_lattice_updated l lat (random_crystal.PBC s)
    (random_crystal.heap s) (random_crystal.heap r.2) /\
  atomic_rest_unchanged s r.2.
Proof.
  intros Hl. destruct s. simpl in Hl.
  unfold random_crystal.set_lattice, bind, modify, attr, gets, random_crystal.printx,
    random_crystal.emit, modify, ret. simpl. rewrite Hl. simpl.
  unfold caller_lattice_updated, atomic_rest_unchanged.
  case_bool_decide as Hpbc; simpl.
  - repeat split; try reflexivity.
    + eexists. rewrite lookup_insert_eq. repeat split; reflexivity.
    + intros l' Hne. by rewrite lookup_insert_ne.
    + intros Heq. done.
  - repeat split; try reflexivity.
    eexists. split; [exact Hl|]. repeat split; try reflexivity. exact Hpbc.
Qed.

Lemma molecular_set_lattice_supplied {World Ori Tol : Type} {P : Providers World Ori Tol}
    (s : @molecular_crystal.state World Ori Tol) (l : nat) (lat : Lattice) :
  molecular_crystal.heap s !! l = Some lat ->
  let r := molecular_crystal.set_lattice (Some l) s in
  r.1 = Ok tt /\
  molecular_crystal.lattice r.2 = Some l /\
  molecular_crystal.volume r.2 = Some (lat_volume lat) /\
  caller_lattice_updated l lat (molecular_crystal.PBC s)
    (molecular_crystal.heap s) (molecular_crystal.heap r.2) /\
  molecular_rest_unchanged s r.2.
Proof.
  intros Hl. destruct s. simpl in Hl.
  unfold molecular_crystal.set_lattice, bind, modify, attr, gets, molecular_crystal.printx,
    molecular_crystal.emit, modify, ret. simpl. rewrite Hl. simpl.
  unfold caller_lattice_updated, molecular_rest_unchanged.
  case_bool_decide as Hpbc; simpl.
  - repeat split; try reflexivity.
    + eexists. rewrite lookup_insert_eq. repeat split; reflexivity.
    + intros l' Hne. by rewrite lookup_insert_ne.
    + intros Heq. done.
  - repeat split; try reflexivity.
    eexists. split; [exact Hl|]. repeat split; try reflexivity. exact Hpbc.
Qed.

(** C9.  When the caller supplies a lattice object (key [l] of the pool,
    holding [lat]), [set_lattice] of either class returns normally, makes
    the crystal refer to that very object, replaces the crystal's volume by
    the object's, writes the crystal's [PBC] into the object (a write that
    changes nothing when they already agree) and leaves every other
    attribute of the crystal, every other object and the collaborators'
    state as they were. *)
Theorem C9_supplied_lattice_is_shared_and_volume_replaced
    {World Ori Tol : Type} {P : Providers World Ori Tol} (l : nat) (lat : Lattice) :
  (forall s : @random_crystal.state World Tol,
     random_crystal.heap s !! l = Some lat ->
     let r := random_crystal.set_lattice (Some l) s in
     r.1 = Ok tt /\
     random_crystal.lattice r.2 = Some l /\
     random_crystal.volume r.2 = Some (lat_volume lat) /\
     caller_lattice_updated l lat (random_crystal.PBC s)
       (random_crystal.heap s) (random_crystal.heap r.2) /\
     atomic_rest_unchanged s r.2) /\
  (forall s : @molecular_crystal.state World Ori Tol,
     molecular_crystal.heap s !! l = Some lat ->
     let r := molecular_crystal.set_lattice (Some l) s in
     r.1 = Ok tt /\
     molecular_crystal.lattice r.2 = Some l /\
     molecular_crystal.volume r.2 = Some (lat_volume lat) /\
     caller_lattice_updated l lat (molecular_crystal.PBC s)
       (molecular_crystal.heap s) (molecular_crystal.heap r.2) /\
     molecular_rest_unchanged s r.2).
Proof.
  split; intros s Hl.
  - by apply atomic_set_lattice_supplied.
  - by apply molecular_set_lattice_supplied.
Qed.

(** A caller's lattice with the wrong periodic axes, under key 5. *)
Definition shared_pool : gmap nat Lattice := {[ 5%nat := Demo.unit_lattice false [1; 1; 0] ]}.

Lemma C9_supplied_lattice_witness :
  let P := Demo.providers Demo.script_accept in
  let s := @random_crystal.new nat unit 3 [1; 1; 1] None None shared_pool O in
  let m := @molecular_crystal.new nat nat unit 3 [1; 1; 1] None None false shared_pool O in
  (random_crystal.heap s !! 5%nat = Some (Demo.unit_lattice false [1; 1; 0]) /\
   random_crystal.heap (random_crystal.set_lattice (Some 5%nat) s).2 !! 5%nat
     = Some (Demo.unit_lattice false [1; 1; 1]) /\
   atomic_rest_unchanged s (random_crystal.set_lattice (Some 5%nat) s).2) /\
  (molecular_crystal.heap m !! 5%nat = Some (Demo.unit_lattice false [1; 1; 0]) /\
   molecular_crystal.volume (molecular_crystal.set_lattice (Some 5%nat) m).2 = Some 100%Q /\
   molecular_rest_unchanged m (molecular_crystal.set_lattice (Some 5%nat) m).2).
Proof.
  intros P s m.
  pose proof (@C9_supplied_lattice_is_shared_and_volume_replaced nat nat unit P 5%nat
                (Demo.unit_lattice false [1; 1; 0])) as [Ha Hm].
  assert (Hs : random_crystal.heap s !! 5%nat = Some (Demo.unit_lattice false [1; 1; 0]))
    by reflexivity.
  assert (Hh : molecular_crystal.heap m !! 5%nat = Some (Demo.unit_lattice false [1; 1; 0]))
    by reflexivity.
  split.
  - split; [exact Hs|]. split; [reflexivity|].
    exact (proj2 (proj2 (proj2 (proj2 (Ha s Hs))))).
  - split; [exact Hh|]. split.
    + exact (proj1 (proj2 (proj2 (Hm m Hh)))).
    + exact (proj2 (proj2 (proj2 (proj2 (Hm m Hh))))).
Defined.

End LatticeClaims.

(** * Frames of the atomic search *)

Module AtomicFacts.

Import random_crystal.

Section Frames.

Context {World Ori Tol : Type} {P : Providers World Ori Tol}.

Local Abbreviation state := (@random_crystal.state World Tol).

(** Events that mark neither a call of the analyzer nor a trial of the
    assembly loop, and print nothing. *)
Definition quiet (e : Event) : Prop :=
  match e with
  | CallFunDist _ => True
  | _ => False
  end.

(** The trace only grows. *)
Definition trace_grows (s s' : state) : Prop :=
  exists evs, trace s' = trace s ++ evs.

(** What one placement search may change: the collaborators' state, the
    attempt counter and [valid]; it emits quiet events only. *)
Definition search_frame (s s' : state) : Prop :=
  dim s' = dim s /\ PBC s' = PBC s /\ thickness s' = thickness s /\
  area s' = area s /\ source s' = source s /\ group s' = group s /\
  number s' = number s /\ lattice_attempts s' = lattice_attempts s /\
  coord_attempts s' = coord_attempts s /\ factor s' = factor s /\
  numIons s' = numIons s /\ formula s' = formula s /\ species s' = species s /\
  sites s' = sites s /\ tol_matrix s' = tol_matrix s /\ degrees s' = degrees s /\
  volume s' = volume s /\ lattice s' = lattice s /\ cycle1 s' = cycle1 s /\
  cycle2 s' = cycle2 s /\ atom_sites s' = atom_sites s /\ heap s' = heap s /\
  exists evs, trace s' = trace s ++ evs /\ Forall quiet evs.

Global Instance trace_grows_preorder : PreOrder trace_grows.
Proof.
  split.
  - intros s. exists []. by rewrite app_nil_r.
  - intros s1 s2 s3 [e1 H1] [e2 H2]. exists (e1 ++ e2).
    by rewrite H2, H1, app_assoc.
Qed.

Global Instance search_frame_preorder : PreOrder search_frame.
Proof.
  split.
  - intros s. unfold search_frame. repeat split; try reflexivity.
    exists []. by rewrite app_nil_r.
  - intros s1 s2 s3 H1 H2. unfold search_frame in *.
    destruct H1 as (?&?&?&?&?&?&?&?&?&?&?&?&?&?&?&?&?&?&?&?&?&?&e1&He1&Hq1).
    destruct H2 as (?&?&?&?&?&?&?&?&?&?&?&?&?&?&?&?&?&?&?&?&?&?&e2&He2&Hq2).
    repeat split; try congruence.
    exists (e1 ++ e2). split; [by rewrite He2, He1, app_assoc | by apply Forall_app].
Qed.

Lemma search_frame_grows s s' : search_frame s s' -> trace_grows s s'.
Proof.
  intros (?&?&?&?&?&?&?&?&?&?&?&?&?&?&?&?&?&?&?&?&?&?&e&He&_). by exists e.
Qed.

Lemma keeps_weaken {A} (R R' : relation state) (m : M state A) :
  (forall s s', R s s' -> R' s s') -> keeps R m -> keeps R' m.
Proof. intros HR Hm s. apply HR, Hm. Qed.

Lemma keeps_call (R : relation state) {A} (f : World -> A * World) :
  (forall s w, R s (with_world w s)) -> keeps R (call f).
Proof. intros H s. unfold call. destruct (f (world s)). apply H. Qed.

End Frames.

(** Closes a frame obligation about one attribute update. *)
Ltac frame_update :=
  intros; repeat match goal with s : random_crystal.state |- _ => destruct s end;
  first
    [ by (eexists; simpl; reflexivity)
    | by (eexists; simpl; rewrite app_nil_r)
    | (unfold search_frame; simpl; repeat split; try reflexivity;
       first [ by (exists []; rewrite app_nil_r)
             | by (eexists; split; [reflexivity | repeat constructor]) ]) ].

Ltac keeps_atomic :=
  repeat first
    [ keeps_step
    | apply keeps_call
    | progress unfold bump_numattempts, the_lattice, printx, emit
    | frame_update ].

Section Search.

Context {World Ori Tol : Type} {P : Providers World Ori Tol}.

Lemma keeps_ion_trial numIon specie cell wyks tol tm L :
  keeps search_frame (ion_trial numIon specie cell wyks tol tm L).
Proof. unfold ion_trial, flatten_merge. keeps_atomic. Qed.

Lemma keeps_ion_loop numIon specie cell wyks tol tm : forall todo L,
  keeps search_frame (ion_loop todo numIon specie cell wyks tol tm L).
Proof.
  induction todo as [|todo IH]; intros L; simpl.
  - keeps_atomic.
  - apply keeps_bind; [typeclasses eauto | apply keeps_ion_trial |]. intros [L' [l|]]; [keeps_atomic | apply IH].
Qed.

Lemma keeps_set_ion_wyckoffs numIon specie cell wyks :
  keeps search_frame (_set_ion_wyckoffs numIon specie cell wyks).
Proof.
  unfold _set_ion_wyckoffs.
  repeat first [ apply keeps_ion_loop | keeps_step ].
Qed.

Lemma keeps_coords_from cell : forall todo wyks,
  keeps search_frame (coords_from todo cell wyks).
Proof.
  induction todo as [|[numIon specie] todo IH]; intros wyks; simpl.
  - keeps_atomic.
  - apply keeps_bind; [typeclasses eauto | apply keeps_set_ion_wyckoffs |].
    intros [l|]; [apply IH | keeps_atomic].
Qed.

Lemma keeps_set_coords : keeps search_frame _set_coords.
Proof.
  unfold _set_coords. repeat first [ apply keeps_coords_from | keeps_atomic ].
Qed.

Lemma grows_set_coords : keeps trace_grows _set_coords.
Proof. eapply keeps_weaken; [apply search_frame_grows | apply keeps_set_coords]. Qed.

Lemma grows_coord_loop : forall todo c2, keeps trace_grows (coord_loop todo c2).
Proof.
  induction todo as [|todo IH]; intros c2; simpl.
  - keeps_atomic.
  - repeat first [ apply grows_set_coords | apply IH | keeps_atomic ].
Qed.

Lemma grows_lattice_loop : forall todo c1, keeps trace_grows (lattice_loop todo c1).
Proof.
  induction todo as [|todo IH]; intros c1; simpl.
  - keeps_atomic.
  - repeat first [ apply grows_coord_loop | apply IH | keeps_atomic ].
Qed.

Lemma grows_set_crystal : keeps trace_grows set_crystal.
Proof.
  unfold set_crystal. repeat first [ apply grows_lattice_loop | keeps_atomic ].
Qed.

Lemma grows_volume_sum : forall todo vol, keeps trace_grows (volume_sum todo vol).
Proof.
  induction todo as [|[numIon specie] todo IH]; intros vol; simpl.
  - keeps_atomic.
  - repeat first [ apply IH | keeps_atomic ].
Qed.

Lemma grows_set_volume : keeps trace_grows set_volume.
Proof. unfold set_volume. repeat first [ apply grows_volume_sum | keeps_atomic ]. Qed.

Lemma grows_set_lattice lattice_ : keeps trace_grows (set_lattice lattice_).
Proof. unfold set_lattice. keeps_atomic. Qed.

End Search.

End AtomicFacts.

(** * Frames of the molecular search *)

Module MolecularFacts.

Import molecular_crystal.

Section Frames.

Context {World Ori Tol : Type} {P : Providers World Ori Tol}.

Local Abbreviation state := (@molecular_crystal.state World Ori Tol).

Definition trace_grows (s s' : state) : Prop :=
  exists evs, trace s' = trace s ++ evs.

(** What one placement search may change: the collaborators' state, the
    attempt counter, [wyckoff_attempts] and [valid]; it emits quiet events
    only. *)
Definition search_frame (s s' : state) : Prop :=
  dim s' = dim s /\ PBC s' = PBC s /\ thickness s' = thickness s /\
  area s' = area s /\ diag s' = diag s /\ selec_high s' = selec_high s /\
  group s' = group s /\ number s' = number s /\ factor s' = factor s /\
  numMols s' = numMols s /\ allow_inversion s' = allow_inversion s /\
  select_high s' = select_high s /\ tol_matrix s' = tol_matrix s /\
  molecules s' = molecules s /\ sites s' = sites s /\
  valid_orientations s' = valid_orientations s /\ degrees s' = degrees s /\
  volume s' = volume s /\ lattice s' = lattice s /\
  lattice_attempts s' = lattice_attempts s /\ coord_attempts s' = coord_attempts s /\
  ori_attempts s' = ori_attempts s /\ cycle1 s' = cycle1 s /\ cycle2 s' = cycle2 s /\
  mol_sites s' = mol_sites s /\ heap s' = heap s /\
  exists evs, trace s' = trace s ++ evs /\ Forall AtomicFacts.quiet evs.

Global Instance trace_grows_preorder : PreOrder trace_grows.
Proof.
  split.
  - intros s. exists []. by rewrite app_nil_r.
  - intros s1 s2 s3 [e1 H1] [e2 H2]. exists (e1 ++ e2).
    by rewrite H2, H1, app_assoc.
Qed.

Global Instance search_frame_preorder : PreOrder search_frame.
Proof.
  split.
  - intros s. unfold search_frame. repeat split; try reflexivity.
    exists []. by rewrite app_nil_r.
  - intros s1 s2 s3 H1 H2. unfold search_frame in *.
    destruct H1 as (?&?&?&?&?&?&?&?&?&?&?&?&?&?&?&?&?&?&?&?&?&?&?&?&?&?&e1&He1&Hq1).
    destruct H2 as (?&?&?&?&?&?&?&?&?&?&?&?&?&?&?&?&?&?&?&?&?&?&?&?&?&?&e2&He2&Hq2).
    repeat split; try congruence.
    exists (e1 ++ e2). split; [by rewrite He2, He1, app_assoc | by apply Forall_app].
Qed.

Lemma mol_search_frame_grows s s' : search_frame s s' -> trace_grows s s'.
Proof.
  intros (?&?&?&?&?&?&?&?&?&?&?&?&?&?&?&?&?&?&?&?&?&?&?&?&?&?&e&He&_). by exists e.
Qed.

Lemma mol_keeps_weaken {A} (R R' : relation state) (m : M state A) :
  (forall s s', R s s' -> R' s s') -> keeps R m -> keeps R' m.
Proof. intros HR Hm s. apply HR, Hm. Qed.

Lemma mol_keeps_call (R : relation state) {A} (f : World -> A * World) :
  (forall s w, R s (with_world w s)) -> keeps R (call f).
Proof. intros H s. unfold call. destruct (f (world s)). apply H. Qed.

End Frames.

Ltac frame_update :=
  intros; repeat match goal with s : molecular_crystal.state |- _ => destruct s end;
  first
    [ by (eexists; simpl; reflexivity)
    | by (eexists; simpl; rewrite app_nil_r)
    | (unfold search_frame; simpl; repeat split; try reflexivity;
       first [ by (exists []; rewrite app_nil_r)
             | by (eexists; split; [reflexivity | repeat constructor]) ]) ].

Ltac keeps_molecular :=
  repeat first
    [ keeps_step
    | apply mol_keeps_call
    | progress unfold bump_numattempts, the_lattice, printx, emit, make_site, fun_dist
    | frame_update ].

Section Search.

Context {World Ori Tol : Type} {P : Providers World Ori Tol}.

Lemma keeps_bisect_turn ms0 ori mo pt wp B :
  keeps search_frame (bisect_turn ms0 ori mo pt wp B).
Proof. unfold bisect_turn. keeps_molecular. Qed.

Lemma keeps_bisect_loop ms0 ori mo pt wp : forall todo B,
  keeps search_frame (bisect_loop todo ms0 ori mo pt wp B).
Proof.
  induction todo as [|todo IH]; intros B; simpl.
  - keeps_molecular.
  - apply keeps_bind; [typeclasses eauto | apply keeps_bisect_turn |].
    intros [ms|B']; [keeps_molecular | apply IH].
Qed.

Lemma keeps_set_orientation pyxtal_mol pt oris wp :
  keeps search_frame (_set_orientation pyxtal_mol pt oris wp).
Proof.
  unfold _set_orientation. repeat first [ apply keeps_bisect_loop | keeps_molecular ].
Qed.

Lemma keeps_mol_trial numMol pyxtal_mol valid_ori mol_wyks L :
  keeps search_frame (mol_trial numMol pyxtal_mol valid_ori mol_wyks L).
Proof.
  unfold mol_trial. repeat first [ apply keeps_set_orientation | keeps_molecular ].
Qed.

Lemma keeps_mol_loop numMol pyxtal_mol valid_ori mol_wyks : forall todo L,
  keeps search_frame (mol_loop todo numMol pyxtal_mol valid_ori mol_wyks L).
Proof.
  induction todo as [|todo IH]; intros L; simpl.
  - keeps_molecular.
  - apply keeps_bind; [typeclasses eauto | apply keeps_mol_trial |].
    intros [L' [l|]]; [keeps_molecular | apply IH].
Qed.

Lemma keeps_set_mol_wyckoffs id numMol pyxtal_mol valid_ori mol_wyks :
  keeps search_frame (_set_mol_wyckoffs id numMol pyxtal_mol valid_ori mol_wyks).
Proof.
  unfold _set_mol_wyckoffs. repeat first [ apply keeps_mol_loop | keeps_molecular ].
Qed.

Lemma mol_keeps_coords_from : forall todo i total,
  keeps search_frame (coords_from i todo total).
Proof.
  induction todo as [|numMol todo IH]; intros i total; simpl.
  - keeps_molecular.
  - repeat first [ apply keeps_set_mol_wyckoffs | apply IH | keeps_molecular ].
Qed.

Lemma mol_keeps_set_coords : keeps search_frame _set_coords.
Proof.
  unfold _set_coords. repeat first [ apply mol_keeps_coords_from | keeps_molecular ].
Qed.

Lemma mol_grows_set_coords : keeps (@trace_grows World Ori Tol) _set_coords.
Proof. eapply mol_keeps_weaken; [apply mol_search_frame_grows | apply mol_keeps_set_coords]. Qed.

Lemma mol_grows_coord_loop : forall todo c2, keeps (@trace_grows World Ori Tol) (coord_loop todo c2).
Proof.
  induction todo as [|todo IH]; intros c2; simpl.
  - keeps_molecular.
  - repeat first [ apply mol_grows_set_coords | apply IH | keeps_molecular ].
Qed.

Lemma mol_grows_lattice_loop : forall todo c1, keeps (@trace_grows World Ori Tol) (lattice_loop todo c1).
Proof.
  induction todo as [|todo IH]; intros c1; simpl.
  - keeps_molecular.
  - repeat first [ apply mol_grows_coord_loop | apply IH | keeps_molecular ].
Qed.

Lemma mol_grows_set_crystal : keeps (@trace_grows World Ori Tol) set_crystal.
Proof.
  unfold set_crystal. repeat first [ apply mol_grows_lattice_loop | keeps_molecular ].
Qed.

Lemma mol_grows_set_volume : keeps (@trace_grows World Ori Tol) set_volume.
Proof. unfold set_volume. keeps_molecular. Qed.

Lemma mol_grows_set_lattice lattice_ : keeps (@trace_grows World Ori Tol) (set_lattice lattice_).
Proof. unfold set_lattice. keeps_molecular. Qed.

End Search.

End MolecularFacts.

(** * Input validation in [init_common] *)

Module InitClaims.

(** [q] denotes an integer. *)
Definition is_integer (q : Q) : Prop := exists z : Z, (q == inject_Z z)%Q.

(** A requested count that the claim calls invalid. *)
Definition invalid_count (q : Q) : Prop := (q <= 0)%Q \/ ~ is_integer q.

Lemma bad_count_invalid (q : Q) : invalid_count q -> random_crystal.bad_count q = true.
Proof.
  intros [Hle | Hint]; unfold random_crystal.bad_count; apply orb_true_iff.
  - right. unfold Qlt_bool. apply negb_true_iff.
    destruct (Qle_bool 1 q) eqn:H1; [|done].
    apply Qle_bool_iff in H1. exfalso.
    assert (H : (1 <= 0)%Q) by (eapply Qle_trans; eauto).
    unfold Qle in H. simpl in H. lia.
  - left. apply negb_true_iff.
    destruct (Qeq_bool (inject_Z (Qtrunc q)) q) eqn:He; [|done].
    apply Qeq_bool_iff in He. exfalso. apply Hint. exists (Qtrunc q). by symmetry.
Qed.

Lemma existsb_bad_count (numIons_ : list Q) :
  (exists q, q ∈ numIons_ /\ invalid_count q) ->
  existsb random_crystal.bad_count numIons_ = true.
Proof.
  intros (q & Hin & Hq). apply existsb_exists. exists q. split.
  - by apply list_elem_of_In.
  - by apply bad_count_invalid.
Qed.

(** C1, as the code has it.  In the atomic entry point, a composition that
    contains a count that is not positive or not an integer makes
    [init_common] print its error message and return [False] at once: no
    exception is raised, and the object is left with [source] and [valid]
    assigned and nothing else, so that neither the consistency check, nor the
    compatibility analyzer, nor the search has run. *)
Theorem C1_atomic_invalid_count_prints_and_returns_false
    {World Ori Tol : Type} {P : Providers World Ori Tol}
    (fuel : nat) (species_ : list string) (numIons_ : list Q) (factor_ : Q)
    (group_ : Group + Z) (lattice_ : option nat)
    (sites_ : option (list (option (list string)))) (conventional : bool)
    (tm : Tol + string) (s : @random_crystal.state World Tol) :
  (exists q, q ∈ numIons_ /\ invalid_count q) ->
  random_crystal.init_common fuel species_ numIons_ factor_ group_ lattice_ sites_
    conventional tm s
  = (Ok (Some false),
     random_crystal.with_trace (random_crystal.trace s ++ [Printx MsgComposition])
       (random_crystal.with_valid false (random_crystal.with_source "Random" s))).
Proof.
  intros Hbad. apply existsb_bad_count in Hbad.
  unfold random_crystal.init_common. destruct s.
  unfold bind, modify. simpl. rewrite Hbad. reflexivity.
Qed.

Lemma C1_atomic_invalid_count_witness :
  let P := Demo.providers Demo.script_accept in
  let s := @random_crystal.new nat unit 3 [1; 1; 1] None None ∅ O in
  let r := random_crystal.init_common 50 ["C"%string] [(5 # 2)%Q] float_1_1
             (inl Demo.group_4a_2b) None None true (inl tt) s in
  (exists q, q ∈ [(5 # 2)%Q] /\ invalid_count q) /\
  r.1 = Ok (Some false) /\ random_crystal.trace r.2 = [Printx MsgComposition].
Proof.
  intros P s r.
  assert (H : exists q, q ∈ [(5 # 2)%Q] /\ invalid_count q).
  { exists (5 # 2)%Q. split; [apply list_elem_of_here|]. right. intros [z Hz].
    unfold Qeq in Hz. simpl in Hz. lia. }
  split; [exact H|].
  unfold r.
  rewrite (@C1_atomic_invalid_count_prints_and_returns_false nat nat unit P 50
             ["C"%string] [(5 # 2)%Q] float_1_1 (inl Demo.group_4a_2b) None None true
             (inl tt) s H).
  split; reflexivity.
Defined.

(** C1 as stated fails at the count 0.  The atomic entry point raises
    nothing: it returns [False].  The molecular entry point has no check of
    the counts: it runs the analyzer (which here accepts the composition) and
    then the search. *)
Lemma C1_no_error_raised_counterexample :
  let P := Demo.providers Demo.script_decline in
  let s := @random_crystal.new nat unit 3 [1; 1; 1] None None ∅ O in
  let r := random_crystal.init_common 50 ["C"%string] [0%Q] float_1_1
             (inl Demo.group_2_1) None None true (inl tt) s in
  let m := @molecular_crystal.new nat nat unit 3 [1; 1; 1] None None false
             LatticeClaims.shared_pool O in
  let rm := molecular_crystal.init_common 50 ["H2O"%string] [0] float_1_1 true true None
              (inl Demo.group_2_1) (Some 5%nat) None None true (inl tt) m in
  invalid_count 0 /\
  r.1 = Ok (Some false) /\ (forall e, r.1 <> Raise e) /\
  rm.1 = Ok tt /\ (forall e, rm.1 <> Raise e) /\
  molecular_crystal.trace rm.2 =
    [CallCheckCompatible; Printx (MsgPBCWarning [1; 1; 1]);
     CallSetCoords 0 0; CallSetCoords 0 1; CallSetCoords 0 2;
     CallResetMatrix; Printx MsgNoCrystal].
Proof.
  intros P s r m rm.
  split; [left; discriminate|].
  assert (Hr : r.1 = Ok (Some false)) by (vm_compute; reflexivity).
  assert (Hrm : rm.1 = Ok tt) by (vm_compute; reflexivity).
  split; [exact Hr|]. split; [intros e; rewrite Hr; discriminate|].
  split; [exact Hrm|]. split; [intros e; rewrite Hrm; discriminate|].
  vm_compute. reflexivity.
Qed.

End InitClaims.

(** * The consistency check of pre-assigned site lists *)

Module SitesFacts.

Lemma check_consistency_ok site numIon :
  labels_total site 0 = Some numIon -> _check_consistency site numIon = Ok true.
Proof.
  intros H. unfold _check_consistency. rewrite H. by rewrite bool_decide_eq_true_2.
Qed.

Lemma check_consistency_bad site numIon :
  labels_total site 0 ≠ Some numIon -> _check_consistency site numIon = Raise ValueError.
Proof.
  intros H. unfold _check_consistency. destruct (labels_total site 0) as [num|]; [|done].
  rewrite bool_decide_eq_false_2; [done|]. intros ->. by apply H.
Qed.

Lemma check_consistency_cases site numIon :
  _check_consistency site numIon = Ok true \/
  _check_consistency site numIon = Raise ValueError.
Proof.
  unfold _check_consistency. destruct (labels_total site 0) as [num|]; [|by right].
  case_bool_decide; [by left | by right].
Qed.

(** The pre-assigned lists agree with the counts: every entity type below
    [n_types] has an entry, and a supplied list encodes exactly the count of
    its type. *)
Definition consistent (sites_ : option (list (option (list string))))
    (nums : list Z) (n_types : nat) : Prop :=
  match sites_ with
  | None => True
  | Some l =>
      forall j, (j < n_types)%nat ->
        exists entry, l !! j = Some entry /\
          forall site, entry = Some site ->
            exists numIon, nums !! j = Some numIon /\ labels_total site 0 = Some numIon
  end.

Section Atomic.

Import random_crystal.

Context {World Ori Tol : Type} {P : Providers World Ori Tol}.

Lemma atomic_set_sites_from_raises (l : list (option (list string))) (nums : list Z)
    (i : nat) (site : list string) (numIon : Z) :
  l !! i = Some (Some site) -> nums !! i = Some numIon ->
  labels_total site 0 ≠ Some numIon ->
  forall (todo : list string) (i0 : nat) (s : @state World Tol),
    numIons s = Some nums -> is_Some (sites s) -> (i0 <= i < i0 + length todo)%nat ->
    exists s', set_sites_from (Some l) i0 todo s = (Raise ValueError, s') /\
               trace s' = trace s.
Proof.
  intros Hl Hn Hbad. induction todo as [|specie todo IH]; intros i0 s Hnums [d Hd] Hi.
  { simpl in Hi. lia. }
  destruct s. simpl in Hnums, Hd. subst.
  assert (Hi0 : (i0 < length l)%nat).
  { apply lookup_lt_Some in Hl. lia. }
  destruct (lookup_lt_is_Some_2 l i0 Hi0) as [entry He].
  cbn [set_sites_from]. unfold bind at 1. unfold lift at 1, index at 1. rewrite He.
  destruct entry as [site0|].
  - unfold bind at 1, attr at 1. cbn [numIons].
    assert (Hi0' : (i0 < length nums)%nat).
    { apply lookup_lt_Some in Hn. lia. }
    destruct (lookup_lt_is_Some_2 nums i0 Hi0') as [n0 Hn0].
    unfold bind at 1, lift at 1, index at 1. rewrite Hn0.
    destruct (decide (i0 = i)) as [->|Hne].
    + assert (site0 = site) by congruence. assert (n0 = numIon) by congruence. subst.
      unfold bind at 1, lift at 1. rewrite (check_consistency_bad _ _ Hbad). eexists. by split.
    + unfold bind at 1, lift at 1.
      destruct (check_consistency_cases site0 n0) as [-> | ->]; [|eexists; by split].
      unfold bind at 1, attr at 1. cbn [sites].
      unfold bind at 1, modify at 1. cbn [with_sites].
      match goal with |- context [set_sites_from _ _ _ ?st] =>
        destruct (IH (S i0) st) as (s' & Hrun & Htr);
          [reflexivity | simpl; eauto | simpl in Hi; lia |]
      end.
      rewrite Hrun. exists s'. by split.
  - assert (i0 ≠ i) by (intros ->; congruence).
    unfold bind at 1, attr at 1. cbn [sites].
    unfold bind at 1, modify at 1. cbn [with_sites].
    match goal with |- context [set_sites_from _ _ _ ?st] =>
      destruct (IH (S i0) st) as (s' & Hrun & Htr);
        [reflexivity | simpl; eauto | simpl in Hi; lia |]
    end.
    rewrite Hrun. exists s'. by split.
Qed.

Lemma atomic_set_sites_from_ok (sites_ : option (list (option (list string))))
    (nums : list Z) :
  forall (todo : list string) (i0 : nat) (s : @state World Tol),
    numIons s = Some nums -> is_Some (sites s) ->
    consistent sites_ nums (i0 + length todo) ->
    exists d, set_sites_from sites_ i0 todo s = (Ok tt, with_sites d s).
Proof.
  induction todo as [|specie todo IH]; intros i0 s Hnums [d Hd] Hc.
  { exists d. destruct s. simpl in *. by subst. }
  destruct s. simpl in Hnums, Hd. subst.
  cbn [set_sites_from]. unfold bind at 1.
  assert (Hc' : consistent sites_ nums (S i0 + length todo)).
  { revert Hc. simpl. by rewrite Nat.add_succ_r. }
  destruct sites_ as [l|].
  - destruct (Hc i0) as (entry & He & Hentry); [simpl; lia|].
    unfold lift at 1, index at 1. rewrite He.
    destruct entry as [site0|].
    + destruct (Hentry site0 eq_refl) as (n0 & Hn0 & Hsum).
      unfold bind at 1, attr at 1. cbn [numIons].
      unfold bind at 1, lift at 1, index at 1. rewrite Hn0.
      unfold bind at 1, lift at 1. rewrite (check_consistency_ok _ _ Hsum).
      unfold bind at 1, attr at 1. cbn [sites].
      unfold bind at 1, modify at 1. cbn [with_sites].
      match goal with |- context [set_sites_from _ _ _ ?st] =>
        destruct (IH (S i0) st) as [d' Hd']; [reflexivity | simpl; eauto | exact Hc' |]
      end.
      rewrite Hd'. by exists d'.
    + unfold bind at 1, attr at 1. cbn [sites].
      unfold bind at 1, modify at 1. cbn [with_sites].
      match goal with |- context [set_sites_from _ _ _ ?st] =>
        destruct (IH (S i0) st) as [d' Hd']; [reflexivity | simpl; eauto | exact Hc' |]
      end.
      rewrite Hd'. by exists d'.
  - unfold ret at 1.
    unfold bind at 1, attr at 1. cbn [sites].
    unfold bind at 1, modify at 1. cbn [with_sites].
    match goal with |- context [set_sites_from _ _ _ ?st] =>
      destruct (IH (S i0) st) as [d' Hd']; [reflexivity | simpl; eauto | exact Hc' |]
    end.
    rewrite Hd'. by exists d'.
Qed.

End Atomic.

Section Molecular.

Import molecular_crystal.

Context {World Ori Tol : Type} {P : Providers World Ori Tol}.

Lemma molecular_set_sites_from_raises (l : list (option (list string))) (nums : list Z)
    (i : nat) (site : list string) (numIon : Z) :
  l !! i = Some (Some site) -> nums !! i = Some numIon ->
  labels_total site 0 ≠ Some numIon ->
  forall (todo : list pyxtal_molecule) (i0 : nat) (s : @state World Ori Tol),
    numMols s = Some nums -> is_Some (sites s) -> (i0 <= i < i0 + length todo)%nat ->
    exists s', set_sites_from (Some l) i0 todo s = (Raise ValueError, s') /\
               trace s' = trace s.
Proof.
  intros Hl Hn Hbad. induction todo as [|pmol todo IH]; intros i0 s Hnums [d Hd] Hi.
  { simpl in Hi. lia. }
  destruct s. simpl in Hnums, Hd. subst.
  assert (Hi0 : (i0 < length l)%nat).
  { apply lookup_lt_Some in Hl. lia. }
  destruct (lookup_lt_is_Some_2 l i0 Hi0) as [entry He].
  cbn [set_sites_from]. unfold bind at 1. unfold lift at 1, index at 1. rewrite He.
  destruct entry as [site0|].
  - unfold bind at 1, attr at 1. cbn [numMols].
    assert (Hi0' : (i0 < length nums)%nat).
    { apply lookup_lt_Some in Hn. lia. }
    destruct (lookup_lt_is_Some_2 nums i0 Hi0') as [n0 Hn0].
    unfold bind at 1, lift at 1, index at 1. rewrite Hn0.
    destruct (decide (i0 = i)) as [->|Hne].
    + assert (site0 = site) by congruence. assert (n0 = numIon) by congruence. subst.
      unfold bind at 1, lift at 1. rewrite (check_consistency_bad _ _ Hbad). eexists. by split.
    + unfold bind at 1, lift at 1.
      destruct (check_consistency_cases site0 n0) as [-> | ->]; [|eexists; by split].
      unfold bind at 1, attr at 1. cbn [sites].
      unfold bind at 1, modify at 1. cbn [with_sites].
      match goal with |- context [set_sites_from _ _ _ ?st] =>
        destruct (IH (S i0) st) as (s' & Hrun & Htr);
          [reflexivity | simpl; eauto | simpl in Hi; lia |]
      end.
      rewrite Hrun. exists s'. by split.
  - assert (i0 ≠ i) by (intros ->; congruence).
    unfold bind at 1, attr at 1. cbn [sites].
    unfold bind at 1, modify at 1. cbn [with_sites].
    match goal with |- context [set_sites_from _ _ _ ?st] =>
      destruct (IH (S i0) st) as (s' & Hrun & Htr);
        [reflexivity | simpl; eauto | simpl in Hi; lia |]
    end.
    rewrite Hrun. exists s'. by split.
Qed.

Lemma molecular_set_sites_from_ok (sites_ : option (list (option (list string))))
    (nums : list Z) :
  forall (todo : list pyxtal_molecule) (i0 : nat) (s : @state World Ori Tol),
    numMols s = Some nums -> is_Some (sites s) ->
    consistent sites_ nums (i0 + length todo) ->
    exists d, set_sites_from sites_ i0 todo s = (Ok tt, with_sites d s).
Proof.
  induction todo as [|pmol todo IH]; intros i0 s Hnums [d Hd] Hc.
  { exists d. destruct s. simpl in *. by subst. }
  destruct s. simpl in Hnums, Hd. subst.
  cbn [set_sites_from]. unfold bind at 1.
  assert (Hc' : consistent sites_ nums (S i0 + length todo)).
  { revert Hc. simpl. by rewrite Nat.add_succ_r. }
  destruct sites_ as [l|].
  - destruct (Hc i0) as (entry & He & Hentry); [simpl; lia|].
    unfold lift at 1, index at 1. rewrite He.
    destruct entry as [site0|].
    + destruct (Hentry site0 eq_refl) as (n0 & Hn0 & Hsum).
      unfold bind at 1, attr at 1. cbn [numMols].
      unfold bind at 1, lift at 1, index at 1. rewrite Hn0.
      unfold bind at 1, lift at 1. rewrite (check_consistency_ok _ _ Hsum).
      unfold bind at 1, attr at 1. cbn [sites].
      unfold bind at 1, modify at 1. cbn [with_sites].
      match goal with |- context [set_sites_from _ _ _ ?st] =>
        destruct (IH (S i0) st) as [d' Hd']; [reflexivity | simpl; eauto | exact Hc' |]
      end.
      rewrite Hd'. by exists d'.
    + unfold bind at 1, attr at 1. cbn [sites].
      unfold bind at 1, modify at 1. cbn [with_sites].
      match goal with |- context [set_sites_from _ _ _ ?st] =>
        destruct (IH (S i0) st) as [d' Hd']; [reflexivity | simpl; eauto | exact Hc' |]
      end.
      rewrite Hd'. by exists d'.
  - unfold ret at 1.
    unfold bind at 1, attr at 1. cbn [sites].
    unfold bind at 1, modify at 1. cbn [with_sites].
    match goal with |- context [set_sites_from _ _ _ ?st] =>
      destruct (IH (S i0) st) as [d' Hd']; [reflexivity | simpl; eauto | exact Hc' |]
    end.
    rewrite Hd'. by exists d'.
Qed.

End Molecular.

Lemma wp_of_keeps {S A : Type} (R : relation S) (m : M S A)
    (Q : Result A -> S -> Prop) (s : S) :
  keeps R m -> (forall r s', R s s' -> Q r s') -> wp m Q s.
Proof. intros Hk HQ. apply HQ, Hk. Qed.

End SitesFacts.

(** * Stepping through methods on explicit states *)

(** Reduces attribute reads and updates on an explicit state. *)
Ltac atomic_state :=
  cbn [
       random_crystal.dim random_crystal.with_dim random_crystal.PBC
       random_crystal.with_PBC random_crystal.thickness
       random_crystal.with_thickness random_crystal.area random_crystal.with_area
       random_crystal.source random_crystal.with_source random_crystal.valid
       random_crystal.with_valid random_crystal.group random_crystal.with_group
       random_crystal.number random_crystal.with_number random_crystal.numattempts
       random_crystal.with_numattempts random_crystal.lattice_attempts
       random_crystal.with_lattice_attempts random_crystal.coord_attempts
       random_crystal.with_coord_attempts random_crystal.factor
       random_crystal.with_factor random_crystal.numIons random_crystal.with_numIons
       random_crystal.formula random_crystal.with_formula random_crystal.species
       random_crystal.with_species random_crystal.sites random_crystal.with_sites
       random_crystal.tol_matrix random_crystal.with_tol_matrix
       random_crystal.degrees random_crystal.with_degrees random_crystal.volume
       random_crystal.with_volume random_crystal.lattice random_crystal.with_lattice
       random_crystal.cycle1 random_crystal.with_cycle1 random_crystal.cycle2
       random_crystal.with_cycle2 random_crystal.atom_sites
       random_crystal.with_atom_sites random_crystal.heap random_crystal.with_heap
       random_crystal.world random_crystal.with_world random_crystal.trace
       random_crystal.with_trace
  ] in *.

(** Reduces attribute reads and updates on an explicit state. *)
Ltac molecular_state :=
  cbn [
       molecular_crystal.dim molecular_crystal.with_dim molecular_crystal.PBC
       molecular_crystal.with_PBC molecular_crystal.thickness
       molecular_crystal.with_thickness molecular_crystal.area
       molecular_crystal.with_area molecular_crystal.diag
       molecular_crystal.with_diag molecular_crystal.selec_high
       molecular_crystal.with_selec_high molecular_crystal.valid
       molecular_crystal.with_valid molecular_crystal.numattempts
       molecular_crystal.with_numattempts molecular_crystal.group
       molecular_crystal.with_group molecular_crystal.number
       molecular_crystal.with_number molecular_crystal.factor
       molecular_crystal.with_factor molecular_crystal.numMols
       molecular_crystal.with_numMols molecular_crystal.allow_inversion
       molecular_crystal.with_allow_inversion molecular_crystal.select_high
       molecular_crystal.with_select_high molecular_crystal.tol_matrix
       molecular_crystal.with_tol_matrix molecular_crystal.molecules
       molecular_crystal.with_molecules molecular_crystal.sites
       molecular_crystal.with_sites molecular_crystal.valid_orientations
       molecular_crystal.with_valid_orientations molecular_crystal.degrees
       molecular_crystal.with_degrees molecular_crystal.volume
       molecular_crystal.with_volume molecular_crystal.lattice
       molecular_crystal.with_lattice molecular_crystal.lattice_attempts
       molecular_crystal.with_lattice_attempts molecular_crystal.coord_attempts
       molecular_crystal.with_coord_attempts molecular_crystal.ori_attempts
       molecular_crystal.with_ori_attempts molecular_crystal.wyckoff_attempts
       molecular_crystal.with_wyckoff_attempts molecular_crystal.cycle1
       molecular_crystal.with_cycle1 molecular_crystal.cycle2
       molecular_crystal.with_cycle2 molecular_crystal.mol_sites
       molecular_crystal.with_mol_sites molecular_crystal.heap
       molecular_crystal.with_heap molecular_crystal.world
       molecular_crystal.with_world molecular_crystal.trace
       molecular_crystal.with_trace
  ] in *.

Ltac wp_atomic := repeat first [ wp_step | progress atomic_state ].

Ltac wp_molecular := repeat first [ wp_step | progress molecular_state ].

Module SitesClaims.

Import SitesFacts.

Section Atomic.

Import random_crystal AtomicFacts.

Context {World Ori Tol : Type} {P : Providers World Ori Tol}.

(** The counts that [init_common] stores in [self.numIons]: the requested
    ones, multiplied by [cellsize] of the group when the request is not for
    the conventional cell. *)
Definition stored_counts (numIons_ : list Q) (group_ : Group + Z) (d : Z)
    (conventional : bool) : list Z :=
  let g := match group_ with inl g => g | inr n => Group_init n d end in
  let mul := if negb conventional then cellsize g else 1 in
  (fun q => Qtrunc q * mul) <$> numIons_.

(** The requested counts and the stored ones are exact, so that
    [np.array(numIons) * mul] is the product of [Z]. *)
Definition exact_request (numIons_ : list Q) (group_ : Group + Z) (d : Z)
    (conventional : bool) : Prop :=
  Forall (fun q => exact_count (Qtrunc q)) numIons_ /\
  Forall exact_count (stored_counts numIons_ group_ d conventional).

Lemma atomic_init_inconsistent fuel species_ numIons_ factor_ group_ lattice_
    (l : list (option (list string))) conventional tm (s : @state World Tol)
    (i : nat) (site : list string) (numIon : Z) :
  existsb bad_count numIons_ = false ->
  (i < length species_)%nat ->
  l !! i = Some (Some site) ->
  stored_counts numIons_ group_ (dim s) conventional !! i = Some numIon ->
  labels_total site 0 ≠ Some numIon ->
  exists s', init_common fuel species_ numIons_ factor_ group_ lattice_ (Some l)
               conventional tm s = (Raise ValueError, s') /\
             trace s' = trace s.
Proof.
  intros Hgood Hi Hl Hn Hbad.
  unfold init_common. destruct s. unfold stored_counts in Hn. cbn [dim] in Hn.
  unfold bind at 1, modify at 1. unfold bind at 1, modify at 1.
  rewrite Hgood.
  repeat (unfold bind at 1; first [unfold modify at 1 | unfold gets at 1]; cbn [with_source with_valid with_group with_number with_numattempts with_lattice_attempts with_coord_attempts with_factor with_numIons with_formula with_species dim]).
  unfold bind at 1. unfold set_sites.
  unfold bind at 1, modify at 1. cbn [with_sites].
  unfold bind at 1, attr at 1. cbn [species].
  match goal with |- context [set_sites_from _ _ _ ?st] =>
    destruct (atomic_set_sites_from_raises l _ i site numIon Hl Hn Hbad species_ O st)
      as (s' & Hrun & Htr); [reflexivity | simpl; eauto | lia |]
  end.
  rewrite Hrun. exists s'. split; [reflexivity | exact Htr].
Qed.

Lemma grows_after {A B} (X : M (@state World Tol) A) (Y : A -> M (@state World Tol) B)
    (tr0 : list Event) (s : @state World Tol) (e : Event) :
  trace s = tr0 ++ [e] ->
  keeps trace_grows X -> (forall a, keeps trace_grows (Y a)) ->
  wp X (then_wp Y (fun _ s' => exists evs, trace s' = tr0 ++ e :: evs)) s.
Proof.
  intros Hs HX HY. eapply wp_of_keeps; [exact HX|].
  intros r s1 [e1 H1]. destruct r as [a| |]; simpl.
  - eapply wp_of_keeps; [apply HY|]. intros r2 s2 [e2 H2].
    exists (e1 ++ e2). rewrite H2, H1, Hs. by rewrite <- !app_assoc.
  - exists e1. rewrite H1, Hs. by rewrite <- app_assoc.
  - exists e1. rewrite H1, Hs. by rewrite <- app_assoc.
Qed.

Lemma atomic_init_consistent fuel species_ numIons_ factor_ group_ lattice_
    sites_ conventional tm (s : @state World Tol) :
  existsb bad_count numIons_ = false ->
  consistent sites_ (stored_counts numIons_ group_ (dim s) conventional)
    (length species_) ->
  wp (init_common fuel species_ numIons_ factor_ group_ lattice_ sites_ conventional tm)
     (fun _ s' => exists evs, trace s' = trace s ++ CallCheckCompatible :: evs) s.
Proof.
  intros Hgood Hc. unfold init_common. destruct s.
  unfold stored_counts in Hc. cbn [dim] in Hc.
  do 6 wp_step. rewrite Hgood. wp_atomic.
  unfold set_sites. wp_atomic.
  match goal with |- wp (set_sites_from _ _ _) _ ?st =>
    destruct (atomic_set_sites_from_ok sites_ _ species_ O st eq_refl) as [d Hd];
      [simpl; eauto | exact Hc |]
  end.
  eapply wp_of_run; [exact Hd|]. wp_atomic.
  unfold _check_compatible, emit. do 3 wp_step. atomic_state.
  apply grows_after; [reflexivity | keeps_atomic |].
  intros r.
  repeat first [ apply grows_set_volume | apply grows_set_lattice
               | apply grows_set_crystal | keeps_atomic ].
Qed.

End Atomic.

Section Molecular.

Import molecular_crystal MolecularFacts.

Context {World Ori Tol : Type} {P : Providers World Ori Tol}.

Local Abbreviation mstate := (@molecular_crystal.state World Ori Tol).

(** The counts that the molecular [init_common] stores in [self.numMols]:
    the requested ones, multiplied by [cellsize] of the group when the
    request is not for the conventional cell. *)
Definition stored_mol_counts (numMols_ : list Z) (group_ : Group + Z) (d : Z)
    (conventional : bool) : list Z :=
  let g := match group_ with inl g => g | inr n => Group_init n d end in
  let mul := if negb conventional then cellsize g else 1 in
  (fun n => n * mul) <$> numMols_.

Definition exact_mol_request (numMols_ : list Z) (group_ : Group + Z) (d : Z)
    (conventional : bool) : Prop :=
  Forall exact_count numMols_ /\
  Forall exact_count (stored_mol_counts numMols_ group_ d conventional).

(** A torsion list, when given, has an entry for every molecule. *)
Definition torsions_cover (torsions : option (list (option (list Q))))
    (molecules_ : list string) : Prop :=
  match torsions with
  | None => True
  | Some t => (length molecules_ <= length t)%nat
  end.

Lemma molecules_from_ok (t : list (option (list Q))) (tm : Tol) :
  forall (todo : list string) (i : nat),
    (i + length todo <= length t)%nat ->
    exists ms, molecules_from t tm i todo = Ok ms /\ length ms = length todo.
Proof.
  induction todo as [|mol todo IH]; intros i Hlen; simpl in *.
  - by exists [].
  - assert (Hi : (i < length t)%nat) by lia.
    destruct (lookup_lt_is_Some_2 t i Hi) as [x Hx].
    unfold index. rewrite Hx. simpl.
    destruct (IH (S i)) as (ms & Hms & Hl); [lia|].
    rewrite Hms. simpl. eexists. split; [reflexivity|]. simpl. by rewrite Hl.
Qed.

Lemma set_molecules_ok molecules_ torsions (s : mstate) tm :
  torsions_cover torsions molecules_ -> tol_matrix s = Some tm ->
  exists ms, set_molecules molecules_ torsions s = (Ok tt, with_molecules ms s) /\
             length ms = length molecules_.
Proof.
  intros Hcov Htm. unfold set_molecules. destruct s. simpl in Htm. subst.
  unfold bind at 1, attr at 1. cbn [tol_matrix].
  destruct (molecules_from_ok (default (replicate (length molecules_) None) torsions)
              tm molecules_ O) as (ms & Hms & Hlen).
  { destruct torsions as [t|]; simpl in *; [lia | by rewrite length_replicate]. }
  unfold bind at 1, lift at 1. rewrite Hms. exists ms. by split.
Qed.

(** Computing the valid orientations only asks the collaborators. *)
Definition only_world (s s' : mstate) : Prop := exists w, s' = with_world w s.

Lemma only_world_refl (s : mstate) : only_world s s.
Proof. exists (world s). by destruct s. Qed.

Lemma only_world_trans (s1 s2 s3 : mstate) :
  only_world s1 s2 -> only_world s2 s3 -> only_world s1 s3.
Proof. intros [w1 ->] [w2 ->]. exists w2. by destruct s1. Qed.

Lemma orientations_row_ok m inv : forall x (s : mstate),
  exists r s', orientations_row m inv x s = (Ok r, s') /\ only_world s s'.
Proof.
  induction x as [|wp x IH]; intros s; simpl.
  - exists [], s. split; [done | apply only_world_refl].
  - unfold bind at 1, call at 1.
    destruct (orientation_in_wyckoff_position m wp inv (world s)) as [allowed w].
    destruct (IH (with_world w s)) as (r & s' & Hr & Hw).
    unfold bind at 1. rewrite Hr. eexists _, s'. split; [reflexivity|].
    eapply only_world_trans; [|exact Hw]. by exists w.
Qed.

Lemma orientations_mol_ok m inv : forall organized (s : mstate),
  exists r s', orientations_mol m inv organized s = (Ok r, s') /\ only_world s s'.
Proof.
  induction organized as [|x organized IH]; intros s; simpl.
  - exists [], s. split; [done | apply only_world_refl].
  - destruct (orientations_row_ok m inv x s) as (r1 & s1 & H1 & Hw1).
    unfold bind at 1. rewrite H1.
    destruct (IH s1) as (r2 & s2 & H2 & Hw2).
    unfold bind at 1. rewrite H2. eexists _, s2. split; [reflexivity|].
    by eapply only_world_trans.
Qed.

Lemma orientations_all_ok inv organized : forall ms (s : mstate),
  exists r s', orientations_all ms inv organized s = (Ok r, s') /\ only_world s s'.
Proof.
  induction ms as [|m ms IH]; intros s; simpl.
  - exists [], s. split; [done | apply only_world_refl].
  - destruct (orientations_mol_ok m inv organized s) as (r1 & s1 & H1 & Hw1).
    unfold bind at 1. rewrite H1.
    destruct (IH s1) as (r2 & s2 & H2 & Hw2).
    unfold bind at 1. rewrite H2. eexists _, s2. split; [reflexivity|].
    by eapply only_world_trans.
Qed.

Lemma set_orientations_ok orientations (s : mstate) :
  is_Some (molecules s) -> is_Some (group s) -> is_Some (allow_inversion s) ->
  exists vo w, set_orientations orientations s
               = (Ok tt, with_world w (with_valid_orientations vo s)).
Proof.
  intros [ms Hms] [g Hg] [inv Hinv]. unfold set_orientations.
  destruct orientations as [vo|].
  - exists vo, (world s). unfold modify. by destruct s.
  - destruct s. simpl in Hms, Hg, Hinv. subst.
    unfold bind at 1, modify at 1. cbn [with_valid_orientations].
    unfold bind at 1, attr at 1. cbn [molecules].
    unfold bind at 1, attr at 1. cbn [group].
    unfold bind at 1, attr at 1. cbn [allow_inversion].
    unfold bind at 1.
    match goal with |- context [orientations_all ?a ?b ?c ?st] =>
      destruct (orientations_all_ok b c a st) as (vo & s' & Hvo & [w ->])
    end.
    rewrite Hvo. exists vo, w. reflexivity.
Qed.

Lemma mol_grows_after {A B} (X : M mstate A) (Y : A -> M mstate B)
    (tr0 : list Event) (s : mstate) (e : Event) :
  trace s = tr0 ++ [e] ->
  keeps (@trace_grows World Ori Tol) X ->
  (forall a, keeps (@trace_grows World Ori Tol) (Y a)) ->
  wp X (then_wp Y (fun _ s' => exists evs, trace s' = tr0 ++ e :: evs)) s.
Proof.
  intros Hs HX HY. eapply wp_of_keeps; [exact HX|].
  intros r s1 [e1 H1]. destruct r as [a| |]; simpl.
  - eapply wp_of_keeps; [apply HY|]. intros r2 s2 [e2 H2].
    exists (e1 ++ e2). rewrite H2, H1, Hs. by rewrite <- !app_assoc.
  - exists e1. rewrite H1, Hs. by rewrite <- app_assoc.
  - exists e1. rewrite H1, Hs. by rewrite <- app_assoc.
Qed.

Lemma molecular_init_inconsistent fuel molecules_ numMols_ volume_factor select_high_
    allow_inversion_ orientations group_ lattice_ torsions
    (l : list (option (list string))) conventional tm (s : mstate)
    (i : nat) (site : list string) (numMol : Z) :
  torsions_cover torsions molecules_ ->
  (i < length molecules_)%nat ->
  l !! i = Some (Some site) ->
  stored_mol_counts numMols_ group_ (dim s) conventional !! i = Some numMol ->
  labels_total site 0 ≠ Some numMol ->
  wp (init_common fuel molecules_ numMols_ volume_factor select_high_ allow_inversion_
        orientations group_ lattice_ torsions (Some l) conventional tm)
     (fun r s' => r = Raise ValueError /\ trace s' = trace s) s.
Proof.
  intros Hcov Hi Hl Hn Hbad. unfold init_common. destruct s.
  unfold stored_mol_counts in Hn. cbn [dim] in Hn.
  wp_molecular.
  match goal with |- wp (if ?c then _ else _) _ _ => destruct c end; wp_molecular.
  all: match goal with |- wp (set_molecules _ _) _ ?st =>
         destruct (set_molecules_ok molecules_ torsions st _ Hcov eq_refl)
           as (ms & Hms & Hlen)
       end;
       (eapply wp_of_run; [exact Hms|]); wp_molecular;
       unfold set_sites; wp_molecular;
       match goal with |- wp (set_sites_from _ _ _) _ ?st =>
         destruct (molecular_set_sites_from_raises l _ i site numMol Hl Hn Hbad ms O st)
           as (s' & Hrun & Htr); [reflexivity | simpl; eauto | lia |]
       end;
       (eapply wp_of_run; [exact Hrun|]); wp_molecular; by split.
Qed.

Lemma molecular_init_consistent fuel molecules_ numMols_ volume_factor select_high_
    allow_inversion_ orientations group_ lattice_ torsions sites_ conventional tm
    (s : mstate) :
  torsions_cover torsions molecules_ ->
  consistent sites_ (stored_mol_counts numMols_ group_ (dim s) conventional)
    (length molecules_) ->
  wp (init_common fuel molecules_ numMols_ volume_factor select_high_ allow_inversion_
        orientations group_ lattice_ torsions sites_ conventional tm)
     (fun _ s' => exists evs, trace s' = trace s ++ CallCheckCompatible :: evs) s.
Proof.
  intros Hcov Hc. unfold init_common. destruct s.
  unfold stored_mol_counts in Hc. cbn [dim] in Hc.
  wp_molecular.
  match goal with |- wp (if ?c then _ else _) _ _ => destruct c end; wp_molecular.
  all: match goal with |- wp (set_molecules _ _) _ ?st =>
         destruct (set_molecules_ok molecules_ torsions st _ Hcov eq_refl)
           as (ms & Hms & Hlen)
       end;
       (eapply wp_of_run; [exact Hms|]); wp_molecular;
       unfold set_sites; wp_molecular;
       match goal with |- wp (set_sites_from _ _ _) _ ?st =>
         destruct (molecular_set_sites_from_ok sites_ _ ms O st eq_refl) as [d Hd];
           [simpl; eauto | by rewrite Hlen |]
       end;
       (eapply wp_of_run; [exact Hd|]); wp_molecular;
       match goal with |- wp (set_orientations _) _ ?st =>
         destruct (set_orientations_ok orientations st) as (vo & w & Hvo);
           [simpl; eauto | simpl; eauto | simpl; eauto |]
       end;
       (eapply wp_of_run; [exact Hvo|]); wp_molecular;
       unfold _check_compatible, emit; do 3 wp_step; molecular_state;
       (apply mol_grows_after; [reflexivity | keeps_molecular |]);
       intros r;
       repeat first [ apply mol_grows_set_volume | apply mol_grows_set_lattice
                    | apply mol_grows_set_crystal | keeps_molecular ].
Qed.

End Molecular.

(** C2, as the code has it.  [_check_consistency] returns [True] exactly
    when the labels of the list encode the count it is handed, and raises
    [ValueError] otherwise.  The count it is handed by [init_common] is the
    one stored for the entity type: the requested count, multiplied by
    [cellsize] of the group when the request is not for the conventional
    cell.  In both entry points and for exact counts, when the list supplied
    for an entity type does not encode the count stored for that type,
    [init_common] ends in [ValueError] with nothing printed, the analyzer
    not called and no trial made; when every supplied list encodes its
    stored count, initialization goes on to the compatibility analyzer.
    (The atomic entry point checks the lists after it has accepted the
    counts; the molecular one after it has built its molecules, for which a
    torsion list, when given, must cover them.) *)
Theorem C2_preassigned_lists_checked_eagerly
    {World Ori Tol : Type} {P : Providers World Ori Tol} :
  (forall site numIon,
     (labels_total site 0 = Some numIon -> _check_consistency site numIon = Ok true) /\
     (labels_total site 0 ≠ Some numIon ->
      _check_consistency site numIon = Raise ValueError)) /\
  (forall fuel species_ numIons_ factor_ group_ lattice_ sites_ conventional tm
          (s : @random_crystal.state World Tol),
     existsb random_crystal.bad_count numIons_ = false ->
     exact_request numIons_ group_ (random_crystal.dim s) conventional ->
     (forall l i site numIon,
        sites_ = Some l -> (i < length species_)%nat -> l !! i = Some (Some site) ->
        stored_counts numIons_ group_ (random_crystal.dim s) conventional !! i
          = Some numIon ->
        labels_total site 0 ≠ Some numIon ->
        wp (random_crystal.init_common fuel species_ numIons_ factor_ group_ lattice_
              sites_ conventional tm)
           (fun r s' => r = Raise ValueError /\
                        random_crystal.trace s' = random_crystal.trace s) s) /\
     (SitesFacts.consistent sites_
        (stored_counts numIons_ group_ (random_crystal.dim s) conventional)
        (length species_) ->
      wp (random_crystal.init_common fuel species_ numIons_ factor_ group_ lattice_
            sites_ conventional tm)
         (fun _ s' => exists evs,
            random_crystal.trace s'
            = random_crystal.trace s ++ CallCheckCompatible :: evs) s)) /\
  (forall fuel molecules_ numMols_ volume_factor select_high_ allow_inversion_
          orientations group_ lattice_ torsions sites_ conventional tm
          (s : @molecular_crystal.state World Ori Tol),
     torsions_cover torsions molecules_ ->
     exact_mol_request numMols_ group_ (molecular_crystal.dim s) conventional ->
     (forall l i site numMol,
        sites_ = Some l -> (i < length molecules_)%nat -> l !! i = Some (Some site) ->
        stored_mol_counts numMols_ group_ (molecular_crystal.dim s) conventional !! i
          = Some numMol ->
        labels_total site 0 ≠ Some numMol ->
        wp (molecular_crystal.init_common fuel molecules_ numMols_ volume_factor
              select_high_ allow_inversion_ orientations group_ lattice_ torsions
              sites_ conventional tm)
           (fun r s' => r = Raise ValueError /\
                        molecular_crystal.trace s' = molecular_crystal.trace s) s) /\
     (SitesFacts.consistent sites_
        (stored_mol_counts numMols_ group_ (molecular_crystal.dim s) conventional)
        (length molecules_) ->
      wp (molecular_crystal.init_common fuel molecules_ numMols_ volume_factor
            select_high_ allow_inversion_ orientations group_ lattice_ torsions
            sites_ conventional tm)
         (fun _ s' => exists evs,
            molecular_crystal.trace s'
            = molecular_crystal.trace s ++ CallCheckCompatible :: evs) s)).
Proof.
  split; [|split].
  - intros site numIon. split.
    + apply check_consistency_ok.
    + apply check_consistency_bad.
  - intros fuel species_ numIons_ factor_ group_ lattice_ sites_ conventional tm s Hgood _.
    split.
    + intros l i site numIon -> Hi Hl Hn Hbad.
      destruct (atomic_init_inconsistent fuel species_ numIons_ factor_ group_ lattice_
                  l conventional tm s i site numIon Hgood Hi Hl Hn Hbad)
        as (s' & Hrun & Htr).
      eapply wp_of_run; [exact Hrun|]. by split.
    + by apply atomic_init_consistent.
  - intros fuel molecules_ numMols_ volume_factor select_high_ allow_inversion_
           orientations group_ lattice_ torsions sites_ conventional tm s Hcov _.
    split.
    + intros l i site numMol -> Hi Hl Hn Hbad.
      by eapply molecular_init_inconsistent.
    + by apply molecular_init_consistent.
Qed.

Lemma C2_preassigned_lists_witness :
  let P := Demo.providers Demo.script_accept in
  let s := @random_crystal.new nat unit 3 [1; 1; 1] None None ∅ O in
  let m := @molecular_crystal.new nat nat unit 3 [1; 1; 1] None None false ∅ O in
  (existsb random_crystal.bad_count [6%Q] = false /\
   labels_total ["4a"; "4b"]%string 0 ≠ Some 6 /\
   wp (random_crystal.init_common 50 ["C"%string] [6%Q] float_1_1
         (inl Demo.group_4a_2b) None (Some [Some ["4a"; "4b"]%string]) true (inl tt))
      (fun r s' => r = Raise ValueError /\
                   random_crystal.trace s' = random_crystal.trace s) s) /\
  (SitesFacts.consistent (Some [Some ["4a"; "2b"]%string])
     (stored_counts [6%Q] (inl Demo.group_4a_2b) 3 true) 1 /\
   wp (random_crystal.init_common 50 ["C"%string] [6%Q] float_1_1
         (inl Demo.group_4a_2b) None (Some [Some ["4a"; "2b"]%string]) true (inl tt))
      (fun _ s' => exists evs,
         random_crystal.trace s'
         = random_crystal.trace s ++ CallCheckCompatible :: evs) s) /\
  (torsions_cover None ["H2O"%string] /\
   wp (molecular_crystal.init_common 50 ["H2O"%string] [2] float_1_1 true true None
         (inl Demo.group_2_1) None None (Some [Some ["1a"]%string]) true (inl tt))
      (fun r s' => r = Raise ValueError /\
                   molecular_crystal.trace s' = molecular_crystal.trace m) m /\
   wp (molecular_crystal.init_common 50 ["H2O"%string] [2] float_1_1 true true None
         (inl Demo.group_2_1) None None (Some [Some ["2b"]%string]) true (inl tt))
      (fun _ s' => exists evs,
         molecular_crystal.trace s'
         = molecular_crystal.trace m ++ CallCheckCompatible :: evs) m).
Proof.
  intros P s m.
  destruct (@C2_preassigned_lists_checked_eagerly nat nat unit P) as (_ & Ha & Hm).
  assert (Hgood : existsb random_crystal.bad_count [6%Q] = false) by reflexivity.
  assert (Hbad : labels_total ["4a"; "4b"]%string 0 ≠ Some 6) by (vm_compute; discriminate).
  assert (Hcons : SitesFacts.consistent (Some [Some ["4a"; "2b"]%string])
                    (stored_counts [6%Q] (inl Demo.group_4a_2b) 3 true) 1).
  { intros j Hj. assert (j = O) by lia. subst. eexists. split; [reflexivity|].
    intros site [= <-]. exists 6. split; vm_compute; reflexivity. }
  assert (Hcov : torsions_cover None ["H2O"%string]) by exact I.
  assert (Hexact : exact_request [6%Q] (inl Demo.group_4a_2b) 3 true).
  { split; (apply Forall_cons_2; [|apply Forall_nil_2]); vm_compute; by split. }
  assert (Hmexact : exact_mol_request [2] (inl Demo.group_2_1) 3 true).
  { split; (apply Forall_cons_2; [|apply Forall_nil_2]); vm_compute; by split. }
  split; [|split].
  - split; [exact Hgood|]. split; [exact Hbad|].
    apply (proj1 (Ha 50%nat ["C"%string] [6%Q] float_1_1 (inl Demo.group_4a_2b) None
                    (Some [Some ["4a"; "4b"]%string]) true (inl tt) s Hgood Hexact)
             [Some ["4a"; "4b"]%string] O ["4a"; "4b"]%string 6 eq_refl).
    + simpl. lia.
    + reflexivity.
    + vm_compute. reflexivity.
    + exact Hbad.
  - split; [exact Hcons|].
    exact (proj2 (Ha 50%nat ["C"%string] [6%Q] float_1_1 (inl Demo.group_4a_2b) None
                    (Some [Some ["4a"; "2b"]%string]) true (inl tt) s Hgood Hexact) Hcons).
  - split; [exact Hcov|]. split.
    + apply (proj1 (Hm 50%nat ["H2O"%string] [2] float_1_1 true true None
                      (inl Demo.group_2_1) None None (Some [Some ["1a"]%string]) true
                      (inl tt) m Hcov Hmexact)
               [Some ["1a"]%string] O ["1a"]%string 2 eq_refl).
      * simpl. lia.
      * reflexivity.
      * vm_compute. reflexivity.
      * vm_compute. discriminate.
    + apply (proj2 (Hm 50%nat ["H2O"%string] [2] float_1_1 true true None
                      (inl Demo.group_2_1) None None (Some [Some ["2b"]%string]) true
                      (inl tt) m Hcov Hmexact)).
      intros j Hj. assert (j = O) by (simpl in Hj; lia). subst.
      eexists. split; [reflexivity|].
      intros site [= <-]. exists 2. split; vm_compute; reflexivity.
Defined.

(** C2 as stated fails where the stored count is not the requested one.
    Two atoms are asked for in the primitive cell of a centred group, whose
    conventional cell holds two primitive cells, so that four are stored.
    The list [2b] encodes the requested count, and [init_common] raises
    [ValueError]; the list [4a] encodes another count, and no error is
    raised: initialization goes on to the analyzer and ends normally. *)
Lemma C2_requested_count_counterexample :
  let P := Demo.centred Demo.script_accept in
  let s := @random_crystal.new nat unit 3 [1; 1; 1] None None ∅ O in
  let run := fun sites_ =>
    random_crystal.init_common 50 ["C"%string] [2%Q] float_1_1
      (inl Demo.group_4a_2b) None (Some [Some sites_]) false (inl tt) s in
  labels_total ["2b"%string] 0 = Some 2 /\
  (run ["2b"%string]).1 = Raise ValueError /\
  labels_total ["4a"%string] 0 = Some 4 /\
  (run ["4a"%string]).1 = Ok None /\
  random_crystal.numIons (run ["4a"%string]).2 = Some [4] /\
  head (random_crystal.trace (run ["4a"%string]).2) = Some CallCheckCompatible.
Proof. vm_compute. repeat split; reflexivity. Qed.

End SitesClaims.


(** * The atomic placement search *)

Module AtomicSearch.

Import random_crystal AtomicFacts.

(** The entities placed by a list of sites. *)
Definition placed (l : list atom_site) : Z :=
  foldr (fun site acc => as_multiplicity site + acc) 0 l.

Lemma placed_app l1 l2 : placed (l1 ++ l2) = placed l1 + placed l2.
Proof. induction l1 as [|x l1 IH]; simpl; [lia|]. rewrite IH. lia. Qed.

Section Calls.

Context {World Ori Tol : Type} {P : Providers World Ori Tol}.

Local Abbreviation state := (@random_crystal.state World Tol).

Lemma wp_call {A} (f : World -> A * World) (Q : Result A -> state -> Prop) (s : state) :
  (forall a w, f (world s) = (a, w) -> Q (Ok a) (with_world w s)) ->
  wp (call f) Q s.
Proof.
  intros H. unfold wp, call. destruct (f (world s)) as [a w] eqn:Hf. by apply H.
Qed.

End Calls.

Ltac wp_search :=
  repeat first
    [ wp_step
    | progress atomic_state
    | progress cbv zeta
    | apply wp_call; intros ? ? ?
    | progress unfold bump_numattempts, the_lattice
    | match goal with
      | |- then_wp _ _ (flatten_merge ?m) _ =>
          unfold flatten_merge; destruct m as [? ? ?|[?|]]
      | |- wp (match ?x with _ => _ end) _ _ => destruct x eqn:?
      | |- wp (if ?b then _ else _) _ _ => destruct b eqn:?
      | |- match ?x with _ => _ end => destruct x eqn:?
      end ].

Section Trial.

Context {World Ori Tol : Type} {P : Providers World Ori Tol}.

Local Abbreviation state := (@random_crystal.state World Tol).

(** The turn left the locals as they were, one attempt spent. *)
Definition rejected (L L' : ion_locals) (ret : option (list atom_site)) : Prop :=
  numIon_added L' = numIon_added L /\
  wyckoff_sites_tmp L' = wyckoff_sites_tmp L /\
  sites_list L' = sites_list L /\
  cycle L' = cycle L + 1 /\
  ret = None.

(** The turn appended [site], consumed the pending label if there is one and
    returned the list when the count was reached. *)
Definition accepted (numIon : Z) (specie : string) (s : state)
    (L L' : ion_locals) (ret : option (list atom_site)) (site : atom_site) : Prop :=
  wyckoff_sites_tmp L' = wyckoff_sites_tmp L ++ [site] /\
  numIon_added L' = numIon_added L + as_multiplicity site /\
  sites_list L' = tail <$> sites_list L /\
  as_specie site = specie /\
  (planar s = true -> pz (as_position site) = float_0_5) /\
  ret = (if bool_decide (numIon_added L' = numIon)
         then Some (wyckoff_sites_tmp L') else None) /\
  (forall lbl rest, sites_list L = Some (lbl :: rest) ->
     exists g wp w, group s = Some g /\
       choose_wyckoff g (numIon - numIon_added L) (Some lbl) (dim s) (world s)
         = (Some wp, w) /\
       multiplicity (as_wp site) = multiplicity wp).

Lemma ion_trial_spec numIon specie cell wyks tol tm L (s : state) :
  wp (ion_trial numIon specie cell wyks tol tm L)
     (fun r s' =>
        match r with
        | Ok (L', ret) =>
            rejected L L' ret \/ exists site, accepted numIon specie s L L' ret site
        | _ => True
        end) s.
Proof.
  unfold ion_trial. destruct s. wp_search.
  all: try exact I.
  all: try (left; unfold rejected; simpl; repeat split; (reflexivity || congruence)).
  all: right; eexists; unfold accepted; cbn [numIon_added wyckoff_sites_tmp sites_list cycle].
  all: repeat match goal with
       | H : sites_list _ = _ |- _ => rewrite H in *; clear H
       end.
  all: split; [reflexivity|]; split; [reflexivity|]; split; [reflexivity|];
       split; [reflexivity|]; split; [|split].
  all: try (intros Hp; unfold planar in *; cbn [dim thickness] in *;
            first [reflexivity | congruence]).
  all: try (match goal with H : bool_decide _ = _ |- _ = (if _ then _ else _) =>
              rewrite H end; reflexivity).
  all: intros lbl rest Hsl; try discriminate Hsl.
  all: injection Hsl as <- <-; cbn [group dim world as_wp].
  all: match goal with
       | Hc : choose_wyckoff ?g _ _ _ _ = (Some ?wp, ?w),
         Hm : _ && _ = false |- _ =>
           exists g, wp, w; split; [reflexivity|]; split; [exact Hc|];
           apply andb_false_iff in Hm as [Hm|Hm];
           [ apply bool_decide_eq_false in Hm; exfalso; by apply Hm
           | apply bool_decide_eq_false in Hm; cbn [as_wp];
             symmetry; by apply dec_stable ]
       end.
Qed.

(** Every site of [l] lies in the plane [z = 0.5] when the run is a thin 2D
    one. *)
Definition flat_ok (thin : bool) (l : list atom_site) : Prop :=
  thin = true -> Forall (fun site => pz (as_position site) = float_0_5) l.

Lemma search_frame_planar (s s' : state) : search_frame s s' -> planar s' = planar s.
Proof.
  intros (Hd & _ & Ht & _). unfold planar. by rewrite Hd, Ht.
Qed.

Lemma wp_and {A} (m : M state A) (Q1 Q2 : Result A -> state -> Prop) s :
  wp m Q1 s -> wp m Q2 s -> wp m (fun r s' => Q1 r s' /\ Q2 r s') s.
Proof. unfold wp. auto. Qed.

(** What the search returns for one entity type. *)
Definition type_placed (numIon : Z) (specie : string) (thin : bool)
    (l : list atom_site) : Prop :=
  placed l = numIon /\ flat_ok thin l /\
  Forall (fun site => as_specie site = specie) l /\ l ≠ [].

Lemma ion_loop_spec numIon specie cell wyks tol tm : forall todo L (s : state),
  numIon_added L = placed (wyckoff_sites_tmp L) ->
  flat_ok (planar s) (wyckoff_sites_tmp L) ->
  Forall (fun site => as_specie site = specie) (wyckoff_sites_tmp L) ->
  wp (ion_loop todo numIon specie cell wyks tol tm L)
     (fun r _ => forall l, r = Ok (Some l) -> type_placed numIon specie (planar s) l) s.
Proof.
  induction todo as [|todo IH]; intros L s Hsum Hflat Hsp; cbn [ion_loop].
  - apply wp_ret. intros l [=].
  - apply wp_bind.
    eapply wp_conseq.
    { apply wp_and; [apply ion_trial_spec | apply (keeps_wp search_frame), keeps_ion_trial]. }
    intros r s' [Hspec Hframe]. cbv beta in Hframe.
    destruct r as [[L' ret]| |]; cbn [then_wp].
    2,3: intros l [=].
    pose proof (search_frame_planar _ _ Hframe) as Hpl.
    destruct Hspec as [(Ha & Ht & Hs & Hc & ->) | (site & Ht & Ha & Hs & Hsite & Hz & Hret & _)].
    + eapply wp_conseq.
      { apply IH; rewrite ?Ha, ?Ht, ?Hpl; done. }
      intros r s'' Hr l Hl. rewrite <- Hpl. by apply Hr.
    + assert (Hsum' : numIon_added L' = placed (wyckoff_sites_tmp L')).
      { rewrite Ha, Ht, placed_app, Hsum. simpl. lia. }
      assert (Hflat' : flat_ok (planar s) (wyckoff_sites_tmp L')).
      { intros Hp. rewrite Ht. apply Forall_app. split; [by apply Hflat|].
        constructor; [by apply Hz | constructor]. }
      assert (Hsp' : Forall (fun site => as_specie site = specie) (wyckoff_sites_tmp L')).
      { rewrite Ht. apply Forall_app. split; [done|]. by constructor. }
      subst ret. case_bool_decide as Hfull.
      * apply wp_ret. intros l [= <-]. repeat split; try done.
        -- by rewrite <- Hsum'.
        -- rewrite Ht. by destruct (wyckoff_sites_tmp L).
      * eapply wp_conseq.
        { apply IH; rewrite ?Hpl; done. }
        intros r s'' Hr l Hl. rewrite <- Hpl. by apply Hr.
Qed.

Lemma set_ion_wyckoffs_spec numIon specie cell wyks (s : state) :
  wp (_set_ion_wyckoffs numIon specie cell wyks)
     (fun r _ => forall l, r = Ok (Some l) -> type_placed numIon specie (planar s) l) s.
Proof.
  unfold _set_ion_wyckoffs.
  assert (Hloop : forall todo sl,
    wp (ion_loop todo numIon specie cell wyks
          (get_tol (default (Tol_matrix_init "") (tol_matrix s)) specie specie)
          (default (Tol_matrix_init "") (tol_matrix s))
          {| numIon_added := 0; wyckoff_sites_tmp := []; sites_list := sl; cycle := 0 |})
       (fun r _ => forall l, r = Ok (Some l) -> type_placed numIon specie (planar s) l) s).
  { intros todo sl. apply ion_loop_spec; simpl; [done | intros _; constructor | constructor]. }
  destruct (tol_matrix s) as [tm|] eqn:Htm.
  2: { apply wp_bind, wp_attr. rewrite Htm. intros l [=]. }
  simpl in Hloop.
  apply wp_bind, wp_attr. rewrite Htm. cbn [then_wp].
  apply wp_bind, wp_attr. destruct (sites s) as [d|]; [|intros l [=]]. cbn [then_wp].
  apply wp_bind. destruct (d !! specie) as [sl|]; [|apply wp_raise; intros l [=]].
  apply wp_ret. cbn [then_wp].
  apply wp_bind. destruct sl as [lbls|].
  - apply wp_ret. cbn [then_wp]. apply Hloop.
  - apply wp_bind, wp_attr. destruct (group s) as [g|]; [|intros l [=]]. cbn [then_wp].
    apply wp_bind, wp_lift. destruct (index (wyckoffs_organized g) 0) as [general| |];
      cbn [then_wp]; [|intros l [=] | intros l [=]].
    apply wp_bind, wp_lift. destruct (index general 0) as [wp0| |];
      cbn [then_wp]; [|intros l [=] | intros l [=]].
    apply wp_ret. cbn [then_wp]. apply Hloop.
Qed.

(** The sites of a structure, type by type: [chunks] are the lists returned
    for the entity types of [todo], in order. *)
Definition assembled (thin : bool) (todo : list (Z * string))
    (chunks : list (list atom_site)) : Prop :=
  Forall2 (fun chunk e => type_placed e.1 e.2 thin chunk) chunks todo.

Lemma coords_from_spec cell : forall todo wyks (s : state),
  wp (coords_from todo cell wyks)
     (fun r _ => forall l, r = Ok (Some l) ->
        exists chunks, l = wyks ++ concat chunks /\ assembled (planar s) todo chunks) s.
Proof.
  induction todo as [|[numIon specie] todo IH]; intros wyks s; cbn [coords_from].
  - apply wp_bind, wp_modify. cbn [then_wp]. apply wp_ret.
    intros l [= <-]. exists []. split; [by rewrite app_nil_r | constructor].
  - apply wp_bind. eapply wp_conseq.
    { apply wp_and; [apply set_ion_wyckoffs_spec
                    | apply (keeps_wp search_frame), keeps_set_ion_wyckoffs]. }
    intros r s' [Hspec Hframe]. cbv beta in Hframe.
    pose proof (search_frame_planar _ _ Hframe) as Hpl.
    destruct r as [[chunk|]| |]; cbn [then_wp];
      [ | apply wp_ret; intros l [=] | intros l [=] | intros l [=] ].
    eapply wp_conseq; [apply IH|]. intros r s'' Hr l Hl.
    destruct (Hr l Hl) as (chunks & -> & Hch).
    exists (chunk :: chunks). split; [by rewrite <- app_assoc|].
    constructor; [by apply Hspec | by rewrite <- Hpl].
Qed.

Lemma set_coords_spec (s : state) :
  wp _set_coords
     (fun r _ => forall l nums sp, r = Ok (Some l) ->
        numIons s = Some nums -> species s = Some sp ->
        exists chunks, l = concat chunks /\ assembled (planar s) (zip nums sp) chunks) s.
Proof.
  unfold _set_coords, the_lattice.
  apply wp_bind, wp_bind, wp_attr. destruct (lattice s) as [lr|]; [|intros l ? ? [=]].
  cbn [then_wp]. apply wp_attr. destruct (heap s !! lr) as [lat|]; [|intros l ? ? [=]].
  cbn [then_wp]. apply wp_bind, wp_attr.
  destruct (numIons s) as [nums|]; [|intros l ? ? [=]]. cbn [then_wp].
  apply wp_bind, wp_attr.
  destruct (species s) as [sp|]; [|intros l ? ? [=]]. cbn [then_wp].
  eapply wp_conseq; [apply coords_from_spec|].
  intros r s' Hr l nums' sp' Hl [= <-] [= <-].
  destruct (Hr l Hl) as (chunks & -> & Hch). by exists chunks.
Qed.

End Trial.

End AtomicSearch.


(** * The molecular placement search *)

Module MolecularSearch.

Import molecular_crystal MolecularFacts.

Section Calls.

Context {World Ori Tol : Type} {P : Providers World Ori Tol}.

Local Abbreviation state := (@molecular_crystal.state World Ori Tol).

(** The molecules placed by a list of sites. *)
Definition mol_placed (l : list (mol_site Ori)) : Z :=
  foldr (fun site acc => ms_multiplicity site + acc) 0 l.

Lemma mol_placed_app l1 l2 : mol_placed (l1 ++ l2) = mol_placed l1 + mol_placed l2.
Proof. induction l1 as [|x l1 IH]; simpl; [lia|]. rewrite IH. lia. Qed.

Lemma mol_wp_call {A} (f : World -> A * World) (Q : Result A -> state -> Prop) (s : state) :
  (forall a w, f (world s) = (a, w) -> Q (Ok a) (with_world w s)) ->
  wp (call f) Q s.
Proof.
  intros H. unfold wp, call. destruct (f (world s)) as [a w] eqn:Hf. by apply H.
Qed.

Lemma mol_wp_and {A} (m : M state A) (Q1 Q2 : Result A -> state -> Prop) s :
  wp m Q1 s -> wp m Q2 s -> wp m (fun r s' => Q1 r s' /\ Q2 r s') s.
Proof. unfold wp. auto. Qed.

End Calls.

Ltac wp_mol_search :=
  repeat first
    [ wp_step
    | progress molecular_state
    | progress cbv zeta
    | apply mol_wp_call; intros ? ? ?
    | progress unfold bump_numattempts, the_lattice, make_site, fun_dist, emit
    | match goal with
      | |- wp (match ?x with _ => _ end) _ _ => destruct x eqn:?
      | |- wp (if ?b then _ else _) _ _ => destruct b eqn:?
      | |- match ?x with _ => _ end => destruct x eqn:?
      end ].

Section Trial.

Context {World Ori Tol : Type} {P : Providers World Ori Tol}.

Local Abbreviation state := (@molecular_crystal.state World Ori Tol).

(** The site that [_set_orientation] builds first, and the only one it
    returns, is made from the point and the position it was given. *)
Definition built_from (m : pyxtal_molecule) (pt : Point) (wpos : Wyckoff_position)
    (ms : mol_site Ori) : Prop :=
  ms_mol ms = m /\ ms_position ms = pt /\ ms_wp ms = wpos.

Lemma bisect_turn_returns ms0 ori mo pt wpos B (s : state) :
  wp (bisect_turn ms0 ori mo pt wpos B)
     (fun r _ => forall ms, r = Ok (inl ms) -> ms = ms0) s.
Proof.
  unfold bisect_turn. wp_mol_search.
  all: try (intros ms [=]; done).
Qed.

Lemma bisect_loop_returns ms0 ori mo pt wpos : forall todo B (s : state),
  wp (bisect_loop todo ms0 ori mo pt wpos B)
     (fun r _ => forall ms, r = Ok (Some ms) -> ms = ms0) s.
Proof.
  induction todo as [|todo IH]; intros B s; cbn [bisect_loop].
  - apply wp_ret. intros ms [=].
  - apply wp_bind. eapply wp_conseq; [apply bisect_turn_returns|].
    intros r s' Hr. destruct r as [[ms|B']| |]; cbn [then_wp].
    + apply wp_ret. intros ms' [= <-]. by apply Hr.
    + apply IH.
    + intros ms [=].
    + intros ms [=].
Qed.

Lemma set_orientation_spec pyxtal_mol pt oris wpos (s : state) :
  wp (_set_orientation pyxtal_mol pt oris wpos)
     (fun r _ => forall ms, r = Ok (Some ms) -> built_from pyxtal_mol pt wpos ms) s.
Proof.
  unfold _set_orientation. wp_mol_search.
  all: try (intros ms [=]; done).
  all: try (intros ms [= <-]; by repeat split).
  all: eapply wp_conseq; [apply bisect_loop_returns|].
  all: intros r s' Hr ms Hms; rewrite (Hr ms Hms); by repeat split.
Qed.

(** The turn left the locals as they were. *)
Definition mol_rejected (L L' : @mol_locals Ori) (ret : option (list (mol_site Ori))) : Prop :=
  L' = L /\ ret = None.

(** The turn appended [site], consumed the pending label if there is one and
    returned the list when the count was reached. *)
Definition mol_accepted (numMol : Z) (pyxtal_mol : pyxtal_molecule)
    (valid_ori : list (list (list Ori))) (s : state)
    (L L' : @mol_locals Ori) (ret : option (list (mol_site Ori))) (site : mol_site Ori)
    : Prop :=
  mol_sites_tmp L' = mol_sites_tmp L ++ [site] /\
  numMol_added L' = numMol_added L + ms_multiplicity site /\
  sites_list L' = tail <$> sites_list L /\
  ms_mol site = pyxtal_mol /\
  (planar s = true -> pz (ms_position site) = float_0_5) /\
  ret = (if bool_decide (numMol_added L' = numMol)
         then Some (mol_sites_tmp L') else None) /\
  (forall lbl rest, sites_list L = Some (lbl :: rest) ->
     exists g sh wpos w, group s = Some g /\ select_high s = Some sh /\
       choose_wyckoff_molecular g (numMol - numMol_added L) (Some lbl) valid_ori sh
         (dim s) (world s) = (Some wpos, w) /\
       multiplicity (ms_wp site) = multiplicity wpos).

Lemma mol_trial_spec numMol pyxtal_mol valid_ori mol_wyks L (s : state) :
  wp (mol_trial numMol pyxtal_mol valid_ori mol_wyks L)
     (fun r s' =>
        match r with
        | Ok (L', ret) =>
            mol_rejected L L' ret \/
            exists site, mol_accepted numMol pyxtal_mol valid_ori s L L' ret site
        | _ => True
        end) s.
Proof.
  unfold mol_trial. destruct s. wp_mol_search.
  all: try exact I.
  all: try (left; by split).
  all: (eapply wp_conseq; [apply set_orientation_spec|]);
       intros r s' Hr; destruct r as [[ms|]| |]; cbn [then_wp]; try exact I;
       [ destruct (Hr ms eq_refl) as (Hmol & Hpos & Hwp) | ].
  all: wp_mol_search.
  all: try exact I.
  all: try (left; by split).
  all: right; exists ms; unfold mol_accepted;
       cbn [numMol_added mol_sites_tmp sites_list].
  all: repeat match goal with
       | H : sites_list _ = _ |- _ => rewrite H in *; clear H
       end.
  all: split; [reflexivity|]; split; [reflexivity|]; split; [reflexivity|];
       split; [exact Hmol|]; split; [|split; [reflexivity|]].
  all: try (intros Hp; rewrite Hpos; unfold planar in *; cbn [dim thickness] in *;
            rewrite Hp; reflexivity).
  all: intros lbl rest Hsl; try discriminate Hsl.
  all: injection Hsl as <- <-; cbn [group select_high dim world].
  all: match goal with
       | Hc : choose_wyckoff_molecular ?g _ _ _ ?sh _ _ = (Some ?wp0, ?w),
         Hm : _ && _ = false |- _ =>
           exists g, sh, wp0, w; split; [reflexivity|]; split; [reflexivity|];
           split; [exact Hc|];
           apply andb_false_iff in Hm as [Hm|Hm];
           [ apply bool_decide_eq_false in Hm; exfalso; by apply Hm
           | apply bool_decide_eq_false in Hm; rewrite Hwp;
             symmetry; by apply dec_stable ]
       end.
Qed.

Definition mol_flat_ok (thin : bool) (l : list (mol_site Ori)) : Prop :=
  thin = true -> Forall (fun site => pz (ms_position site) = float_0_5) l.

Lemma mol_search_frame_planar (s s' : state) : search_frame s s' -> planar s' = planar s.
Proof.
  intros (Hd & _ & Ht & _). unfold planar. by rewrite Hd, Ht.
Qed.

(** What the search returns for one entity type. *)
Definition mol_type_placed (numMol : Z) (thin : bool) (l : list (mol_site Ori)) : Prop :=
  mol_placed l = numMol /\ mol_flat_ok thin l /\ l ≠ [].

Lemma mol_loop_spec numMol pyxtal_mol valid_ori mol_wyks : forall todo L (s : state),
  numMol_added L = mol_placed (mol_sites_tmp L) ->
  mol_flat_ok (planar s) (mol_sites_tmp L) ->
  wp (mol_loop todo numMol pyxtal_mol valid_ori mol_wyks L)
     (fun r _ => forall l, r = Ok (Some l) -> mol_type_placed numMol (planar s) l) s.
Proof.
  induction todo as [|todo IH]; intros L s Hsum Hflat; cbn [mol_loop].
  - apply wp_ret. intros l [=].
  - apply wp_bind.
    eapply wp_conseq.
    { apply mol_wp_and; [apply mol_trial_spec
                        | apply (keeps_wp search_frame), keeps_mol_trial]. }
    intros r s' [Hspec Hframe]. cbv beta in Hframe.
    destruct r as [[L' ret]| |]; cbn [then_wp].
    2,3: intros l [=].
    pose proof (mol_search_frame_planar _ _ Hframe) as Hpl.
    destruct Hspec as [(-> & ->) | (site & Ht & Ha & Hs & Hsite & Hz & Hret & _)].
    + eapply wp_conseq.
      { apply IH; rewrite ?Hpl; done. }
      intros r s'' Hr l Hl. rewrite <- Hpl. by apply Hr.
    + assert (Hsum' : numMol_added L' = mol_placed (mol_sites_tmp L')).
      { rewrite Ha, Ht, mol_placed_app, Hsum. simpl. lia. }
      assert (Hflat' : mol_flat_ok (planar s) (mol_sites_tmp L')).
      { intros Hp. rewrite Ht. apply Forall_app. split; [by apply Hflat|].
        constructor; [by apply Hz | constructor]. }
      subst ret. case_bool_decide as Hfull.
      * apply wp_ret. intros l [= <-]. repeat split; try done.
        -- by rewrite <- Hsum'.
        -- rewrite Ht. by destruct (mol_sites_tmp L).
      * eapply wp_conseq.
        { apply IH; rewrite ?Hpl; done. }
        intros r s'' Hr l Hl. rewrite <- Hpl. by apply Hr.
Qed.

Ltac no_list := intros ? [=].

Lemma set_mol_wyckoffs_spec id numMol pyxtal_mol valid_ori mol_wyks (s : state) :
  wp (_set_mol_wyckoffs id numMol pyxtal_mol valid_ori mol_wyks)
     (fun r _ => forall l, r = Ok (Some l) -> mol_type_placed numMol (planar s) l) s.
Proof.
  unfold _set_mol_wyckoffs.
  assert (Hloop : forall todo sl (s1 : state),
    search_frame s s1 ->
    wp (mol_loop todo numMol pyxtal_mol valid_ori mol_wyks
          {| numMol_added := 0; mol_sites_tmp := []; sites_list := sl |})
       (fun r _ => forall l, r = Ok (Some l) -> mol_type_placed numMol (planar s) l) s1).
  { intros todo sl s1 Hf. rewrite <- (mol_search_frame_planar _ _ Hf).
    apply mol_loop_spec; simpl; [done | intros _; constructor]. }
  assert (Hwa : forall a sl, search_frame s (with_wyckoff_attempts a s) ->
    wp (wa <- attr wyckoff_attempts ;;
        mol_loop (Z.to_nat wa) numMol pyxtal_mol valid_ori mol_wyks
          {| numMol_added := 0; mol_sites_tmp := []; sites_list := sl |})
       (fun r _ => forall l, r = Ok (Some l) -> mol_type_placed numMol (planar s) l)
       (with_wyckoff_attempts a s)).
  { intros a sl Hf. apply wp_bind, wp_attr.
    destruct (wyckoff_attempts (with_wyckoff_attempts a s)); [|no_list].
    cbn [then_wp]. by apply Hloop. }
  assert (Hf : forall a, search_frame s (with_wyckoff_attempts a s)).
  { intros a. destruct s. unfold search_frame. simpl. repeat split; try reflexivity.
    exists []. by rewrite app_nil_r. }
  apply wp_bind, wp_attr. destruct (sites s) as [d|]; [|no_list]. cbn [then_wp].
  apply wp_bind. destruct (d !! id) as [sl|]; [|apply wp_raise; no_list].
  apply wp_ret. cbn [then_wp].
  apply wp_bind. destruct sl as [lbls|].
  - apply wp_modify. cbn [then_wp]. by apply Hwa.
  - apply wp_bind, wp_attr. destruct (group s) as [g|]; [|no_list]. cbn [then_wp].
    apply wp_bind, wp_lift. destruct (index (wyckoffs_organized g) 0) as [general| |];
      cbn [then_wp]; [|no_list|no_list].
    apply wp_bind, wp_lift. destruct (index general 0) as [wp0| |];
      cbn [then_wp]; [|no_list|no_list].
    apply wp_modify. cbn [then_wp]. by apply Hwa.
Qed.

(** The sites of a structure, type by type. *)
Definition mol_assembled (thin : bool) (todo : list Z)
    (chunks : list (list (mol_site Ori))) : Prop :=
  Forall2 (fun chunk numMol => mol_type_placed numMol thin chunk) chunks todo.

Lemma mol_coords_from_spec : forall todo i total (s : state),
  wp (coords_from i todo total)
     (fun r _ => forall l, r = Ok (Some l) ->
        exists chunks, l = total ++ concat chunks
                       /\ mol_assembled (planar s) todo chunks) s.
Proof.
  induction todo as [|numMol todo IH]; intros i total s; cbn [coords_from].
  - apply wp_bind, wp_modify. cbn [then_wp]. apply wp_ret.
    intros l [= <-]. exists []. split; [by rewrite app_nil_r | constructor].
  - apply wp_bind, wp_attr. destruct (molecules s) as [ms|]; [|no_list]. cbn [then_wp].
    apply wp_bind, wp_lift. destruct (index ms i) as [pm| |]; cbn [then_wp];
      [|no_list|no_list].
    apply wp_bind, wp_attr. destruct (valid_orientations s) as [vo|]; [|no_list].
    cbn [then_wp].
    apply wp_bind, wp_lift. destruct (index vo i) as [valid_ori| |]; cbn [then_wp];
      [|no_list|no_list].
    apply wp_bind. eapply wp_conseq.
    { apply mol_wp_and; [apply set_mol_wyckoffs_spec
                        | apply (keeps_wp search_frame), keeps_set_mol_wyckoffs]. }
    intros r s' [Hspec Hframe]. cbv beta in Hframe.
    pose proof (mol_search_frame_planar _ _ Hframe) as Hpl.
    destruct r as [[chunk|]| |]; cbn [then_wp];
      [ | apply wp_ret; no_list | no_list | no_list ].
    eapply wp_conseq; [apply IH|]. intros r s'' Hr l Hl.
    destruct (Hr l Hl) as (chunks & -> & Hch).
    exists (chunk :: chunks). split; [by rewrite <- app_assoc|].
    constructor; [by apply Hspec | by rewrite <- Hpl].
Qed.

Lemma mol_set_coords_spec (s : state) :
  wp _set_coords
     (fun r _ => forall l nums, r = Ok (Some l) -> numMols s = Some nums ->
        exists chunks, l = concat chunks /\ mol_assembled (planar s) nums chunks) s.
Proof.
  unfold _set_coords.
  apply wp_bind, wp_attr.
  destruct (numMols s) as [nums|]; [|intros l ? [=]]. cbn [then_wp].
  eapply wp_conseq; [apply mol_coords_from_spec|].
  intros r s' Hr l nums' Hl [= <-].
  destruct (Hr l Hl) as (chunks & -> & Hch). by exists chunks.
Qed.

End Trial.

End MolecularSearch.


(** * The assembly loop: its trials, one by one *)

(** The coordinate trials recorded in a trace, as pairs [(cycle1, cycle2)]. *)
Definition trial_of (e : Event) : option (Z * Z) :=
  match e with
  | CallSetCoords c1 c2 => Some (c1, c2)
  | _ => None
  end.

Definition trials (evs : list Event) : list (Z * Z) := omap trial_of evs.

(** [k] consecutive coordinate trials of lattice trial [c1], from [c2] on. *)
Definition window (c1 c2 : Z) (k : nat) : list (Z * Z) :=
  (fun i => (c1, c2 + Z.of_nat i)) <$> seq 0 k.

(** Lattice trials [c1], [c1 + 1], ... with [ks] coordinate trials each, every
    one starting at [cycle2 = 0]. *)
Definition schedule (c1 : Z) (ks : list nat) : list (Z * Z) :=
  concat (imap (fun i k => window (c1 + Z.of_nat i) 0 k) ks).

Module AssemblyFacts.

Lemma trials_app a b : trials (a ++ b) = trials a ++ trials b.
Proof.
  unfold trials. apply omap_app.
Qed.

Lemma trials_quiet evs : Forall AtomicFacts.quiet evs -> trials evs = [].
Proof.
  unfold trials. induction 1 as [|e evs He _ IH]; [done|].
  change (e :: evs) with ([e] ++ evs). rewrite omap_app, IH.
  by destruct e.
Qed.

Lemma window_S c1 c2 k : window c1 c2 (S k) = (c1, c2) :: window c1 (c2 + 1) k.
Proof.
  unfold window. simpl. f_equal; [f_equal; lia|].
  rewrite <- fmap_S_seq, <- list_fmap_compose. apply list_fmap_ext.
  intros i x _. simpl. f_equal. lia.
Qed.

Lemma schedule_cons c1 k ks : schedule c1 (k :: ks) = window c1 0 k ++ schedule (c1 + 1) ks.
Proof.
  unfold schedule. rewrite imap_cons. simpl. f_equal; [f_equal; lia|].
  f_equal. apply imap_ext. intros i x _. simpl. f_equal. lia.
Qed.

End AssemblyFacts.

(** ** The atomic loop: [set_crystal] of [random_crystal] *)

Module AtomicAssembly.

Import random_crystal AtomicFacts AtomicSearch AssemblyFacts.

Section Loops.

Context {World Ori Tol : Type} {P : Providers World Ori Tol}.

Local Abbreviation state := (@random_crystal.state World Tol).

(** What the assembly loop leaves alone. *)
Definition run_frame (s s' : state) : Prop :=
  dim s' = dim s /\ thickness s' = thickness s /\ numIons s' = numIons s /\
  species s' = species s /\ coord_attempts s' = coord_attempts s /\
  lattice s' = lattice s.

(** The part of it that decides what a stored list has to satisfy. *)
Definition shape_frame (s s' : state) : Prop :=
  dim s' = dim s /\ thickness s' = thickness s /\ numIons s' = numIons s /\
  species s' = species s.

Lemma run_frame_shape (s s' : state) : run_frame s s' -> shape_frame s s'.
Proof. intros (?&?&?&?&_). by repeat split. Qed.

(** The sites a run stores are, type by type, lists that place the requested
    count. *)
Definition stored_ok (s : state) (l : list atom_site) : Prop :=
  forall nums sp, numIons s = Some nums -> species s = Some sp ->
    exists chunks, l = concat chunks /\ assembled (planar s) (zip nums sp) chunks.

Definition sites_kept_or_ok (s s' : state) : Prop :=
  atom_sites s' = atom_sites s \/ exists l, atom_sites s' = Some l /\ stored_ok s l.

Definition coord_post (c1 c2 : Z) (todo : nat) (s s' : state) : Prop :=
  run_frame s s' /\ cycle1 s' = cycle1 s /\ sites_kept_or_ok s s' /\
  exists evs k, trace s' = trace s ++ evs /\ trials evs = window c1 c2 k /\
                (k <= todo)%nat.

Lemma planar_frame (s s' : state) : shape_frame s s' -> planar s' = planar s.
Proof. intros (Hd & Ht & _). unfold planar. by rewrite Hd, Ht. Qed.

Lemma stored_ok_frame (s s1 : state) l :
  shape_frame s s1 -> stored_ok s1 l -> stored_ok s l.
Proof.
  intros Hf Hok nums sp Hnums Hsp. rewrite <- (planar_frame _ _ Hf).
  destruct Hf as (_ & _ & Hn & Hs). apply Hok; congruence.
Qed.

Lemma sites_kept_or_ok_trans (s s1 s2 : state) :
  shape_frame s s1 -> sites_kept_or_ok s s1 -> sites_kept_or_ok s1 s2 ->
  sites_kept_or_ok s s2.
Proof.
  intros Hf H1 [H2 | (l & Hl & Hok)].
  - destruct H1 as [H1 | (l & Hl & Hok)]; [left; congruence|].
    right. exists l. split; [congruence | done].
  - right. exists l. split; [done|]. by eapply stored_ok_frame.
Qed.

(** The state after the first coordinate trial of a call, when the loop
    stops there. *)
Lemma coord_post_one (s st : state) c1 c2 todo evq :
  run_frame s st -> cycle1 st = cycle1 s -> sites_kept_or_ok s st ->
  trace st = trace s ++ CallSetCoords c1 c2 :: evq -> Forall quiet evq ->
  coord_post c1 c2 (S todo) s st.
Proof.
  intros Hf Hc Hs Htr Hq. repeat split; try apply Hf; try done.
  exists (CallSetCoords c1 c2 :: evq), 1%nat. split; [done|]. split; [|lia].
  change (CallSetCoords c1 c2 :: evq) with ([CallSetCoords c1 c2] ++ evq).
  rewrite trials_app, (trials_quiet evq Hq), window_S. reflexivity.
Qed.

(** ... and when the loop goes on from the state [s3] reached by that
    trial. *)
Lemma coord_post_more (s s3 s' : state) c1 c2 todo evq :
  run_frame s s3 -> cycle1 s3 = cycle1 s -> atom_sites s3 = atom_sites s ->
  trace s3 = trace s ++ CallSetCoords c1 c2 :: evq -> Forall quiet evq ->
  coord_post c1 (c2 + 1) todo s3 s' ->
  coord_post c1 c2 (S todo) s s'.
Proof.
  intros Hf Hc Hat Htr Hq (Hf' & Hc' & Hs' & evs & k & Htr' & Htrials & Hk).
  split; [|split; [|split]].
  - destruct Hf as (?&?&?&?&?&?), Hf' as (?&?&?&?&?&?). repeat split; congruence.
  - congruence.
  - eapply sites_kept_or_ok_trans;
      [exact (run_frame_shape _ _ Hf) | by left | exact Hs'].
  - exists ((CallSetCoords c1 c2 :: evq) ++ evs), (S k). split; [|split; [|lia]].
    + by rewrite Htr', Htr, <- app_assoc.
    + change (CallSetCoords c1 c2 :: evq) with ([CallSetCoords c1 c2] ++ evq).
      rewrite !trials_app, (trials_quiet evq Hq), Htrials, window_S. reflexivity.
Qed.

Lemma coord_loop_spec : forall todo c2 (s : state) c1,
  cycle1 s = Some c1 ->
  wp (coord_loop todo c2) (fun _ s' => coord_post c1 c2 todo s s') s.
Proof.
  induction todo as [|todo IH]; intros c2 s c1 Hc1; cbn [coord_loop].
  - apply wp_ret. repeat split. { by left. }
    exists [], O. by rewrite app_nil_r.
  - destruct s. cbn [cycle1] in Hc1. subst.
    wp_atomic. unfold emit. wp_atomic.
    eapply wp_conseq.
    { apply wp_and; [apply set_coords_spec | apply (keeps_wp search_frame), keeps_set_coords]. }
    intros r s3 [Hspec Hframe]. cbv beta in Hframe.
    pose proof (search_frame_planar _ _ Hframe) as Hpl.
    destruct s3. unfold search_frame in Hframe. atomic_state.
    destruct Hframe as (?&?&?&?&?&?&?&?&?&?&?&?&?&?&?&?&?&?&?&?&?&?&evq&Hevq&Hq).
    subst. rewrite <- app_assoc in *.
    destruct r as [[[|site rest]|]| |]; cbn [then_wp].
    2: { wp_atomic. apply (coord_post_one _ _ c1 c2 todo evq); try done.
         right. eexists. split; [reflexivity|]. intros nums sp Hn Hs.
         cbn [numIons species] in Hn, Hs.
         destruct (Hspec _ nums sp eq_refl Hn Hs) as (chunks & Hl & Hch).
         exists chunks. split; [done|]. revert Hch. unfold planar. by cbn [dim thickness]. }
    3,4: apply (coord_post_one _ _ c1 c2 todo evq); try done; by left.
    all: eapply wp_conseq; [apply (IH _ _ c1); reflexivity|].
    all: intros r' s' Hpost; by eapply (coord_post_more _ _ _ c1 c2 todo evq); [..|exact Hpost].
Qed.

Definition lattice_post (c1 : Z) (todo ca : nat) (s s' : state) : Prop :=
  sites_kept_or_ok s s' /\
  exists evs ks, trace s' = trace s ++ evs /\ trials evs = schedule c1 ks /\
                 (length ks <= todo)%nat /\ Forall (fun k => (k <= ca)%nat) ks.

(** One lattice trial with [k] coordinate trials, and nothing after it. *)
Lemma lattice_post_one c1 todo ca (s s1 : state) evs k :
  sites_kept_or_ok s s1 -> trace s1 = trace s ++ evs ->
  trials evs = window c1 0 k -> (k <= ca)%nat ->
  lattice_post c1 (S todo) ca s s1.
Proof.
  intros Hs Htr Htrials Hk. split; [done|]. exists evs, [k].
  split; [done|]. split; [|split].
  - rewrite schedule_cons. unfold schedule. simpl. by rewrite app_nil_r.
  - simpl. lia.
  - by constructor.
Qed.

Lemma lattice_loop_spec : forall todo c1 (s : state) ca,
  coord_attempts s = Some ca ->
  wp (lattice_loop todo c1) (fun _ s' => lattice_post c1 todo (Z.to_nat ca) s s') s.
Proof.
  induction todo as [|todo IH]; intros c1 s ca Hca; cbn [lattice_loop].
  - apply wp_ret. split; [by left|]. exists [], []. rewrite app_nil_r.
    repeat split; [simpl; lia | constructor].
  - destruct s. cbn [coord_attempts] in Hca. subst.
    wp_atomic.
    eapply wp_conseq; [apply (coord_loop_spec _ _ _ c1); reflexivity|].
    intros r s1 (Hrf & Hcy & Hsites & evs & k & Htr & Htrials & Hk).
    pose proof Hrf as Hrf0.
    destruct s1. unfold run_frame in Hrf. atomic_state.
    destruct Hrf as (?&?&?&?&?&?). subst.
    destruct r as [[]| |]; cbn [then_wp].
    2,3: by eapply lattice_post_one.
    wp_atomic. destruct valid1 as [[|]|].
    1,3: wp_atomic; by eapply lattice_post_one.
    wp_atomic. destruct lattice0 as [lr|]; [|by eapply lattice_post_one].
    wp_atomic. destruct (heap1 !! lr) as [lat|] eqn:Hlat; [|by eapply lattice_post_one].
    wp_atomic. unfold emit. wp_atomic.
    apply wp_call. intros lat' w' Hreset. wp_atomic.
    eapply wp_conseq; [apply (IH _ _ ca); reflexivity|].
    intros r' s2 (Hsites2 & evs2 & ks & Htr2 & Htrials2 & Hlen & Hks).
    split.
    + eapply sites_kept_or_ok_trans;
        [exact (run_frame_shape _ _ Hrf0) | exact Hsites |].
      destruct Hsites2 as [Hk2 | (l & Hl & Hok)]; [by left|].
      right. exists l. split; [done|]. exact Hok.
    + exists (evs ++ [CallResetMatrix] ++ evs2), (k :: ks).
      split; [|split; [|split]].
      * rewrite Htr2. cbn [trace]. by rewrite <- !app_assoc.
      * rewrite !trials_app, Htrials, Htrials2, schedule_cons. reflexivity.
      * simpl. lia.
      * by constructor.
Qed.

(** The budgets of [set_crystal]. *)
Definition lattice_budget (deg resample : bool) : nat :=
  if resample then (if deg then 40 else 5) else 1.

Definition coord_budget (deg : bool) : nat := if deg then 10 else 5.

Definition crystal_post (deg resample : bool) (s s' : state) : Prop :=
  sites_kept_or_ok s s' /\
  exists evs ks, trace s' = trace s ++ evs /\ trials evs = schedule 0 ks /\
                 (length ks <= lattice_budget deg resample)%nat /\
                 Forall (fun k => (k <= coord_budget deg)%nat) ks.

Lemma crystal_post_of_loop (s st0 st : state) deg resample ca la :
  shape_frame s st0 -> trace st0 = trace s -> atom_sites st0 = atom_sites s ->
  (Z.to_nat la <= lattice_budget deg resample)%nat ->
  Z.to_nat ca = coord_budget deg ->
  lattice_post 0 (Z.to_nat la) (Z.to_nat ca) st0 st ->
  crystal_post deg resample s st.
Proof.
  intros Hf Htr Hat Hla Hca (Hsites & evs & ks & Htr' & Htrials & Hlen & Hks).
  split.
  - eapply sites_kept_or_ok_trans; [exact Hf | by left | exact Hsites].
  - exists evs, ks. rewrite <- Htr. split; [done|]. split; [done|].
    split; [lia|]. by rewrite <- Hca.
Qed.

Lemma set_crystal_spec (s : state) deg lr lat :
  degrees s = Some deg -> lattice s = Some lr -> heap s !! lr = Some lat ->
  wp set_crystal (fun _ s' => crystal_post deg (allow_volume_reset lat) s s') s.
Proof.
  intros Hdeg Hlr Hlat. unfold set_crystal, the_lattice. destruct s.
  cbn [degrees lattice heap] in *. subst.
  wp_atomic.
  destruct deg; cbn [negb]; wp_atomic; rewrite Hlat; wp_atomic.
  all: destruct (allow_volume_reset lat) eqn:Hallow; cbn [negb]; wp_atomic.
  all: eapply wp_conseq; [apply lattice_loop_spec; reflexivity|].
  all: intros r st Hpost; eapply crystal_post_of_loop; [..|exact Hpost];
       first [done | by repeat split | simpl; lia].
Qed.

End Loops.

End AtomicAssembly.

(** ** The molecular loop: [set_crystal] of [molecular_crystal] *)

Module MolecularAssembly.

Import molecular_crystal MolecularFacts MolecularSearch AssemblyFacts.

Section Loops.

Context {World Ori Tol : Type} {P : Providers World Ori Tol}.

Local Abbreviation state := (@molecular_crystal.state World Ori Tol).

(** What the assembly loop leaves alone. *)
Definition mol_run_frame (s s' : state) : Prop :=
  dim s' = dim s /\ thickness s' = thickness s /\ numMols s' = numMols s /\
  coord_attempts s' = coord_attempts s /\ lattice s' = lattice s.

Definition mol_shape_frame (s s' : state) : Prop :=
  dim s' = dim s /\ thickness s' = thickness s /\ numMols s' = numMols s.

Lemma mol_run_frame_shape (s s' : state) : mol_run_frame s s' -> mol_shape_frame s s'.
Proof. intros (?&?&?&_). by repeat split. Qed.

(** The sites a run stores are, type by type, lists that place the requested
    count. *)
Definition mol_stored_ok (s : state) (l : list (mol_site Ori)) : Prop :=
  forall nums, numMols s = Some nums ->
    exists chunks, l = concat chunks /\ mol_assembled (planar s) nums chunks.

Definition mol_sites_kept_or_ok (s s' : state) : Prop :=
  mol_sites s' = mol_sites s \/ exists l, mol_sites s' = Some l /\ mol_stored_ok s l.

Definition mol_coord_post (c1 c2 : Z) (todo : nat) (s s' : state) : Prop :=
  mol_run_frame s s' /\ cycle1 s' = cycle1 s /\ mol_sites_kept_or_ok s s' /\
  exists evs k, trace s' = trace s ++ evs /\ trials evs = window c1 c2 k /\
                (k <= todo)%nat.

Lemma mol_planar_frame (s s' : state) : mol_shape_frame s s' -> planar s' = planar s.
Proof. intros (Hd & Ht & _). unfold planar. by rewrite Hd, Ht. Qed.

Lemma mol_stored_ok_frame (s s1 : state) l :
  mol_shape_frame s s1 -> mol_stored_ok s1 l -> mol_stored_ok s l.
Proof.
  intros Hf Hok nums Hnums. rewrite <- (mol_planar_frame _ _ Hf).
  destruct Hf as (_ & _ & Hn). apply Hok; congruence.
Qed.

Lemma mol_sites_kept_or_ok_trans (s s1 s2 : state) :
  mol_shape_frame s s1 -> mol_sites_kept_or_ok s s1 -> mol_sites_kept_or_ok s1 s2 ->
  mol_sites_kept_or_ok s s2.
Proof.
  intros Hf H1 [H2 | (l & Hl & Hok)].
  - destruct H1 as [H1 | (l & Hl & Hok)]; [left; congruence|].
    right. exists l. split; [congruence | done].
  - right. exists l. split; [done|]. by eapply mol_stored_ok_frame.
Qed.

Lemma mol_coord_post_one (s st : state) c1 c2 todo evq :
  mol_run_frame s st -> cycle1 st = cycle1 s -> mol_sites_kept_or_ok s st ->
  trace st = trace s ++ CallSetCoords c1 c2 :: evq -> Forall AtomicFacts.quiet evq ->
  mol_coord_post c1 c2 (S todo) s st.
Proof.
  intros Hf Hc Hs Htr Hq. repeat split; try apply Hf; try done.
  exists (CallSetCoords c1 c2 :: evq), 1%nat. split; [done|]. split; [|lia].
  change (CallSetCoords c1 c2 :: evq) with ([CallSetCoords c1 c2] ++ evq).
  rewrite trials_app, (trials_quiet evq Hq), window_S. reflexivity.
Qed.

Lemma mol_coord_post_more (s s3 s' : state) c1 c2 todo evq :
  mol_run_frame s s3 -> cycle1 s3 = cycle1 s -> mol_sites s3 = mol_sites s ->
  trace s3 = trace s ++ CallSetCoords c1 c2 :: evq -> Forall AtomicFacts.quiet evq ->
  mol_coord_post c1 (c2 + 1) todo s3 s' ->
  mol_coord_post c1 c2 (S todo) s s'.
Proof.
  intros Hf Hc Hat Htr Hq (Hf' & Hc' & Hs' & evs & k & Htr' & Htrials & Hk).
  split; [|split; [|split]].
  - destruct Hf as (?&?&?&?&?), Hf' as (?&?&?&?&?). repeat split; congruence.
  - congruence.
  - eapply mol_sites_kept_or_ok_trans;
      [exact (mol_run_frame_shape _ _ Hf) | by left | exact Hs'].
  - exists ((CallSetCoords c1 c2 :: evq) ++ evs), (S k). split; [|split; [|lia]].
    + by rewrite Htr', Htr, <- app_assoc.
    + change (CallSetCoords c1 c2 :: evq) with ([CallSetCoords c1 c2] ++ evq).
      rewrite !trials_app, (trials_quiet evq Hq), Htrials, window_S. reflexivity.
Qed.

Lemma mol_coord_loop_spec : forall todo c2 (s : state) c1,
  cycle1 s = Some c1 ->
  wp (coord_loop todo c2) (fun _ s' => mol_coord_post c1 c2 todo s s') s.
Proof.
  induction todo as [|todo IH]; intros c2 s c1 Hc1; cbn [coord_loop].
  - apply wp_ret. repeat split. { by left. }
    exists [], O. by rewrite app_nil_r.
  - destruct s. cbn [cycle1] in Hc1. subst.
    wp_molecular. unfold emit. wp_molecular.
    eapply wp_conseq.
    { apply mol_wp_and;
        [apply mol_set_coords_spec | apply (keeps_wp search_frame), mol_keeps_set_coords]. }
    intros r s3 [Hspec Hframe]. cbv beta in Hframe.
    pose proof (mol_search_frame_planar _ _ Hframe) as Hpl.
    destruct s3. unfold search_frame in Hframe. molecular_state.
    destruct Hframe as
      (?&?&?&?&?&?&?&?&?&?&?&?&?&?&?&?&?&?&?&?&?&?&?&?&?&?&evq&Hevq&Hq).
    subst. rewrite <- app_assoc in *.
    destruct r as [[[|site rest]|]| |]; cbn [then_wp].
    2: { wp_molecular. apply (mol_coord_post_one _ _ c1 c2 todo evq); try done.
         right. eexists. split; [reflexivity|]. intros nums Hn.
         cbn [numMols] in Hn.
         destruct (Hspec _ nums eq_refl Hn) as (chunks & Hl & Hch).
         exists chunks. split; [done|]. revert Hch. unfold planar. by cbn [dim thickness]. }
    3,4: apply (mol_coord_post_one _ _ c1 c2 todo evq); try done; by left.
    all: eapply wp_conseq; [apply (IH _ _ c1); reflexivity|].
    all: intros r' s' Hpost;
         by eapply (mol_coord_post_more _ _ _ c1 c2 todo evq); [..|exact Hpost].
Qed.

Definition mol_lattice_post (c1 : Z) (todo ca : nat) (r : Result bool) (s s' : state) : Prop :=
  mol_sites_kept_or_ok s s' /\
  exists evs ks, trace s' = trace s ++ evs /\ trials evs = schedule c1 ks /\
                 (length ks <= todo)%nat /\ Forall (fun k => (k <= ca)%nat) ks /\
                 (r = Ok false -> length ks = todo).

Lemma mol_lattice_post_one c1 todo ca r (s s1 : state) evs k :
  mol_sites_kept_or_ok s s1 -> trace s1 = trace s ++ evs ->
  trials evs = window c1 0 k -> (k <= ca)%nat -> r <> Ok false ->
  mol_lattice_post c1 (S todo) ca r s s1.
Proof.
  intros Hs Htr Htrials Hk Hr. split; [done|]. exists evs, [k].
  split; [done|]. split; [|split; [|split]].
  - rewrite schedule_cons. unfold schedule. simpl. by rewrite app_nil_r.
  - simpl. lia.
  - by constructor.
  - done.
Qed.

Lemma mol_lattice_loop_spec : forall todo c1 (s : state) ca,
  coord_attempts s = Some ca ->
  wp (lattice_loop todo c1)
     (fun r s' => mol_lattice_post c1 todo (Z.to_nat ca) r s s') s.
Proof.
  induction todo as [|todo IH]; intros c1 s ca Hca; cbn [lattice_loop].
  - apply wp_ret. split; [by left|]. exists [], []. rewrite app_nil_r.
    repeat split; [simpl; lia | constructor].
  - destruct s. cbn [coord_attempts] in Hca. subst.
    wp_molecular.
    eapply wp_conseq; [apply (mol_coord_loop_spec _ _ _ c1); reflexivity|].
    intros r s1 (Hrf & Hcy & Hsites & evs & k & Htr & Htrials & Hk).
    pose proof Hrf as Hrf0.
    destruct s1. unfold mol_run_frame in Hrf. molecular_state.
    destruct Hrf as (?&?&?&?&?). subst.
    destruct r as [[]| |]; cbn [then_wp].
    2,3: by eapply mol_lattice_post_one.
    wp_molecular. destruct valid1 as [[|]|].
    1,3: wp_molecular; by eapply mol_lattice_post_one.
    wp_molecular. destruct lattice0 as [lr|]; [|by eapply mol_lattice_post_one].
    wp_molecular. destruct (heap1 !! lr) as [lat|] eqn:Hlat;
      [|by eapply mol_lattice_post_one].
    wp_molecular. unfold emit. wp_molecular.
    apply mol_wp_call. intros lat' w' Hreset. wp_molecular.
    eapply wp_conseq; [apply (IH _ _ ca); reflexivity|].
    intros r' s2 (Hsites2 & evs2 & ks & Htr2 & Htrials2 & Hlen & Hks & Hfull).
    split.
    + eapply mol_sites_kept_or_ok_trans;
        [exact (mol_run_frame_shape _ _ Hrf0) | exact Hsites |].
      destruct Hsites2 as [Hk2 | (l & Hl & Hok)]; [by left|].
      right. exists l. split; [done|]. exact Hok.
    + exists (evs ++ [CallResetMatrix] ++ evs2), (k :: ks).
      split; [|split; [|split; [|split]]].
      * rewrite Htr2. cbn [trace]. by rewrite <- !app_assoc.
      * rewrite !trials_app, Htrials, Htrials2, schedule_cons. reflexivity.
      * simpl. lia.
      * by constructor.
      * intros Hr. simpl. by rewrite (Hfull Hr).
Qed.

(** The budgets of [set_crystal]. *)
Definition mol_lattice_budget (deg resample : bool) : nat :=
  if resample then (if deg then 40 else 20) else 1.

Definition mol_coord_budget (deg : bool) : nat := if deg then 30 else 3.

Definition mol_crystal_post (deg resample : bool) (s s' : state) : Prop :=
  mol_sites_kept_or_ok s s' /\
  exists evs ks, trace s' = trace s ++ evs /\ trials evs = schedule 0 ks /\
                 (length ks <= mol_lattice_budget deg resample)%nat /\
                 Forall (fun k => (k <= mol_coord_budget deg)%nat) ks.

Lemma mol_crystal_post_of_loop (s st0 st st' : state) deg resample ca la r evq :
  mol_shape_frame s st0 -> trace st0 = trace s -> mol_sites st0 = mol_sites s ->
  (Z.to_nat la <= mol_lattice_budget deg resample)%nat ->
  Z.to_nat ca = mol_coord_budget deg ->
  mol_lattice_post 0 (Z.to_nat la) (Z.to_nat ca) r st0 st ->
  mol_sites st' = mol_sites st -> trace st' = trace st ++ evq ->
  trials evq = [] ->
  mol_crystal_post deg resample s st'.
Proof.
  intros Hf Htr Hat Hla Hca (Hsites & evs & ks & Htr' & Htrials & Hlen & Hks & _)
    Hsame Htr2 Hq.
  split.
  - eapply mol_sites_kept_or_ok_trans; [exact Hf | by left |].
    destruct Hsites as [Hk | (l & Hl & Hok)]; [left; congruence|].
    right. exists l. split; [congruence | done].
  - exists (evs ++ evq), ks. rewrite <- Htr.
    split; [by rewrite Htr2, Htr', app_assoc|].
    split; [by rewrite trials_app, Hq, app_nil_r|].
    split; [lia|]. by rewrite <- Hca.
Qed.

Lemma mol_set_crystal_spec (s : state) deg lr lat :
  degrees s = Some deg -> lattice s = Some lr -> heap s !! lr = Some lat ->
  wp set_crystal (fun _ s' => mol_crystal_post deg (allow_volume_reset lat) s s') s.
Proof.
  intros Hdeg Hlr Hlat. unfold set_crystal, the_lattice. destruct s.
  cbn [degrees lattice heap] in *. subst.
  wp_molecular.
  destruct deg; cbn [negb]; wp_molecular; rewrite Hlat; wp_molecular.
  all: destruct (allow_volume_reset lat) eqn:Hallow; cbn [negb]; wp_molecular.
  all: eapply wp_conseq; [apply mol_lattice_loop_spec; reflexivity|].
  all: intros r st Hpost; cbv beta in Hpost.
  all: destruct r as [[|]| |]; cbn [then_wp]; unfold printx, emit; wp_molecular.
  all: destruct st; molecular_state.
  all: first
    [ eapply (mol_crystal_post_of_loop _ _ _ _ _ _ _ _ _ []);
        [..|exact Hpost| | |]; rewrite ?app_nil_r;
        first [done | by repeat split | simpl; lia]
    | eapply (mol_crystal_post_of_loop _ _ _ _ _ _ _ _ _ [Printx MsgNoCrystal]);
        [..|exact Hpost| | |];
        first [done | by repeat split | simpl; lia] ].
Qed.

End Loops.

End MolecularAssembly.

(** * The searches end *)

(** [l[i]] gives an element or raises [IndexError]. *)
Lemma index_cases {A} (l : list A) i :
  (exists a, index l i = Ok a) \/ index l i = Raise IndexError.
Proof. unfold index. destruct (l !! i); eauto. Qed.

Module SearchTotal.

(** The outcome of a method that has ended: a value or a Python exception. *)
Definition ended {A} (r : Result A) : Prop := r <> OutOfFuel.

Section Atomic.

Import random_crystal AtomicFacts AtomicSearch.

Context {World Ori Tol : Type} {P : Providers World Ori Tol}.

Local Abbreviation state := (@random_crystal.state World Tol).

Lemma ion_trial_ends numIon specie cell wyks tol tm L (s : state) :
  wp (ion_trial numIon specie cell wyks tol tm L) (fun r _ => ended r) s.
Proof.
  unfold ion_trial, ended. destruct s. wp_search. all: done.
Qed.

Lemma ion_loop_ends numIon specie cell wyks tol tm : forall todo L (s : state),
  wp (ion_loop todo numIon specie cell wyks tol tm L) (fun r _ => ended r) s.
Proof.
  induction todo as [|todo IH]; intros L s; cbn [ion_loop].
  - by apply wp_ret.
  - apply wp_bind. eapply wp_conseq; [apply ion_trial_ends|].
    intros r s' Hr.
    destruct r as [[L' [l|]]| |]; cbn [then_wp]; [by apply wp_ret | apply IH | done | done].
Qed.

Lemma set_ion_wyckoffs_ends numIon specie cell wyks (s : state) :
  wp (_set_ion_wyckoffs numIon specie cell wyks) (fun r _ => ended r) s.
Proof.
  unfold _set_ion_wyckoffs. destruct s.
  repeat first
    [ apply ion_loop_ends
    | wp_step
    | progress atomic_state
    | match goal with
      | |- then_wp _ _ (index ?l ?i) _ => destruct (index_cases l i) as [[? ->] | ->]
      | |- wp (match ?x with _ => _ end) _ _ => destruct x eqn:?
      | |- match ?x with _ => _ end => destruct x eqn:?
      end ].
  all: done.
Qed.

End Atomic.

Section Molecular.

Import molecular_crystal MolecularFacts MolecularSearch.

Context {World Ori Tol : Type} {P : Providers World Ori Tol}.

Local Abbreviation state := (@molecular_crystal.state World Ori Tol).

Lemma bisect_turn_ends ms0 ori mo pt wpos B (s : state) :
  wp (bisect_turn ms0 ori mo pt wpos B) (fun r _ => ended r) s.
Proof.
  unfold bisect_turn, ended. destruct s. wp_mol_search. all: done.
Qed.

Lemma bisect_loop_ends ms0 ori mo pt wpos : forall todo B (s : state),
  wp (bisect_loop todo ms0 ori mo pt wpos B) (fun r _ => ended r) s.
Proof.
  induction todo as [|todo IH]; intros B s; cbn [bisect_loop].
  - by apply wp_ret.
  - apply wp_bind. eapply wp_conseq; [apply bisect_turn_ends|].
    intros r s' Hr.
    destruct r as [[ms|B']| |]; cbn [then_wp]; [by apply wp_ret | apply IH | done | done].
Qed.

Lemma set_orientation_ends pyxtal_mol pt oris wpos (s : state) :
  wp (_set_orientation pyxtal_mol pt oris wpos) (fun r _ => ended r) s.
Proof.
  unfold _set_orientation. destruct s.
  repeat first [ apply bisect_loop_ends | wp_mol_search ]. all: done.
Qed.

Lemma mol_trial_ends numMol pyxtal_mol valid_ori mol_wyks L (s : state) :
  wp (mol_trial numMol pyxtal_mol valid_ori mol_wyks L) (fun r _ => ended r) s.
Proof.
  unfold mol_trial, ended. destruct s. wp_mol_search.
  all: try done.
  all: (eapply wp_conseq; [apply set_orientation_ends|]);
       intros r s' Hr; destruct r as [[ms|]| |]; cbn [then_wp]; try done.
  all: wp_mol_search.
  all: done.
Qed.

Lemma mol_loop_ends numMol pyxtal_mol valid_ori mol_wyks : forall todo L (s : state),
  wp (mol_loop todo numMol pyxtal_mol valid_ori mol_wyks L) (fun r _ => ended r) s.
Proof.
  induction todo as [|todo IH]; intros L s; cbn [mol_loop].
  - by apply wp_ret.
  - apply wp_bind. eapply wp_conseq; [apply mol_trial_ends|].
    intros r s' Hr.
    destruct r as [[L' [l|]]| |]; cbn [then_wp]; [by apply wp_ret | apply IH | done | done].
Qed.

Lemma set_mol_wyckoffs_ends id numMol pyxtal_mol valid_ori mol_wyks (s : state) :
  wp (_set_mol_wyckoffs id numMol pyxtal_mol valid_ori mol_wyks) (fun r _ => ended r) s.
Proof.
  unfold _set_mol_wyckoffs. destruct s.
  repeat first
    [ apply mol_loop_ends
    | wp_step
    | progress molecular_state
    | match goal with
      | |- then_wp _ _ (index ?l ?i) _ => destruct (index_cases l i) as [[? ->] | ->]
      | |- wp (match ?x with _ => _ end) _ _ => destruct x eqn:?
      | |- match ?x with _ => _ end => destruct x eqn:?
      end ].
  all: done.
Qed.

End Molecular.

End SearchTotal.

(** * The counts that a run places *)

Module StoredCounts.

Import SitesClaims.

Section Atomic.

Import random_crystal AtomicFacts AtomicSearch AtomicAssembly.

Context {World Ori Tol : Type} {P : Providers World Ori Tol}.

Local Abbreviation astate := (@random_crystal.state World Tol).

(** What [init_common] leaves alone between the storing of the counts and
    [set_crystal]. *)
Definition placement_kept (s s' : astate) : Prop :=
  dim s' = dim s /\ thickness s' = thickness s /\ numIons s' = numIons s /\
  species s' = species s /\ atom_sites s' = atom_sites s.

Global Instance placement_kept_preorder : PreOrder placement_kept.
Proof.
  split.
  - intros s. by repeat split.
  - intros s1 s2 s3 (?&?&?&?&?) (?&?&?&?&?). repeat split; congruence.
Qed.

Ltac keeps_placement :=
  repeat first
    [ keeps_step
    | apply keeps_call
    | progress unfold printx, emit
    | by (intros; repeat match goal with s : random_crystal.state |- _ => destruct s end) ].

Lemma placement_kept_set_sites_from sites_ : forall todo i,
  keeps placement_kept (set_sites_from sites_ i todo).
Proof.
  induction todo as [|specie todo IH]; intros i; cbn [set_sites_from].
  - keeps_placement.
  - apply keeps_bind; [typeclasses eauto | keeps_placement |].
    intros [site|].
    + repeat (apply keeps_bind; [typeclasses eauto | keeps_placement | intros ?]).
      apply IH.
    + repeat (apply keeps_bind; [typeclasses eauto | keeps_placement | intros ?]).
      apply IH.
Qed.

Lemma placement_kept_set_sites sites_ : keeps placement_kept (set_sites sites_).
Proof.
  unfold set_sites.
  repeat (apply keeps_bind; [typeclasses eauto | keeps_placement | intros ?]).
  apply placement_kept_set_sites_from.
Qed.

Lemma placement_kept_check_compatible fuel :
  keeps placement_kept (_check_compatible fuel).
Proof. unfold _check_compatible. keeps_placement. Qed.

Lemma placement_kept_volume_sum : forall todo vol,
  keeps placement_kept (volume_sum todo vol).
Proof.
  induction todo as [|[numIon specie] todo IH]; intros vol; cbn [volume_sum].
  - keeps_placement.
  - apply keeps_bind; [typeclasses eauto | keeps_placement |]. intros r. apply IH.
Qed.

Lemma placement_kept_set_volume : keeps placement_kept set_volume.
Proof.
  unfold set_volume.
  repeat first [ apply placement_kept_volume_sum | keeps_placement ].
Qed.

Lemma placement_kept_set_lattice lattice_ :
  keeps placement_kept (set_lattice lattice_).
Proof. unfold set_lattice. keeps_placement. Qed.

Lemma placement_kept_shape (s s' : astate) : placement_kept s s' -> shape_frame s s'.
Proof. intros (?&?&?&?&_). by repeat split. Qed.

Lemma placement_kept_sites (s s' : astate) :
  placement_kept s s' -> sites_kept_or_ok s s'.
Proof. intros (_&_&_&_&Ha). by left. Qed.

(** [set_crystal] stores nothing, or a list made for the counts of the
    object, also when it ends in an exception. *)
Lemma set_crystal_sites (s : astate) :
  wp set_crystal (fun _ s' => sites_kept_or_ok s s') s.
Proof.
  destruct (degrees s) as [deg|] eqn:Hdeg.
  2: { unfold set_crystal. apply wp_bind, wp_attr. rewrite Hdeg. by left. }
  destruct (lattice s) as [lr|] eqn:Hlr.
  2: { unfold set_crystal, the_lattice. destruct s. cbn [degrees lattice] in *. subst.
       wp_atomic. destruct deg; cbn [negb]; wp_atomic; by left. }
  destruct (heap s !! lr) as [lat|] eqn:Hlat.
  - eapply wp_conseq; [apply (set_crystal_spec s deg lr lat Hdeg Hlr Hlat)|].
    by intros r s' [H _].
  - unfold set_crystal, the_lattice. destruct s. cbn [degrees lattice heap] in *. subst.
    wp_atomic. destruct deg; cbn [negb]; wp_atomic; rewrite Hlat; by left.
Qed.

(** The sites in [l] are, type by type, lists that place the counts
    [counts] of the species [sp]. *)
Definition placed_for (thin : bool) (counts : list Z) (sp : list string)
    (l : list atom_site) : Prop :=
  exists chunks, l = concat chunks /\ assembled thin (zip counts sp) chunks.

Lemma atomic_init_tail_sites fuel lattice_ sites_ (tm : Tol + string) (s : astate) :
  wp (set_sites sites_ ;;;
      modify (with_tol_matrix
                match tm with inl t => t | inr name => Tol_matrix_init name end) ;;;
      r <- _check_compatible fuel ;;
      modify (with_degrees (snd r)) ;;;
      if negb (fst r) then
        modify (with_valid false) ;;;
        raise CompatibilityError
      else
        set_volume ;;;
        set_lattice lattice_ ;;;
        set_crystal ;;;
        ret None)
     (fun (_ : Result (option bool)) s' => sites_kept_or_ok s s') s.
Proof.
  apply wp_bind.
  eapply wp_conseq; [apply (keeps_wp placement_kept), placement_kept_set_sites|].
  intros r1 s1 H1. cbv beta in H1.
  destruct r1 as [[]| |]; cbn [then_wp];
    [|by apply placement_kept_sites|by apply placement_kept_sites].
  apply wp_bind, wp_modify. cbn [then_wp].
  set (s2 := with_tol_matrix _ s1).
  assert (H2 : placement_kept s s2).
  { etransitivity; [exact H1|]. subst s2. by destruct s1. }
  clearbody s2. clear s1 H1.
  apply wp_bind.
  eapply wp_conseq; [apply (keeps_wp placement_kept), placement_kept_check_compatible|].
  intros r3 s3 H3. cbv beta in H3.
  assert (H3' : placement_kept s s3) by (etransitivity; eassumption).
  destruct r3 as [[compat deg]| |]; cbn [then_wp];
    [|by apply placement_kept_sites|by apply placement_kept_sites].
  apply wp_bind, wp_modify. cbn [then_wp].
  set (s4 := with_degrees _ s3).
  assert (H4 : placement_kept s s4).
  { etransitivity; [exact H3'|]. subst s4. by destruct s3. }
  clearbody s4. clear s2 H2 s3 H3 H3'.
  cbn [fst]. destruct compat; cbn [negb].
  - apply wp_bind.
    eapply wp_conseq; [apply (keeps_wp placement_kept), placement_kept_set_volume|].
    intros r5 s5 H5. cbv beta in H5.
    assert (H5' : placement_kept s s5) by (etransitivity; eassumption).
    destruct r5 as [[]| |]; cbn [then_wp];
      [|by apply placement_kept_sites|by apply placement_kept_sites].
    apply wp_bind.
    eapply wp_conseq; [apply (keeps_wp placement_kept), placement_kept_set_lattice|].
    intros r6 s6 H6. cbv beta in H6.
    assert (H6' : placement_kept s s6) by (etransitivity; eassumption).
    destruct r6 as [[]| |]; cbn [then_wp];
      [|by apply placement_kept_sites|by apply placement_kept_sites].
    apply wp_bind.
    eapply wp_conseq; [apply set_crystal_sites|].
    intros r7 s7 H7.
    assert (H7' : sites_kept_or_ok s s7).
    { eapply sites_kept_or_ok_trans;
        [by apply placement_kept_shape | by apply placement_kept_sites | exact H7]. }
    by destruct r7 as [[]| |]; cbn [then_wp]; [apply wp_ret| |].
  - apply wp_bind, wp_modify. cbn [then_wp]. apply wp_raise.
    apply placement_kept_sites. etransitivity; [exact H4|]. by destruct s4.
Qed.

(** Whatever sites a call of [init_common] stores are made for the stored
    counts. *)
Lemma atomic_init_places_stored fuel species_ numIons_ factor_ group_ lattice_ sites_
    conventional (tm : Tol + string) (s : astate) :
  let s' := (init_common fuel species_ numIons_ factor_ group_ lattice_ sites_
               conventional tm s).2 in
  atom_sites s' = atom_sites s \/
  exists l, atom_sites s' = Some l /\
    placed_for (planar s) (stored_counts numIons_ group_ (dim s) conventional)
      species_ l.
Proof.
  cbv zeta.
  change (wp (init_common fuel species_ numIons_ factor_ group_ lattice_ sites_
                conventional tm)
             (fun _ s' =>
                atom_sites s' = atom_sites s \/
                exists l, atom_sites s' = Some l /\
                  placed_for (planar s)
                    (stored_counts numIons_ group_ (dim s) conventional) species_ l) s).
  unfold init_common.
  apply wp_bind, wp_modify. cbn [then_wp].
  apply wp_bind, wp_modify. cbn [then_wp].
  destruct (existsb bad_count numIons_).
  { unfold printx, emit. apply wp_bind, wp_modify. cbn [then_wp]. apply wp_ret.
    left. by destruct s. }
  apply wp_bind, wp_gets. cbn [then_wp].
  repeat (apply wp_bind, wp_modify; cbn [then_wp]).
  match goal with |- wp _ _ ?st => set (s0 := st) end.
  assert (Hn0 : numIons s0 = Some (stored_counts numIons_ group_ (dim s) conventional))
    by (subst s0; by destruct s).
  assert (Hsp0 : species s0 = Some species_) by (subst s0; by destruct s).
  assert (Ha0 : atom_sites s0 = atom_sites s) by (subst s0; by destruct s).
  assert (Hp0 : planar s0 = planar s) by (subst s0; by destruct s).
  clearbody s0.
  eapply wp_conseq; [apply atomic_init_tail_sites|].
  intros r s' [Hkept | (l & Hl & Hok)]; cbv beta.
  - left. congruence.
  - right. exists l. split; [done|]. rewrite <- Hp0. by apply Hok.
Qed.

End Atomic.

Section Molecular.

Import molecular_crystal MolecularFacts MolecularSearch MolecularAssembly.

Context {World Ori Tol : Type} {P : Providers World Ori Tol}.

Local Abbreviation mstate := (@molecular_crystal.state World Ori Tol).

Definition mol_placement_kept (s s' : mstate) : Prop :=
  dim s' = dim s /\ thickness s' = thickness s /\ numMols s' = numMols s /\
  mol_sites s' = mol_sites s.

Global Instance mol_placement_kept_preorder : PreOrder mol_placement_kept.
Proof.
  split.
  - intros s. by repeat split.
  - intros s1 s2 s3 (?&?&?&?) (?&?&?&?). repeat split; congruence.
Qed.

Ltac keeps_mol_placement :=
  repeat first
    [ keeps_step
    | apply mol_keeps_call
    | progress unfold printx, emit
    | by (intros; repeat match goal with s : molecular_crystal.state |- _ => destruct s end) ].

Lemma mol_placement_kept_set_molecules molecules_ torsions :
  keeps mol_placement_kept (set_molecules molecules_ torsions).
Proof. unfold set_molecules. keeps_mol_placement. Qed.

Lemma mol_placement_kept_set_sites_from sites_ : forall todo i,
  keeps mol_placement_kept (set_sites_from sites_ i todo).
Proof.
  induction todo as [|m todo IH]; intros i; cbn [set_sites_from].
  - keeps_mol_placement.
  - apply keeps_bind; [typeclasses eauto | keeps_mol_placement |].
    intros [site|].
    + repeat (apply keeps_bind; [typeclasses eauto | keeps_mol_placement | intros ?]).
      apply IH.
    + repeat (apply keeps_bind; [typeclasses eauto | keeps_mol_placement | intros ?]).
      apply IH.
Qed.

Lemma mol_placement_kept_set_sites sites_ :
  keeps mol_placement_kept (set_sites sites_).
Proof.
  unfold set_sites.
  repeat (apply keeps_bind; [typeclasses eauto | keeps_mol_placement | intros ?]).
  apply mol_placement_kept_set_sites_from.
Qed.

Lemma mol_placement_kept_orientations_row m inv : forall x,
  keeps mol_placement_kept (orientations_row m inv x).
Proof.
  induction x as [|wpos x IH]; cbn [orientations_row].
  - keeps_mol_placement.
  - apply keeps_bind; [typeclasses eauto | keeps_mol_placement |]. intros allowed.
    apply keeps_bind; [typeclasses eauto | apply IH |]. intros rest. keeps_mol_placement.
Qed.

Lemma mol_placement_kept_orientations_mol m inv : forall organized,
  keeps mol_placement_kept (orientations_mol m inv organized).
Proof.
  induction organized as [|x organized IH]; cbn [orientations_mol].
  - keeps_mol_placement.
  - apply keeps_bind; [typeclasses eauto | apply mol_placement_kept_orientations_row |].
    intros r.
    apply keeps_bind; [typeclasses eauto | apply IH |]. intros rest.
    keeps_mol_placement.
Qed.

Lemma mol_placement_kept_orientations_all inv organized : forall ms,
  keeps mol_placement_kept (orientations_all ms inv organized).
Proof.
  induction ms as [|m ms IH]; cbn [orientations_all].
  - keeps_mol_placement.
  - apply keeps_bind; [typeclasses eauto | apply mol_placement_kept_orientations_mol |].
    intros r.
    apply keeps_bind; [typeclasses eauto | apply IH |]. intros rest.
    keeps_mol_placement.
Qed.

Lemma mol_placement_kept_set_orientations orientations :
  keeps mol_placement_kept (set_orientations orientations).
Proof.
  unfold set_orientations.
  repeat first [ apply mol_placement_kept_orientations_all | keeps_mol_placement ].
Qed.

Lemma mol_placement_kept_check_compatible fuel :
  keeps mol_placement_kept (_check_compatible fuel).
Proof. unfold _check_compatible. keeps_mol_placement. Qed.

Lemma mol_placement_kept_set_volume : keeps mol_placement_kept set_volume.
Proof. unfold set_volume. keeps_mol_placement. Qed.

Lemma mol_placement_kept_set_lattice lattice_ :
  keeps mol_placement_kept (set_lattice lattice_).
Proof. unfold set_lattice. keeps_mol_placement. Qed.

Lemma mol_placement_kept_shape (s s' : mstate) :
  mol_placement_kept s s' -> mol_shape_frame s s'.
Proof. intros (?&?&?&_). by repeat split. Qed.

Lemma mol_placement_kept_sites (s s' : mstate) :
  mol_placement_kept s s' -> mol_sites_kept_or_ok s s'.
Proof. intros (_&_&_&Ha). by left. Qed.

Lemma mol_set_crystal_sites (s : mstate) :
  wp set_crystal (fun _ s' => mol_sites_kept_or_ok s s') s.
Proof.
  destruct (degrees s) as [deg|] eqn:Hdeg.
  2: { unfold set_crystal. apply wp_bind, wp_attr. rewrite Hdeg. by left. }
  destruct (lattice s) as [lr|] eqn:Hlr.
  2: { unfold set_crystal, the_lattice. destruct s. cbn [degrees lattice] in *. subst.
       wp_molecular. destruct deg; cbn [negb]; wp_molecular; by left. }
  destruct (heap s !! lr) as [lat|] eqn:Hlat.
  - eapply wp_conseq; [apply (mol_set_crystal_spec s deg lr lat Hdeg Hlr Hlat)|].
    by intros r s' [H _].
  - unfold set_crystal, the_lattice. destruct s. cbn [degrees lattice heap] in *. subst.
    wp_molecular. destruct deg; cbn [negb]; wp_molecular; rewrite Hlat; by left.
Qed.

Definition mol_placed_for (thin : bool) (counts : list Z)
    (l : list (mol_site Ori)) : Prop :=
  exists chunks, l = concat chunks /\ mol_assembled thin counts chunks.

Lemma molecular_init_tail_sites fuel molecules_ orientations lattice_ torsions sites_
    (s : mstate) :
  wp (set_molecules molecules_ torsions ;;;
      set_sites sites_ ;;;
      set_orientations orientations ;;;
      r <- _check_compatible fuel ;;
      modify (with_degrees (snd r)) ;;;
      if negb (fst r) then
        modify (with_valid false) ;;;
        raise CompatibilityError
      else
        set_volume ;;;
        set_lattice lattice_ ;;;
        set_crystal ;;;
        ret tt)
     (fun _ s' => mol_sites_kept_or_ok s s') s.
Proof.
  apply wp_bind.
  eapply wp_conseq;
    [apply (keeps_wp mol_placement_kept), mol_placement_kept_set_molecules|].
  intros r0 s0 H0. cbv beta in H0.
  destruct r0 as [[]| |]; cbn [then_wp];
    [|by apply mol_placement_kept_sites|by apply mol_placement_kept_sites].
  apply wp_bind.
  eapply wp_conseq; [apply (keeps_wp mol_placement_kept), mol_placement_kept_set_sites|].
  intros r1 s1 H1. cbv beta in H1.
  assert (H1' : mol_placement_kept s s1) by (etransitivity; eassumption).
  destruct r1 as [[]| |]; cbn [then_wp];
    [|by apply mol_placement_kept_sites|by apply mol_placement_kept_sites].
  apply wp_bind.
  eapply wp_conseq;
    [apply (keeps_wp mol_placement_kept), mol_placement_kept_set_orientations|].
  intros r2 s2 H2. cbv beta in H2.
  assert (H2' : mol_placement_kept s s2) by (etransitivity; eassumption).
  destruct r2 as [[]| |]; cbn [then_wp];
    [|by apply mol_placement_kept_sites|by apply mol_placement_kept_sites].
  apply wp_bind.
  eapply wp_conseq;
    [apply (keeps_wp mol_placement_kept), mol_placement_kept_check_compatible|].
  intros r3 s3 H3. cbv beta in H3.
  assert (H3' : mol_placement_kept s s3) by (etransitivity; eassumption).
  destruct r3 as [[compat deg]| |]; cbn [then_wp];
    [|by apply mol_placement_kept_sites|by apply mol_placement_kept_sites].
  apply wp_bind, wp_modify. cbn [then_wp].
  set (s4 := with_degrees _ s3).
  assert (H4 : mol_placement_kept s s4).
  { etransitivity; [exact H3'|]. subst s4. by destruct s3. }
  clearbody s4. clear s0 H0 s1 H1 H1' s2 H2 H2' s3 H3 H3'.
  cbn [fst]. destruct compat; cbn [negb].
  - apply wp_bind.
    eapply wp_conseq;
      [apply (keeps_wp mol_placement_kept), mol_placement_kept_set_volume|].
    intros r5 s5 H5. cbv beta in H5.
    assert (H5' : mol_placement_kept s s5) by (etransitivity; eassumption).
    destruct r5 as [[]| |]; cbn [then_wp];
      [|by apply mol_placement_kept_sites|by apply mol_placement_kept_sites].
    apply wp_bind.
    eapply wp_conseq;
      [apply (keeps_wp mol_placement_kept), mol_placement_kept_set_lattice|].
    intros r6 s6 H6. cbv beta in H6.
    assert (H6' : mol_placement_kept s s6) by (etransitivity; eassumption).
    destruct r6 as [[]| |]; cbn [then_wp];
      [|by apply mol_placement_kept_sites|by apply mol_placement_kept_sites].
    apply wp_bind.
    eapply wp_conseq; [apply mol_set_crystal_sites|].
    intros r7 s7 H7.
    assert (H7' : mol_sites_kept_or_ok s s7).
    { eapply mol_sites_kept_or_ok_trans;
        [by apply mol_placement_kept_shape | by apply mol_placement_kept_sites
        | exact H7]. }
    by destruct r7 as [[]| |]; cbn [then_wp]; [apply wp_ret| |].
  - apply wp_bind, wp_modify. cbn [then_wp]. apply wp_raise.
    apply mol_placement_kept_sites. etransitivity; [exact H4|]. by destruct s4.
Qed.

Lemma molecular_init_places_stored fuel molecules_ numMols_ volume_factor select_high_
    allow_inversion_ orientations group_ lattice_ torsions sites_ conventional
    (tm : Tol + string) (s : mstate) :
  let s' := (init_common fuel molecules_ numMols_ volume_factor select_high_
               allow_inversion_ orientations group_ lattice_ torsions sites_
               conventional tm s).2 in
  mol_sites s' = mol_sites s \/
  exists l, mol_sites s' = Some l /\
    mol_placed_for (planar s) (stored_mol_counts numMols_ group_ (dim s) conventional) l.
Proof.
  cbv zeta.
  change (wp (init_common fuel molecules_ numMols_ volume_factor select_high_
                allow_inversion_ orientations group_ lattice_ torsions sites_
                conventional tm)
             (fun _ s' =>
                mol_sites s' = mol_sites s \/
                exists l, mol_sites s' = Some l /\
                  mol_placed_for (planar s)
                    (stored_mol_counts numMols_ group_ (dim s) conventional) l) s).
  unfold init_common.
  apply wp_bind, wp_modify. cbn [then_wp].
  apply wp_bind, wp_modify. cbn [then_wp].
  apply wp_bind, wp_gets. cbn [then_wp].
  apply wp_bind, wp_modify. cbn [then_wp].
  apply wp_bind, wp_gets. cbn [then_wp].
  apply wp_bind.
  match goal with |- wp (if ?b then _ else _) _ _ => destruct b end;
    [apply wp_modify | apply wp_ret]; cbn [then_wp];
    repeat (apply wp_bind, wp_modify; cbn [then_wp]);
    (match goal with |- wp _ _ ?st => set (s0 := st) end;
     assert (Hn0 : numMols s0
                   = Some (stored_mol_counts numMols_ group_ (dim s) conventional))
       by (subst s0; by destruct s);
     assert (Ha0 : mol_sites s0 = mol_sites s) by (subst s0; by destruct s);
     assert (Hp0 : planar s0 = planar s) by (subst s0; by destruct s);
     clearbody s0;
     eapply wp_conseq; [apply molecular_init_tail_sites|];
     intros r s' [Hkept | (l & Hl & Hok)]; cbv beta;
     [ left; congruence
     | right; exists l; split; [done|]; rewrite <- Hp0; by apply Hok ]).
Qed.

End Molecular.

End StoredCounts.

(** * Claims about the placement search *)

Module SearchClaims.

Import SearchTotal.

(** A search for [count] entities ended in a list that places exactly
    [count], in [None], or in a Python exception. *)
Definition exact_or_failure {A} (size : list A -> Z) (count : Z)
    (r : Result (option (list A))) : Prop :=
  match r with
  | Ok (Some l) => size l = count
  | Ok None | Raise _ => True
  | OutOfFuel => False
  end.

Lemma exact_or_failure_intro {A} (size : list A -> Z) count r :
  ended r -> (forall l, r = Ok (Some l) -> size l = count) ->
  exact_or_failure size count r.
Proof. intros He Hl. destruct r as [[l|]| |]; simpl; auto. Qed.

Section Exact.

Context {World Ori Tol : Type} {P : Providers World Ori Tol}.

Lemma ion_loop_exact numIon specie cell wyks tol tm :
  forall todo L (s : @random_crystal.state World Tol),
  random_crystal.numIon_added L
    = AtomicSearch.placed (random_crystal.wyckoff_sites_tmp L) ->
  wp (random_crystal.ion_loop todo numIon specie cell wyks tol tm L)
     (fun r _ => forall l, r = Ok (Some l) -> AtomicSearch.placed l = numIon) s.
Proof.
  induction todo as [|todo IH]; intros L s Hsum; cbn [random_crystal.ion_loop].
  - apply wp_ret. intros l [=].
  - apply wp_bind. eapply wp_conseq; [apply AtomicSearch.ion_trial_spec|].
    intros r s' Hspec. destruct r as [[L' ret]| |]; cbn [then_wp].
    2,3: intros l [=].
    destruct Hspec as [(Ha & Ht & _ & _ & ->) | (site & Ht & Ha & _ & _ & _ & Hret & _)].
    + apply IH. by rewrite Ha, Ht.
    + assert (Hsum' : random_crystal.numIon_added L'
                      = AtomicSearch.placed (random_crystal.wyckoff_sites_tmp L')).
      { rewrite Ha, Ht, AtomicSearch.placed_app, Hsum. simpl. lia. }
      subst ret. case_bool_decide as Hfull.
      * apply wp_ret. intros l [= <-]. by rewrite <- Hsum'.
      * by apply IH.
Qed.

Lemma mol_loop_exact numMol pyxtal_mol valid_ori mol_wyks :
  forall todo L (s : @molecular_crystal.state World Ori Tol),
  molecular_crystal.numMol_added L
    = MolecularSearch.mol_placed (molecular_crystal.mol_sites_tmp L) ->
  wp (molecular_crystal.mol_loop todo numMol pyxtal_mol valid_ori mol_wyks L)
     (fun r _ => forall l, r = Ok (Some l) -> MolecularSearch.mol_placed l = numMol) s.
Proof.
  induction todo as [|todo IH]; intros L s Hsum; cbn [molecular_crystal.mol_loop].
  - apply wp_ret. intros l [=].
  - apply wp_bind. eapply wp_conseq; [apply MolecularSearch.mol_trial_spec|].
    intros r s' Hspec. destruct r as [[L' ret]| |]; cbn [then_wp].
    2,3: intros l [=].
    destruct Hspec as [(-> & ->) | (site & Ht & Ha & _ & _ & _ & Hret & _)].
    + by apply IH.
    + assert (Hsum' : molecular_crystal.numMol_added L'
                      = MolecularSearch.mol_placed (molecular_crystal.mol_sites_tmp L')).
      { rewrite Ha, Ht, MolecularSearch.mol_placed_app, Hsum. simpl. lia. }
      subst ret. case_bool_decide as Hfull.
      * apply wp_ret. intros l [= <-]. by rewrite <- Hsum'.
      * by apply IH.
Qed.

End Exact.

(** C3, as the code has it.  The search for one entity type ends with a
    list whose multiplicities sum to the count it is handed, with [None], or
    with an exception, in both entry points; the same holds for the rest of
    the search from any turn on, whatever has been accumulated by then, and
    with no turn left the answer is [None].  The sites that [set_crystal]
    stores are, type by type, such lists for the counts that the object
    holds.  Those are the stored counts: for exact counts, whatever sites a
    call of [init_common] stores place, type by type, the requested count
    multiplied by [cellsize] of the group when the request is not for the
    conventional cell, and the requested count itself when it is. *)
Theorem C3_exact_count_or_failure {World Ori Tol : Type} {P : Providers World Ori Tol} :
  (forall numIon specie cell wyks (s : @random_crystal.state World Tol),
     exact_or_failure AtomicSearch.placed numIon
       (random_crystal._set_ion_wyckoffs numIon specie cell wyks s).1) /\
  (forall todo numIon specie cell wyks tol tm L (s : @random_crystal.state World Tol),
     random_crystal.numIon_added L
       = AtomicSearch.placed (random_crystal.wyckoff_sites_tmp L) ->
     exact_or_failure AtomicSearch.placed numIon
       (random_crystal.ion_loop todo numIon specie cell wyks tol tm L s).1) /\
  (forall numIon specie cell wyks tol tm L (s : @random_crystal.state World Tol),
     random_crystal.ion_loop 0 numIon specie cell wyks tol tm L s = (Ok None, s)) /\
  (forall (s : @random_crystal.state World Tol) deg lr lat,
     random_crystal.degrees s = Some deg -> random_crystal.lattice s = Some lr ->
     random_crystal.heap s !! lr = Some lat ->
     AtomicAssembly.sites_kept_or_ok s (random_crystal.set_crystal s).2) /\
  (forall id numMol pyxtal_mol valid_ori mol_wyks
          (s : @molecular_crystal.state World Ori Tol),
     exact_or_failure MolecularSearch.mol_placed numMol
       (molecular_crystal._set_mol_wyckoffs id numMol pyxtal_mol valid_ori mol_wyks s).1) /\
  (forall todo numMol pyxtal_mol valid_ori mol_wyks L
          (s : @molecular_crystal.state World Ori Tol),
     molecular_crystal.numMol_added L
       = MolecularSearch.mol_placed (molecular_crystal.mol_sites_tmp L) ->
     exact_or_failure MolecularSearch.mol_placed numMol
       (molecular_crystal.mol_loop todo numMol pyxtal_mol valid_ori mol_wyks L s).1) /\
  (forall numMol pyxtal_mol valid_ori mol_wyks L
          (s : @molecular_crystal.state World Ori Tol),
     molecular_crystal.mol_loop 0 numMol pyxtal_mol valid_ori mol_wyks L s
       = (Ok None, s)) /\
  (forall (s : @molecular_crystal.state World Ori Tol) deg lr lat,
     molecular_crystal.degrees s = Some deg -> molecular_crystal.lattice s = Some lr ->
     molecular_crystal.heap s !! lr = Some lat ->
     MolecularAssembly.mol_sites_kept_or_ok s (molecular_crystal.set_crystal s).2) /\
  (forall fuel species_ numIons_ factor_ group_ lattice_ sites_ conventional
          (tm : Tol + string) (s : @random_crystal.state World Tol),
     SitesClaims.exact_request numIons_ group_ (random_crystal.dim s) conventional ->
     let s' := (random_crystal.init_common fuel species_ numIons_ factor_ group_
                  lattice_ sites_ conventional tm s).2 in
     random_crystal.atom_sites s' = random_crystal.atom_sites s \/
     exists l, random_crystal.atom_sites s' = Some l /\
       StoredCounts.placed_for (random_crystal.planar s)
         (SitesClaims.stored_counts numIons_ group_ (random_crystal.dim s) conventional)
         species_ l) /\
  (forall fuel molecules_ numMols_ volume_factor select_high_ allow_inversion_
          orientations group_ lattice_ torsions sites_ conventional
          (tm : Tol + string) (s : @molecular_crystal.state World Ori Tol),
     SitesClaims.exact_mol_request numMols_ group_ (molecular_crystal.dim s)
       conventional ->
     let s' := (molecular_crystal.init_common fuel molecules_ numMols_ volume_factor
                  select_high_ allow_inversion_ orientations group_ lattice_ torsions
                  sites_ conventional tm s).2 in
     molecular_crystal.mol_sites s' = molecular_crystal.mol_sites s \/
     exists l, molecular_crystal.mol_sites s' = Some l /\
       StoredCounts.mol_placed_for (molecular_crystal.planar s)
         (SitesClaims.stored_mol_counts numMols_ group_ (molecular_crystal.dim s)
            conventional) l).
Proof.
  repeat split.
  - intros numIon specie cell wyks s. apply exact_or_failure_intro.
    + apply set_ion_wyckoffs_ends.
    + intros l Hl. by apply (AtomicSearch.set_ion_wyckoffs_spec numIon specie cell wyks s l).
  - intros todo numIon specie cell wyks tol tm L s Hsum. apply exact_or_failure_intro.
    + apply ion_loop_ends.
    + intros l Hl.
      by apply (ion_loop_exact numIon specie cell wyks tol tm todo L s Hsum l).
  - intros s deg lr lat Hdeg Hlr Hlat.
    apply (AtomicAssembly.set_crystal_spec s deg lr lat Hdeg Hlr Hlat).
  - intros id numMol pyxtal_mol valid_ori mol_wyks s. apply exact_or_failure_intro.
    + apply set_mol_wyckoffs_ends.
    + intros l Hl.
      by apply (MolecularSearch.set_mol_wyckoffs_spec id numMol pyxtal_mol valid_ori
                  mol_wyks s l).
  - intros todo numMol pyxtal_mol valid_ori mol_wyks L s Hsum.
    apply exact_or_failure_intro.
    + apply mol_loop_ends.
    + intros l Hl.
      by apply (mol_loop_exact numMol pyxtal_mol valid_ori mol_wyks todo L s Hsum l).
  - intros s deg lr lat Hdeg Hlr Hlat.
    apply (MolecularAssembly.mol_set_crystal_spec s deg lr lat Hdeg Hlr Hlat).
  - intros fuel species_ numIons_ factor_ group_ lattice_ sites_ conventional tm s _.
    apply StoredCounts.atomic_init_places_stored.
  - intros fuel molecules_ numMols_ volume_factor select_high_ allow_inversion_
      orientations group_ lattice_ torsions sites_ conventional tm s _.
    apply StoredCounts.molecular_init_places_stored.
Qed.

(** A state from which a run stores sites: the one a first run with the
    accepting providers leaves behind. *)
Definition carbon_state : @random_crystal.state nat unit :=
  (@random_crystal.init_common nat nat unit (Demo.providers Demo.script_accept) 50
     ["C"%string] [6%Q] float_1_1 (inl Demo.group_4a_2b) None None true (inl tt)
     (random_crystal.new 3 [1; 1; 1] None None ∅ O)).2.

(** A list that places four of the six. *)
Definition four_placed : random_crystal.ion_locals :=
  {| random_crystal.numIon_added := 4;
     random_crystal.wyckoff_sites_tmp :=
       [{| as_wp := Demo.wp4a; as_position := Demo.sample_point; as_specie := "C" |}];
     random_crystal.sites_list := None;
     random_crystal.cycle := 1 |}.

Lemma C3_exact_count_or_failure_witness :
  let P := Demo.providers Demo.script_accept in
  (random_crystal.degrees carbon_state = Some true /\
   random_crystal.lattice carbon_state = Some O /\
   (exists lat, random_crystal.heap carbon_state !! O = Some lat /\
      AtomicAssembly.sites_kept_or_ok carbon_state
        (random_crystal.set_crystal carbon_state).2)) /\
  (random_crystal.numIon_added four_placed
     = AtomicSearch.placed (random_crystal.wyckoff_sites_tmp four_placed) /\
   exact_or_failure AtomicSearch.placed 6
     (random_crystal.ion_loop 3 6 "C" Demo.identity3 [] 1 tt four_placed carbon_state).1) /\
  (SitesClaims.exact_request [6%Q] (inl Demo.group_4a_2b) 3 true /\
   (random_crystal.atom_sites carbon_state = None \/
    exists l, random_crystal.atom_sites carbon_state = Some l /\
      StoredCounts.placed_for false [6] ["C"%string] l)).
Proof.
  intros P.
  destruct (@C3_exact_count_or_failure nat nat unit P)
    as (_ & Hloop & _ & Hrun & _ & _ & _ & _ & Hinit & _).
  split; [|split].
  3: { assert (Hexact : SitesClaims.exact_request [6%Q] (inl Demo.group_4a_2b) 3 true).
       { split; (apply Forall_cons_2; [|apply Forall_nil_2]); vm_compute; by split. }
       split; [exact Hexact|].
       exact (Hinit 50%nat ["C"%string] [6%Q] float_1_1 (inl Demo.group_4a_2b) None None
                true (inl tt) (random_crystal.new 3 [1; 1; 1] None None ∅ O) Hexact). }
  - split; [vm_compute; reflexivity|]. split; [vm_compute; reflexivity|].
    destruct (random_crystal.heap carbon_state !! O) as [lat|] eqn:Hlat;
      [|vm_compute in Hlat; discriminate].
    exists lat. split; [reflexivity|].
    apply (Hrun carbon_state true O lat); [vm_compute; reflexivity | vm_compute; reflexivity | exact Hlat].
  - assert (Hsum : random_crystal.numIon_added four_placed
                   = AtomicSearch.placed (random_crystal.wyckoff_sites_tmp four_placed))
      by (vm_compute; reflexivity).
    split; [exact Hsum|].
    exact (Hloop 3%nat 6 "C"%string Demo.identity3 [] 1%Q tt four_placed carbon_state Hsum).
Defined.

(** C3 as stated fails where the stored count is not the requested one.
    Three atoms are asked for in the primitive cell of a centred group, whose
    conventional cell holds two primitive cells: six are stored, the run
    succeeds, and the sites it stores place six atoms, not three. *)
Lemma C3_requested_count_counterexample :
  let P := Demo.centred Demo.script_accept in
  let s := @random_crystal.new nat unit 3 [1; 1; 1] None None ∅ O in
  let out := random_crystal.init_common 50 ["C"%string] [3%Q] float_1_1
               (inl Demo.group_4a_2b) None None false (inl tt) s in
  out.1 = Ok None /\ random_crystal.valid out.2 = Some true /\
  random_crystal.numIons out.2 = Some [6] /\
  exists l, random_crystal.atom_sites out.2 = Some l /\
            AtomicSearch.placed l = 6 /\ AtomicSearch.placed l <> 3.
Proof.
  intros P s out.
  split; [vm_compute; reflexivity|]. split; [vm_compute; reflexivity|].
  split; [vm_compute; reflexivity|].
  destruct (random_crystal.atom_sites out.2) as [l|] eqn:Hl;
    [|vm_compute in Hl; discriminate].
  exists l. split; [reflexivity|].
  vm_compute in Hl. injection Hl as <-.
  split; [vm_compute; reflexivity | vm_compute; discriminate].
Qed.

Section Inexact.

Context {World Ori Tol : Type} {P : Providers World Ori Tol}.

(** The locals after a turn of the atomic search that was given up. *)
Definition next_cycle (L : random_crystal.ion_locals) : random_crystal.ion_locals :=
  {| random_crystal.numIon_added := random_crystal.numIon_added L;
     random_crystal.wyckoff_sites_tmp := random_crystal.wyckoff_sites_tmp L;
     random_crystal.sites_list := random_crystal.sites_list L;
     random_crystal.cycle := random_crystal.cycle L + 1 |}.

Lemma wp_run_eq {S A} (m : M S A) (s : S) r s' :
  wp m (fun r0 s0 => r0 = r /\ s0 = s') s -> m s = (r, s').
Proof. unfold wp. intros [H1 H2]. by destruct (m s); simpl in *; subst. Qed.

Ltac same_calls :=
  repeat match goal with
  | H1 : ?f = _, H2 : ?f = _ |- _ => rewrite H1 in H2; simplify_eq
  end.

Ltac exactness_test_passed :=
  exfalso;
  match goal with
  | Hb : _ && _ = false |- _ =>
      apply andb_false_iff in Hb as [Hb|Hb]; apply bool_decide_eq_false in Hb;
      apply Hb; [done | by apply not_eq_sym]
  end.

Lemma ion_trial_inexact numIon specie cell wyks tol tm L
    (s : @random_crystal.state World Tol) lbl rest g wpos w1 lr lat pt w2 pt' wpos' oris w3 :
  random_crystal.sites_list L = Some (lbl :: rest) -> random_crystal.group s = Some g ->
  choose_wyckoff g (numIon - random_crystal.numIon_added L) (Some lbl)
    (random_crystal.dim s) (random_crystal.world s) = (Some wpos, w1) ->
  random_crystal.lattice s = Some lr -> random_crystal.heap s !! lr = Some lat ->
  generate_point lat w1 = (pt, w2) ->
  WP_merge pt cell wpos tol None w2 = (Merged pt' wpos' oris, w3) ->
  multiplicity wpos' <> multiplicity wpos ->
  random_crystal.ion_trial numIon specie cell wyks tol tm L s
    = (Ok (next_cycle L, None), random_crystal.with_world w3 s).
Proof.
  intros Hsl Hg Hch Hl Hh Hpt Hm Hne. apply wp_run_eq.
  unfold random_crystal.ion_trial. rewrite Hsl. destruct s.
  cbn [random_crystal.group random_crystal.dim random_crystal.world
       random_crystal.lattice random_crystal.heap] in *.
  subst. AtomicSearch.wp_search.
  all: same_calls.
  all: try (split; [unfold next_cycle; by rewrite Hsl | reflexivity]).
  all: exactness_test_passed.
Qed.

Lemma mol_trial_inexact numMol pyxtal_mol valid_ori mol_wyks L
    (s : @molecular_crystal.state World Ori Tol)
    lbl rest g sh wpos w1 lr lat pt w2 pt' wpos' oris w3 :
  molecular_crystal.sites_list L = Some (lbl :: rest) ->
  molecular_crystal.group s = Some g -> molecular_crystal.select_high s = Some sh ->
  choose_wyckoff_molecular g (numMol - molecular_crystal.numMol_added L) (Some lbl)
    valid_ori sh (molecular_crystal.dim s) (molecular_crystal.world s) = (Some wpos, w1) ->
  molecular_crystal.lattice s = Some lr -> molecular_crystal.heap s !! lr = Some lat ->
  generate_point lat w1 = (pt, w2) ->
  WP_merge pt (lat_matrix lat) wpos (mol_radius pyxtal_mol * float_0_5)%Q
    (Some valid_ori) w2 = (Merged pt' wpos' oris, w3) ->
  multiplicity wpos' <> multiplicity wpos ->
  molecular_crystal.mol_trial numMol pyxtal_mol valid_ori mol_wyks L s
    = (Ok (L, None), molecular_crystal.with_world w3 s).
Proof.
  intros Hsl Hg Hsh Hch Hl Hh Hpt Hm Hne. apply wp_run_eq.
  unfold molecular_crystal.mol_trial. rewrite Hsl. destruct s.
  cbn [molecular_crystal.group molecular_crystal.dim molecular_crystal.world
       molecular_crystal.lattice molecular_crystal.heap
       molecular_crystal.select_high] in *.
  subst. MolecularSearch.wp_mol_search.
  all: same_calls.
  all: try (split; reflexivity).
  all: exactness_test_passed.
Qed.

End Inexact.


(** A state of the atomic search in group [Demo.group_4a_2b], on a lattice of
    its own. *)
Definition labelled_state : @random_crystal.state nat unit :=
  random_crystal.with_lattice O
    (random_crystal.with_group Demo.group_4a_2b
       (random_crystal.new 3 [1; 1; 1] None None
          {[ O := Demo.unit_lattice true [1; 1; 1] ]} O)).

Definition label_pending : random_crystal.ion_locals :=
  {| random_crystal.numIon_added := 0;
     random_crystal.wyckoff_sites_tmp := [];
     random_crystal.sites_list := Some ["4a"%string];
     random_crystal.cycle := 0 |}.


Section Thin.

Context {World Ori Tol : Type} {P : Providers World Ori Tol}.

(** A site in the plane [z = 0.5]. *)
Definition at_half (site : atom_site) : Prop := pz (as_position site) = float_0_5.

Definition mol_at_half (site : mol_site Ori) : Prop := pz (ms_position site) = float_0_5.

Lemma Qlt_bool_true a b : (a < b)%Q -> Qlt_bool a b = true.
Proof.
  intros Hlt. unfold Qlt_bool. apply negb_true_iff, not_true_is_false.
  intros Hle. apply Qle_bool_iff in Hle. by apply Qlt_not_le in Hlt.
Qed.

Lemma planar_thin (s : @random_crystal.state World Tol) t :
  random_crystal.dim s = 2 -> random_crystal.thickness s = Some t ->
  (t < float_0_1)%Q -> random_crystal.planar s = true.
Proof.
  intros Hd Ht Hlt. unfold random_crystal.planar. rewrite Hd, Ht. simpl.
  by apply Qlt_bool_true.
Qed.

Lemma mol_planar_thin (s : @molecular_crystal.state World Ori Tol) t :
  molecular_crystal.dim s = 2 -> molecular_crystal.thickness s = Some t ->
  (t < float_0_1)%Q -> molecular_crystal.planar s = true.
Proof.
  intros Hd Ht Hlt. unfold molecular_crystal.planar. rewrite Hd, Ht. simpl.
  by apply Qlt_bool_true.
Qed.

Lemma assembled_flat todo chunks :
  AtomicSearch.assembled true todo chunks -> Forall at_half (concat chunks).
Proof.
  induction 1 as [|chunk e chunks todo (_ & Hflat & _) _ IH]; simpl; [constructor|].
  apply Forall_app. split; [by apply Hflat | exact IH].
Qed.

Lemma mol_assembled_flat todo (chunks : list (list (mol_site Ori))) :
  MolecularSearch.mol_assembled true todo chunks -> Forall mol_at_half (concat chunks).
Proof.
  induction 1 as [|chunk e chunks todo (_ & Hflat & _) _ IH]; simpl; [constructor|].
  apply Forall_app. split; [by apply Hflat | exact IH].
Qed.

Lemma set_coords_flat (s : @random_crystal.state World Tol) :
  random_crystal.planar s = true ->
  wp random_crystal._set_coords
     (fun r _ => forall l, r = Ok (Some l) -> Forall at_half l) s.
Proof.
  intros Hp. unfold random_crystal._set_coords, random_crystal.the_lattice.
  apply wp_bind, wp_bind, wp_attr.
  destruct (random_crystal.lattice s) as [lr|]; [|intros l [=]].
  cbn [then_wp]. apply wp_attr.
  destruct (random_crystal.heap s !! lr) as [lat|]; [|intros l [=]].
  cbn [then_wp]. apply wp_bind, wp_attr.
  destruct (random_crystal.numIons s) as [nums|]; [|intros l [=]]. cbn [then_wp].
  apply wp_bind, wp_attr.
  destruct (random_crystal.species s) as [sp|]; [|intros l [=]]. cbn [then_wp].
  eapply wp_conseq; [apply AtomicSearch.coords_from_spec|].
  intros r s' Hr l Hl. destruct (Hr l Hl) as (chunks & -> & Hch).
  rewrite Hp in Hch. by apply assembled_flat in Hch.
Qed.

Lemma mol_set_coords_flat (s : @molecular_crystal.state World Ori Tol) :
  molecular_crystal.planar s = true ->
  wp molecular_crystal._set_coords
     (fun r _ => forall l, r = Ok (Some l) -> Forall mol_at_half l) s.
Proof.
  intros Hp. unfold molecular_crystal._set_coords.
  apply wp_bind, wp_attr.
  destruct (molecular_crystal.numMols s) as [nums|]; [|intros l [=]]. cbn [then_wp].
  eapply wp_conseq; [apply MolecularSearch.mol_coords_from_spec|].
  intros r s' Hr l Hl. destruct (Hr l Hl) as (chunks & -> & Hch).
  rewrite Hp in Hch. by apply mol_assembled_flat in Hch.
Qed.

End Thin.

(** C10.  In a run with [dim = 2] and a thickness below 0.1, every turn of
    the placement search that appends a site appends one whose point has
    third coordinate 0.5, every list the search for one entity type returns
    consists of such sites, and so does every list that [_set_coords]
    returns; in the atomic and in the molecular search. *)
Theorem C10_thin_layer_points_at_half
    {World Ori Tol : Type} {P : Providers World Ori Tol} :
  (forall (s : @random_crystal.state World Tol) t,
     random_crystal.dim s = 2 -> random_crystal.thickness s = Some t ->
     (t < float_0_1)%Q ->
     (forall numIon specie cell wyks tol tm L L' ret,
        (random_crystal.ion_trial numIon specie cell wyks tol tm L s).1 = Ok (L', ret) ->
        random_crystal.wyckoff_sites_tmp L' = random_crystal.wyckoff_sites_tmp L \/
        exists site,
          random_crystal.wyckoff_sites_tmp L'
            = random_crystal.wyckoff_sites_tmp L ++ [site] /\ at_half site) /\
     (forall numIon specie cell wyks l,
        (random_crystal._set_ion_wyckoffs numIon specie cell wyks s).1 = Ok (Some l) ->
        Forall at_half l) /\
     (forall l, (random_crystal._set_coords s).1 = Ok (Some l) -> Forall at_half l)) /\
  (forall (s : @molecular_crystal.state World Ori Tol) t,
     molecular_crystal.dim s = 2 -> molecular_crystal.thickness s = Some t ->
     (t < float_0_1)%Q ->
     (forall numMol pyxtal_mol valid_ori mol_wyks L L' ret,
        (molecular_crystal.mol_trial numMol pyxtal_mol valid_ori mol_wyks L s).1
          = Ok (L', ret) ->
        molecular_crystal.mol_sites_tmp L' = molecular_crystal.mol_sites_tmp L \/
        exists site,
          molecular_crystal.mol_sites_tmp L'
            = molecular_crystal.mol_sites_tmp L ++ [site] /\ mol_at_half site) /\
     (forall id numMol pyxtal_mol valid_ori mol_wyks l,
        (molecular_crystal._set_mol_wyckoffs id numMol pyxtal_mol valid_ori mol_wyks s).1
          = Ok (Some l) ->
        Forall mol_at_half l) /\
     (forall l, (molecular_crystal._set_coords s).1 = Ok (Some l) ->
                Forall mol_at_half l)).
Proof.
  split.
  - intros s t Hd Ht Hlt. pose proof (planar_thin s t Hd Ht Hlt) as Hp.
    split; [|split].
    + intros numIon specie cell wyks tol tm L L' ret Hrun.
      pose proof (AtomicSearch.ion_trial_spec numIon specie cell wyks tol tm L s) as Hspec.
      unfold wp in Hspec. rewrite Hrun in Hspec.
      destruct Hspec as [(_ & Hk & _) | (site & Happ & _ & _ & _ & Hz & _)];
        [by left | right].
      exists site. split; [exact Happ | by apply Hz].
    + intros numIon specie cell wyks l Hl.
      destruct (AtomicSearch.set_ion_wyckoffs_spec numIon specie cell wyks s l Hl)
        as (_ & Hflat & _).
      by apply Hflat.
    + intros l Hl. by apply (set_coords_flat s Hp l).
  - intros s t Hd Ht Hlt. pose proof (mol_planar_thin s t Hd Ht Hlt) as Hp.
    split; [|split].
    + intros numMol pyxtal_mol valid_ori mol_wyks L L' ret Hrun.
      pose proof (MolecularSearch.mol_trial_spec numMol pyxtal_mol valid_ori mol_wyks L s)
        as Hspec.
      unfold wp in Hspec. rewrite Hrun in Hspec.
      destruct Hspec as [(-> & _) | (site & Happ & _ & _ & _ & Hz & _)];
        [by left | right].
      exists site. split; [exact Happ | by apply Hz].
    + intros id numMol pyxtal_mol valid_ori mol_wyks l Hl.
      destruct (MolecularSearch.set_mol_wyckoffs_spec id numMol pyxtal_mol valid_ori
                  mol_wyks s l Hl) as (_ & Hflat & _).
      by apply Hflat.
    + intros l Hl. by apply (mol_set_coords_flat s Hp l).
Qed.

(** The state that a first run in a layer of thickness 1/20 leaves behind. *)
Definition thin_state : @random_crystal.state nat unit :=
  (@random_crystal.init_common nat nat unit (Demo.providers Demo.script_accept) 50
     ["C"%string] [6%Q] float_1_1 (inl Demo.group_4a_2b) None None true (inl tt)
     (random_crystal.new 2 [1; 1; 0] (Some (1 # 20)%Q) None ∅ O)).2.

Lemma C10_thin_layer_witness :
  let P := Demo.providers Demo.script_accept in
  random_crystal.dim thin_state = 2 /\
  random_crystal.thickness thin_state = Some (1 # 20)%Q /\
  (1 # 20 < float_0_1)%Q /\
  exists l,
    (random_crystal._set_ion_wyckoffs 6 "C" Demo.identity3 [] thin_state).1 = Ok (Some l) /\
    Forall at_half l.
Proof.
  intros P.
  assert (Hd : random_crystal.dim thin_state = 2) by (vm_compute; reflexivity).
  assert (Ht : random_crystal.thickness thin_state = Some (1 # 20)%Q)
    by (vm_compute; reflexivity).
  assert (Hlt : (1 # 20 < float_0_1)%Q) by (vm_compute; reflexivity).
  split; [exact Hd|]. split; [exact Ht|]. split; [exact Hlt|].
  destruct (random_crystal._set_ion_wyckoffs 6 "C" Demo.identity3 [] thin_state).1
    as [[l|]| |] eqn:Hrun; try (vm_compute in Hrun; discriminate).
  exists l. split; [reflexivity|].
  exact (proj1 (proj2 (proj1 (@C10_thin_layer_points_at_half nat nat unit P)
                         thin_state (1 # 20)%Q Hd Ht Hlt))
           6 "C"%string Demo.identity3 [] l Hrun).
Defined.

End SearchClaims.

(** * Claims about the assembly loop *)

Module AssemblyClaims.

(** A lattice of the caller's that must not be resampled. *)
Definition fixed_pool : gmap nat Lattice :=
  {[ 5%nat := Demo.unit_lattice false [1; 1; 1] ]}.

(** The state that a molecular run leaves behind when the symmetry provider
    never offers a position: two molecules in [Demo.group_2_1], on the
    caller's lattice. *)
Definition declined_run : @molecular_crystal.state nat nat unit :=
  (@molecular_crystal.init_common nat nat unit (Demo.providers Demo.script_decline) 50
     ["H2O"%string] [2] float_1_1 true true None (inl Demo.group_2_1) (Some 5%nat)
     None None true (inl tt)
     (molecular_crystal.new 3 [1; 1; 1] None None false fixed_pool O)).2.

(** The state before the atomic search of six atoms in [Demo.group_4a_2b],
    as [init_common] with the accepting providers leaves it. *)
Definition free_state : @random_crystal.state nat unit :=
  (@random_crystal.init_common nat nat unit (Demo.providers Demo.script_accept) 50
     ["C"%string] [6%Q] float_1_1 (inl Demo.group_4a_2b) None None true (inl tt)
     (random_crystal.new 3 [1; 1; 1] None None ∅ O)).2.

(** C4, as the code has it.  The coordinate trials that [set_crystal] makes
    are those of consecutive lattice trials 0, 1, ..., each starting at
    [cycle2 = 0].  There are at most 40 lattice trials when the composition
    has freedom, otherwise at most 5 in the atomic and 20 in the molecular
    search, and at most 1 when the lattice does not allow resampling.  A
    lattice trial has at most 10 (atomic) or 30 (molecular) coordinate trials
    when the composition has freedom, otherwise at most 5 (atomic) or 3
    (molecular). *)
Theorem C4_assembly_loop_budgets {World Ori Tol : Type} {P : Providers World Ori Tol} :
  (forall (s : @random_crystal.state World Tol) deg lr lat,
     random_crystal.degrees s = Some deg -> random_crystal.lattice s = Some lr ->
     random_crystal.heap s !! lr = Some lat ->
     exists evs ks,
       random_crystal.trace (random_crystal.set_crystal s).2
         = random_crystal.trace s ++ evs /\
       trials evs = schedule 0 ks /\
       (length ks <= if allow_volume_reset lat then (if deg then 40 else 5) else 1)%nat /\
       Forall (fun k => (k <= if deg then 10 else 5)%nat) ks) /\
  (forall (s : @molecular_crystal.state World Ori Tol) deg lr lat,
     molecular_crystal.degrees s = Some deg -> molecular_crystal.lattice s = Some lr ->
     molecular_crystal.heap s !! lr = Some lat ->
     exists evs ks,
       molecular_crystal.trace (molecular_crystal.set_crystal s).2
         = molecular_crystal.trace s ++ evs /\
       trials evs = schedule 0 ks /\
       (length ks <= if allow_volume_reset lat then (if deg then 40 else 20) else 1)%nat /\
       Forall (fun k => (k <= if deg then 30 else 3)%nat) ks).
Proof.
  split.
  - intros s deg lr lat Hdeg Hlr Hlat.
    exact (proj2 (AtomicAssembly.set_crystal_spec s deg lr lat Hdeg Hlr Hlat)).
  - intros s deg lr lat Hdeg Hlr Hlat.
    exact (proj2 (MolecularAssembly.mol_set_crystal_spec s deg lr lat Hdeg Hlr Hlat)).
Qed.

Lemma C4_assembly_loop_budgets_witness :
  let P := Demo.providers Demo.script_accept in
  random_crystal.degrees free_state = Some true /\
  random_crystal.lattice free_state = Some O /\
  exists lat,
    random_crystal.heap free_state !! O = Some lat /\
    exists evs ks,
      random_crystal.trace (random_crystal.set_crystal free_state).2
        = random_crystal.trace free_state ++ evs /\
      trials evs = schedule 0 ks /\
      (length ks <= if allow_volume_reset lat then 40 else 1)%nat /\
      Forall (fun k => (k <= 10)%nat) ks.
Proof.
  intros P.
  assert (Hdeg : random_crystal.degrees free_state = Some true) by (vm_compute; reflexivity).
  assert (Hlr : random_crystal.lattice free_state = Some O) by (vm_compute; reflexivity).
  split; [exact Hdeg|]. split; [exact Hlr|].
  destruct (random_crystal.heap free_state !! O) as [lat|] eqn:Hlat;
    [|vm_compute in Hlat; discriminate].
  exists lat. split; [reflexivity|].
  exact (proj1 (@C4_assembly_loop_budgets nat nat unit P) free_state true O lat Hdeg Hlr Hlat).
Defined.

(** A molecular run with freedom makes 30 coordinate trials in one lattice
    trial. *)
Lemma C4_molecular_inner_budget_counterexample :
  molecular_crystal.degrees declined_run = Some true /\
  trials (molecular_crystal.trace declined_run) = window 0 0 30 /\
  (10 < length (trials (molecular_crystal.trace declined_run)))%nat.
Proof.
  split; [vm_compute; reflexivity|]. split; [vm_compute; reflexivity|].
  vm_compute. lia.
Qed.

End AssemblyClaims.

(** * Claims about the orientation refiner *)

Module OrientationClaims.

Import molecular_crystal MolecularFacts MolecularSearch.

Lemma Qlt_bool_iff a b : Qlt_bool a b = true <-> (a < b)%Q.
Proof.
  unfold Qlt_bool. rewrite negb_true_iff. split.
  - intros Hle. apply Qnot_le_lt. intros H. apply Qle_bool_iff in H. congruence.
  - intros Hlt. apply not_true_is_false. intros Hle. apply Qle_bool_iff in Hle.
    by apply Qlt_not_le in Hlt.
Qed.

Lemma Qlt_bool_false a b : Qlt_bool a b = false <-> (b <= a)%Q.
Proof.
  unfold Qlt_bool. rewrite negb_false_iff. apply Qle_bool_iff.
Qed.

Section Bisection.

Context {World Ori Tol : Type} {P : Providers World Ori Tol}.

Local Abbreviation state := (@molecular_crystal.state World Ori Tol).

Definition midpoint (B : bisect_locals) : Q := ((angle_lo B + angle_hi B) / 2)%Q.

(** The bracket [B'] is [B] with the end of the smaller objective value
    replaced by the midpoint, where the objective is [f]; on a tie the lower
    end is the one replaced. *)
Definition narrowed (B : bisect_locals) (f : Q) (B' : bisect_locals) : Prop :=
  fun_ B' = f /\
  ((fun_hi B < fun_lo B)%Q ->
     angle_lo B' = angle_lo B /\ fun_lo B' = fun_lo B /\
     angle_hi B' = midpoint B /\ fun_hi B' = f) /\
  ((fun_lo B <= fun_hi B)%Q ->
     angle_lo B' = midpoint B /\ fun_lo B' = f /\
     angle_hi B' = angle_hi B /\ fun_hi B' = fun_hi B).

(** The bracket lies within [[lo, hi]]. *)
Definition within (lo hi : Q) (B : bisect_locals) : Prop :=
  (lo <= angle_lo B)%Q /\ (angle_lo B <= angle_hi B)%Q /\ (angle_hi B <= hi)%Q.

(** An evaluation of the objective at an angle of [[lo, hi]]. *)
Definition evaluation_in (lo hi : Q) (e : Event) : Prop :=
  exists a, e = CallFunDist a /\ (lo <= a)%Q /\ (a <= hi)%Q.

Lemma midpoint_within lo hi B :
  within lo hi B -> (lo <= midpoint B)%Q /\ (midpoint B <= hi)%Q /\
                    (angle_lo B <= midpoint B)%Q /\ (midpoint B <= angle_hi B)%Q.
Proof.
  intros (H1 & H2 & H3). unfold midpoint, Qdiv. change (/ 2)%Q with (1 # 2)%Q.
  repeat split; lra.
Qed.

Lemma narrowed_within lo hi B f B' :
  within lo hi B -> narrowed B f B' -> within lo hi B'.
Proof.
  intros Hw (_ & Hhi & Hlo).
  destruct (midpoint_within lo hi B Hw) as (M1 & M2 & M3 & M4).
  destruct Hw as (H1 & H2 & H3). unfold within.
  destruct (Qlt_le_dec (fun_hi B) (fun_lo B)) as [Hlt|Hle].
  - destruct (Hhi Hlt) as (-> & _ & -> & _). by repeat split.
  - destruct (Hlo Hle) as (-> & _ & -> & _). by repeat split.
Qed.

(** One turn of the loop. *)
Definition turn_post (ms0 : mol_site Ori) (ori : Ori) (mo : pyxtal_molecule) (pt : Point)
    (wpos : Wyckoff_position) (B : bisect_locals) (s : state) (n : Z)
    (r : Result (mol_site Ori + bisect_locals)) (s' : state) : Prop :=
  numattempts s' = Some (n + 1) /\ lattice s' = lattice s /\ heap s' = heap s /\
  if Qlt_bool float_0_8 (fun_ B) && check_distances ms0 (heap s) (world s)
  then r = Ok (inl ms0) /\ trace s' = trace s /\ world s' = world s
  else exists B' f,
         r = Ok (inr B') /\ narrowed B f B' /\
         trace s' = trace s ++ [CallFunDist (midpoint B)] /\
         (fun_dist (midpoint B) ori mo pt wpos (with_numattempts (n + 1) s)).1 = Ok f.

Lemma bisect_turn_spec ms0 ori mo pt wpos B (s : state) n l :
  numattempts s = Some n -> lattice s = Some l ->
  wp (bisect_turn ms0 ori mo pt wpos B) (turn_post ms0 ori mo pt wpos B s n) s.
Proof.
  intros Hn Hl. unfold bisect_turn, turn_post. destruct s.
  cbn [numattempts lattice heap world trace] in *. subst.
  wp_mol_search.
  all: repeat split; try reflexivity.
  all: eexists _, _; split; [reflexivity|]; split; [|split; [reflexivity|]].
  all: try (unfold fun_dist, make_site, emit, call, bind, modify, attr, gets, ret, midpoint;
            cbn; match goal with H : mol_site_init _ _ _ _ _ _ _ = _ |- _ => rewrite H end;
            reflexivity).
  all: unfold narrowed; cbn [angle_lo angle_hi fun_lo fun_hi fun_];
       split; [reflexivity|]; split; intros Hcmp.
  all: try (by repeat split).
  all: exfalso;
       match goal with
       | H : Qlt_bool _ _ = true |- _ =>
           apply Qlt_bool_iff in H; by apply Qlt_not_le in H
       | H : Qlt_bool _ _ = false |- _ =>
           apply Qlt_bool_false in H; by apply Qlt_not_le in Hcmp
       end.
Qed.

(** The loop with [todo] turns left. *)
Definition loop_post (ms0 : mol_site Ori) (lo hi : Q) (todo : nat) (s : state)
    (r : Result (option (mol_site Ori))) (s' : state) : Prop :=
  (r = Ok None \/ r = Ok (Some ms0)) /\
  exists evs, trace s' = trace s ++ evs /\ (length evs <= todo)%nat /\
              Forall (evaluation_in lo hi) evs /\
              (r = Ok None -> length evs = todo).

Lemma bisect_loop_spec ms0 ori mo pt wpos lo hi : forall todo B (s : state) n l,
  numattempts s = Some n -> lattice s = Some l -> within lo hi B ->
  wp (bisect_loop todo ms0 ori mo pt wpos B) (loop_post ms0 lo hi todo s) s.
Proof.
  induction todo as [|todo IH]; intros B s n l Hn Hl Hw; cbn [bisect_loop].
  - apply wp_ret. split; [by left|]. exists []. rewrite app_nil_r.
    repeat split; [simpl; lia | constructor].
  - apply wp_bind. eapply wp_conseq; [by apply (bisect_turn_spec _ _ _ _ _ _ _ n l)|].
    intros r s' (Hn' & Hl' & _ & Hcase).
    destruct (Qlt_bool float_0_8 (fun_ B) && check_distances ms0 (heap s) (world s)).
    + destruct Hcase as (-> & Htr & _). cbn [then_wp]. apply wp_ret.
      split; [by right|]. exists []. rewrite app_nil_r.
      repeat split; [done | simpl; lia | constructor | intros [=]].
    + destruct Hcase as (B' & f & -> & Hnar & Htr & _). cbn [then_wp].
      eapply wp_conseq.
      { apply (IH B' s' (n + 1) l Hn'); [congruence | by eapply narrowed_within]. }
      intros r s'' (Hr & evs & Htr' & Hlen & Hall & Hnone).
      split; [exact Hr|].
      exists (CallFunDist (midpoint B) :: evs).
      split; [by rewrite Htr', Htr, <- app_assoc|].
      split; [simpl; lia|]. split.
      * constructor; [|exact Hall].
        destruct (midpoint_within lo hi B Hw) as (M1 & M2 & _).
        by exists (midpoint B).
      * intros Hnone'. simpl. by rewrite (Hnone Hnone').
Qed.

(** The site that [_set_orientation] builds before it tests anything. *)
Definition first_site (m : pyxtal_molecule) (pt : Point) (ori : Ori)
    (wpos : Wyckoff_position) (l : nat) (dg : bool) (id : nat) : mol_site Ori :=
  {| ms_id := id; ms_mol := m; ms_position := pt; ms_orientation := ori;
     ms_wp := wpos; ms_lattice := l; ms_diag := dg |}.

Lemma set_orientation_refines m pt oris wpos (s : state) n l oa ori w1 id w3 :
  numattempts s = Some n -> lattice s = Some l -> ori_attempts s = Some oa ->
  oris <> [] ->
  choice_copy oris (world s) = (ori, w1) ->
  mol_site_init m pt ori wpos l (diag s) (change_orientation ori None true w1) = (id, w3) ->
  check_distances (first_site m pt ori wpos l (diag s) id) (heap s) w3 = false ->
  mol_natoms m > 1 -> ori_degrees ori w3 > 0 ->
  wp (_set_orientation m pt oris wpos)
     (fun r s' =>
        (r = Ok None \/ r = Ok (Some (first_site m pt ori wpos l (diag s) id))) /\
        exists evs,
          trace s' = trace s ++ CallFunDist (ori_angle ori w3)
                             :: CallFunDist (ori_angle ori w3 + np_pi) :: evs /\
          (length evs <= Z.to_nat oa)%nat /\
          Forall (evaluation_in (ori_angle ori w3) (ori_angle ori w3 + np_pi)) evs /\
          (r = Ok None -> length evs = Z.to_nat oa)) s.
Proof.
  intros Hn Hl Hoa Hne Hch Hsite Hfail Hat Hdeg.
  unfold _set_orientation, first_site in *. destruct s.
  cbn [numattempts lattice ori_attempts world diag heap trace] in *. subst.
  wp_mol_search.
  all: repeat match goal with
       | H1 : ?f = _, H2 : ?f = _ |- _ => rewrite H1 in H2; simplify_eq
       end.
  - done.
  - match goal with
    | |- wp (bisect_loop _ _ _ _ _ _ ?B) _ _ =>
        eapply wp_conseq;
          [ eapply (bisect_loop_spec _ _ _ _ _ (angle_lo B) (angle_hi B));
              [reflexivity | reflexivity |] | ]
    end.
    { unfold within. cbn [angle_lo angle_hi]. unfold np_pi. repeat split; lra. }
    cbn [angle_lo angle_hi].
    intros r s' (Hr & evs & Htr & Hlen & Hall & Hnone).
    split; [exact Hr|]. exists evs.
    split; [rewrite Htr; cbn [trace]; by rewrite <- !app_assoc | done].
  - exfalso.
    match goal with
    | Hb : _ && _ = false |- _ =>
        apply andb_false_iff in Hb as [Hb|Hb]; apply bool_decide_eq_false in Hb; by apply Hb
    end.
Qed.

End Bisection.


(** A state of the molecular search with the attributes that the refiner
    reads. *)
Definition turning_state : @molecular_crystal.state nat nat unit :=
  molecular_crystal.with_ori_attempts 5
    (molecular_crystal.with_numattempts 0
       (molecular_crystal.with_lattice O
          (molecular_crystal.new 3 [1; 1; 1] None None false
             {[ O := Demo.unit_lattice true [1; 1; 1] ]} O))).


End OrientationClaims.

(** * The analyzer's loop: when it does not end *)

Module AnalyzerLoops.

Import Compat.

(** The two states between which the molecular sweep over two candidate
    positions alternates. *)
Definition emptied : sweep_state := {| sw_n := [0; 0]; sw_p := O; sw_p2 := O |}.

Definition refilled (v : Z) : sweep_state := {| sw_n := [0; v]; sw_p := 1%nat; sw_p2 := O |}.

Section Cycle.

Variables (c : cand) (a b capb numIon : Z).

Hypothesis Hmult : l_mult c = [a; b].
Hypothesis Hmaxn : l_maxn c = [1; capb].
Hypothesis Hbig : numIon < a.
Hypothesis Hpos : 0 < numIon.
Hypothesis Hb : 0 < b.

Let v : Z := Z.min (numIon / b) capb.

Hypothesis Hv : v <> 0.
Hypothesis Hmiss : v * b <> numIon.

Lemma sweep_init_two : sweep_init c = Ok {| sw_n := [1; 0]; sw_p := O; sw_p2 := O |}.
Proof. unfold sweep_init. rewrite Hmult, Hmaxn. reflexivity. Qed.

Lemma step_first :
  sweep_step Molecular c numIon {| sw_n := [1; 0]; sw_p := O; sw_p2 := O |}
  = Ok (Continue emptied).
Proof.
  unfold sweep_step. rewrite Hmult. cbn [sw_n sw_p sw_p2 length dot zip_with foldr].
  rewrite !bool_decide_eq_false_2 by (try lia; discriminate).
  cbn [andb rbind]. rewrite (bool_decide_eq_true_2 (1 * a + (0 * b + 0) > numIon)) by lia.
  reflexivity.
Qed.

Lemma step_emptied :
  sweep_step Molecular c numIon emptied = Ok (Continue (refilled v)).
Proof.
  unfold sweep_step, emptied. rewrite Hmult, Hmaxn.
  cbn [sw_n sw_p sw_p2 length dot zip_with foldr zeros replicate].
  replace (0 * a + (0 * b + 0)) with 0 by lia. rewrite Z.sub_0_r.
  rewrite (bool_decide_eq_false_2 (0 = numIon)) by lia.
  rewrite (bool_decide_eq_true_2 ([0; 0] = [0; 0])) by done.
  rewrite (bool_decide_eq_false_2 (Z.of_nat 0 >= Z.of_nat 2 - 1)) by lia.
  cbn [andb].
  rewrite (bool_decide_eq_true_2 (0 < numIon)) by lia.
  rewrite (bool_decide_eq_true_2 (Z.of_nat 0 < Z.of_nat 2 - 1)) by lia.
  cbn [index lookup list_lookup rbind].
  rewrite (bool_decide_eq_false_2 (b = 0)) by lia.
  unfold assign. cbn [length]. rewrite bool_decide_eq_true_2 by lia.
  cbn [rbind]. rewrite (bool_decide_eq_false_2 (0 > numIon)) by lia.
  reflexivity.
Qed.

Lemma step_refilled :
  sweep_step Molecular c numIon (refilled v) = Ok (Continue emptied).
Proof.
  unfold sweep_step, refilled. rewrite Hmult.
  cbn [sw_n sw_p sw_p2 length dot zip_with foldr zeros replicate].
  replace (0 * a + (v * b + 0)) with (v * b) by lia.
  rewrite (bool_decide_eq_false_2 (v * b = numIon)) by done.
  rewrite (bool_decide_eq_false_2 ([0; v] = [0; 0])) by (intros [=]; done).
  cbn [andb].
  rewrite (bool_decide_eq_false_2 (Z.of_nat 1 < Z.of_nat 2 - 1)) by lia.
  assert (Hback : backwards [0; 0] 1 0 = Ok emptied).
  { cbn [backwards]. rewrite bool_decide_eq_true_2 by lia.
    cbn [index lookup list_lookup rbind]. by rewrite bool_decide_eq_false_2 by lia. }
  case_bool_decide as Hlt; cbn [rbind].
  - cbn [orb]. rewrite orb_true_r. unfold assign. cbn [length].
    rewrite bool_decide_eq_true_2 by lia. cbn [rbind list_insert insert].
    by rewrite Hback.
  - rewrite (bool_decide_eq_true_2 (v * b > numIon)) by lia.
    cbn [orb]. unfold assign. cbn [length].
    rewrite bool_decide_eq_true_2 by lia. cbn [rbind list_insert insert].
    by rewrite Hback.
Qed.

(** However many turns are allowed, the loop is still running. *)
Lemma sweep_alternates fuel :
  sweep fuel Molecular c numIon emptied = OutOfFuel /\
  sweep fuel Molecular c numIon (refilled v) = OutOfFuel.
Proof.
  induction fuel as [|fuel [IH1 IH2]]; [done|]. split.
  - cbn [sweep]. by rewrite step_emptied.
  - cbn [sweep]. by rewrite step_refilled.
Qed.

Lemma sweep_two_never_ends fuel :
  sweep fuel Molecular c numIon {| sw_n := [1; 0]; sw_p := O; sw_p2 := O |} = OutOfFuel.
Proof.
  destruct fuel as [|fuel]; [done|]. cbn [sweep]. rewrite step_first. cbn [rbind].
  apply sweep_alternates.
Qed.

End Cycle.

(** X1.  The loop of the molecular analyzer need not end.  When the
    candidate positions of an entity type are two, the first one has cap 1
    and a multiplicity above the requested count, and the greedy multiplier
    of the second one is not zero and does not reach the count, the loop
    alternates between the same two states: whatever the number of turns
    allowed, the analysis of that type, and so [_check_compatible], is still
    running. *)
Theorem X1_molecular_analyzer_never_ends {World Ori Tol : Type}
    {P : Providers World Ori Tol}
    (g : Group) (vo : list (list (list (list Ori)))) (numIon : Z) (rest : list Z)
    (rs : list row) (a b capb : Z) :
  rows_molecular g vo O numIon = Ok rs ->
  l_mult (reduce_molecular [] rs) = [a; b] ->
  l_maxn (reduce_molecular [] rs) = [1; capb] ->
  numIon < a -> 0 < numIon -> 0 < b ->
  Z.min (numIon / b) capb <> 0 -> Z.min (numIon / b) capb * b <> numIon ->
  forall fuel,
    check_type_molecular fuel g vo O numIon carry0 = OutOfFuel /\
    forall s : @molecular_crystal.state World Ori Tol,
      molecular_crystal.numMols s = Some (numIon :: rest) ->
      molecular_crystal.group s = Some g ->
      molecular_crystal.valid_orientations s = Some vo ->
      (molecular_crystal._check_compatible fuel s).1 = OutOfFuel.
Proof.
  intros Hrs Hmult Hmaxn Hbig Hpos Hb Hv Hmiss fuel.
  assert (Htype : check_type_molecular fuel g vo O numIon carry0 = OutOfFuel).
  { unfold check_type_molecular. rewrite Hrs. cbn [rbind used_indices carry0].
    rewrite (sweep_init_two _ a b capb Hmult Hmaxn). cbn [rbind sw_n].
    rewrite Hmult. cbn [length zeros replicate].
    rewrite bool_decide_eq_false_2 by discriminate.
    by rewrite (sweep_two_never_ends _ a b capb numIon Hmult Hmaxn Hbig Hpos Hb Hv Hmiss). }
  split; [exact Htype|].
  intros s Hn Hg Hvo.
  unfold molecular_crystal._check_compatible, molecular_crystal.emit, bind, modify, attr, lift.
  destruct s. cbn in Hn, Hg, Hvo |- *. subst. cbn.
  unfold check_compatible_molecular. cbn [check_types_molecular]. by rewrite Htype.
Qed.

(** The molecule of the example has a valid orientation on both positions
    of the group. *)
Definition valid_on_both : list (list (list (list nat))) := [[[[O]]; [[O]]]].

(** Three molecules asked for in [Demo.group_4_2]. *)
Definition three_in_group_4_2 : @molecular_crystal.state nat nat unit :=
  molecular_crystal.with_valid_orientations valid_on_both
    (molecular_crystal.with_group Demo.group_4_2
       (molecular_crystal.with_numMols [3]
          (molecular_crystal.new 3 [1; 1; 1] None None false ∅ O))).

Lemma X1_molecular_analyzer_witness :
  let P := Demo.providers Demo.script_accept in
  check_type_molecular 1000 Demo.group_4_2 valid_on_both O 3 carry0 = OutOfFuel /\
  (molecular_crystal._check_compatible 1000 three_in_group_4_2).1 = OutOfFuel.
Proof.
  intros P.
  assert (H := @X1_molecular_analyzer_never_ends nat nat unit P Demo.group_4_2
                 valid_on_both 3 [] [(4, 0, false, O); (2, 1, true, 1%nat)] 4 2 1).
  destruct (H eq_refl eq_refl eq_refl) with (fuel := 1000%nat) as [Htype Hrun];
    [lia | lia | lia | vm_compute; discriminate | vm_compute; discriminate |].
  split; [exact Htype|].
  by apply Hrun.
Defined.

End AnalyzerLoops.

(** * The cap of a position without freedom in the molecular analyzer *)

Module CapDefect.

Import Compat.

(** C5 at the failing input.  [Demo.group_4_2] lists a position without
    freedom of multiplicity 4 before a free one of multiplicity 2, and three
    entities are asked for.  The atomic analyzer stores the cap 0 for the
    first position (crystal.py, lines 377-380) and finds no combination.  The
    molecular analyzer stores the cap 1 for it (molecular_crystal.py, line
    525, the test of the multiplicity being absent), starts its sweep with
    that position occupied although 4 exceeds 3, and is still in its loop
    after any number of turns. *)
Theorem C5_molecular_cap_exceeds_count :
  rows_atomic Demo.group_4_2 3 = [(4, 0, false, O); (2, 1, true, 1%nat)] /\
  l_maxn (reduce_atomic 3 [] (rows_atomic Demo.group_4_2 3)) = [0; 1] /\
  check_compatible_atomic 50 Demo.group_4_2 [3] = Ok (false, false) /\
  rows_molecular Demo.group_4_2 AnalyzerLoops.valid_on_both O 3
    = Ok [(4, 0, false, O); (2, 1, true, 1%nat)] /\
  l_maxn (reduce_molecular [] [(4, 0, false, O); (2, 1, true, 1%nat)]) = [1; 1] /\
  sweep_init (reduce_molecular [] [(4, 0, false, O); (2, 1, true, 1%nat)])
    = Ok {| sw_n := [1; 0]; sw_p := O; sw_p2 := O |} /\
  forall fuel,
    check_compatible_molecular fuel Demo.group_4_2 AnalyzerLoops.valid_on_both [3]
    = OutOfFuel.
Proof.
  repeat split; try (vm_compute; reflexivity).
  intros fuel. unfold check_compatible_molecular. cbn [check_types_molecular].
  assert (Hrs : rows_molecular Demo.group_4_2 AnalyzerLoops.valid_on_both O 3
                = Ok [(4, 0, false, O); (2, 1, true, 1%nat)]) by (vm_compute; reflexivity).
  unfold check_type_molecular. rewrite Hrs. cbn [rbind used_indices carry0].
  set (c := reduce_molecular [] [(4, 0, false, O); (2, 1, true, 1%nat)]).
  assert (Hmult : l_mult c = [4; 2]) by reflexivity.
  assert (Hmaxn : l_maxn c = [1; 1]) by reflexivity.
  rewrite (AnalyzerLoops.sweep_init_two c 4 2 1 Hmult Hmaxn). cbn [rbind sw_n].
  rewrite Hmult. cbn [length zeros replicate].
  rewrite bool_decide_eq_false_2 by discriminate.
  rewrite (AnalyzerLoops.sweep_two_never_ends c 4 2 1 3 Hmult Hmaxn);
    [done | lia | lia | lia | vm_compute; discriminate | vm_compute; discriminate].
Qed.

End CapDefect.

(** * [_set_orientation]: the ways out that make no refinement *)

Module OrientationExits.

Import molecular_crystal MolecularFacts MolecularSearch.

Lemma run_from_wp {S A} (m : M S A) (s : S) r s' :
  wp m (fun r0 s0 => r0 = r /\ s0 = s') s -> m s = (r, s').
Proof. unfold wp. intros [H1 H2]. by destruct (m s); simpl in *; subst. Qed.

Section Exits.

Context {World Ori Tol : Type} {P : Providers World Ori Tol}.

Local Abbreviation state := (@molecular_crystal.state World Ori Tol).

(** The site built from the copy [ori] of the chosen orientation. *)
Definition site_of (m : pyxtal_molecule) (pt : Point) (ori : Ori)
    (wpos : Wyckoff_position) (l : nat) (dg : bool) (id : nat) : mol_site Ori :=
  {| ms_id := id; ms_mol := m; ms_position := pt; ms_orientation := ori;
     ms_wp := wpos; ms_lattice := l; ms_diag := dg |}.

(** The state after the attempt has been counted and the site built. *)
Definition counted (n : Z) (w : World) (s : state) : state :=
  with_world w (with_numattempts (n + 1) s).

Ltac same_results :=
  repeat match goal with
  | H1 : ?f = _, H2 : ?f = _ |- _ => rewrite H1 in H2; simplify_eq
  end.

Lemma set_orientation_first_fits m pt oris wpos (s : state) n l ori w1 id w3 :
  numattempts s = Some n -> lattice s = Some l -> oris <> [] ->
  choice_copy oris (world s) = (ori, w1) ->
  mol_site_init m pt ori wpos l (diag s) (change_orientation ori None true w1) = (id, w3) ->
  check_distances (site_of m pt ori wpos l (diag s) id) (heap s) w3 = true ->
  _set_orientation m pt oris wpos s
  = (Ok (Some (site_of m pt ori wpos l (diag s) id)), counted n w3 s).
Proof.
  intros Hn Hl Hne Hch Hsite Hfit. apply run_from_wp.
  unfold _set_orientation, site_of, counted in *. destruct s.
  cbn [numattempts lattice world diag heap] in *. subst.
  wp_mol_search.
  all: same_results.
  all: try done.
Qed.

Lemma set_orientation_gives_up m pt oris wpos (s : state) n l ori w1 id w3 :
  numattempts s = Some n -> lattice s = Some l -> oris <> [] ->
  choice_copy oris (world s) = (ori, w1) ->
  mol_site_init m pt ori wpos l (diag s) (change_orientation ori None true w1) = (id, w3) ->
  check_distances (site_of m pt ori wpos l (diag s) id) (heap s) w3 = false ->
  mol_natoms m <= 1 \/ ori_degrees ori w3 <= 0 ->
  _set_orientation m pt oris wpos s = (Ok None, counted n w3 s).
Proof.
  intros Hn Hl Hne Hch Hsite Hfit Hrigid. apply run_from_wp.
  unfold _set_orientation, site_of, counted in *. destruct s.
  cbn [numattempts lattice world diag heap] in *. subst.
  wp_mol_search.
  all: same_results.
  all: try done.
  all: exfalso;
       match goal with
       | Hb : _ && _ = true |- _ =>
           apply andb_true_iff in Hb as [Hb1 Hb2];
           apply bool_decide_eq_true in Hb1, Hb2; lia
       end.
Qed.

Lemma set_orientation_no_choice m pt wpos (s : state) n :
  numattempts s = Some n ->
  _set_orientation m pt [] wpos s = (Raise IndexError, with_numattempts (n + 1) s).
Proof.
  intros Hn. apply run_from_wp. unfold _set_orientation. destruct s.
  cbn [numattempts] in *. subst. wp_mol_search. done.
Qed.

End Exits.

(** X2.  [_set_orientation] counts the attempt, copies one of the
    orientations offered and builds a site from it.  When that site passes
    its distance check it is returned at once; when it fails and the molecule
    has a single atom or the orientation has no freedom, the answer is [None];
    in both cases the objective is never evaluated and nothing else of the
    object changes.  With no orientation offered the call raises
    [IndexError], the attempt already counted. *)
Theorem X2_set_orientation_without_refinement
    {World Ori Tol : Type} {P : Providers World Ori Tol} :
  (forall m pt oris wpos (s : @molecular_crystal.state World Ori Tol) n l ori w1 id w3,
     numattempts s = Some n -> lattice s = Some l -> oris <> [] ->
     choice_copy oris (world s) = (ori, w1) ->
     mol_site_init m pt ori wpos l (diag s) (change_orientation ori None true w1)
       = (id, w3) ->
     (check_distances (site_of m pt ori wpos l (diag s) id) (heap s) w3 = true ->
      _set_orientation m pt oris wpos s
      = (Ok (Some (site_of m pt ori wpos l (diag s) id)), counted n w3 s)) /\
     (check_distances (site_of m pt ori wpos l (diag s) id) (heap s) w3 = false ->
      mol_natoms m <= 1 \/ ori_degrees ori w3 <= 0 ->
      _set_orientation m pt oris wpos s = (Ok None, counted n w3 s))) /\
  (forall m pt wpos (s : @molecular_crystal.state World Ori Tol) n,
     numattempts s = Some n ->
     _set_orientation m pt [] wpos s = (Raise IndexError, with_numattempts (n + 1) s)).
Proof.
  split.
  - intros m pt oris wpos s n l ori w1 id w3 Hn Hl Hne Hch Hsite. split.
    + intros Hfit. by eapply set_orientation_first_fits.
    + intros Hfit Hrigid. by eapply set_orientation_gives_up.
  - intros m pt wpos s n Hn. by apply set_orientation_no_choice.
Qed.

(** A molecule of one atom. *)
Definition helium : pyxtal_molecule :=
  {| mol_name := "He"; mol_natoms := 1; mol_radius := 1; mol_volume := 5 |}.

(** A state of the molecular search whose orientations have been turned
    [w] times. *)
Definition turned (w : nat) : @molecular_crystal.state nat nat unit :=
  molecular_crystal.with_numattempts 0
    (molecular_crystal.with_lattice O
       (molecular_crystal.new 3 [1; 1; 1] None None false
          {[ O := Demo.unit_lattice true [1; 1; 1] ]} w)).

Lemma X2_set_orientation_witness :
  let P := Demo.providers Demo.script_turning in
  _set_orientation Demo.water Demo.sample_point [O] Demo.wp2b (turned 3)
    = (Ok (Some (site_of Demo.water Demo.sample_point O Demo.wp2b O false 4%nat)),
       counted 0 4%nat (turned 3)) /\
  _set_orientation helium Demo.sample_point [O] Demo.wp2b (turned 0)
    = (Ok None, counted 0 1%nat (turned 0)) /\
  _set_orientation Demo.water Demo.sample_point [] Demo.wp2b (turned 0)
    = (Raise IndexError, with_numattempts (0 + 1) (turned 0)).
Proof.
  intros P.
  destruct (@X2_set_orientation_without_refinement nat nat unit P) as [Hsome Hnone].
  split; [|split].
  - apply (proj1 (Hsome Demo.water Demo.sample_point [O] Demo.wp2b (turned 3) 0 O O
                    3%nat 4%nat 4%nat eq_refl eq_refl ltac:(discriminate) eq_refl eq_refl)).
    reflexivity.
  - apply (proj2 (Hsome helium Demo.sample_point [O] Demo.wp2b (turned 0) 0 O O
                    0%nat 1%nat 1%nat eq_refl eq_refl ltac:(discriminate) eq_refl eq_refl)).
    + reflexivity.
    + left. vm_compute. discriminate.
  - by apply Hnone.
Defined.

End OrientationExits.

(** * [init_common]: a composition that the analyzer refuses *)

Module InitErrors.

Import Compat SitesFacts SitesClaims.

Lemma atomic_refusal_has_no_freedom fuel g : forall nums k d,
  check_types_atomic fuel g nums k = Ok (false, d) -> d = false.
Proof.
  induction nums as [|numIon nums IH]; intros k d; cbn [check_types_atomic].
  - intros [=].
  - destruct (check_type_atomic fuel g numIon k) as [[k'|]| |]; cbn [rbind]; try done.
    + apply IH.
    + by intros [= <-].
Qed.

Lemma molecular_refusal_has_no_freedom {Ori : Type} fuel g
    (vo : list (list (list (list Ori)))) : forall nums i k d,
  check_types_molecular fuel g vo i nums k = Ok (false, d) -> d = false.
Proof.
  induction nums as [|numIon nums IH]; intros i k d; cbn [check_types_molecular].
  - intros [=].
  - destruct (check_type_molecular fuel g vo i numIon k) as [[k'|]| |]; cbn [rbind];
      try done.
    + apply IH.
    + by intros [= <-].
Qed.

(** What is left of the atomic object when [init_common] ends in
    [CompatibilityError]. *)
Definition atomic_refused {World Tol : Type} (s s' : @random_crystal.state World Tol)
    : Prop :=
  random_crystal.valid s' = Some false /\
  random_crystal.degrees s' = Some false /\
  random_crystal.volume s' = random_crystal.volume s /\
  random_crystal.lattice s' = random_crystal.lattice s /\
  random_crystal.atom_sites s' = random_crystal.atom_sites s /\
  random_crystal.heap s' = random_crystal.heap s /\
  random_crystal.world s' = random_crystal.world s /\
  random_crystal.trace s' = random_crystal.trace s ++ [CallCheckCompatible].

Definition molecular_refused {World Ori Tol : Type}
    (s s' : @molecular_crystal.state World Ori Tol) : Prop :=
  molecular_crystal.valid s' = Some false /\
  molecular_crystal.degrees s' = Some false /\
  molecular_crystal.volume s' = molecular_crystal.volume s /\
  molecular_crystal.lattice s' = molecular_crystal.lattice s /\
  molecular_crystal.mol_sites s' = molecular_crystal.mol_sites s /\
  molecular_crystal.heap s' = molecular_crystal.heap s /\
  molecular_crystal.world s' = molecular_crystal.world s /\
  molecular_crystal.trace s' = molecular_crystal.trace s ++ [CallCheckCompatible].

(** The group that [init_common] stores. *)
Definition group_of {World Ori Tol : Type} {P : Providers World Ori Tol}
    (group_ : Group + Z) (d : Z) : Group :=
  match group_ with inl g => g | inr n => Group_init n d end.

Section Refusals.

Context {World Ori Tol : Type} {P : Providers World Ori Tol}.

Lemma atomic_init_incompatible fuel species_ numIons_ factor_ group_ lattice_
    sites_ conventional tm (s : @random_crystal.state World Tol) d :
  existsb random_crystal.bad_count numIons_ = false ->
  consistent sites_ (stored_counts numIons_ group_ (random_crystal.dim s) conventional)
    (length species_) ->
  check_compatible_atomic fuel (group_of group_ (random_crystal.dim s))
    (stored_counts numIons_ group_ (random_crystal.dim s) conventional) = Ok (false, d) ->
  wp (random_crystal.init_common fuel species_ numIons_ factor_ group_ lattice_ sites_
        conventional tm)
     (fun r s' => r = Raise CompatibilityError /\ atomic_refused s s') s.
Proof.
  intros Hgood Hc Hno.
  pose proof (atomic_refusal_has_no_freedom _ _ _ _ _ Hno) as ->.
  unfold random_crystal.init_common. destruct s.
  unfold stored_counts, group_of in *. cbn [random_crystal.dim] in *.
  do 6 wp_step. rewrite Hgood. wp_atomic.
  unfold random_crystal.set_sites. wp_atomic.
  match goal with |- wp (random_crystal.set_sites_from _ _ _) _ ?st =>
    destruct (atomic_set_sites_from_ok sites_ _ species_ O st eq_refl) as [dd Hd];
      [simpl; eauto | exact Hc |]
  end.
  eapply wp_of_run; [exact Hd|]. wp_atomic.
  unfold random_crystal._check_compatible, random_crystal.emit. wp_atomic.
  rewrite Hno. wp_atomic.
  split; [done|]. unfold atomic_refused. atomic_state. by repeat split.
Qed.

Lemma molecular_init_incompatible fuel molecules_ numMols_ volume_factor select_high_
    allow_inversion_ (vo : list (list (list (list Ori)))) group_ lattice_ torsions sites_
    conventional tm (s : @molecular_crystal.state World Ori Tol) d :
  torsions_cover torsions molecules_ ->
  consistent sites_
    (stored_mol_counts numMols_ group_ (molecular_crystal.dim s) conventional)
    (length molecules_) ->
  check_compatible_molecular fuel (group_of group_ (molecular_crystal.dim s)) vo
    (stored_mol_counts numMols_ group_ (molecular_crystal.dim s) conventional)
    = Ok (false, d) ->
  wp (molecular_crystal.init_common fuel molecules_ numMols_ volume_factor select_high_
        allow_inversion_ (Some vo) group_ lattice_ torsions sites_ conventional tm)
     (fun r s' => r = Raise CompatibilityError /\ molecular_refused s s') s.
Proof.
  intros Hcov Hc Hno.
  pose proof (molecular_refusal_has_no_freedom _ _ _ _ _ _ _ Hno) as ->.
  unfold molecular_crystal.init_common. destruct s.
  unfold stored_mol_counts, group_of in *. cbn [molecular_crystal.dim] in *.
  wp_molecular.
  match goal with |- wp (if ?c then _ else _) _ _ => destruct c end; wp_molecular.
  all: match goal with |- wp (molecular_crystal.set_molecules _ _) _ ?st =>
         destruct (set_molecules_ok molecules_ torsions st _ Hcov eq_refl)
           as (ms & Hms & Hlen)
       end;
       (eapply wp_of_run; [exact Hms|]); wp_molecular;
       unfold molecular_crystal.set_sites; wp_molecular;
       match goal with |- wp (molecular_crystal.set_sites_from _ _ _) _ ?st =>
         destruct (molecular_set_sites_from_ok sites_ _ ms O st eq_refl) as [dd Hd];
           [simpl; eauto | by rewrite Hlen |]
       end;
       (eapply wp_of_run; [exact Hd|]); wp_molecular;
       unfold molecular_crystal.set_orientations,
         molecular_crystal._check_compatible, molecular_crystal.emit; wp_molecular;
       rewrite Hno; wp_molecular;
       (split; [done|]); unfold molecular_refused; molecular_state; by repeat split.
Qed.

End Refusals.

(** X3.  When the analyzer finds no combination for some entity type,
    [init_common] of either class raises [CompatibilityError]: [valid] and
    [degrees] are [False], no volume is estimated, no lattice made or
    touched, no site stored, nothing printed and no trial made.  (For the
    molecular class the statement is for orientations supplied by the
    caller.) *)
Theorem X3_incompatible_composition_raises
    {World Ori Tol : Type} {P : Providers World Ori Tol} :
  (forall fuel species_ numIons_ factor_ group_ lattice_ sites_ conventional tm
          (s : @random_crystal.state World Tol) d,
     existsb random_crystal.bad_count numIons_ = false ->
     consistent sites_ (stored_counts numIons_ group_ (random_crystal.dim s) conventional)
       (length species_) ->
     check_compatible_atomic fuel (group_of group_ (random_crystal.dim s))
       (stored_counts numIons_ group_ (random_crystal.dim s) conventional)
       = Ok (false, d) ->
     let out := random_crystal.init_common fuel species_ numIons_ factor_ group_ lattice_
                  sites_ conventional tm s in
     out.1 = Raise CompatibilityError /\ atomic_refused s out.2) /\
  (forall fuel molecules_ numMols_ volume_factor select_high_ allow_inversion_
          (vo : list (list (list (list Ori)))) group_ lattice_ torsions sites_
          conventional tm (s : @molecular_crystal.state World Ori Tol) d,
     torsions_cover torsions molecules_ ->
     consistent sites_
       (stored_mol_counts numMols_ group_ (molecular_crystal.dim s) conventional)
       (length molecules_) ->
     check_compatible_molecular fuel (group_of group_ (molecular_crystal.dim s)) vo
       (stored_mol_counts numMols_ group_ (molecular_crystal.dim s) conventional)
       = Ok (false, d) ->
     let out := molecular_crystal.init_common fuel molecules_ numMols_ volume_factor
                  select_high_ allow_inversion_ (Some vo) group_ lattice_ torsions sites_
                  conventional tm s in
     out.1 = Raise CompatibilityError /\ molecular_refused s out.2).
Proof.
  split.
  - intros fuel species_ numIons_ factor_ group_ lattice_ sites_ conventional tm s d
      Hgood Hc Hno.
    exact (atomic_init_incompatible fuel species_ numIons_ factor_ group_ lattice_ sites_
             conventional tm s d Hgood Hc Hno).
  - intros fuel molecules_ numMols_ volume_factor select_high_ allow_inversion_ vo group_
      lattice_ torsions sites_ conventional tm s d Hcov Hc Hno.
    exact (molecular_init_incompatible fuel molecules_ numMols_ volume_factor select_high_
             allow_inversion_ vo group_ lattice_ torsions sites_ conventional tm s d
             Hcov Hc Hno).
Qed.

Lemma X3_incompatible_composition_witness :
  let P := Demo.providers Demo.script_accept in
  let s := @random_crystal.new nat unit 3 [1; 1; 1] None None ∅ O in
  let out := random_crystal.init_common 50 ["C"%string] [3%Q] float_1_1
               (inl Demo.group_4a_2b) None None true (inl tt) s in
  out.1 = Raise CompatibilityError /\ atomic_refused s out.2.
Proof.
  intros P s.
  apply (proj1 (@X3_incompatible_composition_raises nat nat unit P) 50%nat ["C"%string]
           [3%Q] float_1_1 (inl Demo.group_4a_2b) None None true (inl tt) s false).
  - reflexivity.
  - exact I.
  - vm_compute. reflexivity.
Defined.

End InitErrors.

(** * [valid] and the stored sites *)

Module Validity.

Section Atomic.

Import random_crystal AtomicFacts AtomicSearch AtomicAssembly.

Context {World Ori Tol : Type} {P : Providers World Ori Tol}.

Local Abbreviation state := (@random_crystal.state World Tol).

(** The search for one entity type leaves [valid] alone. *)
Definition valid_kept (s s' : state) : Prop := valid s' = valid s.

Global Instance valid_kept_preorder : PreOrder valid_kept.
Proof.
  split; [by intros s|]. intros s1 s2 s3 H1 H2. unfold valid_kept in *. congruence.
Qed.

Ltac keeps_valid :=
  repeat first
    [ keeps_step
    | apply keeps_call
    | progress unfold bump_numattempts, the_lattice
    | by (intros; repeat match goal with s : random_crystal.state |- _ => destruct s end) ].

Lemma valid_kept_ion_trial numIon specie cell wyks tol tm L :
  keeps valid_kept (ion_trial numIon specie cell wyks tol tm L).
Proof. unfold ion_trial, flatten_merge. keeps_valid. Qed.

Lemma valid_kept_ion_loop numIon specie cell wyks tol tm : forall todo L,
  keeps valid_kept (ion_loop todo numIon specie cell wyks tol tm L).
Proof.
  induction todo as [|todo IH]; intros L; simpl.
  - keeps_valid.
  - apply keeps_bind; [typeclasses eauto | apply valid_kept_ion_trial |].
    intros [L' [l|]]; [keeps_valid | apply IH].
Qed.

Lemma valid_kept_set_ion_wyckoffs numIon specie cell wyks :
  keeps valid_kept (_set_ion_wyckoffs numIon specie cell wyks).
Proof.
  unfold _set_ion_wyckoffs.
  repeat first [ apply valid_kept_ion_loop | keeps_step ].
Qed.

(** [_set_coords] sets [valid] exactly when it returns a list. *)
Definition coords_valid (s : state) (r : Result (option (list atom_site))) (s' : state)
    : Prop :=
  match r with
  | Ok (Some _) => valid s' = Some true
  | _ => valid s' = valid s
  end.

Lemma coords_from_valid cell : forall todo wyks (s : state),
  wp (coords_from todo cell wyks) (coords_valid s) s.
Proof.
  induction todo as [|[numIon specie] todo IH]; intros wyks s; cbn [coords_from].
  - apply wp_bind, wp_modify. cbn [then_wp]. apply wp_ret. by destruct s.
  - apply wp_bind. eapply wp_conseq.
    { apply (keeps_wp valid_kept), valid_kept_set_ion_wyckoffs. }
    intros r s' Hk. cbv beta in Hk. unfold valid_kept in Hk.
    destruct r as [[chunk|]| |]; cbn [then_wp]; [|by apply wp_ret|done|done].
    eapply wp_conseq; [apply IH|]. intros r s'' Hr. unfold coords_valid in *.
    destruct r as [[l|]| |]; congruence.
Qed.

Lemma set_coords_valid (s : state) : wp _set_coords (coords_valid s) s.
Proof.
  unfold _set_coords, the_lattice.
  apply wp_bind, wp_bind, wp_attr. destruct (lattice s) as [lr|]; [|done].
  cbn [then_wp]. apply wp_attr. destruct (heap s !! lr) as [lat|]; [|done].
  cbn [then_wp]. apply wp_bind, wp_attr. destruct (numIons s) as [nums|]; [|done].
  cbn [then_wp]. apply wp_bind, wp_attr. destruct (species s) as [sp|]; [|done].
  cbn [then_wp]. apply coords_from_valid.
Qed.

(** Either nothing was stored and [valid] is as it was, or [valid] is set
    and sites are stored. *)
Definition stored_when_valid (s s' : state) : Prop :=
  (valid s' = valid s /\ atom_sites s' = atom_sites s) \/
  (valid s' = Some true /\ exists l, atom_sites s' = Some l).

(** There is at least one entity type to place. *)
Definition some_type (s : state) : Prop :=
  exists nums sp, numIons s = Some nums /\ species s = Some sp /\ zip nums sp <> [].

Lemma stored_when_valid_trans (s s1 s2 : state) :
  stored_when_valid s s1 -> stored_when_valid s1 s2 -> stored_when_valid s s2.
Proof.
  intros [[Hv1 Ha1] | [Hv1 [l1 Ha1]]] [[Hv2 Ha2] | [Hv2 [l2 Ha2]]].
  - left. split; congruence.
  - right. split; [done|]. by exists l2.
  - right. split; [congruence|]. exists l1. congruence.
  - right. split; [done|]. by exists l2.
Qed.

Lemma assembled_nonempty thin todo chunks :
  todo <> [] -> assembled thin todo chunks -> concat chunks <> [].
Proof.
  intros Hne Hch. destruct Hch as [|chunk e chunks todo (_ & _ & _ & Hc) _]; [done|].
  simpl. by destruct chunk.
Qed.

Lemma coord_loop_valid : forall todo c2 (s : state),
  some_type s ->
  wp (coord_loop todo c2) (fun _ s' => stored_when_valid s s' /\ some_type s') s.
Proof.
  induction todo as [|todo IH]; intros c2 s Hty; cbn [coord_loop].
  - apply wp_ret. split; [by left | done].
  - destruct Hty as (nums & sp & Hn & Hs & Hne). destruct s.
    cbn [numIons species] in Hn, Hs. subst.
    wp_atomic.
    destruct cycle3 as [c1|]; [|split; [by left | by exists nums, sp]].
    wp_atomic. unfold emit. wp_atomic.
    eapply wp_conseq.
    { apply wp_and; [apply wp_and; [apply set_coords_spec | apply set_coords_valid]
                    | apply (keeps_wp search_frame), keeps_set_coords]. }
    intros r s3 [[Hspec Hval] Hframe]. cbv beta in Hframe.
    destruct s3. unfold search_frame in Hframe. unfold coords_valid in Hval.
    atomic_state.
    destruct Hframe as (?&?&?&?&?&?&?&?&?&?&?&?&?&?&?&?&?&?&?&?&?&?&evq&Hevq&Hq).
    subst.
    assert (Hty' : forall v a tr,
      some_type {| dim := dim0; PBC := PBC0; thickness := thickness0; area := area0;
                   source := source0; valid := v; group := group0; number := number0;
                   numattempts := numattempts1;
                   lattice_attempts := lattice_attempts0;
                   coord_attempts := coord_attempts0; factor := factor0;
                   numIons := Some nums; formula := formula0; species := Some sp;
                   sites := sites0; tol_matrix := tol_matrix0; degrees := degrees0;
                   volume := volume0; lattice := lattice0; cycle1 := Some c1;
                   cycle2 := Some c2; atom_sites := a; heap := heap0;
                   world := world1; trace := tr |}).
    { intros v a tr. by exists nums, sp. }
    destruct r as [[[|site rest]|]| |]; cbn [then_wp].
    + exfalso. destruct (Hspec [] nums sp eq_refl eq_refl eq_refl) as (chunks & Hl & Hch).
      by apply (assembled_nonempty _ _ _ Hne) in Hch.
    + wp_atomic. split; [|apply Hty']. right. split; [exact Hval | by eexists].
    + eapply wp_conseq; [apply IH, Hty'|].
      intros r' s' [Hsv Hty'']. split; [|exact Hty''].
      eapply stored_when_valid_trans; [|exact Hsv]. left. by split.
    + split; [|apply Hty']. left. by split.
    + split; [|apply Hty']. left. by split.
Qed.

Lemma stored_when_valid_same (s s' : state) :
  valid s' = valid s -> atom_sites s' = atom_sites s -> stored_when_valid s s'.
Proof. intros Hv Ha. left. by split. Qed.

Lemma some_type_same (s s' : state) :
  numIons s' = numIons s -> species s' = species s -> some_type s -> some_type s'.
Proof. intros Hn Hs (nums & sp & ? & ? & ?). exists nums, sp. repeat split; congruence. Qed.

Lemma lattice_loop_valid : forall todo c1 (s : state),
  some_type s ->
  wp (lattice_loop todo c1) (fun _ s' => stored_when_valid s s' /\ some_type s') s.
Proof.
  induction todo as [|todo IH]; intros c1 s Hty; cbn [lattice_loop].
  - apply wp_ret. split; [by left | done].
  - apply wp_bind, wp_modify. cbn [then_wp].
    apply wp_bind, wp_attr.
    assert (Hty0 : some_type (with_cycle1 c1 s)) by (destruct s; exact Hty).
    assert (Hsame0 : stored_when_valid s (with_cycle1 c1 s))
      by (destruct s; by apply stored_when_valid_same).
    destruct (coord_attempts (with_cycle1 c1 s)) as [ca|]; [|by split].
    cbn [then_wp]. apply wp_bind.
    eapply wp_conseq; [apply coord_loop_valid, Hty0|].
    intros r s1 [Hsv1 Hty1].
    assert (Hsv : stored_when_valid s s1) by (by eapply stored_when_valid_trans).
    destruct r as [[]| |]; cbn [then_wp]; [|by split|by split].
    apply wp_bind, wp_attr. destruct (valid s1) as [[|]|] eqn:Hv; cbn [then_wp];
      [by apply wp_ret | | by split].
    apply wp_bind, wp_attr. destruct (lattice s1) as [lr|]; [|by split]. cbn [then_wp].
    apply wp_bind, wp_attr. destruct (heap s1 !! lr) as [lat|]; [|by split]. cbn [then_wp].
    unfold emit. apply wp_bind, wp_modify. cbn [then_wp].
    apply wp_bind, wp_call. intros lat' w' Hreset. cbn [then_wp].
    apply wp_bind, wp_modify. cbn [then_wp].
    eapply wp_conseq.
    { apply IH. destruct s1. exact Hty1. }
    intros r' s2 [Hsv2 Hty2]. split; [|exact Hty2].
    eapply stored_when_valid_trans; [exact Hsv|].
    eapply stored_when_valid_trans; [|exact Hsv2].
    destruct s1. by apply stored_when_valid_same.
Qed.

Lemma set_crystal_valid (s : state) :
  some_type s -> wp set_crystal (fun _ s' => stored_when_valid s s') s.
Proof.
  intros Hty. unfold set_crystal, the_lattice.
  apply wp_bind, wp_attr. destruct (degrees s) as [deg|]; [|by left]. cbn [then_wp].
  assert (Hbudget : forall la ca,
    wp (lat <- (l <- attr lattice;; attr (fun s0 : state => heap s0 !! l));;
        (if negb (allow_volume_reset lat) then modify (with_lattice_attempts 1)
         else ret ());;;
        la <- attr lattice_attempts;; lattice_loop (Z.to_nat la) 0)
       (fun _ s' => stored_when_valid s s')
       (with_coord_attempts ca (with_lattice_attempts la s))).
  { intros la ca.
    assert (Hty1 : forall la', some_type (with_lattice_attempts la'
                     (with_coord_attempts ca (with_lattice_attempts la s))))
      by (intros la'; destruct s; exact Hty).
    assert (Hs1 : forall la', stored_when_valid s (with_lattice_attempts la'
                     (with_coord_attempts ca (with_lattice_attempts la s))))
      by (intros la'; destruct s; by apply stored_when_valid_same).
    assert (Hs0 : stored_when_valid s (with_coord_attempts ca (with_lattice_attempts la s)))
      by (destruct s; by apply stored_when_valid_same).
    assert (Hty0 : some_type (with_coord_attempts ca (with_lattice_attempts la s)))
      by (destruct s; exact Hty).
    apply wp_bind, wp_bind, wp_attr.
    destruct (lattice (with_coord_attempts ca (with_lattice_attempts la s))) as [lr|];
      [|exact Hs0].
    cbn [then_wp]. apply wp_attr.
    destruct (heap (with_coord_attempts ca (with_lattice_attempts la s)) !! lr) as [lat|];
      [|exact Hs0].
    cbn [then_wp]. apply wp_bind.
    destruct (negb (allow_volume_reset lat)).
    - apply wp_modify. cbn [then_wp]. apply wp_bind, wp_attr.
      destruct s; atomic_state. cbn [then_wp].
      eapply wp_conseq; [apply lattice_loop_valid, (Hty1 1)|].
      intros r s' [Hsv _]. eapply stored_when_valid_trans; [apply (Hs1 1)|exact Hsv].
    - apply wp_ret. cbn [then_wp]. apply wp_bind, wp_attr.
      destruct s; atomic_state. cbn [then_wp].
      eapply wp_conseq; [apply lattice_loop_valid, Hty0|].
      intros r s' [Hsv _]. eapply stored_when_valid_trans; [exact Hs0|exact Hsv]. }
  apply wp_bind. destruct (negb deg).
  - apply wp_bind, wp_modify. cbn [then_wp]. apply wp_modify. cbn [then_wp]. apply Hbudget.
  - apply wp_bind, wp_modify. cbn [then_wp]. apply wp_modify. cbn [then_wp]. apply Hbudget.
Qed.

End Atomic.

Section Molecular.

Import molecular_crystal MolecularFacts MolecularSearch MolecularAssembly.

Context {World Ori Tol : Type} {P : Providers World Ori Tol}.

Local Abbreviation state := (@molecular_crystal.state World Ori Tol).

Definition mol_valid_kept (s s' : state) : Prop := valid s' = valid s.

Global Instance mol_valid_kept_preorder : PreOrder mol_valid_kept.
Proof.
  split; [by intros s|]. intros s1 s2 s3 H1 H2. unfold mol_valid_kept in *. congruence.
Qed.

Ltac keeps_mol_valid :=
  repeat first
    [ keeps_step
    | apply mol_keeps_call
    | progress unfold bump_numattempts, the_lattice, make_site, fun_dist, emit
    | by (intros; repeat match goal with s : molecular_crystal.state |- _ => destruct s end) ].

Lemma valid_kept_bisect_turn ms0 ori mo pt wpos B :
  keeps mol_valid_kept (bisect_turn ms0 ori mo pt wpos B).
Proof. unfold bisect_turn. keeps_mol_valid. Qed.

Lemma valid_kept_bisect_loop ms0 ori mo pt wpos : forall todo B,
  keeps mol_valid_kept (bisect_loop todo ms0 ori mo pt wpos B).
Proof.
  induction todo as [|todo IH]; intros B; simpl.
  - keeps_mol_valid.
  - apply keeps_bind; [typeclasses eauto | apply valid_kept_bisect_turn |].
    intros [ms|B']; [keeps_mol_valid | apply IH].
Qed.

Lemma valid_kept_set_orientation pyxtal_mol pt oris wpos :
  keeps mol_valid_kept (_set_orientation pyxtal_mol pt oris wpos).
Proof.
  unfold _set_orientation. repeat first [ apply valid_kept_bisect_loop | keeps_mol_valid ].
Qed.

Lemma valid_kept_mol_trial numMol pyxtal_mol valid_ori mol_wyks L :
  keeps mol_valid_kept (mol_trial numMol pyxtal_mol valid_ori mol_wyks L).
Proof.
  unfold mol_trial. repeat first [ apply valid_kept_set_orientation | keeps_mol_valid ].
Qed.

Lemma valid_kept_mol_loop numMol pyxtal_mol valid_ori mol_wyks : forall todo L,
  keeps mol_valid_kept (mol_loop todo numMol pyxtal_mol valid_ori mol_wyks L).
Proof.
  induction todo as [|todo IH]; intros L; simpl.
  - keeps_mol_valid.
  - apply keeps_bind; [typeclasses eauto | apply valid_kept_mol_trial |].
    intros [L' [l|]]; [keeps_mol_valid | apply IH].
Qed.

Lemma valid_kept_set_mol_wyckoffs id numMol pyxtal_mol valid_ori mol_wyks :
  keeps mol_valid_kept (_set_mol_wyckoffs id numMol pyxtal_mol valid_ori mol_wyks).
Proof.
  unfold _set_mol_wyckoffs. repeat first [ apply valid_kept_mol_loop | keeps_mol_valid ].
Qed.

Definition mol_coords_valid (s : state) (r : Result (option (list (mol_site Ori))))
    (s' : state) : Prop :=
  match r with
  | Ok (Some _) => valid s' = Some true
  | _ => valid s' = valid s
  end.

Lemma mol_coords_from_valid : forall todo i total (s : state),
  wp (coords_from i todo total) (mol_coords_valid s) s.
Proof.
  induction todo as [|numMol todo IH]; intros i total s; cbn [coords_from].
  - apply wp_bind, wp_modify. cbn [then_wp]. apply wp_ret. by destruct s.
  - apply wp_bind, wp_attr. destruct (molecules s) as [ms|]; [|done]. cbn [then_wp].
    apply wp_bind, wp_lift. destruct (index ms i) as [pm| |]; cbn [then_wp]; [|done|done].
    apply wp_bind, wp_attr. destruct (valid_orientations s) as [vo|]; [|done].
    cbn [then_wp].
    apply wp_bind, wp_lift. destruct (index vo i) as [valid_ori| |]; cbn [then_wp];
      [|done|done].
    apply wp_bind. eapply wp_conseq.
    { apply (keeps_wp mol_valid_kept), valid_kept_set_mol_wyckoffs. }
    intros r s' Hk. cbv beta in Hk. unfold mol_valid_kept in Hk.
    destruct r as [[chunk|]| |]; cbn [then_wp]; [|by apply wp_ret|done|done].
    eapply wp_conseq; [apply IH|]. intros r s'' Hr. unfold mol_coords_valid in *.
    destruct r as [[l|]| |]; congruence.
Qed.

Lemma mol_set_coords_valid (s : state) : wp _set_coords (mol_coords_valid s) s.
Proof.
  unfold _set_coords.
  apply wp_bind, wp_attr. destruct (numMols s) as [nums|]; [|done].
  cbn [then_wp]. apply mol_coords_from_valid.
Qed.

Definition mol_stored_when_valid (s s' : state) : Prop :=
  (valid s' = valid s /\ mol_sites s' = mol_sites s) \/
  (valid s' = Some true /\ exists l, mol_sites s' = Some l).

Definition some_mol_type (s : state) : Prop :=
  exists nums, numMols s = Some nums /\ nums <> [].

Lemma mol_stored_when_valid_trans (s s1 s2 : state) :
  mol_stored_when_valid s s1 -> mol_stored_when_valid s1 s2 -> mol_stored_when_valid s s2.
Proof.
  intros [[Hv1 Ha1] | [Hv1 [l1 Ha1]]] [[Hv2 Ha2] | [Hv2 [l2 Ha2]]].
  - left. split; congruence.
  - right. split; [done|]. by exists l2.
  - right. split; [congruence|]. exists l1. congruence.
  - right. split; [done|]. by exists l2.
Qed.

Lemma mol_stored_when_valid_same (s s' : state) :
  valid s' = valid s -> mol_sites s' = mol_sites s -> mol_stored_when_valid s s'.
Proof. intros Hv Ha. left. by split. Qed.

Lemma some_mol_type_same (s s' : state) :
  numMols s' = numMols s -> some_mol_type s -> some_mol_type s'.
Proof. intros Hn (nums & ? & ?). exists nums. split; congruence. Qed.

Lemma mol_assembled_nonempty thin todo (chunks : list (list (mol_site Ori))) :
  todo <> [] -> mol_assembled thin todo chunks -> concat chunks <> [].
Proof.
  intros Hne Hch. destruct Hch as [|chunk e chunks todo (_ & _ & Hc) _]; [done|].
  simpl. by destruct chunk.
Qed.

Lemma mol_coord_loop_valid : forall todo c2 (s : state),
  some_mol_type s ->
  wp (coord_loop todo c2) (fun _ s' => mol_stored_when_valid s s' /\ some_mol_type s') s.
Proof.
  induction todo as [|todo IH]; intros c2 s Hty; cbn [coord_loop].
  - apply wp_ret. split; [by left | done].
  - apply wp_bind, wp_modify. cbn [then_wp].
    assert (Hs0 : mol_stored_when_valid s (with_cycle2 c2 s))
      by (destruct s; by apply mol_stored_when_valid_same).
    assert (Hty0 : some_mol_type (with_cycle2 c2 s)) by (destruct s; exact Hty).
    apply wp_bind, wp_attr.
    destruct (cycle1 (with_cycle2 c2 s)) as [c1|]; [|by split]. cbn [then_wp].
    unfold emit. apply wp_bind, wp_modify. cbn [then_wp].
    set (s1 := with_trace _ _).
    assert (Hs1 : mol_stored_when_valid s s1).
    { eapply mol_stored_when_valid_trans; [exact Hs0|]. subst s1.
      destruct s; by apply mol_stored_when_valid_same. }
    assert (Hty1 : some_mol_type s1) by (subst s1; destruct s; exact Hty).
    apply wp_bind. eapply wp_conseq.
    { apply mol_wp_and; [apply mol_wp_and; [apply mol_set_coords_spec
                                           | apply mol_set_coords_valid]
                        | apply (keeps_wp search_frame), mol_keeps_set_coords]. }
    intros r s3 [[Hspec Hval] Hframe]. cbv beta in Hframe.
    unfold search_frame in Hframe. unfold mol_coords_valid in Hval.
    destruct Hframe as
      (_&_&_&_&_&_&_&_&_&Hnums&_&_&_&_&_&_&_&_&_&_&_&_&_&_&Hsites&_).
    assert (Hty3 : some_mol_type s3) by (by eapply some_mol_type_same).
    destruct r as [[[|site rest]|]| |]; cbn [then_wp].
    + exfalso. destruct Hty1 as (nums & Hn & Hne).
      destruct (Hspec [] nums eq_refl Hn) as (chunks & Hl & Hch).
      by apply (mol_assembled_nonempty _ _ _ Hne) in Hch.
    + apply wp_modify. split.
      * right. destruct s3. cbn in Hval |- *. split; [exact Hval | by eexists].
      * destruct s3. exact Hty3.
    + eapply wp_conseq; [apply IH, Hty3|].
      intros r' s' [Hsv Hty']. split; [|exact Hty'].
      eapply mol_stored_when_valid_trans; [exact Hs1|].
      eapply mol_stored_when_valid_trans; [|exact Hsv]. left. by split.
    + split; [|exact Hty3].
      eapply mol_stored_when_valid_trans; [exact Hs1|]. left. by split.
    + split; [|exact Hty3].
      eapply mol_stored_when_valid_trans; [exact Hs1|]. left. by split.
Qed.

Lemma mol_lattice_loop_valid : forall todo c1 (s : state),
  some_mol_type s ->
  wp (lattice_loop todo c1)
     (fun _ s' => mol_stored_when_valid s s' /\ some_mol_type s') s.
Proof.
  induction todo as [|todo IH]; intros c1 s Hty; cbn [lattice_loop].
  - apply wp_ret. split; [by left | done].
  - apply wp_bind, wp_modify. cbn [then_wp].
    apply wp_bind, wp_attr.
    assert (Hty0 : some_mol_type (with_cycle1 c1 s)) by (destruct s; exact Hty).
    assert (Hsame0 : mol_stored_when_valid s (with_cycle1 c1 s))
      by (destruct s; by apply mol_stored_when_valid_same).
    destruct (coord_attempts (with_cycle1 c1 s)) as [ca|]; [|by split].
    cbn [then_wp]. apply wp_bind.
    eapply wp_conseq; [apply mol_coord_loop_valid, Hty0|].
    intros r s1 [Hsv1 Hty1].
    assert (Hsv : mol_stored_when_valid s s1) by (by eapply mol_stored_when_valid_trans).
    destruct r as [[]| |]; cbn [then_wp]; [|by split|by split].
    apply wp_bind, wp_attr. destruct (valid s1) as [[|]|] eqn:Hv; cbn [then_wp];
      [by apply wp_ret | | by split].
    apply wp_bind, wp_attr. destruct (lattice s1) as [lr|]; [|by split]. cbn [then_wp].
    apply wp_bind, wp_attr. destruct (heap s1 !! lr) as [lat|]; [|by split]. cbn [then_wp].
    unfold emit. apply wp_bind, wp_modify. cbn [then_wp].
    apply wp_bind, mol_wp_call. intros lat' w' Hreset. cbn [then_wp].
    apply wp_bind, wp_modify. cbn [then_wp].
    eapply wp_conseq.
    { apply IH. destruct s1. exact Hty1. }
    intros r' s2 [Hsv2 Hty2]. split; [|exact Hty2].
    eapply mol_stored_when_valid_trans; [exact Hsv|].
    eapply mol_stored_when_valid_trans; [|exact Hsv2].
    destruct s1. by apply mol_stored_when_valid_same.
Qed.

Lemma mol_set_crystal_valid (s : state) :
  some_mol_type s -> wp set_crystal (fun _ s' => mol_stored_when_valid s s') s.
Proof.
  intros Hty. unfold set_crystal, the_lattice.
  apply wp_bind, wp_attr. destruct (degrees s) as [deg|]; [|by left]. cbn [then_wp].
  assert (Hbudget : forall la ca oa,
    wp (lat <- (l <- attr lattice;; attr (fun s0 : state => heap s0 !! l));;
        (if negb (allow_volume_reset lat) then modify (with_lattice_attempts 1)
         else ret ());;;
        la <- attr lattice_attempts;;
        returned <- lattice_loop (Z.to_nat la) 0;;
        (if returned then ret () else printx MsgNoCrystal))
       (fun _ s' => mol_stored_when_valid s s')
       (with_ori_attempts oa (with_coord_attempts ca (with_lattice_attempts la s)))).
  { intros la ca oa.
    set (s0 := with_ori_attempts oa (with_coord_attempts ca (with_lattice_attempts la s))).
    assert (Hty1 : forall la', some_mol_type (with_lattice_attempts la' s0))
      by (intros la'; subst s0; destruct s; exact Hty).
    assert (Hs1 : forall la', mol_stored_when_valid s (with_lattice_attempts la' s0))
      by (intros la'; subst s0; destruct s; by apply mol_stored_when_valid_same).
    assert (Hs0 : mol_stored_when_valid s s0)
      by (subst s0; destruct s; by apply mol_stored_when_valid_same).
    assert (Hty0 : some_mol_type s0) by (subst s0; destruct s; exact Hty).
    assert (Hend : forall (st : state) (r : Result bool) (s' : state),
      mol_stored_when_valid s st ->
      mol_stored_when_valid st s' /\ some_mol_type s' ->
      then_wp (fun returned : bool => if returned then ret () else printx MsgNoCrystal)
        (fun _ s'' => mol_stored_when_valid s s'') r s').
    { intros st r s' Hst [Hsv _].
      assert (Hs' : mol_stored_when_valid s s') by (by eapply mol_stored_when_valid_trans).
      destruct r as [[|]| |]; cbn [then_wp]; [by apply wp_ret | | done | done].
      unfold printx, emit. apply wp_modify.
      eapply mol_stored_when_valid_trans; [exact Hs'|].
      destruct s'. by apply mol_stored_when_valid_same. }
    apply wp_bind, wp_bind, wp_attr.
    destruct (lattice s0) as [lr|]; [|exact Hs0].
    cbn [then_wp]. apply wp_attr.
    destruct (heap s0 !! lr) as [lat|]; [|exact Hs0].
    cbn [then_wp]. apply wp_bind.
    destruct (negb (allow_volume_reset lat)).
    - apply wp_modify. cbn [then_wp]. apply wp_bind, wp_attr.
      subst s0. destruct s; molecular_state. cbn [then_wp]. apply wp_bind.
      eapply wp_conseq; [apply mol_lattice_loop_valid, (Hty1 1)|].
      intros r s'. apply Hend, (Hs1 1).
    - apply wp_ret. cbn [then_wp]. apply wp_bind, wp_attr.
      subst s0. destruct s; molecular_state. cbn [then_wp]. apply wp_bind.
      eapply wp_conseq; [apply mol_lattice_loop_valid, Hty0|].
      intros r s'. apply Hend, Hs0. }
  apply wp_bind. destruct (negb deg).
  - apply wp_bind, wp_modify. cbn [then_wp]. apply wp_bind, wp_modify. cbn [then_wp].
    apply wp_modify. cbn [then_wp]. apply Hbudget.
  - apply wp_bind, wp_modify. cbn [then_wp]. apply wp_bind, wp_modify. cbn [then_wp].
    apply wp_modify. cbn [then_wp]. apply Hbudget.
Qed.

End Molecular.

(** X4.  [set_crystal] started as [init_common] starts it ([valid] is
    [False], no sites stored, at least one entity type) ends with [valid]
    telling whether sites are stored: [valid] is [True] exactly when a list
    has been stored in [atom_sites] ([mol_sites]), and that list is, type by
    type, one that places the requested counts; when [valid] is [False]
    nothing is stored. *)
Theorem X4_valid_tells_whether_sites_are_stored
    {World Ori Tol : Type} {P : Providers World Ori Tol} :
  (forall (s : @random_crystal.state World Tol) nums sp deg lr lat,
     random_crystal.valid s = Some false -> random_crystal.atom_sites s = None ->
     random_crystal.numIons s = Some nums -> random_crystal.species s = Some sp ->
     zip nums sp <> [] ->
     random_crystal.degrees s = Some deg -> random_crystal.lattice s = Some lr ->
     random_crystal.heap s !! lr = Some lat ->
     let s' := (random_crystal.set_crystal s).2 in
     (random_crystal.valid s' = Some true /\
      exists l, random_crystal.atom_sites s' = Some l /\ AtomicAssembly.stored_ok s l) \/
     (random_crystal.valid s' = Some false /\ random_crystal.atom_sites s' = None)) /\
  (forall (s : @molecular_crystal.state World Ori Tol) nums deg lr lat,
     molecular_crystal.valid s = Some false -> molecular_crystal.mol_sites s = None ->
     molecular_crystal.numMols s = Some nums -> nums <> [] ->
     molecular_crystal.degrees s = Some deg -> molecular_crystal.lattice s = Some lr ->
     molecular_crystal.heap s !! lr = Some lat ->
     let s' := (molecular_crystal.set_crystal s).2 in
     (molecular_crystal.valid s' = Some true /\
      exists l, molecular_crystal.mol_sites s' = Some l /\
                MolecularAssembly.mol_stored_ok s l) \/
     (molecular_crystal.valid s' = Some false /\ molecular_crystal.mol_sites s' = None)).
Proof.
  split.
  - intros s nums sp deg lr lat Hv Ha Hn Hs Hne Hdeg Hlr Hlat.
    pose proof (set_crystal_valid s) as Hval. unfold wp in Hval.
    pose proof (proj1 (AtomicAssembly.set_crystal_spec s deg lr lat Hdeg Hlr Hlat)) as Hok.
    cbv zeta.
    destruct Hval as [[Hv' Ha'] | [Hv' [l Hl]]]; [by exists nums, sp | right | left].
    + split; congruence.
    + split; [exact Hv'|]. exists l. split; [exact Hl|].
      destruct Hok as [Hk | (l' & Hl' & Hst)]; [congruence|].
      rewrite Hl in Hl'. by injection Hl' as <-.
  - intros s nums deg lr lat Hv Ha Hn Hne Hdeg Hlr Hlat.
    pose proof (mol_set_crystal_valid s) as Hval. unfold wp in Hval.
    pose proof (proj1 (MolecularAssembly.mol_set_crystal_spec s deg lr lat Hdeg Hlr Hlat))
      as Hok.
    cbv zeta.
    destruct Hval as [[Hv' Ha'] | [Hv' [l Hl]]]; [by exists nums | right | left].
    + split; congruence.
    + split; [exact Hv'|]. exists l. split; [exact Hl|].
      destruct Hok as [Hk | (l' & Hl' & Hst)]; [congruence|].
      rewrite Hl in Hl'. by injection Hl' as <-.
Qed.

(** The atomic object as [init_common] leaves it before [set_crystal]: six
    atoms in [Demo.group_4a_2b], on a lattice of its own. *)
Definition before_search : @random_crystal.state nat unit :=
  random_crystal.with_lattice O
    (random_crystal.with_degrees true
       (random_crystal.with_tol_matrix tt
          (random_crystal.with_sites {[ "C"%string := None ]}
             (random_crystal.with_species ["C"%string]
                (random_crystal.with_numIons [6]
                   (random_crystal.with_numattempts 0
                      (random_crystal.with_group Demo.group_4a_2b
                         (random_crystal.with_valid false
                            (random_crystal.new 3 [1; 1; 1] None None
                               {[ O := Demo.unit_lattice true [1; 1; 1] ]} O))))))))).

Lemma X4_valid_tells_witness :
  let P := Demo.providers Demo.script_accept in
  let s' := (random_crystal.set_crystal before_search).2 in
  (random_crystal.valid s' = Some true /\
   exists l, random_crystal.atom_sites s' = Some l /\
             AtomicAssembly.stored_ok before_search l) \/
  (random_crystal.valid s' = Some false /\ random_crystal.atom_sites s' = None).
Proof.
  intros P.
  apply (proj1 (@X4_valid_tells_whether_sites_are_stored nat nat unit P) before_search
           [6] ["C"%string] true O (Demo.unit_lattice true [1; 1; 1])).
  - reflexivity.
  - reflexivity.
  - reflexivity.
  - reflexivity.
  - discriminate.
  - reflexivity.
  - reflexivity.
  - reflexivity.
Defined.

End Validity.

(** * What a verdict of the analyzers guarantees *)

Module AnalyzerSound.

Import Compat CompatFacts.

(** The parts of a row of [zip(l_mult0, l_maxn0, l_free0, indices0)]. *)
Definition r_mult (r : row) : Z := r.1.1.1.
Definition r_maxn (r : row) : Z := r.1.1.2.
Definition r_free (r : row) : bool := r.1.2.
Definition r_at (r : row) : nat := r.2.

(** The four candidate lists that hold the rows [rs]. *)
Definition pack (rs : list row) : cand :=
  {| l_mult := r_mult <$> rs; l_maxn := r_maxn <$> rs;
     l_free := r_free <$> rs; indices := r_at <$> rs |}.

(** A choice of positions of the group, each named by its place in iteration
    order and given a number of copies. *)
Definition position_free (g : Group) (i : nat) : option bool :=
  wp_free <$> group_wyckoffs g !! i.

Definition position_size (g : Group) (i : nat) : Z :=
  from_option wp_len 0 (group_wyckoffs g !! i).

(** The number of entities the choice places. *)
Definition weight (g : Group) (picks : list (nat * Z)) : Z :=
  foldr (fun p acc => p.2 * position_size g p.1 + acc) 0 picks.

(** The positions without freedom that the choice occupies. *)
Definition fixed_used (g : Group) (picks : list (nat * Z)) : list nat :=
  (filter (fun p => 0 < p.2 /\ position_free g p.1 = Some false) picks).*1.

(** The choice occupies a position with freedom. *)
Definition gives_freedom (g : Group) (picks : list (nat * Z)) : Prop :=
  Exists (fun p => 0 < p.2 /\ position_free g p.1 = Some true) picks.

(** The choice names no position twice, names positions of the group only,
    gives none a negative number of copies and a position without freedom at
    most one, and places [numIon] entities in all. *)
Definition places (g : Group) (numIon : Z) (picks : list (nat * Z)) : Prop :=
  NoDup picks.*1 /\
  Forall (fun p => exists wp, group_wyckoffs g !! p.1 = Some wp /\
                     0 <= p.2 /\ (wp_free wp = false -> p.2 <= 1)) picks /\
  weight g picks = numIon.

(** The molecule [i_mol] has a valid orientation on position [i]. *)
Definition has_orientation {Ori : Type} (g : Group)
    (vo : list (list (list (list Ori)))) (i_mol i : nat) : Prop :=
  exists j k per_mol per_class oris,
    jk_from_i i (wyckoffs_organized g) = Some (j, k) /\
    vo !! i_mol = Some per_mol /\ per_mol !! j = Some per_class /\
    per_class !! k = Some oris /\ oris <> [].

(** A row as the analyzers read it off the group. *)
Definition row_in (g : Group) (numIon : Z) (r : row) : Prop :=
  exists wp, group_wyckoffs g !! r_at r = Some wp /\
    r = (wp_len wp, numIon / wp_len wp, wp_free wp, r_at r).

(** A row as the candidate lists keep it. *)
Definition cand_row (g : Group) (cap : Z -> bool -> Z) (used : list nat) (r : row)
    : Prop :=
  exists wp, group_wyckoffs g !! r_at r = Some wp /\
    r = (wp_len wp, cap (wp_len wp) (wp_free wp), wp_free wp, r_at r) /\
    (wp_free wp = false -> r_at r ∉ used).

Definition kept (g : Group) (cap : Z -> bool -> Z) (used : list nat)
    (rs : list row) (c : cand) : Prop :=
  exists rs', c = pack rs' /\
    Forall (cand_row g cap used) rs' /\
    NoDup (r_at <$> rs') /\
    (forall i, i ∈ r_at <$> rs' -> i ∈ r_at <$> rs).

Lemma pack_snoc rs m x f i :
  cand_append (pack rs) m x f i = pack (rs ++ [(m, x, f, i)]).
Proof. unfold cand_append, pack. simpl. by rewrite !fmap_app. Qed.

Lemma kept_nil g cap used : kept g cap used [] cand_empty.
Proof.
  exists []. split; [done|]. split; [constructor|]. split; [constructor|done].
Qed.

Lemma kept_skip g cap used rs r c :
  kept g cap used rs c -> kept g cap used (rs ++ [r]) c.
Proof.
  intros (rs' & -> & Hall & Hnd & Hsub). exists rs'. repeat split; try done.
  intros i Hi. rewrite fmap_app. apply elem_of_app. left. by apply Hsub.
Qed.

Lemma kept_snoc g cap used rs r r' :
  r_at r' = r_at r -> cand_row g cap used r' -> r_at r ∉ r_at <$> rs ->
  forall c, kept g cap used rs c ->
  kept g cap used (rs ++ [r]) (cand_append c (r_mult r') (r_maxn r') (r_free r') (r_at r')).
Proof.
  intros Hat Hrow Hnew c (rs' & -> & Hall & Hnd & Hsub).
  exists (rs' ++ [r']). split.
  { rewrite pack_snoc. by destruct r' as [[[? ?] ?] ?]. }
  split; [apply Forall_app; split; [done|by constructor]|].
  split.
  - rewrite fmap_app. apply NoDup_app. split; [done|]. split; [|apply NoDup_singleton].
    intros i Hi Hi'. apply list_elem_of_singleton in Hi'. subst i.
    apply Hnew. rewrite <- Hat. by apply Hsub.
  - intros i. rewrite !fmap_app, !elem_of_app. intros [Hi | Hi]; [left; by apply Hsub|].
    right. simpl in *. by rewrite <- Hat.
Qed.

Lemma reduce_atomic_kept g numIon used rs :
  Forall (row_in g numIon) rs -> NoDup (r_at <$> rs) ->
  kept g (cap_atomic numIon) used rs (reduce_atomic numIon used rs).
Proof.
  unfold reduce_atomic. induction rs as [|r rs IH] using rev_ind; intros Hrows Hnd.
  { apply kept_nil. }
  apply Forall_app in Hrows as [Hrows Hr]. rewrite Forall_singleton in Hr.
  rewrite fmap_app in Hnd. apply NoDup_app in Hnd as (Hnd & Hfresh & _).
  assert (r_at r ∉ r_at <$> rs) as Hnew.
  { intros Hin. apply (Hfresh _ Hin). simpl. apply list_elem_of_singleton. done. }
  specialize (IH Hrows Hnd). rewrite foldl_snoc.
  destruct Hr as (wp & Hwp & Hr). destruct r as [[[m x] f] i]. simpl in Hwp, Hnew.
  unfold r_at in Hwp, Hr. simpl in Hwp, Hr. simplify_eq.
  unfold reduce_step_atomic. destruct (wp_free wp) eqn:Hfree.
  - case_bool_decide; [by apply kept_skip|].
    apply (kept_snoc g _ used rs _ (wp_len wp, numIon / wp_len wp, true, i));
      [done| |done|done].
    exists wp. rewrite Hfree. unfold cap_atomic. by repeat split.
  - case_bool_decide; [by apply kept_skip|].
    apply (kept_snoc g _ used rs _
             (wp_len wp, (if wp_len wp <=? numIon then 1 else 0), false, i));
      [done| |done|done].
    exists wp. rewrite Hfree. unfold cap_atomic. by repeat split.
Qed.

Lemma reduce_molecular_kept g numIon used rs :
  Forall (row_in g numIon) rs -> NoDup (r_at <$> rs) ->
  kept g (cap_molecular numIon) used rs (reduce_molecular used rs).
Proof.
  unfold reduce_molecular. induction rs as [|r rs IH] using rev_ind; intros Hrows Hnd.
  { apply kept_nil. }
  apply Forall_app in Hrows as [Hrows Hr]. rewrite Forall_singleton in Hr.
  rewrite fmap_app in Hnd. apply NoDup_app in Hnd as (Hnd & Hfresh & _).
  assert (r_at r ∉ r_at <$> rs) as Hnew.
  { intros Hin. apply (Hfresh _ Hin). simpl. apply list_elem_of_singleton. done. }
  specialize (IH Hrows Hnd). rewrite foldl_snoc.
  destruct Hr as (wp & Hwp & Hr). destruct r as [[[m x] f] i]. simpl in Hwp, Hnew.
  unfold r_at in Hwp, Hr. simpl in Hwp, Hr. simplify_eq.
  unfold reduce_step_molecular. destruct (wp_free wp) eqn:Hfree.
  - case_bool_decide; [by apply kept_skip|].
    apply (kept_snoc g _ used rs _ (wp_len wp, numIon / wp_len wp, true, i));
      [done| |done|done].
    exists wp. rewrite Hfree. unfold cap_molecular. by repeat split.
  - case_bool_decide; [by apply kept_skip|].
    apply (kept_snoc g _ used rs _ (wp_len wp, 1, false, i)); [done| |done|done].
    exists wp. rewrite Hfree. unfold cap_molecular. by repeat split.
Qed.

(** *** The rows come from the group *)

Lemma rows_atomic_in g numIon :
  Forall (row_in g numIon) (rows_atomic g numIon) /\
  NoDup (r_at <$> rows_atomic g numIon).
Proof.
  unfold rows_atomic. split.
  - apply Forall_lookup. intros k r Hk. rewrite list_lookup_imap in Hk.
    destruct (group_wyckoffs g !! k) as [wp|] eqn:Hwp; [|done]. simpl in Hk.
    simplify_eq. exists wp. by split.
  - apply NoDup_alt. intros i j x Hi Hj.
    rewrite list_lookup_fmap, list_lookup_imap in Hi, Hj.
    destruct (group_wyckoffs g !! i); [|done]. destruct (group_wyckoffs g !! j); [|done].
    simpl in Hi, Hj. unfold r_at in Hi, Hj. simpl in Hi, Hj. congruence.
Qed.

Lemma rows_molecular_from_in {Ori : Type} g (vo : list (list (list (list Ori))))
    i_mol numIon : forall wps i_wp rs pre,
  group_wyckoffs g = pre ++ wps -> length pre = i_wp ->
  rows_molecular_from g vo i_mol numIon i_wp wps = Ok rs ->
  Forall (fun r => row_in g numIon r /\ (i_wp <= r_at r)%nat /\
                   has_orientation g vo i_mol (r_at r)) rs /\
  NoDup (r_at <$> rs).
Proof.
  induction wps as [|wp wps IH]; intros i_wp rs pre Hg Hlen Hrs; simpl in Hrs.
  { simplify_eq. split; constructor. }
  destruct (jk_from_i i_wp (wyckoffs_organized g)) as [[j k]|] eqn:Hjk; [|done].
  unfold index in Hrs.
  destruct (vo !! i_mol) as [per_mol|] eqn:Hpm; simpl in Hrs; [|done].
  destruct (per_mol !! j) as [per_class|] eqn:Hpc; simpl in Hrs; [|done].
  destruct (per_class !! k) as [oris|] eqn:Hor; simpl in Hrs; [|done].
  destruct (rows_molecular_from g vo i_mol numIon (S i_wp) wps) as [tl| |] eqn:Htl;
    simpl in Hrs; try done.
  destruct (IH (S i_wp) tl (pre ++ [wp])) as [Hall Hnd].
  { by rewrite <- app_assoc. }
  { rewrite length_app. simpl. lia. }
  { done. }
  assert (Forall (fun r => row_in g numIon r /\ (i_wp <= r_at r)%nat /\
                           has_orientation g vo i_mol (r_at r)) tl) as Hall'.
  { eapply Forall_impl; [exact Hall|]. intros r (? & ? & ?). repeat split; [done|lia|done]. }
  case_bool_decide as Hpos; simplify_eq; [|done].
  split.
  - constructor; [|done]. unfold r_at. simpl. split; [|split; [lia|]].
    + exists wp. split; [|done]. unfold r_at. simpl. rewrite Hg.
      by rewrite lookup_app_r, Nat.sub_diag by lia.
    + exists j, k, per_mol, per_class, oris. repeat split; try done.
      intros ->. simpl in Hpos. lia.
  - rewrite fmap_cons. apply NoDup_cons. split; [|done].
    intros Hin. apply list_elem_of_fmap in Hin as (r & Hr & Hin).
    rewrite Forall_forall in Hall. destruct (Hall r Hin) as (_ & Hle & _).
    unfold r_at in Hr, Hle. simpl in Hr. lia.
Qed.

Lemma rows_molecular_in {Ori : Type} g (vo : list (list (list (list Ori))))
    i_mol numIon rs :
  rows_molecular g vo i_mol numIon = Ok rs ->
  Forall (row_in g numIon) rs /\ NoDup (r_at <$> rs) /\
  Forall (fun r => has_orientation g vo i_mol (r_at r)) rs.
Proof.
  intros Hrs. destruct (rows_molecular_from_in g vo i_mol numIon _ O rs [] eq_refl eq_refl Hrs)
    as [Hall Hnd].
  split; [|split; [done|]]; (eapply Forall_impl; [exact Hall|]); by intros r (? & ? & ?).
Qed.

(** *** A combination that works, as a choice of positions *)

Lemma cand_rows_mult g cap used rs :
  Forall (cand_row g cap used) rs -> Forall (fun m => 1 <= m) (r_mult <$> rs).
Proof.
  intros Hall. apply Forall_fmap. eapply Forall_impl; [exact Hall|].
  intros r (wp & _ & -> & _). unfold r_mult. simpl. apply wp_len_pos.
Qed.

Lemma cand_rows_caps g cap used rs :
  (forall m f, 1 <= m -> 0 <= cap m f) ->
  Forall (cand_row g cap used) rs -> Forall (fun c => 0 <= c) (r_maxn <$> rs).
Proof.
  intros Hcap Hall. apply Forall_fmap. eapply Forall_impl; [exact Hall|].
  intros r (wp & _ & -> & _). unfold r_maxn. simpl. apply Hcap, wp_len_pos.
Qed.

Lemma picks_weight g cap used : forall rs n,
  Forall (cand_row g cap used) rs -> length n = length rs ->
  weight g (zip (r_at <$> rs) n) = dot n (r_mult <$> rs).
Proof.
  induction rs as [|r rs IH]; intros [|v n] Hall Hlen; simpl in Hlen; try done.
  apply Forall_cons in Hall as [(wp & Hwp & Hr & _) Hall].
  assert (r_mult r = wp_len wp) as Hm by (rewrite Hr; done).
  rewrite !fmap_cons, dot_cons. simpl. rewrite (IH n) by (done || lia).
  unfold position_size. rewrite Hwp, Hm. done.
Qed.

Lemma picks_within g cap used : forall rs n,
  (forall m, cap m false <= 1) ->
  Forall (cand_row g cap used) rs -> bounded n (r_maxn <$> rs) ->
  Forall (fun p => exists wp, group_wyckoffs g !! p.1 = Some wp /\
                     0 <= p.2 /\ (wp_free wp = false -> p.2 <= 1))
         (zip (r_at <$> rs) n).
Proof.
  intros rs n Hcap. revert n.
  induction rs as [|r rs IH]; intros [|v n] Hall Hb; simpl; try constructor.
  - apply Forall_cons in Hall as [(wp & Hwp & Hr & _) Hall].
    rewrite fmap_cons in Hb. apply Forall2_cons in Hb as [Hv Hb].
    exists wp. simpl. split; [done|]. split; [lia|]. intros Hfree.
    rewrite Hr in Hv. unfold r_maxn in Hv. simpl in Hv. rewrite Hfree in Hv.
    specialize (Hcap (wp_len wp)). lia.
  - apply Forall_cons in Hall as [_ Hall].
    rewrite fmap_cons in Hb. apply Forall2_cons in Hb as [_ Hb]. by apply IH.
Qed.

Lemma found_places g cap used numIon rs n :
  (forall m, cap m false <= 1) ->
  Forall (cand_row g cap used) rs -> NoDup (r_at <$> rs) ->
  bounded n (r_maxn <$> rs) -> dot n (r_mult <$> rs) = numIon ->
  places g numIon (zip (r_at <$> rs) n).
Proof.
  intros Hcap Hall Hnd Hb Hdot.
  assert (length n = length rs) as Hlen.
  { apply Forall2_length in Hb. by rewrite length_fmap in Hb. }
  split; [|split].
  - rewrite fst_zip; [done|]. rewrite length_fmap. lia.
  - by eapply picks_within.
  - by rewrite (picks_weight g cap used).
Qed.

Lemma fixed_used_cons g i v picks :
  fixed_used g ((i, v) :: picks)
  = (if decide (0 < v /\ position_free g i = Some false) then [i] else [])
    ++ fixed_used g picks.
Proof.
  unfold fixed_used. rewrite filter_cons. simpl. by case_decide.
Qed.

Lemma fixed_used_among g : forall picks i, i ∈ fixed_used g picks -> i ∈ picks.*1.
Proof.
  induction picks as [|[j v] picks IH]; intros i Hi; [done|].
  rewrite fixed_used_cons in Hi. apply elem_of_app in Hi as [Hi | Hi].
  - case_decide; [|by apply elem_of_nil in Hi].
    apply list_elem_of_singleton in Hi. subst. simpl. apply elem_of_cons. by left.
  - simpl. apply elem_of_cons. right. by apply IH.
Qed.

Lemma fixed_used_NoDup g : forall picks, NoDup picks.*1 -> NoDup (fixed_used g picks).
Proof.
  induction picks as [|[j v] picks IH]; intros Hnd; [constructor|].
  simpl in Hnd. apply NoDup_cons in Hnd as [Hj Hnd].
  rewrite fixed_used_cons. case_decide; simpl; [|by apply IH].
  apply NoDup_cons. split; [|by apply IH]. intros Hin. by apply Hj, (fixed_used_among g).
Qed.

Lemma fixed_used_fresh g cap used : forall rs n i,
  Forall (cand_row g cap used) rs ->
  i ∈ fixed_used g (zip (r_at <$> rs) n) -> i ∉ used.
Proof.
  induction rs as [|r rs IH]; intros [|v n] i Hall Hi; simpl in Hi;
    try by apply elem_of_nil in Hi.
  apply Forall_cons in Hall as [(wp & Hwp & Hr & Hfresh) Hall].
  rewrite fixed_used_cons in Hi. apply elem_of_app in Hi as [Hi | Hi]; [|by eapply IH].
  case_decide as Hd; [|by apply elem_of_nil in Hi].
  apply list_elem_of_singleton in Hi. subst i. destruct Hd as [_ Hd].
  unfold position_free in Hd. rewrite Hwp in Hd. simpl in Hd. apply Hfresh. congruence.
Qed.

(** *** What the analyzers record of a combination *)

Lemma record_atomic_picks g cap used : forall rs n k,
  Forall (cand_row g cap used) rs -> length n = length rs ->
  let k' := record_atomic n (r_free <$> rs) (r_at <$> rs) k in
  used_indices k' = used_indices k ++ fixed_used g (zip (r_at <$> rs) n) /\
  (has_freedom k' = true <->
   has_freedom k = true \/ gives_freedom g (zip (r_at <$> rs) n)).
Proof.
  induction rs as [|r rs IH]; intros [|v n] k Hall Hlen; simpl in Hlen; try done.
  { simpl. split; [by rewrite app_nil_r|]. unfold gives_freedom. rewrite Exists_nil. tauto. }
  apply Forall_cons in Hall as [(wp & Hwp & Hr & _) Hall].
  assert (r_free r = wp_free wp) as Hf by (rewrite Hr; done).
  assert (position_free g (r_at r) = Some (wp_free wp)) as Hpf
    by (unfold position_free; by rewrite Hwp).
  cbv zeta. rewrite !fmap_cons. simpl. rewrite fixed_used_cons, Hpf, Hf.
  unfold gives_freedom. rewrite Exists_cons. simpl. rewrite Hpf.
  fold (gives_freedom g (zip (r_at <$> rs) n)).
  case_bool_decide as Hv.
  - destruct (wp_free wp) eqn:Hfree.
    + destruct (IH n {| has_freedom := true; used_indices := used_indices k |} Hall)
        as [Hu Hh]; [lia|]. simpl in Hu, Hh.
      rewrite Hu. split.
      * case_decide as Hd; [destruct Hd; congruence|done].
      * rewrite Hh. split; [|tauto]. intros _. right. left. split; [lia|done].
    + destruct (IH n {| has_freedom := has_freedom k;
                        used_indices := used_indices k ++ [r_at r] |} Hall)
        as [Hu Hh]; [lia|]. simpl in Hu, Hh.
      rewrite Hu. split.
      * case_decide as Hd; [by rewrite <- app_assoc|]. exfalso. apply Hd. split; [lia|done].
      * rewrite Hh. split; [tauto|]. intros [?|[[_ ?]|?]]; [tauto|congruence|tauto].
  - destruct (IH n k Hall) as [Hu Hh]; [lia|]. rewrite Hu. split.
    + case_decide as Hd; [destruct Hd; lia|done].
    + rewrite Hh. split; [tauto|]. intros [?|[[? _]|?]]; [tauto|lia|tauto].
Qed.

Lemma record_molecular_picks g cap used : forall rs n pre extra k,
  Forall (cand_row g cap used) rs -> length n = length rs ->
  let k' := (record_molecular n (r_free <$> rs) (length pre)
               (pre ++ (r_at <$> rs) ++ extra) k).1 in
  used_indices k' = used_indices k /\
  (has_freedom k' = true <->
   has_freedom k = true \/ gives_freedom g (zip (r_at <$> rs) n)).
Proof.
  induction rs as [|r rs IH]; intros [|v n] pre extra k Hall Hlen; simpl in Hlen; try done.
  { simpl. split; [done|]. unfold gives_freedom. rewrite Exists_nil. tauto. }
  apply Forall_cons in Hall as [(wp & Hwp & Hr & _) Hall].
  assert (r_free r = wp_free wp) as Hf by (rewrite Hr; done).
  assert (position_free g (r_at r) = Some (wp_free wp)) as Hpf
    by (unfold position_free; by rewrite Hwp).
  cbv zeta. rewrite !fmap_cons. simpl.
  rewrite lookup_app_r, Nat.sub_diag by lia. simpl. rewrite Hf.
  unfold gives_freedom. rewrite Exists_cons. simpl. rewrite Hpf.
  fold (gives_freedom g (zip (r_at <$> rs) n)).
  assert (forall tail : list nat,
            pre ++ (r_at r :: (r_at <$> rs) ++ tail)
            = (pre ++ [r_at r]) ++ (r_at <$> rs) ++ tail) as Hshift
    by (intros tail; by rewrite <- app_assoc).
  assert (S (length pre) = length (pre ++ [r_at r])) as Hat
    by (rewrite length_app; simpl; lia).
  case_bool_decide as Hv.
  - destruct (wp_free wp) eqn:Hfree.
    + rewrite Hshift, Hat.
      destruct (IH n (pre ++ [r_at r]) extra
                  {| has_freedom := true; used_indices := used_indices k |} Hall)
        as [Hu Hh]; [lia|]. simpl in Hu, Hh.
      split; [done|]. rewrite Hh. split; [|tauto]. intros _. right. left.
      split; [lia|done].
    + replace ((pre ++ r_at r :: (r_at <$> rs) ++ extra) ++ [r_at r])
        with ((pre ++ [r_at r]) ++ (r_at <$> rs) ++ (extra ++ [r_at r]))
        by (rewrite <- !app_assoc; simpl; by rewrite <- !app_assoc).
      rewrite Hat.
      destruct (IH n (pre ++ [r_at r]) (extra ++ [r_at r]) k Hall) as [Hu Hh]; [lia|].
      split; [done|]. rewrite Hh. split; [tauto|].
      intros [?|[[_ ?]|?]]; [tauto|congruence|tauto].
  - rewrite Hshift, Hat.
    destruct (IH n (pre ++ [r_at r]) extra k Hall) as [Hu Hh]; [lia|].
    split; [done|]. rewrite Hh. split; [tauto|]. intros [?|[[? _]|?]]; [tauto|lia|tauto].
Qed.

(** *** One entity type *)

Lemma sweep_picks fl g cap used numIon fuel rs s n :
  (forall m f, 1 <= m -> 0 <= cap m f) -> (forall m, cap m false <= 1) ->
  Forall (cand_row g cap used) rs -> NoDup (r_at <$> rs) ->
  sweep_init (pack rs) = Ok s ->
  sweep fuel fl (pack rs) numIon s = Ok (Some n) ->
  places g numIon (zip (r_at <$> rs) n) /\ length n = length rs.
Proof.
  intros Hcap0 Hcap1 Hall Hnd Hinit Hsw.
  pose proof (cand_rows_mult _ _ _ _ Hall) as Hmult.
  pose proof (cand_rows_caps _ _ _ _ Hcap0 Hall) as Hcaps.
  assert (bounded (sw_n s) (l_maxn (pack rs))) as Hb0.
  { unfold sweep_init in Hinit. eapply first_usable_bounded; [exact Hcaps| |exact Hinit].
    simpl. replace (length (r_mult <$> rs)) with (length (r_maxn <$> rs))
      by (by rewrite !length_fmap).
    by apply bounded_zeros. }
  destruct (sweep_found fl (pack rs) numIon fuel s n Hmult Hb0 Hsw) as [Hb Hdot].
  split; [by eapply found_places|].
  apply Forall2_length in Hb. simpl in Hb. by rewrite length_fmap in Hb.
Qed.

Lemma check_type_atomic_sound fuel g numIon k k' :
  0 <= numIon -> check_type_atomic fuel g numIon k = Ok (Some k') ->
  exists picks, places g numIon picks /\
    used_indices k' = used_indices k ++ fixed_used g picks /\
    (forall i, i ∈ fixed_used g picks -> i ∉ used_indices k) /\
    (has_freedom k' = true <-> has_freedom k = true \/ gives_freedom g picks).
Proof.
  intros Hcount. unfold check_type_atomic.
  destruct (rows_atomic_in g numIon) as [Hrows Hnd].
  destruct (reduce_atomic_kept g numIon (used_indices k) _ Hrows Hnd)
    as (rs & -> & Hall & Hnd' & _).
  destruct (sweep_init (pack rs)) as [s| |] eqn:Hinit; simpl; try done.
  case_bool_decide; [done|].
  destruct (sweep fuel Atomic (pack rs) numIon s) as [[n|]| |] eqn:Hsw; simpl; try done.
  intros Hk'. simplify_eq.
  destruct (sweep_picks Atomic g (cap_atomic numIon) (used_indices k) numIon fuel rs s n)
    as [Hpl Hlen]; try done.
  { intros m f Hm. by apply cap_atomic_nonneg. }
  { intros m. unfold cap_atomic. case_match; lia. }
  exists (zip (r_at <$> rs) n). split; [done|].
  destruct (record_atomic_picks g _ _ rs n k Hall Hlen) as [Hu Hh].
  split; [done|]. split; [|done]. intros i Hi. by eapply fixed_used_fresh.
Qed.

Lemma check_type_molecular_sound {Ori : Type} fuel g
    (vo : list (list (list (list Ori)))) i_mol numIon k k' :
  0 <= numIon -> check_type_molecular fuel g vo i_mol numIon k = Ok (Some k') ->
  exists picks, places g numIon picks /\
    Forall (fun p => has_orientation g vo i_mol p.1) picks /\
    (has_freedom k' = true <-> has_freedom k = true \/ gives_freedom g picks).
Proof.
  intros Hcount. unfold check_type_molecular.
  destruct (rows_molecular g vo i_mol numIon) as [rows| |] eqn:Hrs; simpl; try done.
  destruct (rows_molecular_in g vo i_mol numIon rows Hrs) as (Hrows & Hnd & Hori).
  destruct (reduce_molecular_kept g numIon (used_indices k) _ Hrows Hnd)
    as (rs & -> & Hall & Hnd' & Hsub).
  destruct (sweep_init (pack rs)) as [s| |] eqn:Hinit; simpl; try done.
  case_bool_decide; [done|].
  destruct (sweep fuel Molecular (pack rs) numIon s) as [[n|]| |] eqn:Hsw; simpl; try done.
  intros Hk'. simplify_eq.
  destruct (sweep_picks Molecular g (cap_molecular numIon) (used_indices k) numIon fuel
              rs s n) as [Hpl Hlen]; try done.
  { intros m f Hm. by apply cap_molecular_nonneg. }
  exists (zip (r_at <$> rs) n). split; [done|]. split.
  - apply Forall_forall. intros [i v] Hin. simpl.
    apply elem_of_zip_l in Hin. apply Hsub in Hin.
    apply list_elem_of_fmap in Hin as (r & -> & Hin).
    rewrite Forall_forall in Hori. by apply Hori.
  - destruct (record_molecular_picks g _ _ rs n [] [] k Hall Hlen) as [_ Hh].
    simpl in Hh. by rewrite app_nil_r in Hh.
Qed.

(** *** Every entity type *)

Lemma check_types_atomic_sound fuel g : forall numIons k d,
  Forall (fun numIon => 0 <= numIon) numIons -> NoDup (used_indices k) ->
  check_types_atomic fuel g numIons k = Ok (true, d) ->
  exists all, Forall2 (places g) numIons all /\
    NoDup (used_indices k ++ concat (fixed_used g <$> all)) /\
    (d = true <-> has_freedom k = true \/ Exists (gives_freedom g) all).
Proof.
  induction numIons as [|numIon rest IH]; intros k d Hpos Hnd Hrun; simpl in Hrun.
  { simplify_eq. exists []. split; [constructor|]. split.
    - simpl. by rewrite app_nil_r.
    - rewrite Exists_nil. tauto. }
  apply Forall_cons in Hpos as [Hcount Hpos].
  destruct (check_type_atomic fuel g numIon k) as [[k'|]| |] eqn:Hone; simpl in Hrun;
    try done.
  destruct (check_type_atomic_sound fuel g numIon k k' Hcount Hone)
    as (picks & Hpl & Hu & Hfresh & Hh).
  destruct (IH k' d Hpos) as (all & Hall & Hnd' & Hd); [|done|].
  { rewrite Hu. apply NoDup_app. split; [done|]. split.
    - intros i Hi Hi'. by apply (Hfresh i Hi').
    - apply fixed_used_NoDup. by destruct Hpl. }
  exists (picks :: all). split; [by constructor|]. split.
  - rewrite fmap_cons. simpl. rewrite app_assoc. by rewrite <- Hu.
  - rewrite Hd, Hh, Exists_cons. tauto.
Qed.

Lemma check_types_molecular_sound {Ori : Type} fuel g
    (vo : list (list (list (list Ori)))) : forall numMols i_mol k d,
  Forall (fun numMol => 0 <= numMol) numMols ->
  check_types_molecular fuel g vo i_mol numMols k = Ok (true, d) ->
  exists all, Forall2 (places g) numMols all /\
    (forall t picks, all !! t = Some picks ->
       Forall (fun p => has_orientation g vo (i_mol + t) p.1) picks) /\
    (d = true <-> has_freedom k = true \/ Exists (gives_freedom g) all).
Proof.
  induction numMols as [|numMol rest IH]; intros i_mol k d Hpos Hrun; simpl in Hrun.
  { simplify_eq. exists []. split; [constructor|]. split; [done|].
    rewrite Exists_nil. tauto. }
  apply Forall_cons in Hpos as [Hcount Hpos].
  destruct (check_type_molecular fuel g vo i_mol numMol k) as [[k'|]| |] eqn:Hone;
    simpl in Hrun; try done.
  destruct (check_type_molecular_sound fuel g vo i_mol numMol k k' Hcount Hone)
    as (picks & Hpl & Hori & Hh).
  destruct (IH (S i_mol) k' d Hpos Hrun) as (all & Hall & Horis & Hd).
  exists (picks :: all). split; [by constructor|]. split.
  - intros [|t] picks' Ht; simpl in Ht.
    + simplify_eq. by rewrite Nat.add_0_r.
    + replace (i_mol + S t)%nat with (S i_mol + t)%nat by lia. by apply Horis.
  - rewrite Hd, Hh, Exists_cons. tauto.
Qed.

(** X5.  For exact counts, a verdict "compatible" of either analyzer is
    backed by a choice of positions for every entity type: the chosen
    positions are positions of
    the group, none is named twice for a type, no multiplier is negative, a
    position without freedom is taken at most once by a type, and the
    multiplicities of the chosen positions add up to the requested count.
    The flag [degrees] is [True] exactly when some type occupies a position
    with freedom.  For atoms, moreover, no position without freedom is
    occupied by two types; for molecules, every chosen position is one on
    which that molecule has a valid orientation. *)
Theorem X5_compatible_verdict_is_backed_by_positions :
  (forall fuel g numIons d,
     Forall exact_count numIons ->
     check_compatible_atomic fuel g numIons = Ok (true, d) ->
     exists all, Forall2 (places g) numIons all /\
       NoDup (concat (fixed_used g <$> all)) /\
       (d = true <-> Exists (gives_freedom g) all)) /\
  (forall (Ori : Type) fuel g (vo : list (list (list (list Ori)))) numMols d,
     Forall exact_count numMols ->
     check_compatible_molecular fuel g vo numMols = Ok (true, d) ->
     exists all, Forall2 (places g) numMols all /\
       (forall t picks, all !! t = Some picks ->
          Forall (fun p => has_orientation g vo t p.1) picks) /\
       (d = true <-> Exists (gives_freedom g) all)).
Proof.
  split.
  - intros fuel g numIons d Hexact Hrun. unfold check_compatible_atomic in Hrun.
    assert (Hpos : Forall (fun numIon => 0 <= numIon) numIons)
      by (eapply Forall_impl; [exact Hexact | by intros n [Hn _]]).
    destruct (check_types_atomic_sound fuel g numIons carry0 d Hpos) as (all & Hall & Hnd & Hd);
      [constructor|done|].
    exists all. split; [done|]. split; [done|].
    rewrite Hd. simpl. split; [by intros [?|?]|by right].
  - intros Ori fuel g vo numMols d Hexact Hrun. unfold check_compatible_molecular in Hrun.
    assert (Hpos : Forall (fun numMol => 0 <= numMol) numMols)
      by (eapply Forall_impl; [exact Hexact | by intros n [Hn _]]).
    destruct (check_types_molecular_sound fuel g vo numMols O carry0 d Hpos Hrun)
      as (all & Hall & Hori & Hd).
    exists all. split; [done|]. split; [done|].
    rewrite Hd. simpl. split; [by intros [?|?]|by right].
Qed.

Lemma X5_compatible_verdict_witness :
  exists all, Forall2 (places Demo.group_4a_2b) [6; 2] all /\
    NoDup (concat (fixed_used Demo.group_4a_2b <$> all)) /\
    (true = true <-> Exists (gives_freedom Demo.group_4a_2b) all).
Proof.
  apply (proj1 X5_compatible_verdict_is_backed_by_positions 50%nat Demo.group_4a_2b
           [6; 2] true).
  - repeat (apply Forall_cons_2; [unfold exact_count; lia|]). apply Forall_nil_2.
  - vm_compute. reflexivity.
Defined.

End AnalyzerSound.

(** * Verdicts that need no search *)

Module AnalyzerEdges.

Import Compat CompatFacts AnalyzerSound.

Lemma first_usable_none lx n0 : forall todo i,
  Forall (fun c => c = 0) lx -> (i + todo = length lx)%nat ->
  first_usable lx n0 i todo = Ok {| sw_n := n0; sw_p := O; sw_p2 := O |}.
Proof.
  induction todo as [|todo IH]; intros i Hz Hlen; simpl; [done|].
  destruct (lx !! i) as [c|] eqn:Hc.
  - unfold index. rewrite Hc. simpl. rewrite Forall_lookup in Hz. rewrite (Hz _ _ Hc).
    case_bool_decide; [done|]. apply IH; [by apply Forall_lookup|lia].
  - apply lookup_ge_None in Hc. lia.
Qed.

Lemma check_type_atomic_too_small fuel g numIon k :
  0 <= numIon -> Forall (fun wp => numIon < wp_len wp) (group_wyckoffs g) ->
  check_type_atomic fuel g numIon k = Ok None.
Proof.
  intros Hcount Hsmall. unfold check_type_atomic.
  destruct (rows_atomic_in g numIon) as [Hrows Hnd].
  destruct (reduce_atomic_kept g numIon (used_indices k) _ Hrows Hnd)
    as (rs & -> & Hall & _ & _).
  unfold sweep_init. rewrite first_usable_none; simpl.
  - by rewrite bool_decide_true.
  - apply Forall_fmap. eapply Forall_impl; [exact Hall|].
    intros r (wp & Hwp & -> & _). unfold r_maxn. simpl.
    rewrite Forall_lookup in Hsmall. specialize (Hsmall _ _ Hwp). simpl in Hsmall.
    unfold cap_atomic. destruct (wp_free wp).
    + apply Z.div_small. lia.
    + destruct (wp_len wp <=? numIon) eqn:Hle; [|done]. apply Z.leb_le in Hle. lia.
  - by rewrite !length_fmap.
Qed.

Lemma check_types_atomic_app fuel g : forall pre k d,
  check_types_atomic fuel g pre k = Ok (true, d) ->
  exists k', forall rest,
    check_types_atomic fuel g (pre ++ rest) k = check_types_atomic fuel g rest k'.
Proof.
  induction pre as [|numIon pre IH]; intros k d Hrun; simpl in Hrun.
  { by exists k. }
  destruct (check_type_atomic fuel g numIon k) as [[k1|]| |] eqn:Hone; simpl in Hrun;
    try done.
  destruct (IH k1 d Hrun) as [k' Hk']. exists k'. intros rest. simpl.
  rewrite Hone. simpl. apply Hk'.
Qed.

(** X6.  A count that is smaller than the multiplicity of every position of
    the group (a count of zero is one) makes the atomic analyzer answer
    [(False, False)] as soon as it reaches that type: when the types before
    it are compatible, the composition is reported incompatible whatever
    follows, and no turn of the search loop is taken for that type. *)
Theorem X6_count_below_every_multiplicity :
  forall fuel g pre numIon rest d,
    0 <= numIon -> Forall (fun wp => numIon < wp_len wp) (group_wyckoffs g) ->
    check_compatible_atomic fuel g pre = Ok (true, d) ->
    check_compatible_atomic fuel g (pre ++ numIon :: rest) = Ok (false, false) /\
    forall k, check_type_atomic O g numIon k = Ok None.
Proof.
  intros fuel g pre numIon rest d Hcount Hsmall Hpre. split.
  - unfold check_compatible_atomic in *.
    destruct (check_types_atomic_app fuel g pre carry0 d Hpre) as [k' ->].
    simpl. by rewrite check_type_atomic_too_small.
  - intros k. by apply check_type_atomic_too_small.
Qed.

Lemma X6_count_below_witness :
  check_compatible_atomic 50 Demo.group_4a_2b ([6] ++ 1 :: [4]) = Ok (false, false) /\
  forall k, check_type_atomic O Demo.group_4a_2b 1 k = Ok None.
Proof.
  apply (X6_count_below_every_multiplicity 50 Demo.group_4a_2b [6] 1 [4] true).
  - lia.
  - repeat constructor; vm_compute; reflexivity.
  - vm_compute. reflexivity.
Defined.

(** *** A multiple of the first position's multiplicity *)

Lemma dot_zeros : forall len lm, dot (replicate len 0) lm = 0.
Proof.
  induction len as [|len IH]; intros [|m lm]; try done.
  simpl replicate. rewrite dot_cons, IH. lia.
Qed.

Lemma record_atomic_zeros : forall len lf idx k,
  record_atomic (replicate len 0) lf idx k = k.
Proof.
  induction len as [|len IH]; intros [|f lf] [|i idx] k; try done.
  simpl. apply IH.
Qed.

Lemma reduce_step_atomic_pack numIon used ys r :
  exists ys', reduce_step_atomic numIon used (pack ys) r = pack (ys ++ ys').
Proof.
  destruct r as [[[m x] f] i]. unfold reduce_step_atomic.
  destruct f; case_bool_decide.
  - exists []. by rewrite app_nil_r.
  - eexists [_]. apply pack_snoc.
  - exists []. by rewrite app_nil_r.
  - eexists [_]. apply pack_snoc.
Qed.

Lemma reduce_atomic_from numIon used : forall rs ys,
  exists ys', foldl (reduce_step_atomic numIon used) (pack ys) rs = pack (ys ++ ys').
Proof.
  induction rs as [|r rs IH]; intros ys; simpl.
  { exists []. by rewrite app_nil_r. }
  destruct (reduce_step_atomic_pack numIon used ys r) as [y1 ->].
  destruct (IH (ys ++ y1)) as [y2 ->]. exists (y1 ++ y2). by rewrite app_assoc.
Qed.

Lemma reduce_atomic_first numIon used wp0 rs :
  wp_free wp0 = true ->
  exists ys, reduce_atomic numIon used
               ((wp_len wp0, numIon / wp_len wp0, wp_free wp0, O) :: rs)
             = pack ((wp_len wp0, numIon / wp_len wp0, true, O) :: ys).
Proof.
  intros Hfree. unfold reduce_atomic. simpl foldl. rewrite Hfree.
  apply (reduce_atomic_from numIon used rs [(wp_len wp0, numIon / wp_len wp0, true, O)]).
Qed.

Lemma check_type_atomic_multiple fuel g wp0 wps q k :
  group_wyckoffs g = wp0 :: wps -> wp_free wp0 = true -> 1 <= q ->
  check_type_atomic (S fuel) g (q * wp_len wp0) k
  = Ok (Some {| has_freedom := true; used_indices := used_indices k |}).
Proof.
  intros Hg Hfree Hq. unfold check_type_atomic, rows_atomic. rewrite Hg, imap_cons.
  pose proof (wp_len_pos wp0) as Hm.
  destruct (reduce_atomic_first (q * wp_len wp0) (used_indices k) wp0
              (imap ((fun i_wp wp => (wp_len wp, q * wp_len wp0 / wp_len wp, wp_free wp, i_wp))
                       ∘ S) wps) Hfree) as [ys ->].
  rewrite Z.div_mul by lia.
  unfold sweep_init. simpl. unfold index, assign. simpl.
  change (r_maxn (wp_len wp0, q, true, 0%nat)) with q.
  change (r_free (wp_len wp0, q, true, 0%nat)) with true.
  rewrite bool_decide_true by lia. simpl.
  rewrite bool_decide_false.
  2:{ change (zeros (S (length (r_mult <$> ys)))) with (0 :: zeros (length (r_mult <$> ys))).
      intros Heq. injection Heq as Heq. lia. }
  unfold sweep_step. simpl sw_n. simpl l_mult.
  change (r_mult (wp_len wp0, q, true, 0%nat)) with (wp_len wp0).
  rewrite dot_cons, dot_zeros.
  rewrite bool_decide_true by lia. simpl.
  rewrite record_atomic_zeros. by rewrite bool_decide_true by lia.
Qed.

Lemma check_types_atomic_multiples fuel g wp0 wps : forall numIons k,
  group_wyckoffs g = wp0 :: wps -> wp_free wp0 = true ->
  Forall (fun numIon => exists q, 1 <= q /\ numIon = q * wp_len wp0) numIons ->
  check_types_atomic (S fuel) g numIons k
  = Ok (true, if numIons is [] then has_freedom k else true).
Proof.
  induction numIons as [|numIon rest IH]; intros k Hg Hfree Hall; [done|].
  apply Forall_cons in Hall as [(q & Hq & ->) Hall].
  cbn [check_types_atomic]. rewrite (check_type_atomic_multiple fuel g wp0 wps q k) by done.
  simpl. rewrite IH by done. by destruct rest.
Qed.

(** X7.  When the first position of the group has freedom and every
    requested count is exact and a positive multiple of its multiplicity,
    the atomic analyzer answers [(True, True)] for a composition that is not
    empty; each type is settled at the first turn of the search loop, and no
    position is recorded as used. *)
Theorem X7_multiples_of_first_position :
  forall fuel g wp0 wps numIons,
    group_wyckoffs g = wp0 :: wps -> wp_free wp0 = true -> numIons <> [] ->
    Forall exact_count numIons ->
    Forall (fun numIon => exists q, 1 <= q /\ numIon = q * wp_len wp0) numIons ->
    check_compatible_atomic (S fuel) g numIons = Ok (true, true) /\
    forall numIon k, numIon ∈ numIons ->
      check_type_atomic 1 g numIon k
      = Ok (Some {| has_freedom := true; used_indices := used_indices k |}).
Proof.
  intros fuel g wp0 wps numIons Hg Hfree Hne _ Hall. split.
  - unfold check_compatible_atomic.
    rewrite (check_types_atomic_multiples fuel g wp0 wps) by done. by destruct numIons.
  - intros numIon k Hin. rewrite Forall_forall in Hall.
    destruct (Hall numIon Hin) as (q & Hq & ->).
    by apply (check_type_atomic_multiple O g wp0 wps).
Qed.

Lemma X7_multiples_witness :
  check_compatible_atomic 1 Demo.group_4a_2b [8; 4] = Ok (true, true) /\
  forall numIon k, numIon ∈ [8; 4] ->
    check_type_atomic 1 Demo.group_4a_2b numIon k
    = Ok (Some {| has_freedom := true; used_indices := used_indices k |}).
Proof.
  apply (X7_multiples_of_first_position O Demo.group_4a_2b Demo.wp4a [Demo.wp2b] [8; 4]).
  - reflexivity.
  - reflexivity.
  - discriminate.
  - repeat (apply Forall_cons_2; [unfold exact_count; lia|]). apply Forall_nil_2.
  - repeat constructor; [exists 2|exists 1]; split; (lia || reflexivity).
Defined.

End AnalyzerEdges.

(** * The analyzers raise no exception *)

Module AnalyzerSafe.

Import Compat CompatFacts.

(** The call ends without an exception: it returns, or is still running when
    the fuel is spent. *)
Definition never_raises {A : Type} (r : Result A) : Prop :=
  match r with Raise _ => False | _ => True end.

(** The table [valid_orientations] has, for every molecule, one list per
    class of positions and in it one entry per position of the class. *)
Definition shaped {Ori : Type} (g : Group) (vo : list (list (list (list Ori)))) : Prop :=
  Forall (fun per_mol =>
            Forall2 (fun (per_class : list (list Ori)) (x : list Wyckoff_position) =>
                       length per_class = length x)
                    per_mol (wyckoffs_organized g)) vo.

(** The pointer and the multipliers of a sweep over [len] candidates. *)
Definition in_range (len : nat) (s : sweep_state) : Prop :=
  length (sw_n s) = len /\ (sw_p s < len)%nat.

Lemma assign_Ok {A : Type} (l : list A) i v :
  (i < length l)%nat -> assign l i v = Ok (<[i:=v]> l).
Proof. intros Hi. unfold assign. by rewrite bool_decide_true. Qed.

Lemma index_lt {A : Type} (l : list A) i :
  (i < length l)%nat -> exists a, index l i = Ok a /\ l !! i = Some a.
Proof.
  intros Hi. destruct (lookup_lt_is_Some_2 l i Hi) as [a Ha].
  exists a. unfold index. by rewrite Ha.
Qed.

Lemma first_usable_in_range lx n0 : forall todo i,
  length n0 = length lx -> (i + todo <= length lx)%nat ->
  exists s, first_usable lx n0 i todo = Ok s /\
            (sw_n s = n0 \/ in_range (length lx) s).
Proof.
  induction todo as [|todo IH]; intros i Hlen Hi; simpl.
  { eexists. split; [done|]. by left. }
  destruct (index_lt lx i) as (m & -> & _); [lia|]. simpl.
  case_bool_decide.
  - rewrite assign_Ok by lia. simpl. eexists. split; [done|]. right.
    split; simpl; [by rewrite length_insert|lia].
  - apply IH; [done|lia].
Qed.

Lemma backwards_in_range : forall p n p2,
  (p <= length n)%nat ->
  exists s, backwards n p p2 = Ok s /\ length (sw_n s) = length n /\ (sw_p s <= p)%nat.
Proof.
  induction p as [|p IH]; intros n p2 Hp; simpl.
  { eexists. by repeat split. }
  case_bool_decide.
  - destruct (index_lt n p) as (v & -> & _); [lia|]. simpl.
    case_bool_decide.
    + rewrite assign_Ok by lia. simpl.
      destruct (bool_decide (v - 1 = 0) && bool_decide (p = p2));
        (eexists; split; [done|]; simpl; rewrite length_insert; split; [done|lia]).
    + destruct (IH n p2) as (s & -> & Hl & Hle); [lia|].
      exists s. repeat split; [done|lia].
  - eexists. by repeat split.
Qed.

Lemma sweep_step_in_range fl c numIon s :
  Forall (fun m => 1 <= m) (l_mult c) -> length (l_maxn c) = length (l_mult c) ->
  in_range (length (l_mult c)) s ->
  exists o, sweep_step fl c numIon s = Ok o /\
    match o with Continue s' => in_range (length (l_mult c)) s' | _ => True end.
Proof.
  intros Hmult Hcaps [Hlen Hp]. unfold sweep_step.
  case_bool_decide; [by eexists|].
  destruct (_ && _); [by eexists|].
  case_bool_decide as Hless.
  - case_bool_decide as Hroom.
    + destruct (index_lt (l_mult c) (S (sw_p s))) as (m & -> & Hm); [lia|].
      destruct (index_lt (l_maxn c) (S (sw_p s))) as (cap & -> & _); [lia|].
      simpl. rewrite bool_decide_false.
      2:{ rewrite Forall_lookup in Hmult. specialize (Hmult _ _ Hm). simpl in Hmult. lia. }
      rewrite assign_Ok by lia. simpl.
      rewrite orb_false_r. rewrite bool_decide_false by lia.
      eexists. split; [done|]. split; simpl; [by rewrite length_insert|lia].
    + assert (exists b, (match fl with
                         | Atomic => Ok (sw_n s, sw_p s,
                                         bool_decide (Z.of_nat (sw_p s)
                                                      = Z.of_nat (length (l_mult c)) - 1))
                         | Molecular => Ok (sw_n s, sw_p s, true)
                         end : Result (list Z * nat * bool)) = Ok (sw_n s, sw_p s, b))
        as [b ->] by (destruct fl; by eexists).
      simpl. destruct (bool_decide (dot (sw_n s) (l_mult c) > numIon) || b).
      * rewrite assign_Ok by lia. simpl.
        destruct (backwards_in_range (sw_p s) (<[sw_p s:=0]> (sw_n s)) (sw_p2 s))
          as (s' & -> & Hl & Hle); [rewrite length_insert; lia|].
        simpl. eexists. split; [done|]. rewrite length_insert in Hl. split; [congruence|lia].
      * eexists. split; [done|]. by split.
  - simpl. case_bool_decide; simpl.
    + rewrite assign_Ok by lia. simpl.
      destruct (backwards_in_range (sw_p s) (<[sw_p s:=0]> (sw_n s)) (sw_p2 s))
        as (s' & -> & Hl & Hle); [rewrite length_insert; lia|].
      simpl. eexists. split; [done|]. rewrite length_insert in Hl. split; [congruence|lia].
    + eexists. split; [done|]. by split.
Qed.

Lemma sweep_never_raises fl c numIon : forall fuel s,
  Forall (fun m => 1 <= m) (l_mult c) -> length (l_maxn c) = length (l_mult c) ->
  in_range (length (l_mult c)) s ->
  never_raises (sweep fuel fl c numIon s).
Proof.
  induction fuel as [|fuel IH]; intros s Hmult Hcaps Hs; simpl; [done|].
  destruct (sweep_step_in_range fl c numIon s Hmult Hcaps Hs) as (o & -> & Ho). simpl.
  destruct o; try done. by apply IH.
Qed.

Lemma search_never_raises fl cap c numIon fuel (f : list Z -> carry) :
  capped cap (l_mult c) (l_maxn c) (l_free c) ->
  never_raises
    (let? s := sweep_init c in
     if bool_decide (sw_n s = zeros (length (l_mult c))) then Ok None
     else
       let? r := sweep fuel fl c numIon s in
       match r with
       | None => Ok None
       | Some n => Ok (Some (f n))
       end).
Proof.
  intros Hc. pose proof (capped_mult_pos _ _ _ _ Hc) as Hmult.
  destruct (capped_length _ _ _ _ Hc) as [Hcaps _].
  unfold sweep_init.
  destruct (first_usable_in_range (l_maxn c) (zeros (length (l_mult c)))
              (length (l_mult c)) O) as (s & -> & Hs).
  { unfold zeros. by rewrite length_replicate. }
  { lia. }
  simpl. case_bool_decide as Hz; [done|].
  destruct Hs as [Hs | Hs]; [done|]. rewrite Hcaps in Hs.
  pose proof (sweep_never_raises fl c numIon fuel s Hmult Hcaps Hs) as Hsw.
  destruct (sweep fuel fl c numIon s) as [[n|]| |]; done.
Qed.

Lemma check_type_atomic_never_raises fuel g numIon k :
  never_raises (check_type_atomic fuel g numIon k).
Proof.
  apply (search_never_raises Atomic (cap_atomic numIon)).
  apply reduce_atomic_capped, rows_atomic_ok.
Qed.

Lemma check_types_atomic_never_raises fuel g : forall numIons k,
  never_raises (check_types_atomic fuel g numIons k).
Proof.
  induction numIons as [|numIon rest IH]; intros k; simpl; [done|].
  pose proof (check_type_atomic_never_raises fuel g numIon k) as Hone.
  destruct (check_type_atomic fuel g numIon k) as [[k'|]| |]; simpl;
    [apply IH|done|done|done].
Qed.

(** *** The table of orientations *)

Lemma jk_from_i_Some {A : Type} : forall (organized : list (list A)) i,
  (i < length (concat organized))%nat ->
  exists j k x, jk_from_i i organized = Some (j, k) /\
                organized !! j = Some x /\ (k < length x)%nat.
Proof.
  induction organized as [|x organized IH]; intros i Hi; simpl in *; [lia|].
  rewrite length_app in Hi. case_bool_decide.
  - exists O, i, x. by repeat split.
  - destruct (IH (i - length x)%nat) as (j & k & y & -> & Hy & Hk); [lia|].
    exists (S j), k, y. by repeat split.
Qed.

Lemma rows_molecular_from_shaped {Ori : Type} g (per_mol : list (list (list Ori)))
    (vo : list (list (list (list Ori)))) i_mol numIon :
  vo !! i_mol = Some per_mol ->
  Forall2 (fun (per_class : list (list Ori)) (x : list Wyckoff_position) =>
             length per_class = length x) per_mol (wyckoffs_organized g) ->
  forall wps i_wp, (i_wp + length wps <= length (group_wyckoffs g))%nat ->
  exists rs, rows_molecular_from g vo i_mol numIon i_wp wps = Ok rs.
Proof.
  intros Hpm Hshape. induction wps as [|wp wps IH]; intros i_wp Hlen; simpl.
  { by eexists. }
  simpl in Hlen.
  destruct (jk_from_i_Some (wyckoffs_organized g) i_wp) as (j & k & x & -> & Hx & Hk).
  { unfold group_wyckoffs in Hlen. lia. }
  unfold index. rewrite Hpm. simpl.
  destruct (Forall2_lookup_r _ _ _ _ _ Hshape Hx) as (per_class & Hpc & Hl).
  rewrite Hpc. simpl.
  destruct (lookup_lt_is_Some_2 per_class k) as [oris Hor]; [lia|].
  rewrite Hor. simpl.
  destruct (IH (S i_wp)) as [tl ->]; [lia|]. simpl.
  case_bool_decide; by eexists.
Qed.

Lemma check_type_molecular_never_raises {Ori : Type} fuel g
    (vo : list (list (list (list Ori)))) i_mol numIon k :
  shaped g vo -> (i_mol < length vo)%nat ->
  never_raises (check_type_molecular fuel g vo i_mol numIon k).
Proof.
  intros Hshape Hi. unfold check_type_molecular.
  destruct (lookup_lt_is_Some_2 vo i_mol Hi) as [per_mol Hpm].
  unfold shaped in Hshape. rewrite Forall_lookup in Hshape.
  destruct (rows_molecular_from_shaped g per_mol vo i_mol numIon Hpm (Hshape _ _ Hpm)
              (group_wyckoffs g) O) as [rs Hrs]; [simpl; lia|].
  unfold rows_molecular. rewrite Hrs. simpl.
  apply (search_never_raises Molecular (cap_molecular numIon)).
  apply reduce_molecular_capped. by eapply rows_molecular_from_ok.
Qed.

Lemma check_types_molecular_never_raises {Ori : Type} fuel g
    (vo : list (list (list (list Ori)))) : forall numMols i_mol k,
  shaped g vo -> (i_mol + length numMols <= length vo)%nat ->
  never_raises (check_types_molecular fuel g vo i_mol numMols k).
Proof.
  induction numMols as [|numMol rest IH]; intros i_mol k Hshape Hlen; simpl; [done|].
  simpl in Hlen.
  pose proof (check_type_molecular_never_raises fuel g vo i_mol numMol k Hshape) as Hone.
  destruct (check_type_molecular fuel g vo i_mol numMol k) as [[k'|]| |]; simpl;
    try done; [|apply Hone; lia].
  apply IH; [done|lia].
Qed.

(** X8.  Neither analyzer raises an exception from its search: no index of
    the sweep leaves the candidate lists and no division is by zero.  The
    atomic analyzer never raises at all; the molecular analyzer never raises
    when the table of valid orientations has the shape of the group and
    there are no more counts than molecules in the table. *)
Theorem X8_analyzers_never_raise :
  (forall fuel g numIons, never_raises (check_compatible_atomic fuel g numIons)) /\
  (forall (Ori : Type) fuel g (vo : list (list (list (list Ori)))) numMols,
     shaped g vo -> (length numMols <= length vo)%nat ->
     never_raises (check_compatible_molecular fuel g vo numMols)).
Proof.
  split.
  - intros fuel g numIons. apply check_types_atomic_never_raises.
  - intros Ori fuel g vo numMols Hshape Hlen.
    by apply check_types_molecular_never_raises.
Qed.

Lemma X8_analyzers_never_raise_witness :
  never_raises
    (check_compatible_molecular 50 Demo.group_4_2 [[[[O]]; [[O]]]; [[[O]]; [[]]]] [2; 4]).
Proof.
  apply (proj2 X8_analyzers_never_raise nat 50%nat Demo.group_4_2
           [[[[O]]; [[O]]]; [[[O]]; [[]]]] [2; 4]).
  - repeat constructor.
  - simpl. lia.
Defined.

End AnalyzerSafe.

(** * The table of valid orientations *)

Module OrientationTable.

Import Compat AnalyzerSafe molecular_crystal.

Section Table.

Context {World Ori Tol : Type} {P : Providers World Ori Tol}.

Local Abbreviation mstate := (@molecular_crystal.state World Ori Tol).

(** The state after the collaborators have been asked. *)
Definition asked (s s' : mstate) : Prop := exists w, s' = with_world w s.

Lemma asked_refl (s : mstate) : asked s s.
Proof. exists (world s). by destruct s. Qed.

Lemma asked_trans (s1 s2 s3 : mstate) : asked s1 s2 -> asked s2 s3 -> asked s1 s3.
Proof. intros [w1 ->] [w2 ->]. exists w2. by destruct s1. Qed.

Lemma orientations_row_shape m inv : forall x (s : mstate),
  exists r s', orientations_row m inv x s = (Ok r, s') /\ asked s s' /\
               length r = length x.
Proof.
  induction x as [|wp x IH]; intros s; simpl.
  - exists [], s. split; [done|]. split; [apply asked_refl|done].
  - unfold bind at 1, call at 1.
    destruct (orientation_in_wyckoff_position m wp inv (world s)) as [allowed w].
    destruct (IH (with_world w s)) as (r & s' & Hr & Hw & Hl).
    unfold bind at 1. rewrite Hr. eexists _, s'. split; [reflexivity|]. split.
    + eapply asked_trans; [|exact Hw]. by exists w.
    + simpl. by rewrite Hl.
Qed.

Lemma orientations_mol_shape m inv : forall organized (s : mstate),
  exists r s', orientations_mol m inv organized s = (Ok r, s') /\ asked s s' /\
    Forall2 (fun (per_class : list (list Ori)) (x : list Wyckoff_position) =>
               length per_class = length x) r organized.
Proof.
  induction organized as [|x organized IH]; intros s; simpl.
  - exists [], s. split; [done|]. split; [apply asked_refl|constructor].
  - destruct (orientations_row_shape m inv x s) as (r1 & s1 & H1 & Hw1 & Hl1).
    unfold bind at 1. rewrite H1.
    destruct (IH s1) as (r2 & s2 & H2 & Hw2 & Hl2).
    unfold bind at 1. rewrite H2. eexists _, s2. split; [reflexivity|]. split.
    + by eapply asked_trans.
    + by constructor.
Qed.

Lemma orientations_all_shape inv g : forall ms (s : mstate),
  exists vo s', orientations_all ms inv (wyckoffs_organized g) s = (Ok vo, s') /\
    asked s s' /\ length vo = length ms /\ shaped g vo.
Proof.
  induction ms as [|m ms IH]; intros s; simpl.
  - exists [], s. split; [done|]. split; [apply asked_refl|]. split; [done|constructor].
  - destruct (orientations_mol_shape m inv (wyckoffs_organized g) s)
      as (r1 & s1 & H1 & Hw1 & Hl1).
    unfold bind at 1. rewrite H1.
    destruct (IH s1) as (r2 & s2 & H2 & Hw2 & Hlen & Hsh).
    unfold bind at 1. rewrite H2. eexists _, s2. split; [reflexivity|]. split.
    + by eapply asked_trans.
    + split; [simpl; by rewrite Hlen|by constructor].
Qed.

Lemma set_orientations_shape (s : mstate) ms g inv :
  molecules s = Some ms -> group s = Some g -> allow_inversion s = Some inv ->
  exists vo w,
    set_orientations None s = (Ok tt, with_world w (with_valid_orientations vo s)) /\
    length vo = length ms /\ shaped g vo.
Proof.
  intros Hms Hg Hinv. unfold set_orientations.
  destruct s. simpl in Hms, Hg, Hinv. subst.
  unfold bind at 1, modify at 1. cbn [with_valid_orientations].
  unfold bind at 1, attr at 1. cbn [molecules].
  unfold bind at 1, attr at 1. cbn [group].
  unfold bind at 1, attr at 1. cbn [allow_inversion].
  unfold bind at 1.
  match goal with |- context [orientations_all _ _ _ ?st] =>
    destruct (orientations_all_shape inv g ms st) as (vo & s' & Hvo & [w ->] & Hlen & Hsh)
  end.
  rewrite Hvo. exists vo, w. by repeat split.
Qed.

Lemma check_compatible_after (s : mstate) fuel nums g vo :
  numMols s = Some nums -> group s = Some g -> valid_orientations s = Some vo ->
  (_check_compatible fuel s).1 = check_compatible_molecular fuel g vo nums.
Proof.
  intros Hn Hg Hvo. unfold _check_compatible. destruct s. simpl in Hn, Hg, Hvo. subst.
  unfold bind, emit, modify, attr, lift. simpl.
  by destruct (check_compatible_molecular fuel g vo nums).
Qed.

End Table.

(** X9.  Called without orientations, [set_orientations] fills
    [valid_orientations] with one table per molecule, shaped like
    [group.wyckoffs_organized] (one list per class of positions, one entry
    per position), touching nothing else of the object.  The analyzer that
    [init_common] runs next therefore raises no exception when there are no
    more counts than molecules. *)
Theorem X9_set_orientations_fills_a_table_of_the_group
    {World Ori Tol : Type} {P : Providers World Ori Tol}
    (s : @molecular_crystal.state World Ori Tol) ms g inv :
  molecules s = Some ms -> group s = Some g -> allow_inversion s = Some inv ->
  exists vo w,
    set_orientations None s = (Ok tt, with_world w (with_valid_orientations vo s)) /\
    length vo = length ms /\ shaped g vo /\
    forall fuel nums, numMols s = Some nums -> (length nums <= length ms)%nat ->
      never_raises (_check_compatible fuel (with_world w (with_valid_orientations vo s))).1.
Proof.
  intros Hms Hg Hinv.
  destruct (set_orientations_shape s ms g inv Hms Hg Hinv) as (vo & w & Hrun & Hlen & Hsh).
  exists vo, w. repeat split; try done.
  intros fuel nums Hn Hle.
  rewrite (check_compatible_after _ fuel nums g vo); try (by destruct s).
  unfold check_compatible_molecular.
  apply check_types_molecular_never_raises; [done|simpl; lia].
Qed.

(** An object with one molecule on [Demo.group_4_2], before its orientations
    are computed. *)
Definition one_water : @molecular_crystal.state nat nat unit :=
  with_allow_inversion false
    (with_molecules [Demo.water]
       (with_numMols [2]
          (with_group Demo.group_4_2
             (molecular_crystal.new 3 [1; 1; 1] None None false ∅ O)))).

Lemma X9_set_orientations_witness :
  let P := Demo.providers Demo.script_accept in
  exists vo w,
    set_orientations None one_water
      = (Ok tt, with_world w (with_valid_orientations vo one_water)) /\
    length vo = length [Demo.water] /\ shaped Demo.group_4_2 vo /\
    forall fuel nums, numMols one_water = Some nums ->
      (length nums <= length [Demo.water])%nat ->
      never_raises
        (_check_compatible fuel (with_world w (with_valid_orientations vo one_water))).1.
Proof.
  intros P.
  apply (@X9_set_orientations_fills_a_table_of_the_group nat nat unit P one_water
           [Demo.water] Demo.group_4_2 false); reflexivity.
Defined.

End OrientationTable.

(** * An empty composition *)

Module EmptyComposition.

Section Atomic.

Import random_crystal.

Context {World Ori Tol : Type} {P : Providers World Ori Tol}.

Local Abbreviation state := (@random_crystal.state World Tol).

(** The calls of [_set_coords] numbered [c2], ..., [c2 + k - 1] of lattice
    trial [c1]. *)
Definition coord_calls (c1 c2 : Z) (k : nat) : list Event :=
  (fun i => CallSetCoords c1 (c2 + Z.of_nat i)) <$> seq 0 k.

(** The object after [k] such calls have each returned an empty list. *)
Definition tried (c1 c2 : Z) (k : nat) (s : state) : state :=
  match k with
  | O => s
  | S k' =>
      with_trace (trace s ++ coord_calls c1 c2 k)
        (with_valid true (with_cycle2 (c2 + Z.of_nat k') s))
  end.

Lemma coord_calls_S c1 c2 k :
  coord_calls c1 c2 (S k) = CallSetCoords c1 c2 :: coord_calls c1 (c2 + 1) k.
Proof.
  unfold coord_calls. simpl. f_equal; [f_equal; lia|].
  rewrite <- fmap_S_seq, <- list_fmap_compose. apply list_fmap_ext.
  intros i x _. simpl. f_equal. lia.
Qed.

Lemma coord_loop_S todo c2 :
  coord_loop todo c2
  = match todo with
    | O => ret tt
    | S todo' =>
        modify (with_cycle2 c2) ;;;
        c1 <- attr cycle1 ;;
        emit (CallSetCoords c1 c2) ;;;
        output <- _set_coords ;;
        match output with
        | Some (site :: rest) => modify (with_atom_sites (site :: rest))
        | _ => coord_loop todo' (c2 + 1)
        end
    end.
Proof. by destruct todo. Qed.

Lemma lattice_loop_S todo c1 :
  lattice_loop (S todo) c1
  = (modify (with_cycle1 c1) ;;;
     ca <- attr coord_attempts ;;
     coord_loop (Z.to_nat ca) 0 ;;;
     v <- attr valid ;;
     if v then ret tt
     else
       l <- attr lattice ;;
       lat <- attr (fun s => heap s !! l) ;;
       emit CallResetMatrix ;;;
       lat' <- call (reset_matrix lat) ;;
       modify (fun s => with_heap (<[l := lat']> (heap s)) s) ;;;
       lattice_loop todo (c1 + 1)).
Proof. done. Qed.

Local Arguments coord_loop : simpl never.
Local Arguments lattice_loop : simpl never.

Lemma coord_loop_empty : forall todo c2 (s : state) c1 l lat nums sp,
  cycle1 s = Some c1 -> lattice s = Some l -> heap s !! l = Some lat ->
  numIons s = Some nums -> species s = Some sp -> zip nums sp = [] ->
  coord_loop todo c2 s = (Ok tt, tried c1 c2 todo s).
Proof.
  induction todo as [|todo IH]; intros c2 s c1 l lat nums sp Hc1 Hl Hlat Hn Hsp Hzip;
    [done|].
  destruct s. simpl in Hc1, Hl, Hlat, Hn, Hsp. subst.
  rewrite coord_loop_S. unfold bind, modify, attr, emit, _set_coords, the_lattice, bind, attr.
  simpl. rewrite Hlat. simpl. rewrite Hzip. simpl.
  erewrite IH; [|reflexivity|reflexivity|exact Hlat|reflexivity|reflexivity|exact Hzip].
  f_equal. destruct todo as [|todo]; simpl.
  - unfold with_trace, with_valid, with_cycle2. simpl. f_equal; [f_equal; lia|].
    f_equal. unfold coord_calls. simpl. do 2 f_equal. lia.
  - unfold with_trace, with_valid, with_cycle2. simpl. f_equal; [f_equal; lia|].
    rewrite <- app_assoc. f_equal. by rewrite (coord_calls_S _ c2).
Qed.

Lemma lattice_loop_empty todo c1 (s : state) k l lat nums sp :
  coord_attempts s = Some (Z.of_nat (S k)) ->
  lattice s = Some l -> heap s !! l = Some lat ->
  numIons s = Some nums -> species s = Some sp -> zip nums sp = [] ->
  lattice_loop (S todo) c1 s = (Ok tt, tried c1 0 (S k) (with_cycle1 c1 s)).
Proof.
  intros Hca Hl Hlat Hn Hsp Hzip. rewrite lattice_loop_S.
  destruct s. simpl in Hca, Hl, Hlat, Hn, Hsp. subst.
  unfold bind at 1, modify at 1. unfold bind at 1, attr at 1. cbn [coord_attempts with_cycle1].
  rewrite Nat2Z.id. unfold bind at 1.
  erewrite coord_loop_empty;
    [|reflexivity|reflexivity|exact Hlat|reflexivity|reflexivity|exact Hzip].
  reflexivity.
Qed.

Lemma set_crystal_empty (s : state) deg l lat nums sp :
  degrees s = Some deg -> lattice s = Some l -> heap s !! l = Some lat ->
  numIons s = Some nums -> species s = Some sp -> zip nums sp = [] ->
  let k := if deg then 10%nat else 5%nat in
  let la := if allow_volume_reset lat then (if deg then 40 else 5) else 1 in
  set_crystal s
  = (Ok tt,
     tried 0 0 k
       (with_cycle1 0 (with_coord_attempts (Z.of_nat k) (with_lattice_attempts la s)))).
Proof.
  intros Hdeg Hl Hlat Hn Hsp Hzip.
  destruct s. simpl in Hdeg, Hl, Hlat, Hn, Hsp. subst.
  cbv zeta.
  destruct deg; destruct (allow_volume_reset lat) eqn:Hreset;
    match goal with |- _ = ?rhs => set (R := rhs) end;
    unfold set_crystal, bind, attr, the_lattice, bind, attr, modify, ret;
    cbn [degrees negb lattice heap with_lattice_attempts with_coord_attempts
         lattice_attempts];
    rewrite Hlat;
    cbn [degrees negb lattice heap with_lattice_attempts with_coord_attempts
         lattice_attempts];
    rewrite Hreset;
    cbn [degrees negb lattice heap with_lattice_attempts with_coord_attempts
         lattice_attempts];
    match goal with
    | |- context [lattice_loop (Z.to_nat ?la) _ _] =>
        let n := eval vm_compute in (Z.to_nat la) in
        change (Z.to_nat la) with n
    end.
  - erewrite (lattice_loop_empty _ _ _ 9);
      [|reflexivity|reflexivity|exact Hlat|reflexivity|reflexivity|exact Hzip].
    reflexivity.
  - erewrite (lattice_loop_empty _ _ _ 9);
      [|reflexivity|reflexivity|exact Hlat|reflexivity|reflexivity|exact Hzip].
    reflexivity.
  - erewrite (lattice_loop_empty _ _ _ 4);
      [|reflexivity|reflexivity|exact Hlat|reflexivity|reflexivity|exact Hzip].
    reflexivity.
  - erewrite (lattice_loop_empty _ _ _ 4);
      [|reflexivity|reflexivity|exact Hlat|reflexivity|reflexivity|exact Hzip].
    reflexivity.
Qed.

End Atomic.

Section Molecular.

Import molecular_crystal.

Context {World Ori Tol : Type} {P : Providers World Ori Tol}.

Local Abbreviation mstate := (@molecular_crystal.state World Ori Tol).

Definition mol_tried (c1 c2 : Z) (k : nat) (s : mstate) : mstate :=
  match k with
  | O => s
  | S k' =>
      with_trace (trace s ++ coord_calls c1 c2 k)
        (with_valid true (with_cycle2 (c2 + Z.of_nat k') s))
  end.

Lemma mol_coord_loop_S todo c2 :
  coord_loop todo c2
  = match todo with
    | O => ret tt
    | S todo' =>
        modify (with_cycle2 c2) ;;;
        c1 <- attr cycle1 ;;
        emit (CallSetCoords c1 c2) ;;;
        output <- _set_coords ;;
        match output with
        | Some (site :: rest) => modify (with_mol_sites (site :: rest))
        | _ => coord_loop todo' (c2 + 1)
        end
    end.
Proof. by destruct todo. Qed.

Lemma mol_lattice_loop_S todo c1 :
  lattice_loop (S todo) c1
  = (modify (with_cycle1 c1) ;;;
     ca <- attr coord_attempts ;;
     coord_loop (Z.to_nat ca) 0 ;;;
     v <- attr valid ;;
     if v then ret true
     else
       l <- attr lattice ;;
       lat <- attr (fun s => heap s !! l) ;;
       emit CallResetMatrix ;;;
       lat' <- call (reset_matrix lat) ;;
       modify (fun s => with_heap (<[l := lat']> (heap s)) s) ;;;
       lattice_loop todo (c1 + 1)).
Proof. done. Qed.

Local Arguments coord_loop : simpl never.
Local Arguments lattice_loop : simpl never.

Lemma mol_coord_loop_empty : forall todo c2 (s : mstate) c1,
  cycle1 s = Some c1 -> numMols s = Some [] ->
  coord_loop todo c2 s = (Ok tt, mol_tried c1 c2 todo s).
Proof.
  induction todo as [|todo IH]; intros c2 s c1 Hc1 Hn; [done|].
  destruct s. simpl in Hc1, Hn. subst.
  rewrite mol_coord_loop_S. unfold bind, modify, attr, emit, _set_coords, bind, attr.
  simpl.
  erewrite IH; [|reflexivity|reflexivity].
  f_equal. destruct todo as [|todo]; simpl.
  - unfold with_trace, with_valid, with_cycle2. simpl. f_equal; [f_equal; lia|].
    f_equal. unfold coord_calls. simpl. do 2 f_equal. lia.
  - unfold with_trace, with_valid, with_cycle2. simpl. f_equal; [f_equal; lia|].
    rewrite <- app_assoc. f_equal. by rewrite (coord_calls_S _ c2).
Qed.

Lemma mol_lattice_loop_empty todo c1 (s : mstate) k :
  coord_attempts s = Some (Z.of_nat (S k)) -> numMols s = Some [] ->
  lattice_loop (S todo) c1 s = (Ok true, mol_tried c1 0 (S k) (with_cycle1 c1 s)).
Proof.
  intros Hca Hn. rewrite mol_lattice_loop_S.
  destruct s. simpl in Hca, Hn. subst.
  unfold bind at 1, modify at 1. unfold bind at 1, attr at 1. cbn [coord_attempts with_cycle1].
  rewrite Nat2Z.id. unfold bind at 1.
  erewrite mol_coord_loop_empty; [|reflexivity|reflexivity].
  reflexivity.
Qed.

Lemma mol_set_crystal_empty (s : mstate) deg l lat :
  degrees s = Some deg -> lattice s = Some l -> heap s !! l = Some lat ->
  numMols s = Some [] ->
  let k := if deg then 30%nat else 3%nat in
  let la := if allow_volume_reset lat then (if deg then 40 else 20) else 1 in
  set_crystal s
  = (Ok tt,
     mol_tried 0 0 k
       (with_cycle1 0
          (with_ori_attempts (if deg then 5 else 1)
             (with_coord_attempts (Z.of_nat k) (with_lattice_attempts la s))))).
Proof.
  intros Hdeg Hl Hlat Hn.
  destruct s. simpl in Hdeg, Hl, Hlat, Hn. subst.
  cbv zeta.
  destruct deg; destruct (allow_volume_reset lat) eqn:Hreset;
    match goal with |- _ = ?rhs => set (R := rhs) end;
    unfold set_crystal, bind, attr, the_lattice, bind, attr, modify, ret;
    cbn [degrees negb lattice heap with_lattice_attempts with_coord_attempts
         with_ori_attempts lattice_attempts];
    rewrite Hlat;
    cbn [degrees negb lattice heap with_lattice_attempts with_coord_attempts
         with_ori_attempts lattice_attempts];
    rewrite Hreset;
    cbn [degrees negb lattice heap with_lattice_attempts with_coord_attempts
         with_ori_attempts lattice_attempts];
    match goal with
    | |- context [lattice_loop (Z.to_nat ?la) _ _] =>
        let n := eval vm_compute in (Z.to_nat la) in
        change (Z.to_nat la) with n
    end.
  - erewrite (mol_lattice_loop_empty _ _ _ 29); [|reflexivity|reflexivity]. reflexivity.
  - erewrite (mol_lattice_loop_empty _ _ _ 29); [|reflexivity|reflexivity]. reflexivity.
  - erewrite (mol_lattice_loop_empty _ _ _ 2); [|reflexivity|reflexivity]. reflexivity.
  - erewrite (mol_lattice_loop_empty _ _ _ 2); [|reflexivity|reflexivity]. reflexivity.
Qed.

End Molecular.

(** X10.  With an empty composition (no count, or no species to go with the
    counts) [set_crystal] of either class ends with [valid] set to [True]
    although no site has been stored: every call of [_set_coords] returns an
    empty list, which the loop takes for a failure, so the whole budget of
    coordinate trials of the first lattice trial is spent (10 or 5 for atoms,
    30 or 3 for molecules), after which the object is found valid.  The
    lattice is not reset, no random number is drawn, nothing is printed. *)
Theorem X10_empty_composition_is_reported_valid
    {World Ori Tol : Type} {P : Providers World Ori Tol} :
  (forall (s : @random_crystal.state World Tol) deg l lat nums sp,
     random_crystal.degrees s = Some deg -> random_crystal.lattice s = Some l ->
     random_crystal.heap s !! l = Some lat ->
     random_crystal.numIons s = Some nums -> random_crystal.species s = Some sp ->
     zip nums sp = [] ->
     let out := random_crystal.set_crystal s in
     out.1 = Ok tt /\
     random_crystal.valid out.2 = Some true /\
     random_crystal.atom_sites out.2 = random_crystal.atom_sites s /\
     random_crystal.heap out.2 = random_crystal.heap s /\
     random_crystal.world out.2 = random_crystal.world s /\
     random_crystal.trace out.2
       = random_crystal.trace s ++ coord_calls 0 0 (if deg then 10 else 5)) /\
  (forall (s : @molecular_crystal.state World Ori Tol) deg l lat,
     molecular_crystal.degrees s = Some deg -> molecular_crystal.lattice s = Some l ->
     molecular_crystal.heap s !! l = Some lat ->
     molecular_crystal.numMols s = Some [] ->
     let out := molecular_crystal.set_crystal s in
     out.1 = Ok tt /\
     molecular_crystal.valid out.2 = Some true /\
     molecular_crystal.mol_sites out.2 = molecular_crystal.mol_sites s /\
     molecular_crystal.heap out.2 = molecular_crystal.heap s /\
     molecular_crystal.world out.2 = molecular_crystal.world s /\
     molecular_crystal.trace out.2
       = molecular_crystal.trace s ++ coord_calls 0 0 (if deg then 30 else 3)).
Proof.
  split.
  - intros s deg l lat nums sp Hdeg Hl Hlat Hn Hsp Hzip. cbv zeta.
    rewrite (set_crystal_empty s deg l lat nums sp Hdeg Hl Hlat Hn Hsp Hzip).
    clear. destruct s, deg; repeat split; reflexivity.
  - intros s deg l lat Hdeg Hl Hlat Hn. cbv zeta.
    rewrite (mol_set_crystal_empty s deg l lat Hdeg Hl Hlat Hn).
    clear. destruct s, deg; repeat split; reflexivity.
Qed.

(** An atomic object with nothing to place, as [init_common] would leave it
    before [set_crystal]. *)
Definition nothing_to_place : @random_crystal.state nat unit :=
  random_crystal.with_lattice O
    (random_crystal.with_degrees false
       (random_crystal.with_species []
          (random_crystal.with_numIons []
             (random_crystal.with_valid false
                (random_crystal.new 3 [1; 1; 1] None None
                   {[ O := Demo.unit_lattice true [1; 1; 1] ]} O))))).

Lemma X10_empty_composition_witness :
  let P := Demo.providers Demo.script_accept in
  let out := random_crystal.set_crystal nothing_to_place in
  out.1 = Ok tt /\
  random_crystal.valid out.2 = Some true /\
  random_crystal.atom_sites out.2 = random_crystal.atom_sites nothing_to_place /\
  random_crystal.heap out.2 = random_crystal.heap nothing_to_place /\
  random_crystal.world out.2 = random_crystal.world nothing_to_place /\
  random_crystal.trace out.2
    = random_crystal.trace nothing_to_place ++ coord_calls 0 0 5.
Proof.
  intros P.
  apply (proj1 (@X10_empty_composition_is_reported_valid nat nat unit P) nothing_to_place
           false O (Demo.unit_lattice true [1; 1; 1]) [] []); reflexivity.
Defined.

End EmptyComposition.

(** * The dictionary that [set_sites] builds *)

Module SiteTable.

(** The entry [sites[i]] that [set_sites] reads for the type at index [i];
    every type gets [None] when no list was passed. *)
Definition given (sites_ : option (list (option (list string)))) (i : nat)
    : option (option (list string)) :=
  match sites_ with
  | None => Some None
  | Some l => l !! i
  end.

(** A supplied list was compared with the count stored at its own index. *)
Definition checked_against (nums : option (list Z))
    (sites_ : option (list (option (list string)))) (i : nat) : Prop :=
  forall site, given sites_ i = Some (Some site) ->
    exists l n, nums = Some l /\ l !! i = Some n /\ labels_total site 0 = Some n.

Lemma check_consistency_passed site numIon b :
  _check_consistency site numIon = Ok b -> labels_total site 0 = Some numIon.
Proof.
  unfold _check_consistency. destruct (labels_total site 0) as [num|]; [|done].
  case_bool_decide; [|done]. by subst.
Qed.

Section Atomic.

Import random_crystal.

Context {World Ori Tol : Type} {P : Providers World Ori Tol}.

Lemma atomic_set_sites_from_table (sites_ : option (list (option (list string)))) :
  forall (todo : list string) (i0 : nat) (s s' : @state World Tol) d0,
    sites s = Some d0 ->
    set_sites_from sites_ i0 todo s = (Ok tt, s') ->
    exists d, s' = with_sites d s /\
      (forall specie, specie ∉ todo -> d !! specie = d0 !! specie) /\
      (forall specie, specie ∈ todo -> is_Some (d !! specie)) /\
      (forall k specie, todo !! k = Some specie ->
         (forall j, (k < j)%nat -> todo !! j ≠ Some specie) ->
         d !! specie = given sites_ (i0 + k)) /\
      (forall k, (k < length todo)%nat -> checked_against (numIons s) sites_ (i0 + k)).
Proof.
  induction todo as [|sp0 todo IH]; intros i0 s s' d0 Hd0 Hrun.
  - simpl in Hrun. unfold ret in Hrun. simplify_eq. exists d0. repeat split.
    + destruct s'. simpl in *. by subst.
    + intros specie Hin. by apply elem_of_nil in Hin.
    + intros k specie Hk. by rewrite lookup_nil in Hk.
    + simpl. lia.
  - cbn [set_sites_from] in Hrun. unfold bind at 1 in Hrun.
    assert (exists e0, given sites_ i0 = Some e0 /\
              match e0 with
              | Some site =>
                  exists l n, numIons s = Some l /\ l !! i0 = Some n /\
                              labels_total site 0 = Some n
              | None => True
              end /\
              set_sites_from sites_ (S i0) todo (with_sites (<[sp0 := e0]> d0) s)
                = (Ok tt, s')) as (e0 & Hgiven & Hchk & Hrest).
    { destruct sites_ as [l|]; cbn [given].
      - unfold lift at 1, index at 1 in Hrun.
        destruct (l !! i0) as [[site|]|] eqn:He; [| |done].
        + exists (Some site). split; [done|].
          unfold bind at 1, attr at 1 in Hrun.
          destruct (numIons s) as [nums|] eqn:Hn; [|done].
          unfold bind at 1, lift at 1, index at 1 in Hrun.
          destruct (nums !! i0) as [n0|] eqn:Hn0; [|done].
          unfold bind at 1, lift at 1 in Hrun.
          destruct (_check_consistency site n0) as [b| |] eqn:Hc; [|done|done].
          unfold bind at 1, attr at 1 in Hrun. rewrite Hd0 in Hrun.
          unfold bind at 1, modify at 1 in Hrun.
          split; [|done].
          exists nums, n0. repeat split; [done|]. by eapply check_consistency_passed.
        + exists None. split; [done|]. split; [done|].
          unfold bind at 1, attr at 1 in Hrun. rewrite Hd0 in Hrun.
          by unfold bind at 1, modify at 1 in Hrun.
      - exists None. split; [done|]. split; [done|].
        unfold ret at 1 in Hrun.
        unfold bind at 1, attr at 1 in Hrun. rewrite Hd0 in Hrun.
        by unfold bind at 1, modify at 1 in Hrun. }
    clear Hrun.
    destruct (IH (S i0) (with_sites (<[sp0 := e0]> d0) s) s' (<[sp0 := e0]> d0))
      as (d & Hs' & Hout & Hin & Hlast & Hall); [by destruct s | done |].
    exists d. split; [by destruct s|]. split; [|split; [|split]].
    + intros specie Hnot. apply not_elem_of_cons in Hnot as [Hne Hnot].
      rewrite (Hout _ Hnot). by rewrite lookup_insert_ne.
    + intros specie Hspecie. destruct (decide (specie ∈ todo)) as [Hyes|Hno]; [by apply Hin|].
      apply elem_of_cons in Hspecie as [->|?]; [|done].
      rewrite (Hout _ Hno). rewrite lookup_insert_eq. done.
    + intros [|k] specie Hk Hlater.
      * simpl in Hk. simplify_eq. rewrite Nat.add_0_r, Hgiven.
        assert (specie ∉ todo) as Hno.
        { intros Hyes. apply list_elem_of_lookup in Hyes as [j Hj].
          by apply (Hlater (S j)); [lia|]. }
        rewrite (Hout _ Hno). by rewrite lookup_insert_eq.
      * simpl in Hk. replace (i0 + S k)%nat with (S i0 + k)%nat by lia.
        apply Hlast; [done|]. intros j Hj. apply (Hlater (S j)). lia.
    + intros [|k] Hk site Hsite.
      * rewrite Nat.add_0_r in Hsite |- *. rewrite Hgiven in Hsite. simplify_eq. exact Hchk.
      * replace (i0 + S k)%nat with (S i0 + k)%nat in Hsite |- * by lia.
        simpl in Hk. destruct (Hall k ltac:(lia) site Hsite) as (l & n & Hl & Hn & Hsum).
        exists l, n. split; [|done]. by destruct s.
Qed.

Lemma atomic_set_sites_table (sites_ : option (list (option (list string))))
    (s s' : @state World Tol) (sp : list string) :
  species s = Some sp ->
  set_sites sites_ s = (Ok tt, s') ->
  exists d, s' = with_sites d s /\
    (forall specie, is_Some (d !! specie) <-> specie ∈ sp) /\
    (forall i specie, sp !! i = Some specie ->
       (forall j, (i < j)%nat -> sp !! j ≠ Some specie) ->
       d !! specie = given sites_ i) /\
    (forall i, (i < length sp)%nat -> checked_against (numIons s) sites_ i).
Proof.
  intros Hsp Hrun. unfold set_sites in Hrun.
  unfold bind at 1, modify at 1 in Hrun. unfold bind at 1, attr at 1 in Hrun.
  assert (species (with_sites ∅ s) = Some sp) as Hsp' by (by destruct s).
  rewrite Hsp' in Hrun.
  destruct (atomic_set_sites_from_table sites_ sp O (with_sites ∅ s) s' ∅)
    as (d & Hs' & Hout & Hin & Hlast & Hall); [by destruct s | done |].
  exists d. split; [by destruct s|]. split; [|split].
  - intros specie. split; [|apply Hin].
    intros Hsome. destruct (decide (specie ∈ sp)) as [|Hno]; [done|].
    rewrite (Hout _ Hno), lookup_empty in Hsome. by destruct Hsome.
  - intros i specie Hi Hlater. by apply (Hlast i).
  - intros i Hi site Hsite. destruct (Hall i Hi site Hsite) as (l & n & Hl & Hn & Hsum).
    exists l, n. split; [|done]. by destruct s.
Qed.

End Atomic.

Section Molecular.

Import molecular_crystal.

Context {World Ori Tol : Type} {P : Providers World Ori Tol}.

Lemma molecular_set_sites_from_table (sites_ : option (list (option (list string)))) :
  forall (todo : list pyxtal_molecule) (i0 : nat) (s s' : @state World Ori Tol) d0,
    sites s = Some d0 ->
    set_sites_from sites_ i0 todo s = (Ok tt, s') ->
    exists d, s' = with_sites d s /\
      (forall i, (i < i0 \/ i0 + length todo <= i)%nat -> d !! i = d0 !! i) /\
      (forall k, (k < length todo)%nat ->
         is_Some (d !! (i0 + k)%nat) /\ d !! (i0 + k)%nat = given sites_ (i0 + k) /\
         checked_against (numMols s) sites_ (i0 + k)).
Proof.
  induction todo as [|m0 todo IH]; intros i0 s s' d0 Hd0 Hrun.
  - simpl in Hrun. unfold ret in Hrun. simplify_eq. exists d0. repeat split.
    + destruct s'. simpl in *. by subst.
    + simpl in *. lia.
    + simpl in *. lia.
    + simpl in *. lia.
  - cbn [set_sites_from] in Hrun. unfold bind at 1 in Hrun.
    assert (exists e0, given sites_ i0 = Some e0 /\
              match e0 with
              | Some site =>
                  exists l n, numMols s = Some l /\ l !! i0 = Some n /\
                              labels_total site 0 = Some n
              | None => True
              end /\
              set_sites_from sites_ (S i0) todo (with_sites (<[i0 := e0]> d0) s)
                = (Ok tt, s')) as (e0 & Hgiven & Hchk & Hrest).
    { destruct sites_ as [l|]; cbn [given].
      - unfold lift at 1, index at 1 in Hrun.
        destruct (l !! i0) as [[site|]|] eqn:He; [| |done].
        + exists (Some site). split; [done|].
          unfold bind at 1, attr at 1 in Hrun.
          destruct (numMols s) as [nums|] eqn:Hn; [|done].
          unfold bind at 1, lift at 1, index at 1 in Hrun.
          destruct (nums !! i0) as [n0|] eqn:Hn0; [|done].
          unfold bind at 1, lift at 1 in Hrun.
          destruct (_check_consistency site n0) as [b| |] eqn:Hc; [|done|done].
          unfold bind at 1, attr at 1 in Hrun. rewrite Hd0 in Hrun.
          unfold bind at 1, modify at 1 in Hrun.
          split; [|done].
          exists nums, n0. repeat split; [done|]. by eapply check_consistency_passed.
        + exists None. split; [done|]. split; [done|].
          unfold bind at 1, attr at 1 in Hrun. rewrite Hd0 in Hrun.
          by unfold bind at 1, modify at 1 in Hrun.
      - exists None. split; [done|]. split; [done|].
        unfold ret at 1 in Hrun.
        unfold bind at 1, attr at 1 in Hrun. rewrite Hd0 in Hrun.
        by unfold bind at 1, modify at 1 in Hrun. }
    clear Hrun.
    destruct (IH (S i0) (with_sites (<[i0 := e0]> d0) s) s' (<[i0 := e0]> d0))
      as (d & Hs' & Hout & Hin); [by destruct s | done |].
    exists d. split; [by destruct s|]. split.
    + intros i Hi. simpl in Hi. rewrite Hout by lia. apply lookup_insert_ne. lia.
    + intros [|k] Hk.
      * rewrite Nat.add_0_r, Hgiven. rewrite Hout by lia. rewrite lookup_insert_eq.
        split; [done|]. split; [done|].
        intros site Hsite. rewrite Hgiven in Hsite. simplify_eq. exact Hchk.
      * replace (i0 + S k)%nat with (S i0 + k)%nat by lia. simpl in Hk.
        destruct (Hin k ltac:(lia)) as (Hsome & Heq & Hc).
        split; [done|]. split; [done|].
        intros site Hsite. destruct (Hc site Hsite) as (l & n & Hl & Hn & Hsum).
        exists l, n. split; [|done]. by destruct s.
Qed.

Lemma molecular_set_sites_table (sites_ : option (list (option (list string))))
    (s s' : @state World Ori Tol) (ms : list pyxtal_molecule) :
  molecules s = Some ms ->
  set_sites sites_ s = (Ok tt, s') ->
  exists d, s' = with_sites d s /\
    (forall i, is_Some (d !! i) <-> (i < length ms)%nat) /\
    (forall i, (i < length ms)%nat ->
       d !! i = given sites_ i /\ checked_against (numMols s) sites_ i).
Proof.
  intros Hms Hrun. unfold set_sites in Hrun.
  unfold bind at 1, modify at 1 in Hrun. unfold bind at 1, attr at 1 in Hrun.
  assert (molecules (with_sites ∅ s) = Some ms) as Hms' by (by destruct s).
  rewrite Hms' in Hrun.
  destruct (molecular_set_sites_from_table sites_ ms O (with_sites ∅ s) s' ∅)
    as (d & Hs' & Hout & Hin); [by destruct s | done |].
  exists d. split; [by destruct s|]. split.
  - intros i. split.
    + intros Hsome. destruct (decide (i < length ms)%nat) as [|Hno]; [done|].
      rewrite Hout, lookup_empty in Hsome by (simpl; lia). by destruct Hsome.
    + intros Hi. by destruct (Hin i Hi) as (Hsome & _).
  - intros i Hi. destruct (Hin i Hi) as (_ & Heq & Hc). split; [done|].
    intros site Hsite. destruct (Hc site Hsite) as (l & n & Hl & Hn & Hsum).
    exists l, n. split; [|done]. by destruct s.
Qed.

End Molecular.

(** X11. When [set_sites] returns, it has replaced only the [sites]
    attribute.  The atomic dictionary is keyed by species name: its keys are
    exactly the species, and a species that occurs more than once keeps the
    list passed for its LAST occurrence, the earlier ones being overwritten.
    The molecular dictionary is keyed by index: its keys are exactly the
    indices of the molecules and each holds its own list.  In both, every
    supplied list encodes the count stored at its own index. *)
Theorem X11_set_sites_keys_and_overwriting :
  (forall (World Ori Tol : Type) (P : Providers World Ori Tol)
          (sites_ : option (list (option (list string))))
          (s s' : @random_crystal.state World Tol) (sp : list string),
     random_crystal.species s = Some sp ->
     random_crystal.set_sites sites_ s = (Ok tt, s') ->
     exists d, s' = random_crystal.with_sites d s /\
       (forall specie, is_Some (d !! specie) <-> specie ∈ sp) /\
       (forall i specie, sp !! i = Some specie ->
          (forall j, (i < j)%nat -> sp !! j ≠ Some specie) ->
          d !! specie = given sites_ i) /\
       (forall i, (i < length sp)%nat ->
          checked_against (random_crystal.numIons s) sites_ i)) /\
  (forall (World Ori Tol : Type) (P : Providers World Ori Tol)
          (sites_ : option (list (option (list string))))
          (s s' : @molecular_crystal.state World Ori Tol) (ms : list pyxtal_molecule),
     molecular_crystal.molecules s = Some ms ->
     molecular_crystal.set_sites sites_ s = (Ok tt, s') ->
     exists d, s' = molecular_crystal.with_sites d s /\
       (forall i, is_Some (d !! i) <-> (i < length ms)%nat) /\
       (forall i, (i < length ms)%nat ->
          d !! i = given sites_ i /\
          checked_against (molecular_crystal.numMols s) sites_ i)).
Proof.
  split.
  - intros World Ori Tol P sites_ s s' sp Hsp Hrun.
    exact (atomic_set_sites_table sites_ s s' sp Hsp Hrun).
  - intros World Ori Tol P sites_ s s' ms Hms Hrun.
    exact (molecular_set_sites_table sites_ s s' ms Hms Hrun).
Qed.

(** Carbon listed twice, with two atoms on [2a] and four on [4b]. *)
Definition carbon_twice : @random_crystal.state nat unit :=
  random_crystal.with_species ["C"; "C"]%string
    (random_crystal.with_numIons [2; 4]
       (random_crystal.new 3 [1; 1; 1] None None ∅ O)).

Definition carbon_twice_sites : option (list (option (list string))) :=
  Some [Some ["2a"%string]; Some ["4b"%string]].

Lemma X11_set_sites_witness :
  let out := random_crystal.set_sites carbon_twice_sites carbon_twice in
  exists d, out.2 = random_crystal.with_sites d carbon_twice /\
    (forall specie, is_Some (d !! specie) <-> specie ∈ ["C"; "C"]%string) /\
    (forall i specie, ["C"; "C"]%string !! i = Some specie ->
       (forall j, (i < j)%nat -> ["C"; "C"]%string !! j ≠ Some specie) ->
       d !! specie = given carbon_twice_sites i) /\
    (forall i, (i < 2)%nat ->
       checked_against (random_crystal.numIons carbon_twice) carbon_twice_sites i).
Proof.
  intros out.
  apply (proj1 X11_set_sites_keys_and_overwriting nat nat unit
           (Demo.providers Demo.script_accept) carbon_twice_sites carbon_twice out.2
           ["C"; "C"]%string).
  - reflexivity.
  - vm_compute. reflexivity.
Defined.

End SiteTable.

(** * [valid] at every exit of [init_common] *)

Module ConstructedObjects.

Import Validity.

Section Atomic.

Import random_crystal AtomicFacts.

Context {World Ori Tol : Type} {P : Providers World Ori Tol}.

Local Abbreviation astate := (@random_crystal.state World Tol).

(** What the steps of [init_common] between the storing of the composition
    and [set_crystal] leave alone. *)
Definition outcome_kept (s s' : astate) : Prop :=
  valid s' = valid s /\ atom_sites s' = atom_sites s /\
  numIons s' = numIons s /\ species s' = species s.

Global Instance outcome_kept_preorder : PreOrder outcome_kept.
Proof.
  split.
  - intros s. by repeat split.
  - intros s1 s2 s3 (?&?&?&?) (?&?&?&?). repeat split; congruence.
Qed.

Ltac keeps_outcome :=
  repeat first
    [ keeps_step
    | apply keeps_call
    | progress unfold printx, emit
    | by (intros; repeat match goal with s : random_crystal.state |- _ => destruct s end) ].

Lemma outcome_kept_set_sites_from sites_ : forall todo i,
  keeps outcome_kept (set_sites_from sites_ i todo).
Proof.
  induction todo as [|specie todo IH]; intros i; cbn [set_sites_from].
  - keeps_outcome.
  - apply keeps_bind; [typeclasses eauto | keeps_outcome |].
    intros [site|].
    + repeat (apply keeps_bind; [typeclasses eauto | keeps_outcome | intros ?]).
      apply IH.
    + repeat (apply keeps_bind; [typeclasses eauto | keeps_outcome | intros ?]).
      apply IH.
Qed.

Lemma outcome_kept_set_sites sites_ : keeps outcome_kept (set_sites sites_).
Proof.
  unfold set_sites.
  repeat (apply keeps_bind; [typeclasses eauto | keeps_outcome | intros ?]).
  apply outcome_kept_set_sites_from.
Qed.

Lemma outcome_kept_check_compatible fuel : keeps outcome_kept (_check_compatible fuel).
Proof. unfold _check_compatible. keeps_outcome. Qed.

Lemma outcome_kept_volume_sum : forall todo vol,
  keeps outcome_kept (volume_sum todo vol).
Proof.
  induction todo as [|[numIon specie] todo IH]; intros vol; cbn [volume_sum].
  - keeps_outcome.
  - apply keeps_bind; [typeclasses eauto | keeps_outcome |]. intros r. apply IH.
Qed.

Lemma outcome_kept_set_volume : keeps outcome_kept set_volume.
Proof.
  unfold set_volume.
  repeat first [ apply outcome_kept_volume_sum | keeps_outcome ].
Qed.

Lemma outcome_kept_set_lattice lattice_ : keeps outcome_kept (set_lattice lattice_).
Proof. unfold set_lattice. keeps_outcome. Qed.

Lemma some_type_kept (s s' : astate) :
  outcome_kept s s' -> some_type s -> some_type s'.
Proof. intros (_ & _ & Hn & Hs). by apply some_type_same. Qed.

Lemma stored_when_valid_kept (s s' : astate) :
  outcome_kept s s' -> stored_when_valid s s'.
Proof. intros (Hv & Ha & _). by apply stored_when_valid_same. Qed.

(** [init_common] from the call of [set_sites] on. *)
Lemma atomic_init_tail fuel lattice_ sites_ (tm : Tol + string) (s : astate) :
  some_type s ->
  wp (set_sites sites_ ;;;
      modify (with_tol_matrix
                match tm with inl t => t | inr name => Tol_matrix_init name end) ;;;
      r <- _check_compatible fuel ;;
      modify (with_degrees (snd r)) ;;;
      if negb (fst r) then
        modify (with_valid false) ;;;
        raise CompatibilityError
      else
        set_volume ;;;
        set_lattice lattice_ ;;;
        set_crystal ;;;
        ret None)
     (fun (_ : Result (option bool)) s' =>
        valid s = Some false -> stored_when_valid s s') s.
Proof.
  intros Hty.
  apply wp_bind. eapply wp_conseq; [apply (keeps_wp outcome_kept), outcome_kept_set_sites|].
  intros r1 s1 H1. cbv beta in H1.
  destruct r1 as [[]| |]; cbn [then_wp];
    [|by intros; apply stored_when_valid_kept|by intros; apply stored_when_valid_kept].
  apply wp_bind, wp_modify. cbn [then_wp].
  set (s2 := with_tol_matrix _ s1).
  assert (H2 : outcome_kept s s2).
  { etransitivity; [exact H1|]. subst s2. by destruct s1. }
  clearbody s2. clear s1 H1.
  apply wp_bind.
  eapply wp_conseq; [apply (keeps_wp outcome_kept), outcome_kept_check_compatible|].
  intros r3 s3 H3. cbv beta in H3.
  assert (H3' : outcome_kept s s3) by (etransitivity; eassumption).
  destruct r3 as [[compat deg]| |]; cbn [then_wp];
    [|by intros; apply stored_when_valid_kept|by intros; apply stored_when_valid_kept].
  apply wp_bind, wp_modify. cbn [then_wp].
  set (s4 := with_degrees _ s3).
  assert (H4 : outcome_kept s s4).
  { etransitivity; [exact H3'|]. subst s4. by destruct s3. }
  clearbody s4. clear s2 H2 s3 H3 H3'.
  cbn [fst]. destruct compat; cbn [negb].
  - apply wp_bind.
    eapply wp_conseq; [apply (keeps_wp outcome_kept), outcome_kept_set_volume|].
    intros r5 s5 H5. cbv beta in H5.
    assert (H5' : outcome_kept s s5) by (etransitivity; eassumption).
    destruct r5 as [[]| |]; cbn [then_wp];
      [|by intros; apply stored_when_valid_kept|by intros; apply stored_when_valid_kept].
    apply wp_bind.
    eapply wp_conseq; [apply (keeps_wp outcome_kept), outcome_kept_set_lattice|].
    intros r6 s6 H6. cbv beta in H6.
    assert (H6' : outcome_kept s s6) by (etransitivity; eassumption).
    destruct r6 as [[]| |]; cbn [then_wp];
      [|by intros; apply stored_when_valid_kept|by intros; apply stored_when_valid_kept].
    apply wp_bind.
    eapply wp_conseq; [apply set_crystal_valid; by eapply some_type_kept|].
    intros r7 s7 H7.
    assert (H7' : stored_when_valid s s7).
    { eapply stored_when_valid_trans; [by apply stored_when_valid_kept|exact H7]. }
    by destruct r7 as [[]| |]; cbn [then_wp]; [apply wp_ret| |].
  - apply wp_bind, wp_modify. cbn [then_wp]. apply wp_raise.
    intros Hv. destruct H4 as (Hv4 & Ha4 & _). apply stored_when_valid_same.
    + destruct s4. simpl in *. by rewrite Hv.
    + destruct s4. simpl in *. done.
Qed.

Lemma atomic_init_outcome fuel species_ numIons_ factor_ group_ lattice_ sites_
    conventional (tm : Tol + string) (s : astate) :
  numIons_ <> [] -> species_ <> [] ->
  wp (init_common fuel species_ numIons_ factor_ group_ lattice_ sites_ conventional tm)
     (fun _ s' => stored_when_valid (with_valid false s) s') s.
Proof.
  intros Hn Hs. unfold init_common.
  apply wp_bind, wp_modify. cbn [then_wp].
  apply wp_bind, wp_modify. cbn [then_wp].
  destruct (existsb bad_count numIons_).
  { unfold printx, emit. apply wp_bind, wp_modify. cbn [then_wp]. apply wp_ret.
    destruct s. by apply stored_when_valid_same. }
  apply wp_bind, wp_gets. cbn [then_wp].
  repeat (apply wp_bind, wp_modify; cbn [then_wp]).
  match goal with |- wp _ _ ?st => set (s0 := st) end.
  assert (Hv0 : valid s0 = Some false) by (subst s0; by destruct s).
  assert (Hs0 : stored_when_valid (with_valid false s) s0).
  { subst s0. destruct s. by apply stored_when_valid_same. }
  assert (Hty : some_type s0).
  { subst s0. eexists _, species_. split; [by destruct s|]. split; [by destruct s|].
    destruct numIons_, species_; done. }
  clearbody s0.
  eapply wp_conseq; [apply atomic_init_tail, Hty|].
  intros r s' Hr. cbv beta in Hr.
  eapply stored_when_valid_trans; [exact Hs0 | by apply Hr].
Qed.

End Atomic.

Section Molecular.

Import molecular_crystal MolecularFacts.

Context {World Ori Tol : Type} {P : Providers World Ori Tol}.

Local Abbreviation mstate := (@molecular_crystal.state World Ori Tol).

Definition mol_outcome_kept (s s' : mstate) : Prop :=
  valid s' = valid s /\ mol_sites s' = mol_sites s /\ numMols s' = numMols s.

Global Instance mol_outcome_kept_preorder : PreOrder mol_outcome_kept.
Proof.
  split.
  - intros s. by repeat split.
  - intros s1 s2 s3 (?&?&?) (?&?&?). repeat split; congruence.
Qed.

Ltac keeps_mol_outcome :=
  repeat first
    [ keeps_step
    | apply mol_keeps_call
    | progress unfold printx, emit
    | by (intros; repeat match goal with s : molecular_crystal.state |- _ => destruct s end) ].

Lemma mol_outcome_kept_set_molecules molecules_ torsions :
  keeps mol_outcome_kept (set_molecules molecules_ torsions).
Proof. unfold set_molecules. keeps_mol_outcome. Qed.

Lemma mol_outcome_kept_set_sites_from sites_ : forall todo i,
  keeps mol_outcome_kept (set_sites_from sites_ i todo).
Proof.
  induction todo as [|m todo IH]; intros i; cbn [set_sites_from].
  - keeps_mol_outcome.
  - apply keeps_bind; [typeclasses eauto | keeps_mol_outcome |].
    intros [site|].
    + repeat (apply keeps_bind; [typeclasses eauto | keeps_mol_outcome | intros ?]).
      apply IH.
    + repeat (apply keeps_bind; [typeclasses eauto | keeps_mol_outcome | intros ?]).
      apply IH.
Qed.

Lemma mol_outcome_kept_set_sites sites_ : keeps mol_outcome_kept (set_sites sites_).
Proof.
  unfold set_sites.
  repeat (apply keeps_bind; [typeclasses eauto | keeps_mol_outcome | intros ?]).
  apply mol_outcome_kept_set_sites_from.
Qed.

Lemma mol_outcome_kept_orientations_row m inv : forall x,
  keeps mol_outcome_kept (orientations_row m inv x).
Proof.
  induction x as [|wpos x IH]; cbn [orientations_row].
  - keeps_mol_outcome.
  - apply keeps_bind; [typeclasses eauto | keeps_mol_outcome |]. intros allowed.
    apply keeps_bind; [typeclasses eauto | apply IH |]. intros rest. keeps_mol_outcome.
Qed.

Lemma mol_outcome_kept_orientations_mol m inv : forall organized,
  keeps mol_outcome_kept (orientations_mol m inv organized).
Proof.
  induction organized as [|x organized IH]; cbn [orientations_mol].
  - keeps_mol_outcome.
  - apply keeps_bind; [typeclasses eauto | apply mol_outcome_kept_orientations_row |].
    intros r.
    apply keeps_bind; [typeclasses eauto | apply IH |]. intros rest. keeps_mol_outcome.
Qed.

Lemma mol_outcome_kept_orientations_all inv organized : forall ms,
  keeps mol_outcome_kept (orientations_all ms inv organized).
Proof.
  induction ms as [|m ms IH]; cbn [orientations_all].
  - keeps_mol_outcome.
  - apply keeps_bind; [typeclasses eauto | apply mol_outcome_kept_orientations_mol |].
    intros r.
    apply keeps_bind; [typeclasses eauto | apply IH |]. intros rest. keeps_mol_outcome.
Qed.

Lemma mol_outcome_kept_set_orientations orientations :
  keeps mol_outcome_kept (set_orientations orientations).
Proof.
  unfold set_orientations.
  repeat first [ apply mol_outcome_kept_orientations_all | keeps_mol_outcome ].
Qed.

Lemma mol_outcome_kept_check_compatible fuel :
  keeps mol_outcome_kept (_check_compatible fuel).
Proof. unfold _check_compatible. keeps_mol_outcome. Qed.

Lemma mol_outcome_kept_set_volume : keeps mol_outcome_kept set_volume.
Proof. unfold set_volume. keeps_mol_outcome. Qed.

Lemma mol_outcome_kept_set_lattice lattice_ :
  keeps mol_outcome_kept (set_lattice lattice_).
Proof. unfold set_lattice. keeps_mol_outcome. Qed.

Lemma some_mol_type_kept (s s' : mstate) :
  mol_outcome_kept s s' -> some_mol_type s -> some_mol_type s'.
Proof. intros (_ & _ & Hn). by apply some_mol_type_same. Qed.

Lemma mol_stored_when_valid_kept (s s' : mstate) :
  mol_outcome_kept s s' -> mol_stored_when_valid s s'.
Proof. intros (Hv & Ha & _). by apply mol_stored_when_valid_same. Qed.

(** [init_common] from the call of [set_molecules] on. *)
Lemma molecular_init_tail fuel molecules_ orientations lattice_ torsions sites_
    (s : mstate) :
  some_mol_type s ->
  wp (set_molecules molecules_ torsions ;;;
      set_sites sites_ ;;;
      set_orientations orientations ;;;
      r <- _check_compatible fuel ;;
      modify (with_degrees (snd r)) ;;;
      if negb (fst r) then
        modify (with_valid false) ;;;
        raise CompatibilityError
      else
        set_volume ;;;
        set_lattice lattice_ ;;;
        set_crystal ;;;
        ret tt)
     (fun _ s' => valid s = Some false -> mol_stored_when_valid s s') s.
Proof.
  intros Hty.
  apply wp_bind.
  eapply wp_conseq; [apply (keeps_wp mol_outcome_kept), mol_outcome_kept_set_molecules|].
  intros r0 s0 H0. cbv beta in H0.
  destruct r0 as [[]| |]; cbn [then_wp];
    [|by intros; apply mol_stored_when_valid_kept
     |by intros; apply mol_stored_when_valid_kept].
  apply wp_bind.
  eapply wp_conseq; [apply (keeps_wp mol_outcome_kept), mol_outcome_kept_set_sites|].
  intros r1 s1 H1. cbv beta in H1.
  assert (H1' : mol_outcome_kept s s1) by (etransitivity; eassumption).
  destruct r1 as [[]| |]; cbn [then_wp];
    [|by intros; apply mol_stored_when_valid_kept
     |by intros; apply mol_stored_when_valid_kept].
  apply wp_bind.
  eapply wp_conseq;
    [apply (keeps_wp mol_outcome_kept), mol_outcome_kept_set_orientations|].
  intros r2 s2 H2. cbv beta in H2.
  assert (H2' : mol_outcome_kept s s2) by (etransitivity; eassumption).
  destruct r2 as [[]| |]; cbn [then_wp];
    [|by intros; apply mol_stored_when_valid_kept
     |by intros; apply mol_stored_when_valid_kept].
  apply wp_bind.
  eapply wp_conseq;
    [apply (keeps_wp mol_outcome_kept), mol_outcome_kept_check_compatible|].
  intros r3 s3 H3. cbv beta in H3.
  assert (H3' : mol_outcome_kept s s3) by (etransitivity; eassumption).
  destruct r3 as [[compat deg]| |]; cbn [then_wp];
    [|by intros; apply mol_stored_when_valid_kept
     |by intros; apply mol_stored_when_valid_kept].
  apply wp_bind, wp_modify. cbn [then_wp].
  set (s4 := with_degrees _ s3).
  assert (H4 : mol_outcome_kept s s4).
  { etransitivity; [exact H3'|]. subst s4. by destruct s3. }
  clearbody s4. clear s0 H0 s1 H1 H1' s2 H2 H2' s3 H3 H3'.
  cbn [fst]. destruct compat; cbn [negb].
  - apply wp_bind.
    eapply wp_conseq; [apply (keeps_wp mol_outcome_kept), mol_outcome_kept_set_volume|].
    intros r5 s5 H5. cbv beta in H5.
    assert (H5' : mol_outcome_kept s s5) by (etransitivity; eassumption).
    destruct r5 as [[]| |]; cbn [then_wp];
      [|by intros; apply mol_stored_when_valid_kept
       |by intros; apply mol_stored_when_valid_kept].
    apply wp_bind.
    eapply wp_conseq; [apply (keeps_wp mol_outcome_kept), mol_outcome_kept_set_lattice|].
    intros r6 s6 H6. cbv beta in H6.
    assert (H6' : mol_outcome_kept s s6) by (etransitivity; eassumption).
    destruct r6 as [[]| |]; cbn [then_wp];
      [|by intros; apply mol_stored_when_valid_kept
       |by intros; apply mol_stored_when_valid_kept].
    apply wp_bind.
    eapply wp_conseq; [apply mol_set_crystal_valid; by eapply some_mol_type_kept|].
    intros r7 s7 H7.
    assert (H7' : mol_stored_when_valid s s7).
    { eapply mol_stored_when_valid_trans;
        [by apply mol_stored_when_valid_kept|exact H7]. }
    by destruct r7 as [[]| |]; cbn [then_wp]; [apply wp_ret| |].
  - apply wp_bind, wp_modify. cbn [then_wp]. apply wp_raise.
    intros Hv. destruct H4 as (Hv4 & Ha4 & _). apply mol_stored_when_valid_same.
    + destruct s4. simpl in *. by rewrite Hv.
    + destruct s4. simpl in *. done.
Qed.

Lemma molecular_init_outcome fuel molecules_ numMols_ volume_factor select_high_
    allow_inversion_ orientations group_ lattice_ torsions sites_ conventional
    (tm : Tol + string) (s : mstate) :
  numMols_ <> [] ->
  wp (init_common fuel molecules_ numMols_ volume_factor select_high_ allow_inversion_
        orientations group_ lattice_ torsions sites_ conventional tm)
     (fun _ s' => mol_stored_when_valid (with_valid false s) s') s.
Proof.
  intros Hn. unfold init_common.
  apply wp_bind, wp_modify. cbn [then_wp].
  apply wp_bind, wp_modify. cbn [then_wp].
  apply wp_bind, wp_gets. cbn [then_wp].
  apply wp_bind, wp_modify. cbn [then_wp].
  apply wp_bind, wp_gets. cbn [then_wp].
  apply wp_bind.
  match goal with |- wp (if ?b then _ else _) _ _ => destruct b end;
    [apply wp_modify | apply wp_ret]; cbn [then_wp];
    repeat (apply wp_bind, wp_modify; cbn [then_wp]);
    (match goal with |- wp _ _ ?st => set (s0 := st) end;
     assert (Hv0 : valid s0 = Some false) by (subst s0; by destruct s);
     assert (Hs0 : mol_stored_when_valid (with_valid false s) s0)
       by (subst s0; destruct s; by apply mol_stored_when_valid_same);
     assert (Hty : some_mol_type s0)
       by (subst s0; eexists; split; [by destruct s|]; by destruct numMols_);
     clearbody s0;
     eapply wp_conseq; [apply molecular_init_tail, Hty|];
     intros r s' Hr; cbv beta in Hr;
     eapply mol_stored_when_valid_trans; [exact Hs0 | by apply Hr]).
Qed.

End Molecular.

(** X12.  Whatever the arguments and however [init_common] ends (it returns,
    raises, or the analyzer does not settle), the object it leaves tells the
    truth about itself when there is something to place: either [valid] is
    [False] and the stored sites are the ones the object had before the
    call (none, for a new object), or [valid] is [True] and a list of sites
    is stored. *)
Theorem X12_valid_matches_stored_sites_at_every_exit
    {World Ori Tol : Type} {P : Providers World Ori Tol} :
  (forall fuel species_ numIons_ factor_ group_ lattice_ sites_ conventional
          (tm : Tol + string) (s : @random_crystal.state World Tol),
     numIons_ <> [] -> species_ <> [] ->
     let s' := (random_crystal.init_common fuel species_ numIons_ factor_ group_
                  lattice_ sites_ conventional tm s).2 in
     (random_crystal.valid s' = Some false /\
      random_crystal.atom_sites s' = random_crystal.atom_sites s) \/
     (random_crystal.valid s' = Some true /\
      exists l, random_crystal.atom_sites s' = Some l)) /\
  (forall fuel molecules_ numMols_ volume_factor select_high_ allow_inversion_
          orientations group_ lattice_ torsions sites_ conventional
          (tm : Tol + string) (s : @molecular_crystal.state World Ori Tol),
     numMols_ <> [] ->
     let s' := (molecular_crystal.init_common fuel molecules_ numMols_ volume_factor
                  select_high_ allow_inversion_ orientations group_ lattice_ torsions
                  sites_ conventional tm s).2 in
     (molecular_crystal.valid s' = Some false /\
      molecular_crystal.mol_sites s' = molecular_crystal.mol_sites s) \/
     (molecular_crystal.valid s' = Some true /\
      exists l, molecular_crystal.mol_sites s' = Some l)).
Proof.
  split.
  - intros fuel species_ numIons_ factor_ group_ lattice_ sites_ conventional tm s Hn Hs.
    pose proof (atomic_init_outcome fuel species_ numIons_ factor_ group_ lattice_ sites_
                  conventional tm s Hn Hs) as H.
    unfold wp in H. cbv zeta.
    destruct H as [[Hv Ha] | H]; [left | by right].
    split; [rewrite Hv | rewrite Ha]; by destruct s.
  - intros fuel molecules_ numMols_ volume_factor select_high_ allow_inversion_
      orientations group_ lattice_ torsions sites_ conventional tm s Hn.
    pose proof (molecular_init_outcome fuel molecules_ numMols_ volume_factor select_high_
                  allow_inversion_ orientations group_ lattice_ torsions sites_
                  conventional tm s Hn) as H.
    unfold wp in H. cbv zeta.
    destruct H as [[Hv Ha] | H]; [left | by right].
    split; [rewrite Hv | rewrite Ha]; by destruct s.
Qed.

Lemma X12_valid_matches_witness :
  let P := Demo.providers Demo.script_accept in
  let s := @random_crystal.new nat unit 3 [1; 1; 1] None None ∅ O in
  let s' := (random_crystal.init_common 50 ["C"%string] [6%Q] float_1_1
               (inl Demo.group_4a_2b) None None true (inl tt) s).2 in
  (random_crystal.valid s' = Some false /\
   random_crystal.atom_sites s' = random_crystal.atom_sites s) \/
  (random_crystal.valid s' = Some true /\
   exists l, random_crystal.atom_sites s' = Some l).
Proof.
  intros P s.
  apply (proj1 (@X12_valid_matches_stored_sites_at_every_exit nat nat unit P) 50%nat
           ["C"%string] [6%Q] float_1_1 (inl Demo.group_4a_2b) None None true (inl tt) s).
  - discriminate.
  - discriminate.
Defined.

End ConstructedObjects.
